(** * Kolibri API resource layer: Model, Collection, Resource

    A shallow embedding of the client-side resource layer (classes [Model],
    [Collection] and [Resource]) and of the promise queue that serialises the
    operations of one instance, together with the properties of the
    specification that are stated about them.

    Conventions of the embedding.
    - JavaScript values are the type [value]; objects live in a heap and are
      referred to by location, so that aliasing is visible.
    - A plain object is its list of own properties in enumeration order.
      Objects used as dictionaries ([Resource.models],
      [Resource.collections], [Collection._model_map]) are finite maps of
      their own properties, keyed by the property key. Every one of them is
      created as [{}] and so inherits the members of [Object.prototype]
      ([inherited_names]): an access that would find such a member, or run
      the setter of [__proto__], has the outcome [Unmodelled], except in the
      dirty check of [save], where the inherited member is what the code
      compares with.
    - Numbers are the integers, [NaN] and the two infinities. The code turns
      numbers into strings and divides them; the embedding does so for the
      safe integers ([safe_integer]), on which the digits are printed in
      full and the rounded quotient of two doubles has the ceiling of the
      exact quotient. Every quotient that the code takes is rounded up at
      once, so no fraction is ever stored.
    - A function of the code that can throw runs in the monad [M]; the
      outcome [Unmodelled] marks an input outside the fragment the embedding
      covers (it is never used to state a property). *)

From Stdlib Require Import ZArith Lia Ascii String.
From stdpp Require Import base option list gmap strings sorting pretty.

(** ** Values *)

(** Locations of the heap. *)
Abbreviation loc := nat (only parsing).

Inductive value : Type :=
  | VUndef
  | VNull
  | VBool (b : bool)
  | VNum (n : Z)
  | VNaN
  | VInf (negative : bool)
  | VStr (s : string)
  | VRef (l : loc).

Global Instance value_eq_dec : EqDecision value.
Proof. solve_decision. Defined.

Global Instance value_inhabited : Inhabited value := populate VUndef.

(** [a === b]. References compare by identity, [NaN] differs from itself. *)
Definition strict_eq (a b : value) : bool :=
  match a, b with
  | VNaN, _ | _, VNaN => false
  | _, _ => bool_decide (a = b)
  end.

(** ToBoolean. *)
Definition truthy (v : value) : bool :=
  match v with
  | VUndef | VNull | VNaN => false
  | VBool b => b
  | VNum n => negb (n =? 0)%Z
  | VInf _ => true
  | VStr s => negb (bool_decide (s = EmptyString))
  | VRef _ => true
  end.

(** [Number.isSafeInteger(n)]: at most [2^53 - 1] in magnitude. *)
Definition safe_integer (n : Z) : bool := (Z.abs n <=? 9007199254740991)%Z.

(** The values whose [String] is a function of the value alone and is
    covered: the primitives, a number being a safe integer. A larger number
    is printed with the shortest digits that identify the double, and from
    [1e21] with an exponent; for an object [String] calls its [toString] (an
    array is joined). The code of [Model], [Collection] and [Resource] asks
    [stringable] before it takes [js_String]. *)
Definition stringable (v : value) : bool :=
  match v with
  | VNum n => safe_integer n
  | VRef _ => false
  | _ => true
  end.

(** [String(v)] for a [stringable] value. The names given to the
    [ResourceManager] are strings; a reference there is rendered the way a
    plain object is. *)
Definition js_String (v : value) : string :=
  match v with
  | VUndef => "undefined"
  | VNull => "null"
  | VBool true => "true"
  | VBool false => "false"
  | VNum n => pretty n
  | VNaN => "NaN"
  | VInf false => "Infinity"
  | VInf true => "-Infinity"
  | VStr s => s
  | VRef _ => "[object Object]"
  end.

(** ToPropertyKey, for the computed member accesses [o[v]]. *)
Definition prop_key (v : value) : string := js_String v.

(** The names a dictionary inherits from [Object.prototype]: a lookup of one
    of them does not stop at the own properties. *)
Definition inherited_names : list string :=
  ["constructor"; "hasOwnProperty"; "isPrototypeOf"; "propertyIsEnumerable";
   "toLocaleString"; "toString"; "valueOf"; "__proto__"; "__defineGetter__";
   "__defineSetter__"; "__lookupGetter__"; "__lookupSetter__"].

(** The one inherited name with a setter: [o.__proto__ = v] makes no own
    property and can replace the prototype of [o]. *)
Definition proto_key : string := "__proto__".

(** [dict[v]] on a dictionary that was created as [{}] is decided by the own
    properties when the key of [v] is taken by [js_String] and is not an
    inherited name. *)
Definition own_key (v : value) : bool :=
  stringable v && negb (bool_decide (prop_key v ∈ inherited_names)).

(** ** Numbers: [Math.ceil(a / b)] *)

(** ToNumber on the values whose conversion the embedding covers. *)
Definition to_number (v : value) : option value :=
  match v with
  | VUndef => Some VNaN
  | VNull => Some (VNum 0)
  | VBool b => Some (VNum (if b then 1 else 0))
  | VNum _ | VNaN | VInf _ => Some v
  | VStr _ | VRef _ => None
  end.

(** [Math.ceil(a / b)]. The quotient of two doubles is rounded to a double
    before [Math.ceil] sees it. For safe integers [x] and [y <> 0] the exact
    quotient, when it is not an integer, is at least [1 / |y|] away from the
    integers next to it, which is more than half the distance between
    neighbouring doubles of its size; so the rounded quotient lies between
    the same two integers, and its ceiling is the least integer not below
    [x / y]. For larger integers that fails ([None]). *)
Definition ceil_div (a b : value) : option value :=
  match a, b with
  | VNum x, VNum y =>
      if (y =? 0)%Z then Some (if (x =? 0)%Z then VNaN else VInf (x <? 0)%Z)
      else if safe_integer x && safe_integer y then Some (VNum (- ((- x) / y))%Z)
      else None
  | VNum _, VInf _ => Some (VNum 0)
  | VInf n, VNum y => Some (VInf (xorb n (y <? 0)%Z))
  | _, _ => Some VNaN
  end.

(** ** Plain objects *)

Definition fields := list (string * value).

Fixpoint digits_value (s : string) (acc : N) : option N :=
  match s with
  | EmptyString => Some acc
  | String c s' =>
      match Ascii.is_nat c with
      | Some d => digits_value s' (10 * acc + N.of_nat d)%N
      | None => None
      end
  end.

(** A property key that is an array index: a canonical numeric string below
    [2^32 - 1]. Such keys are enumerated first, in ascending order. *)
Definition array_index (k : string) : option N :=
  match k with
  | EmptyString => None
  | String "0"%char EmptyString => Some 0%N
  | String "0"%char _ => None
  | _ =>
      match digits_value k 0 with
      | Some n => if (n <? 4294967295)%N then Some n else None
      | None => None
      end
  end.

Definition enum_before (k k' : string) : bool :=
  match array_index k, array_index k' with
  | Some i, Some j => (i <? j)%N
  | Some _, None => true
  | None, _ => false
  end.

(** Own property lookup. *)
Fixpoint obj_get (k : string) (o : fields) : option value :=
  match o with
  | [] => None
  | (k', v) :: o' => if decide (k = k') then Some v else obj_get k o'
  end.

(** [o[k]] *)
Definition js_get (k : string) (o : fields) : value := default VUndef (obj_get k o).

(** [k in o], for own properties. *)
Definition obj_has (k : string) (o : fields) : bool := bool_decide (is_Some (obj_get k o)).

Fixpoint obj_replace (k : string) (v : value) (o : fields) : fields :=
  match o with
  | [] => []
  | (k', v') :: o' =>
      if decide (k = k') then (k, v) :: o' else (k', v') :: obj_replace k v o'
  end.

Fixpoint obj_insert (k : string) (v : value) (o : fields) : fields :=
  match o with
  | [] => [(k, v)]
  | (k', v') :: o' =>
      if enum_before k k' then (k, v) :: (k', v') :: o'
      else (k', v') :: obj_insert k v o'
  end.

(** The own property [k] of [o] set to [v]: an existing property keeps its
    place, a new one is placed by the enumeration order. This is what
    defining a property does (an object literal, [JSON.parse]), and what the
    assignment [o[k] = v] does for every name but [__proto__]: the code
    below asks for [proto_key] before it assigns. *)
Definition obj_set (k : string) (v : value) (o : fields) : fields :=
  match obj_get k o with
  | Some _ => obj_replace k v o
  | None => obj_insert k v o
  end.

(** [Object.keys(o)] *)
Definition obj_keys (o : fields) : list string := o.*1.

(** [Object.assign(target, src)] on the property lists, for a [src] without
    the property [__proto__]. *)
Definition obj_assign (target src : fields) : fields :=
  fold_left (λ t kv, obj_set kv.1 kv.2 t) src target.

(** The base class answers ['id'] for [idKey]. *)
Definition idKey : string := "id".

(** ** The heap *)

(** A [Model]: its attributes object and its [synced] flag. The array
    [this.promises] is kept by the scheduler, see [w_queues]. *)
Record model := Model {
  m_attributes : loc;
  m_synced : bool;
}.

(** A [Collection]; [c_synced] is the own flag [_synced]. *)
Record collection := Collection {
  c_params : value;
  c_models : list loc;
  c_model_map : gmap string loc;
  c_synced : bool;
  c_page : value;
  c_pageSize : value;
  c_pageCount : value;
}.

Inductive obj : Type :=
  | OPlain (fs : fields)
  | OArr (vs : list value)
  | OModel (m : model)
  | OColl (c : collection).

Inductive log_entry : Type :=
  | LogError (payload : value)
  | LogDebug (payload : value).

(** The heap and the state of the one [Resource]: its two caches. *)
Record store := Store {
  heap : gmap loc obj;
  next_loc : loc;
  r_models : gmap string loc;
  r_collections : gmap string loc;
  logged : list log_entry;
}.

Definition set_heap (h : gmap loc obj) (s : store) : store :=
  Store h (next_loc s) (r_models s) (r_collections s) (logged s).
Definition set_r_models (c : gmap string loc) (s : store) : store :=
  Store (heap s) (next_loc s) c (r_collections s) (logged s).
Definition set_r_collections (c : gmap string loc) (s : store) : store :=
  Store (heap s) (next_loc s) (r_models s) c (logged s).
Definition add_log (e : log_entry) (s : store) : store :=
  Store (heap s) (next_loc s) (r_models s) (r_collections s) (logged s ++ [e]).

(** [Resource.constructor]: [clearCache()] on a new object. *)
Definition empty_store : store := Store ∅ 0 ∅ ∅ [].

(** ** The monad of the code: state, and exceptions that keep the state *)

Inductive outcome (A : Type) : Type :=
  | Ret (a : A)
  | Throw
  | Unmodelled.
Arguments Ret {A} a.
Arguments Throw {A}.
Arguments Unmodelled {A}.

Definition M (A : Type) : Type := store → outcome A * store.

Definition ret {A} (a : A) : M A := λ s, (Ret a, s).
Definition throw {A} : M A := λ s, (Throw, s).
Definition unmodelled {A} : M A := λ s, (Unmodelled, s).
Definition bind {A B} (c : M A) (k : A → M B) : M B :=
  λ s, match c s with
       | (Ret a, s') => k a s'
       | (Throw, s') => (Throw, s')
       | (Unmodelled, s') => (Unmodelled, s')
       end.

Notation "'let*' x ':=' c 'in' k" := (bind c (λ x, k))
  (at level 10, x name, c at level 100, k at level 200, only parsing).

Definition gets {A} (f : store → A) : M A := λ s, (Ret (f s), s).
Definition modify (f : store → store) : M unit := λ s, (Ret tt, f s).

Fixpoint forEach {A} (f : A → M unit) (l : list A) : M unit :=
  match l with
  | [] => ret tt
  | x :: l' => let* _ := f x in forEach f l'
  end.

(** [new]: a fresh location. *)
Definition alloc (o : obj) : M loc :=
  λ s, (Ret (next_loc s),
        Store (<[next_loc s := o]> (heap s)) (S (next_loc s))
              (r_models s) (r_collections s) (logged s)).

Definition write (l : loc) (o : obj) : M unit :=
  modify (λ s, set_heap (<[l := o]> (heap s)) s).

Definition read_model (m : loc) : M model :=
  λ s, match heap s !! m with
       | Some (OModel mo) => (Ret mo, s)
       | _ => (Unmodelled, s)
       end.

Definition read_coll (c : loc) : M collection :=
  λ s, match heap s !! c with
       | Some (OColl co) => (Ret co, s)
       | _ => (Unmodelled, s)
       end.

Definition read_plain (l : loc) : M fields :=
  λ s, match heap s !! l with
       | Some (OPlain fs) => (Ret fs, s)
       | _ => (Unmodelled, s)
       end.

Definition read_obj (l : loc) : M obj :=
  λ s, match heap s !! l with
       | Some o => (Ret o, s)
       | None => (Unmodelled, s)
       end.

(** The own enumerable properties of a value, as [Object.assign] and
    [Object.keys] see them; [None] for an instance of a class and for a
    non-empty string, which the embedding does not cover. *)
Definition own_enumerable (h : gmap loc obj) (v : value) : option fields :=
  match v with
  | VRef l =>
      match h !! l with
      | Some (OPlain fs) => Some fs
      | Some (OArr vs) => Some (imap (λ i x, (pretty i, x)) vs)
      | _ => None
      end
  | VStr s => if decide (s = EmptyString) then Some [] else None
  | _ => Some []
  end.

(** [Object.assign(t, src)] for a target that is a plain object. A property
    [__proto__] of [src] would be handed to the setter that [t] inherits. *)
Definition Object_assign (t : loc) (src : value) : M unit :=
  let* h := gets heap in
  match own_enumerable h src with
  | Some sfs =>
      if bool_decide (proto_key ∈ obj_keys sfs) then unmodelled
      else
        let* tfs := read_plain t in
        write t (OPlain (obj_assign tfs sfs))
  | None => unmodelled
  end.

(** [Object.keys(v)] with the properties: a [TypeError] on [undefined] and
    [null]. *)
Definition Object_entries (v : value) : M fields :=
  match v with
  | VUndef | VNull => throw
  | _ =>
      let* h := gets heap in
      match own_enumerable h v with
      | Some fs => ret fs
      | None => unmodelled
      end
  end.

(** [Array.isArray(v)] *)
Definition is_array (h : gmap loc obj) (v : value) : option (list value) :=
  match v with
  | VRef l => match h !! l with Some (OArr vs) => Some vs | _ => None end
  | _ => None
  end.

(** [v instanceof Model] *)
Definition is_Model (h : gmap loc obj) (v : value) : option loc :=
  match v with
  | VRef l => match h !! l with Some (OModel _) => Some l | _ => None end
  | _ => None
  end.

(** The member access [v.k] for a name [k] that no prototype defines: a
    [TypeError] on [undefined] and [null], [undefined] on the other
    primitives and on arrays. *)
Definition js_member (v : value) (k : string) : M value :=
  match v with
  | VUndef | VNull => throw
  | VRef l =>
      let* o := read_obj l in
      match o with
      | OPlain fs => ret (js_get k fs)
      | OArr _ => ret VUndef
      | _ => unmodelled
      end
  | _ => ret VUndef
  end.

(** ** Model *)

(** [get id()] *)
Definition Model_id (m : loc) : M value :=
  let* mo := read_model m in
  let* fs := read_plain (m_attributes mo) in
  ret (js_get idKey fs).

(** [Model.set(attributes)]. The id of the argument is made a string in the
    argument itself, which is then merged into the attributes. The operator
    [in] throws on a primitive; an instance of [Model] has [id] as an accessor
    without a setter, so the assignment throws. *)
Definition Model_set (m : loc) (attributes : value) : M unit :=
  let* mo := read_model m in
  let* _ :=
    if truthy attributes then
      match attributes with
      | VRef l =>
          let* o := read_obj l in
          match o with
          | OPlain fs =>
              if obj_has idKey fs
              then
                if stringable (js_get idKey fs)
                then write l (OPlain (obj_set idKey (VStr (js_String (js_get idKey fs))) fs))
                else unmodelled
              else ret tt
          | OArr _ | OColl _ => ret tt
          | OModel _ => throw
          end
      | _ => throw
      end
    else ret tt in
  Object_assign (m_attributes mo) attributes.

Definition set_model_synced (m : loc) (b : bool) : M unit :=
  let* mo := read_model m in
  write m (OModel (Model (m_attributes mo) b)).

(** [new Model(data, resource)] *)
Definition new_Model (data : value) : M loc :=
  let* a := alloc (OPlain []) in
  let* m := alloc (OModel (Model a false)) in
  let* _ := Model_set m data in
  ret m.

(** ** Resource: the model cache *)

(** [Resource.addModel(model)] for [model instanceof Model]. The three
    accesses [this.models[model.id]] have the same key: [set] leaves the
    string of the id of [model] as it is. *)
Definition addModel_instance (m : loc) : M loc :=
  let* id := Model_id m in
  if truthy id then
    if negb (own_key id) then unmodelled else
    let* cache := gets r_models in
    let* _ :=
      match cache !! prop_key id with
      | None => modify (set_r_models (<[prop_key id := m]> cache))
      | Some c =>
          let* mo := read_model m in
          Model_set c (VRef (m_attributes mo))
      end in
    let* id' := Model_id m in
    let* cache' := gets r_models in
    match cache' !! prop_key id' with
    | Some r => ret r
    | None => unmodelled
    end
  else ret m.

(** [Resource.createModel(data)]: the new [Model] passes the [instanceof]
    test of [addModel]. *)
Definition createModel (data : value) : M loc :=
  let* m := new_Model data in
  addModel_instance m.

(** [Resource.addModel(model)] *)
Definition addModel (model : value) : M loc :=
  let* h := gets heap in
  match is_Model h model with
  | Some m => addModel_instance m
  | None => createModel model
  end.

(** [Resource.getModel(id)] *)
Definition getModel (id : value) : M loc :=
  if negb (own_key id) then unmodelled else
  let* cache := gets r_models in
  match cache !! prop_key id with
  | None =>
      let* d := alloc (OPlain (obj_set idKey id [])) in
      createModel (VRef d)
  | Some m => ret m
  end.

(** [Resource.clearCache()] *)
Definition clearCache : M unit :=
  modify (λ s, set_r_collections ∅ (set_r_models ∅ s)).

(** [Resource.unCacheModel(id)] *)
Definition unCacheModel (id : value) : M unit :=
  if negb (own_key id) then unmodelled else
  let* cache := gets r_models in
  match cache !! prop_key id with
  | Some m => set_model_synced m false
  | None => throw
  end.

(** [Resource.removeModel(model)]; [delete] looks at own properties only. *)
Definition removeModel (m : loc) : M unit :=
  let* id := Model_id m in
  if negb (stringable id) then unmodelled else
  modify (λ s, set_r_models (delete (prop_key id) (r_models s)) s).

(** ** Collection *)

(** One round of the loop of [Collection.set]. *)
Definition Collection_set_one (c : loc) (model : value) : M unit :=
  let* setModel := addModel model in
  let* id := Model_id setModel in
  let* co := read_coll c in
  if negb (own_key id) then unmodelled else
  match c_model_map co !! prop_key id with
  | Some _ => ret tt
  | None =>
      write c (OColl (Collection (c_params co) (c_models co ++ [setModel])
                        (<[prop_key id := setModel]> (c_model_map co))
                        (c_synced co) (c_page co) (c_pageSize co) (c_pageCount co)))
  end.

(** [Collection.set(models)] *)
Definition Collection_set (c : loc) (models : value) : M unit :=
  let* h := gets heap in
  let modelsToSet := match is_array h models with
                     | Some vs => vs
                     | None => [models]
                     end in
  forEach (Collection_set_one c) modelsToSet.

(** A default parameter [v = {}]: a new object when the argument is
    [undefined]. *)
Definition default_object (v : value) : M value :=
  match v with
  | VUndef => let* l := alloc (OPlain []) in ret (VRef l)
  | _ => ret v
  end.

(** A default parameter [v = []]. *)
Definition default_array (v : value) : M value :=
  match v with
  | VUndef => let* l := alloc (OArr []) in ret (VRef l)
  | _ => ret v
  end.

(** [new Collection(params = {}, data = [], resource)] *)
Definition new_Collection (params data : value) : M loc :=
  let* params := default_object params in
  let* data := default_array data in
  let* c := alloc (OColl (Collection params [] ∅ false VUndef VUndef VUndef)) in
  let* _ := Collection_set c data in
  ret c.

Definition model_synced (h : gmap loc obj) (m : loc) : bool :=
  match h !! m with
  | Some (OModel mo) => m_synced mo
  | _ => false
  end.

(** [get synced()]: the own flag and the flag of every member. *)
Definition Collection_synced (h : gmap loc obj) (co : collection) : bool :=
  fold_left (λ synced m, synced && model_synced h m) (c_models co) (c_synced co).

(** [set synced(value)] *)
Definition Collection_set_synced (c : loc) (b : bool) : M unit :=
  let* co := read_coll c in
  write c (OColl (Collection (c_params co) (c_models co) (c_model_map co) b
                    (c_page co) (c_pageSize co) (c_pageCount co))).

(** [get data()]: a new array of the attributes objects of the members. *)
Definition Collection_data (c : loc) : M value :=
  let* co := read_coll c in
  let* h := gets heap in
  let attrs := (λ m, match h !! m with
                     | Some (OModel mo) => VRef (m_attributes mo)
                     | _ => VUndef
                     end) <$> c_models co in
  let* a := alloc (OArr attrs) in
  ret (VRef a).

(** ** [JSON.stringify] *)

Definition dquote : ascii := "034"%char.
Definition backslash : ascii := "092"%char.

Definition hex_digit (n : N) : ascii :=
  ascii_of_N (if (n <? 10)%N then 48 + n else 87 + n)%N.

Definition json_escape_char (c : ascii) : string :=
  let n := N_of_ascii c in
  if decide (c = dquote) then String backslash (String dquote EmptyString)
  else if decide (c = backslash) then String backslash (String backslash EmptyString)
  else if (n =? 8)%N then String backslash "b"
  else if (n =? 9)%N then String backslash "t"
  else if (n =? 10)%N then String backslash "n"
  else if (n =? 12)%N then String backslash "f"
  else if (n =? 13)%N then String backslash "r"
  else if (n <? 32)%N then
    String backslash ("u00" +:+ String (hex_digit (n / 16)) (String (hex_digit (n mod 16)) EmptyString))
  else String c EmptyString.

Fixpoint json_escape (s : string) : string :=
  match s with
  | EmptyString => EmptyString
  | String c s' => json_escape_char c +:+ json_escape s'
  end.

Definition json_quote (s : string) : string :=
  String dquote (json_escape s +:+ String dquote EmptyString).

Fixpoint join_comma (l : list string) : string :=
  match l with
  | [] => EmptyString
  | [x] => x
  | x :: l' => x +:+ "," +:+ join_comma l'
  end.

(** The result of serialising one value: a text, nothing (the value is
    [undefined] and its property is left out), or the [TypeError] of a
    cyclic structure. *)
Inductive jres : Type :=
  | JText (t : string)
  | JOmit
  | JCyclic
  | JUnmodelled.

Fixpoint json_members (l : list (string * jres)) : list string + jres :=
  match l with
  | [] => inl []
  | (k, r) :: l' =>
      match r, json_members l' with
      | JCyclic, _ => inr JCyclic
      | JUnmodelled, _ => inr JUnmodelled
      | _, inr e => inr e
      | JOmit, inl ts => inl ts
      | JText t, inl ts => inl ((json_quote k +:+ ":" +:+ t) :: ts)
      end
  end.

Definition json_object (l : list (string * jres)) : jres :=
  match json_members l with
  | inl ts => JText ("{" +:+ join_comma ts +:+ "}")
  | inr e => e
  end.

Fixpoint json_elements (l : list jres) : list string + jres :=
  match l with
  | [] => inl []
  | r :: l' =>
      match r, json_elements l' with
      | JCyclic, _ => inr JCyclic
      | JUnmodelled, _ => inr JUnmodelled
      | _, inr e => inr e
      | JOmit, inl ts => inl ("null" :: ts)
      | JText t, inl ts => inl (t :: ts)
      end
  end.

Definition json_array (l : list jres) : jres :=
  match json_elements l with
  | inl ts => JText ("[" +:+ join_comma ts +:+ "]")
  | inr e => e
  end.

(** The serialisation of a value found in the heap [h]. The fuel bounds the
    nesting depth: an acyclic structure is never deeper than the number of
    objects of the heap, so [JSON_stringify] below gives enough of it. *)
Fixpoint json_value (fuel : nat) (h : gmap loc obj) (v : value) : jres :=
  match fuel with
  | 0 => JCyclic
  | S f =>
      match v with
      | VUndef => JOmit
      | VNull | VNaN | VInf _ => JText "null"
      | VBool b => JText (if b then "true" else "false")
      | VNum n => if safe_integer n then JText (pretty n) else JUnmodelled
      | VStr s => JText (json_quote s)
      | VRef l =>
          match h !! l with
          | Some (OPlain fs) => json_object ((λ kv, (kv.1, json_value f h kv.2)) <$> fs)
          | Some (OArr vs) => json_array (json_value f h <$> vs)
          | _ => JUnmodelled
          end
      end
  end.

(** [JSON.stringify(o)] for a new object [o] with the properties [fs]. *)
Definition JSON_stringify (h : gmap loc obj) (fs : fields) : jres :=
  json_object ((λ kv, (kv.1, json_value (S (size h)) h kv.2)) <$> fs).

(** ** Resource: the collection cache *)

(** [Array.prototype.sort()] on strings: ascending by code units. *)
Definition sort_keys (ks : list string) : list string := merge_sort String.le ks.

(** The cache key of [getCollection]: the properties of [params] are
    assigned to a new object in the sorted order of their names, which is
    then serialised. A property [__proto__] of [params] would be handed to
    the setter that the new object inherits. The key starts with a brace,
    so it is no inherited name. *)
Definition collection_key (h : gmap loc obj) (pfs : fields) : jres :=
  if bool_decide (proto_key ∈ obj_keys pfs) then JUnmodelled
  else
    JSON_stringify h
      (obj_assign [] ((λ paramKey, (paramKey, js_get paramKey pfs)) <$> sort_keys (obj_keys pfs))).

(** [Resource.getCollection(params = {}, data = [])] *)
Definition getCollection (params data : value) : M loc :=
  let* params := default_object params in
  let* data := default_array data in
  let* pfs := Object_entries params in
  let* h := gets heap in
  match collection_key h pfs with
  | JText key =>
      let* cache := gets r_collections in
      match cache !! key with
      | None =>
          let* collection := new_Collection params data in
          let* _ := modify (λ s, set_r_collections (<[key := collection]> (r_collections s)) s) in
          ret collection
      | Some collection => ret collection
      end
  | JCyclic => throw
  | _ => unmodelled
  end.

(** [Resource.getPagedCollection(params = {}, pageSize = 20, page = 1)] *)
Definition getPagedCollection (params pageSize page : value) : M loc :=
  let* params := default_object params in
  let pageSize := match pageSize with VUndef => VNum 20 | _ => pageSize end in
  let page := match page with VUndef => VNum 1 | _ => page end in
  let* _ :=
    match params with
    | VRef l =>
        let* fs := read_plain l in
        write l (OPlain (obj_assign fs [("page", page); ("page_size", pageSize)]))
    | VNull => throw
    | _ => unmodelled
    end in
  let* collection := getCollection params VUndef in
  let* co := read_coll collection in
  let* _ := write collection
              (OColl (Collection (c_params co) (c_models co) (c_model_map co)
                        (c_synced co) page pageSize (c_pageCount co))) in
  ret collection.

(** ** The transport *)

(** The two paths the code asks the URL table for: [modelUrl(id)] and
    [collectionUrl()]. *)
Inductive path : Type :=
  | ModelUrl (id : value)
  | CollectionUrl.

(** The object handed to [this.resource.client]; [rq_json] is the header
    [Content-Type: application/json]. *)
Record request := Request {
  rq_path : path;
  rq_method : option string;
  rq_params : option value;
  rq_entity : option value;
  rq_json : bool;
}.

(** The method the transport uses: the one given, else [POST] with an entity
    and [GET] without. *)
Definition effective_method (rq : request) : string :=
  match rq_method rq, rq_entity rq with
  | Some m, _ => m
  | None, Some _ => "POST"
  | None, None => "GET"
  end.

(** What a callback does with the promise of its operation. *)
Inductive action : Type :=
  | Resolve (v : value)
  | Reject (reason : value)
  | Call (rq : request).

(** The error callback shared by every transport call. *)
Definition on_failure (response : value) : M value :=
  let* _ := modify (add_log (LogError response)) in
  ret response.

(** ** Model: the bodies of [fetch], [save] and [delete]

    The body is the function given to [Promise.all(this.promises).then]; the
    success function is the one given to the [then] of the transport call. *)

Definition Model_fetch_body (m : loc) (params : value) (force : bool) : M action :=
  let* mo := read_model m in
  if negb force && m_synced mo then ret (Resolve (VRef (m_attributes mo)))
  else
    let* _ := set_model_synced m false in
    let* id := Model_id m in
    ret (Call (Request (ModelUrl id) None (Some params) None false)).

Definition Model_fetch_success (m : loc) (entity : value) : M value :=
  let* _ := Model_set m entity in
  let* _ := set_model_synced m true in
  let* mo := read_model m in
  ret (VRef (m_attributes mo)).

(** [attrs[key] !== this.attributes[key]] for a property [key] of [attrs]
    and the attributes [cur]. When the attributes have no own property
    [key], the access finds what [Object.prototype] has of that name: a
    member that is no value of [attrs], or nothing ([undefined]). *)
Definition dirty (key : string) (attrs cur : fields) : bool :=
  match obj_get key cur with
  | Some v => negb (strict_eq (js_get key attrs) v)
  | None =>
      bool_decide (key ∈ inherited_names) || negb (strict_eq (js_get key attrs) VUndef)
  end.

(** The dirty check of [save]: the properties of [attrs] that differ from
    the attribute of the same name. *)
Definition dirty_payload (attrs cur : fields) : fields :=
  fold_left (λ payload key,
               if dirty key attrs cur
               then obj_set key (js_get key attrs) payload
               else payload)
            (obj_keys attrs) [].

Definition Model_save_body (m : loc) (attrs : value) : M action :=
  let* p0 := alloc (OPlain []) in
  let* mo := read_model m in
  let* payload :=
    if m_synced mo then
      let* afs := Object_entries attrs in
      let* cur := read_plain (m_attributes mo) in
      if bool_decide (proto_key ∈ obj_keys afs) then unmodelled
      else
        let* _ := write p0 (OPlain (dirty_payload afs cur)) in
        ret p0
    else
      let* _ := Model_set m attrs in
      ret (m_attributes mo) in
  let* pfs := read_plain payload in
  if bool_decide (length (obj_keys pfs) = 0) then ret (Resolve (VRef (m_attributes mo)))
  else
    let* _ := set_model_synced m false in
    let* id := Model_id m in
    if truthy id
    then ret (Call (Request (ModelUrl id) (Some "PATCH") None (Some (VRef payload)) true))
    else ret (Call (Request CollectionUrl None None (Some (VRef payload)) true)).

Definition Model_save_success (m : loc) (entity : value) : M value :=
  let* oldId := Model_id m in
  let* _ := Model_set m entity in
  let* newId := Model_id m in
  let* _ :=
    if negb (truthy oldId) && truthy newId
    then let* _ := addModel (VRef m) in ret tt
    else ret tt in
  let* _ := set_model_synced m true in
  ret entity.

Definition Model_delete_body (m : loc) : M action :=
  let* id := Model_id m in
  if negb (truthy id)
  then ret (Reject (VStr "Can not delete model that we do not have an id for"))
  else ret (Call (Request (ModelUrl id) (Some "DELETE") None None true)).

Definition Model_delete_success (m : loc) : M value :=
  let* _ := removeModel m in
  Model_id m.

(** ** Collection: [fetch] *)

(** [const params = Object.assign({}, this.params, extraParams)], evaluated
    when [fetch] is called. *)
Definition Collection_fetch_params (c : loc) (extraParams : value) : M value :=
  let* extraParams := default_object extraParams in
  let* co := read_coll c in
  let* p := alloc (OPlain []) in
  let* _ := Object_assign p (c_params co) in
  let* _ := Object_assign p extraParams in
  ret (VRef p).

Definition Collection_fetch_body (c : loc) (params : value) (force : bool) : M action :=
  let* co := read_coll c in
  let* h := gets heap in
  if negb force && Collection_synced h co then
    let* d := Collection_data c in
    ret (Resolve d)
  else
    let* _ := Collection_set_synced c false in
    ret (Call (Request CollectionUrl None (Some params) None false)).

Definition Collection_set_pageCount (c : loc) (v : value) : M unit :=
  let* co := read_coll c in
  write c (OColl (Collection (c_params co) (c_models co) (c_model_map co)
                    (c_synced co) (c_page co) (c_pageSize co) v)).

Definition Collection_fetch_success (c : loc) (entity : value) : M value :=
  let* co := read_coll c in
  let* _ := write c (OColl (Collection (c_params co) [] ∅ (c_synced co)
                              (c_page co) (c_pageSize co) (c_pageCount co))) in
  let* h := gets heap in
  let* _ :=
    match is_array h entity with
    | Some _ => Collection_set c entity
    | None =>
        let* results := js_member entity "results" in
        if decide (results = VUndef) then modify (add_log (LogDebug entity))
        else
          let* _ := Collection_set c results in
          let* count := js_member entity "count" in
          let* co := read_coll c in
          match to_number count, to_number (c_pageSize co) with
          | Some n, Some d =>
              match ceil_div n d with
              | Some q => Collection_set_pageCount c q
              | None => unmodelled
              end
          | _, _ => unmodelled
          end
    end in
  let* _ := Collection_set_synced c true in
  let* co := read_coll c in
  let* _ := forEach (λ model, set_model_synced model true) (c_models co) in
  Collection_data c.

(** ** Response bodies *)

(** A parsed response body, before it is an object of the heap. *)
#[local] Unset Elimination Schemes.
Inductive wire : Type :=
  | WUndef
  | WNull
  | WBool (b : bool)
  | WNum (n : Z)
  | WStr (s : string)
  | WArr (l : list wire)
  | WObj (l : list (string * wire)).
#[local] Set Elimination Schemes.

(** The value the transport hands over for a body: new objects and arrays. *)
Fixpoint alloc_wire (b : wire) : M value :=
  match b with
  | WUndef => ret VUndef
  | WNull => ret VNull
  | WBool x => ret (VBool x)
  | WNum n => ret (VNum n)
  | WStr s => ret (VStr s)
  | WArr l =>
      let* vs := (fix go (l : list wire) : M (list value) :=
                    match l with
                    | [] => ret []
                    | x :: l' =>
                        let* v := alloc_wire x in
                        let* vs := go l' in
                        ret (v :: vs)
                    end) l in
      let* a := alloc (OArr vs) in
      ret (VRef a)
  | WObj l =>
      let* fs := (fix go (l : list (string * wire)) : M fields :=
                    match l with
                    | [] => ret []
                    | (k, x) :: l' =>
                        let* v := alloc_wire x in
                        let* fs := go l' in
                        ret ((k, v) :: fs)
                    end) l in
      let* o := alloc (OPlain (obj_assign [] fs)) in
      ret (VRef o)
  end.

(** ** The promise queue of an instance

    Every operation of a [Model] or [Collection] builds a promise whose
    executor subscribes by [Promise.all(this.promises).then(body, reason =>
    reject(reason))] and is then pushed on [this.promises]. The scheduler
    keeps, for every promise, the operation it belongs to, the promises that
    [Promise.all] was given, and how far the operation got.

    [ConditionalPromise] is taken to build a promise the way [Promise] does:
    the executor runs at once, and the promise is settled once. *)

Inductive op_kind : Type :=
  | MFetch (m : loc) (params : value) (force : bool)
  | MSave (m : loc) (attrs : value)
  | MDelete (m : loc)
  | CFetch (c : loc) (params : value) (force : bool).

Definition op_target (k : op_kind) : loc :=
  match k with
  | MFetch m _ _ | MSave m _ | MDelete m => m
  | CFetch c _ _ => c
  end.

Inductive pstate : Type :=
  | Pending
  | Fulfilled (v : value)
  | Rejected (reason : value).

(** [Waiting]: the callbacks of [Promise.all] have not run. [Running]: the
    body has called the transport, which has not answered. [Completed]: the
    body or the callback of the transport has settled the promise.
    [Skipped]: [Promise.all] was rejected, the body never ran. [Crashed]: a
    callback threw before it settled the promise. *)
Inductive phase : Type :=
  | Waiting
  | Running
  | Completed
  | Skipped
  | Crashed.

Global Instance pstate_eq_dec : EqDecision pstate.
Proof. solve_decision. Defined.
Global Instance phase_eq_dec : EqDecision phase.
Proof. solve_decision. Defined.

Record op := Op {
  op_kind_of : op_kind;
  op_deps : list nat;
  op_phase : phase;
  op_state : pstate;
}.

(** Promise [p] is the entry [p] of [w_ops]; [w_queues] holds the array
    [this.promises] of each instance (empty when absent); [w_requests] lists
    the calls of the transport with the operation that made them. *)
Record world := World {
  w_store : store;
  w_ops : list op;
  w_queues : gmap loc (list nat);
  w_requests : list (nat * request);
}.

Definition empty_world : world := World empty_store [] ∅ [].

Definition queue_of (w : world) (x : loc) : list nat := default [] (w_queues w !! x).

Definition is_fulfilled (ops : list op) (p : nat) : bool :=
  match ops !! p with
  | Some (Op _ _ _ (Fulfilled _)) => true
  | _ => false
  end.

Definition is_settled (ops : list op) (p : nat) : bool :=
  match ops !! p with
  | Some (Op _ _ _ Pending) | None => false
  | _ => true
  end.

Fixpoint index_of (p : nat) (l : list nat) : option nat :=
  match l with
  | [] => None
  | x :: l' => if decide (x = p) then Some 0 else S <$> index_of p l'
  end.

(** [this.promises.splice(this.promises.indexOf(promise), 1)]: with the index
    [-1] of a promise that is not there, [splice] removes the last one. *)
Definition splice_promise (p : nat) (l : list nat) : list nat :=
  match index_of p l with
  | Some i => delete i l
  | None => delete (length l - 1) l
  end.

Definition op_body (k : op_kind) : M action :=
  match k with
  | MFetch m params force => Model_fetch_body m params force
  | MSave m attrs => Model_save_body m attrs
  | MDelete m => Model_delete_body m
  | CFetch c params force => Collection_fetch_body c params force
  end.

Definition op_success (k : op_kind) (entity : value) : M value :=
  match k with
  | MFetch m _ _ => Model_fetch_success m entity
  | MSave m _ => Model_save_success m entity
  | MDelete m => Model_delete_success m
  | CFetch c _ _ => Collection_fetch_success c entity
  end.

(** The calls of the public methods. *)
Inductive call : Type :=
  | CallModelFetch (m : loc) (params : value) (force : bool)
  | CallModelSave (m : loc) (attrs : value)
  | CallModelDelete (m : loc)
  | CallModelSet (m : loc) (attributes : value)
  | CallCollectionFetch (c : loc) (extraParams : value) (force : bool)
  | CallCollectionSet (c : loc) (models : value)
  | CallGetCollection (params data : value)
  | CallGetPagedCollection (params pageSize page : value)
  | CallGetModel (id : value)
  | CallCreateModel (data : value)
  | CallAddModel (model : value)
  | CallClearCache
  | CallUnCacheModel (id : value)
  | CallRemoveModel (m : loc).

(** What happens next: a call by the application, the callbacks of
    [Promise.all] for operation [p] (fulfilled: [EStart]; rejected because
    [d] was: [EAbort]), or the answer of the transport to the call of [p]. *)
Inductive event : Type :=
  | ECall (c : call)
  | EStart (p : nat)
  | EAbort (p d : nat)
  | EResponse (p : nat) (body : wire)
  | EFailure (p : nat) (response : wire).

Definition set_store (s : store) (w : world) : world :=
  World s (w_ops w) (w_queues w) (w_requests w).

Definition set_op (p : nat) (ph : phase) (st : pstate) (w : world) : world :=
  World (w_store w)
        (alter (λ o, Op (op_kind_of o) (op_deps o) ph st) p (w_ops w))
        (w_queues w) (w_requests w).

(** A synchronous method: its effect on the store stays, also when it
    throws. *)
Definition run_sync {A} (c : M A) (w : world) : option world :=
  match c (w_store w) with
  | (Unmodelled, _) => None
  | (_, s') => Some (set_store s' w)
  end.

(** The promise of a new operation: [Promise.all] is given the promises of
    the instance as they are now, then the new promise is pushed. *)
Definition issue (k : op_kind) (w : world) : world :=
  let x := op_target k in
  let deps := queue_of w x in
  World (w_store w)
        (w_ops w ++ [Op k deps Waiting Pending])
        (<[x := deps ++ [length (w_ops w)]]> (w_queues w))
        (w_requests w).

Definition is_Coll (h : gmap loc obj) (c : loc) : bool :=
  match h !! c with Some (OColl _) => true | _ => false end.

Definition step_call (c : call) (w : world) : option world :=
  let h := heap (w_store w) in
  match c with
  | CallModelFetch m params force =>
      if is_Model h (VRef m) is Some _ then
        match default_object params (w_store w) with
        | (Ret params', s') => Some (issue (MFetch m params' force) (set_store s' w))
        | _ => None
        end
      else None
  | CallModelSave m attrs =>
      if is_Model h (VRef m) is Some _ then Some (issue (MSave m attrs) w) else None
  | CallModelDelete m =>
      if is_Model h (VRef m) is Some _ then Some (issue (MDelete m) w) else None
  | CallCollectionFetch c extraParams force =>
      if is_Coll h c then
        match Collection_fetch_params c extraParams (w_store w) with
        | (Ret params, s') => Some (issue (CFetch c params force) (set_store s' w))
        | (Throw, s') => Some (set_store s' w)
        | (Unmodelled, _) => None
        end
      else None
  | CallModelSet m attributes => run_sync (Model_set m attributes) w
  | CallCollectionSet c models => run_sync (Collection_set c models) w
  | CallGetCollection params data => run_sync (getCollection params data) w
  | CallGetPagedCollection params pageSize page =>
      run_sync (getPagedCollection params pageSize page) w
  | CallGetModel id => run_sync (getModel id) w
  | CallCreateModel data => run_sync (createModel data) w
  | CallAddModel model => run_sync (addModel model) w
  | CallClearCache => run_sync clearCache w
  | CallUnCacheModel id => run_sync (unCacheModel id) w
  | CallRemoveModel m => run_sync (removeModel m) w
  end.

(** The promise of [p] is settled by the callback of the transport, which
    then removes it from [this.promises]. *)
Definition settle_and_splice (p : nat) (x : loc) (st : pstate) (s' : store) (w : world) : world :=
  World s'
        (alter (λ o, Op (op_kind_of o) (op_deps o) Completed st) p (w_ops w))
        (<[x := splice_promise p (queue_of w x)]> (w_queues w))
        (w_requests w).

Definition step (e : event) (w : world) : option world :=
  match e with
  | ECall c => step_call c w
  | EStart p =>
      match w_ops w !! p with
      | Some (Op k deps Waiting Pending) =>
          if forallb (is_fulfilled (w_ops w)) deps then
            match op_body k (w_store w) with
            | (Ret (Resolve v), s') => Some (set_op p Completed (Fulfilled v) (set_store s' w))
            | (Ret (Reject r), s') => Some (set_op p Completed (Rejected r) (set_store s' w))
            | (Ret (Call rq), s') =>
                Some (World s' (alter (λ o, Op (op_kind_of o) (op_deps o) Running Pending) p (w_ops w))
                            (w_queues w) (w_requests w ++ [(p, rq)]))
            | (Throw, s') => Some (set_op p Crashed Pending (set_store s' w))
            | (Unmodelled, _) => None
            end
          else None
      | _ => None
      end
  | EAbort p d =>
      match w_ops w !! p, w_ops w !! d with
      | Some (Op k deps Waiting Pending), Some (Op _ _ _ (Rejected r)) =>
          if bool_decide (d ∈ deps) then Some (set_op p Skipped (Rejected r) w) else None
      | _, _ => None
      end
  | EResponse p body =>
      match w_ops w !! p with
      | Some (Op k deps Running Pending) =>
          match (let* entity := alloc_wire body in op_success k entity) (w_store w) with
          | (Ret v, s') => Some (settle_and_splice p (op_target k) (Fulfilled v) s' w)
          | (Throw, s') => Some (set_op p Crashed Pending (set_store s' w))
          | (Unmodelled, _) => None
          end
      | _ => None
      end
  | EFailure p response =>
      match w_ops w !! p with
      | Some (Op k deps Running Pending) =>
          match (let* r := alloc_wire response in on_failure r) (w_store w) with
          | (Ret v, s') => Some (settle_and_splice p (op_target k) (Rejected v) s' w)
          | (Throw, s') => Some (set_op p Crashed Pending (set_store s' w))
          | (Unmodelled, _) => None
          end
      | _ => None
      end
  end.

Fixpoint run (es : list event) (w : world) : option world :=
  match es with
  | [] => Some w
  | e :: es' =>
      match step e w with
      | Some w' => run es' w'
      | None => None
      end
  end.

Definition reachable (w : world) : Prop := ∃ es, run es empty_world = Some w.

(** ** Well-formed stores *)

Definition is_plain (h : gmap loc obj) (l : loc) : bool :=
  match h !! l with Some (OPlain _) => true | _ => false end.

Definition is_model (h : gmap loc obj) (l : loc) : bool :=
  match h !! l with Some (OModel _) => true | _ => false end.

(** The attributes of the model at [m]. *)
Definition attrs_of (h : gmap loc obj) (m : loc) : fields :=
  match h !! m with
  | Some (OModel mo) =>
      match h !! m_attributes mo with
      | Some (OPlain fs) => fs
      | _ => []
      end
  | _ => []
  end.

(** [model.id] read off the heap. *)
Definition id_of (h : gmap loc obj) (m : loc) : value := js_get idKey (attrs_of h m).

Definition obj_ok (h : gmap loc obj) (o : obj) : Prop :=
  match o with
  | OPlain fs => NoDup (obj_keys fs)
  | OArr _ => True
  | OModel mo => is_plain h (m_attributes mo)
  | OColl co =>
      Forall (λ m, is_model h m) (c_models co)
      ∧ map_Forall (λ _ m, m ∈ c_models co) (c_model_map co)
  end.

Definition attrs_apart (l1 : loc) (o1 : obj) (l2 : loc) (o2 : obj) : Prop :=
  match o1, o2 with
  | OModel a, OModel b => m_attributes a = m_attributes b → l1 = l2
  | _, _ => True
  end.

(** The heap is closed and allocated below [next_loc]; the properties of a
    plain object have distinct names; every model has a plain attributes
    object of its own; the members of a collection and the models of the
    cache are models. *)
Definition wf_store (s : store) : Prop :=
  map_Forall (λ l _, l < next_loc s) (heap s)
  ∧ map_Forall (λ _ o, obj_ok (heap s) o) (heap s)
  ∧ map_Forall (λ l1 o1, map_Forall (λ l2 o2, attrs_apart l1 o1 l2 o2) (heap s)) (heap s)
  ∧ map_Forall (λ _ m, is_model (heap s) m) (r_models s).

Global Instance obj_ok_dec h o : Decision (obj_ok h o).
Proof. destruct o; simpl; apply _. Defined.
Global Instance attrs_apart_dec l1 o1 l2 o2 : Decision (attrs_apart l1 o1 l2 o2).
Proof. destruct o1, o2; simpl; apply _. Defined.
Global Instance wf_store_dec s : Decision (wf_store s).
Proof. unfold wf_store. apply _. Defined.

(** Two objects of the same class. *)
Definition same_kind (o o' : obj) : Prop :=
  match o, o' with
  | OPlain _, OPlain _ | OArr _, OArr _ | OModel _, OModel _ | OColl _, OColl _ => True
  | _, _ => False
  end.

(** ** Constants of the statements *)

Definition no_id_reason : value :=
  VStr "Can not delete model that we do not have an id for".

(** A collection of two synced models. *)
Definition store_c8 : store :=
  Store {[ 0 := OPlain []; 1 := OModel (Model 0 true);
           2 := OPlain []; 3 := OModel (Model 2 true);
           4 := OColl (Collection VUndef [1; 3] ∅ true VUndef VUndef VUndef) ]}
        5 ∅ ∅ [].

(** A model without an id, and a synced model with id 7. *)
Definition world_idless : world :=
  World (Store {[ 0 := OPlain [("a", VNum 1)]; 1 := OModel (Model 0 false) ]} 2 ∅ ∅ [])
        [] ∅ [].

Definition world_synced : world :=
  World (Store {[ 0 := OPlain [("id", VStr "7"); ("a", VNum 1)];
                  1 := OModel (Model 0 true) ]} 2 {[ "7" := 1 ]} ∅ [])
        [] ∅ [].

(** What [Model.set] does to the id of its argument: [String(id)] when the
    argument has one. *)
Definition coerce_id (fs : fields) : fields :=
  if obj_has idKey fs
  then obj_set idKey (VStr (js_String (js_get idKey fs))) fs
  else fs.

(** A plain object that [Model.set] takes within the embedding: it has no
    property [__proto__], and its id, if any, is [stringable]. *)
Definition mergeable (fs : fields) : bool :=
  negb (bool_decide (proto_key ∈ obj_keys fs)) && stringable (js_get idKey fs).

(** A plain object of which the cache takes a model within the embedding:
    moreover the string of its id is no inherited name. *)
Definition cacheable (fs : fields) : bool :=
  negb (bool_decide (proto_key ∈ obj_keys fs)) && own_key (js_get idKey fs).

(** An unsynced model without an id, and the arguments [{a: 1}] and
    [{a: 1, b: 2}] of two calls of [save]. *)
Definition world_new_model : world :=
  World (Store {[ 0 := OPlain []; 1 := OModel (Model 0 false);
                  2 := OPlain [("a", VNum 1)];
                  3 := OPlain [("a", VNum 1); ("b", VNum 2)] ]} 4 ∅ ∅ [])
        [] ∅ [].

(** The attributes of [new Model(data)] for a plain object [data] with the
    properties [fs]. *)
Definition new_attrs (fs : fields) : fields := obj_assign [] (coerce_id fs).

(** [a] is the attributes object of a model. *)
Definition is_attrs (h : gmap loc obj) (a : loc) : Prop :=
  ∃ m mo, h !! m = Some (OModel mo) ∧ m_attributes mo = a.

(** What [addModel(data)] leaves behind, for a plain object [data] at [d]
    with the properties [fs]: the new model [S n] with its attributes at [n],
    the id of [data] made a string, and either the new model returned
    (cached under its id when it has one) or its attributes merged into the
    model [c0] that the cache already has for the id. *)
Definition addModel_post (s : store) (d : loc) (fs : fields) (m : loc) (s' : store) : Prop :=
  let n := next_loc s in
  let idv := js_get idKey (coerce_id fs) in
  let key := prop_key idv in
  wf_store s'
    ∧ next_loc s' = S (S n)
    ∧ r_collections s' = r_collections s
    ∧ logged s' = logged s
    ∧ is_model (heap s') m = true
    ∧ id_of (heap s') m = idv
    ∧ heap s' !! S n = Some (OModel (Model n false))
    ∧ heap s' !! n = Some (OPlain (new_attrs fs))
    ∧ (¬ is_attrs (heap s) d → heap s' !! d = Some (OPlain (coerce_id fs)))
    ∧ match truthy idv, r_models s !! key with
      | false, _ =>
          m = S n ∧ r_models s' = r_models s
          ∧ ∀ l, l < n → l ≠ d → heap s' !! l = heap s !! l
      | true, None =>
          m = S n ∧ r_models s' = <[key := S n]> (r_models s)
          ∧ ∀ l, l < n → l ≠ d → heap s' !! l = heap s !! l
      | true, Some c0 =>
          m = c0 ∧ r_models s' = r_models s
          ∧ ∃ mo0 cur0,
              heap s !! c0 = Some (OModel mo0)
              ∧ heap s !! m_attributes mo0 = Some (OPlain cur0)
              ∧ heap s' !! c0 = Some (OModel mo0)
              ∧ heap s' !! m_attributes mo0
                = Some (OPlain (obj_assign (if decide (d = m_attributes mo0)
                                            then coerce_id fs else cur0)
                                           (new_attrs fs)))
              ∧ ∀ l, l < n → l ≠ d → l ≠ m_attributes mo0 → heap s' !! l = heap s !! l
      end.

(** The key under which [Collection.set] looks an entity up in
    [_model_map]: the property key of the id of its model. *)
Definition entity_key (fs : fields) : string := prop_key (js_get idKey (coerce_id fs)).

(** The collection after [set] has seen the model [m] under [key]. *)
Definition add_member (co : collection) (key : string) (m : loc) : collection :=
  match c_model_map co !! key with
  | Some _ => co
  | None =>
      Collection (c_params co) (c_models co ++ [m]) (<[key := m]> (c_model_map co))
                 (c_synced co) (c_page co) (c_pageSize co) (c_pageCount co)
  end.

(** What one round of the loop of [Collection.set] leaves behind for the
    plain object at [d]: [m] is the model that [addModel] returned. *)
Definition set_one_post (s : store) (co : collection) (c d : loc) (fs : fields)
    (m : loc) (s' : store) : Prop :=
  wf_store s'
  ∧ heap s' !! c = Some (OColl (add_member co (entity_key fs) m))
  ∧ is_model (heap s') m = true
  ∧ id_of (heap s') m = js_get idKey (coerce_id fs)
  ∧ (truthy (js_get idKey (coerce_id fs)) = true → r_models s' !! entity_key fs = Some m)
  ∧ (∀ k m0, r_models s !! k = Some m0 → r_models s' !! k = Some m0)
  ∧ (∀ m', m' ≠ m → is_model (heap s) m' = true →
           is_model (heap s') m' = true ∧ id_of (heap s') m' = id_of (heap s) m')
  ∧ heap s' !! d = Some (OPlain (coerce_id fs))
  ∧ (∀ l fs', heap s !! l = Some (OPlain fs') → l ≠ d → ¬ is_attrs (heap s) l →
              heap s' !! l = Some (OPlain fs'))
  ∧ (∀ l, is_attrs (heap s') l → is_attrs (heap s) l ∨ next_loc s ≤ l)
  ∧ (∀ l vs, heap s !! l = Some (OArr vs) → heap s' !! l = Some (OArr vs))
  ∧ next_loc s ≤ next_loc s'
  ∧ logged s' = logged s
  ∧ r_collections s' = r_collections s.

(** An entity that [Collection.set] is to go through: a [cacheable] plain
    object that is not the attributes object of a model, and the key it
    will have. *)
Definition entity_at (h : gmap loc obj) (d : loc) (key : string) : Prop :=
  ∃ fs, h !! d = Some (OPlain fs) ∧ entity_key fs = key ∧ ¬ is_attrs h d
        ∧ cacheable fs = true.

(** The fields of a collection that [set] does not touch. *)
Definition same_settings (co co' : collection) : Prop :=
  c_params co' = c_params co ∧ c_synced co' = c_synced co ∧ c_page co' = c_page co
  ∧ c_pageSize co' = c_pageSize co ∧ c_pageCount co' = c_pageCount co.

(** The members of a collection are the models of the cache: a member with
    a non-empty id is what the cache has for that id, and so is what
    [_model_map] has for a key other than [""] and ["undefined"]. *)
Definition members_canonical (s : store) (co : collection) : Prop :=
  (∀ m k, m ∈ c_models co → id_of (heap s) m = VStr k → k ≠ EmptyString →
          r_models s !! k = Some m)
  ∧ (∀ k m, c_model_map co !! k = Some m → k ≠ EmptyString → k ≠ "undefined" →
            r_models s !! k = Some m).

(** How the store [s'] during the loop of [Collection.set] relates to the
    store [s] it started from. *)
Definition set_progress (s : store) (co : collection) (c : loc) (s' : store)
    (co' : collection) : Prop :=
  wf_store s'
  ∧ heap s' !! c = Some (OColl co')
  ∧ same_settings co co'
  ∧ members_canonical s' co'
  ∧ (∀ k m, c_model_map co !! k = Some m → c_model_map co' !! k = Some m)
  ∧ (∀ k m0, r_models s !! k = Some m0 → r_models s' !! k = Some m0)
  ∧ (∀ l vs, heap s !! l = Some (OArr vs) → heap s' !! l = Some (OArr vs))
  ∧ next_loc s ≤ next_loc s'
  ∧ logged s' = logged s
  ∧ r_collections s' = r_collections s.

(** Only [synced] flags of models differ between [s] and [s'], and none
    that was true became false. *)
Definition flags_raised (s s' : store) : Prop :=
  next_loc s' = next_loc s
  ∧ r_models s' = r_models s
  ∧ r_collections s' = r_collections s
  ∧ logged s' = logged s
  ∧ ∀ l, match heap s !! l with
         | Some (OModel mo) =>
             ∃ b, heap s' !! l = Some (OModel (Model (m_attributes mo) b))
                  ∧ (m_synced mo = true → b = true)
         | o => heap s' !! l = o
         end.

(** [this.synced = b] on a collection. *)
Definition with_synced (co : collection) (b : bool) : collection :=
  Collection (c_params co) (c_models co) (c_model_map co) b
             (c_page co) (c_pageSize co) (c_pageCount co).


(** The members of a collection forgotten, as a fetch starts by doing. *)
Definition without_members (co : collection) : collection :=
  Collection (c_params co) [] ∅ (c_synced co) (c_page co) (c_pageSize co) (c_pageCount co).

(** The array that [get data()] builds. *)
Definition data_of (h : gmap loc obj) (co : collection) : list value :=
  (λ m, match h !! m with
        | Some (OModel mo) => VRef (m_attributes mo)
        | _ => VUndef
        end) <$> c_models co.

(** What the success callback of [Collection.fetch] leaves behind when the
    entities it set have the keys [ks] and [pageCount] ends as [pc]: the
    promise is resolved with [v], a new array of the attributes objects of
    the members. *)
Definition fetch_post (s : store) (c : loc) (co : collection) (ks : list string)
    (pc : value) (v : value) (s' : store) : Prop :=
  ∃ co' a,
    v = VRef a
    ∧ wf_store s'
    ∧ heap s' !! c = Some (OColl co')
    ∧ heap s' !! a = Some (OArr (data_of (heap s') co'))
    ∧ c_synced co' = true
    ∧ Collection_synced (heap s') co' = true
    ∧ c_pageCount co' = pc
    ∧ c_params co' = c_params co
    ∧ c_page co' = c_page co
    ∧ c_pageSize co' = c_pageSize co
    ∧ members_canonical s' co'
    ∧ (∀ k, k ∈ ks → is_Some (c_model_map co' !! k))
    ∧ (∀ m, m ∈ c_models co' → ∃ k, k ∈ ks ∧ c_model_map co' !! k = Some m)
    ∧ (∀ k m, c_model_map co' !! k = Some m → m ∈ c_models co')
    ∧ (∀ k m0, r_models s !! k = Some m0 → r_models s' !! k = Some m0)
    ∧ r_collections s' = r_collections s.

(** A response body that is neither [undefined] nor [null], nor an array,
    and whose [results] is [undefined]. *)
Definition malformed_value (h : gmap loc obj) (e : value) : Prop :=
  match e with
  | VUndef | VNull => False
  | VRef l =>
      match h !! l with
      | Some (OPlain fs) => js_get "results" fs = VUndef
      | _ => False
      end
  | _ => True
  end.

(** The loops of [alloc_wire], by name. *)
Definition alloc_wires : list wire → M (list value) :=
  fix go (l : list wire) : M (list value) :=
    match l with
    | [] => ret []
    | x :: l' =>
        let* v := alloc_wire x in
        let* vs := go l' in
        ret (v :: vs)
    end.

Definition alloc_wire_fields : list (string * wire) → M fields :=
  fix go (l : list (string * wire)) : M fields :=
    match l with
    | [] => ret []
    | (k, x) :: l' =>
        let* v := alloc_wire x in
        let* fs := go l' in
        ret ((k, v) :: fs)
    end.

(** The value [v] stands for the body [b] in the heap [h], with every object
    of it at a location from [lo] up to, and not including, [hi], and the
    parts of an object below the object. *)
Fixpoint shape (h : gmap loc obj) (lo hi : nat) (b : wire) (v : value) : Prop :=
  match b with
  | WUndef => v = VUndef
  | WNull => v = VNull
  | WBool x => v = VBool x
  | WNum z => v = VNum z
  | WStr s => v = VStr s
  | WArr l =>
      ∃ a vs, v = VRef a ∧ lo ≤ a ∧ a < hi ∧ h !! a = Some (OArr vs)
        ∧ (fix all (l : list wire) (vs : list value) : Prop :=
             match l, vs with
             | [], [] => True
             | x :: l', v :: vs' => shape h lo a x v ∧ all l' vs'
             | _, _ => False
             end) l vs
  | WObj l =>
      ∃ o fs, v = VRef o ∧ lo ≤ o ∧ o < hi ∧ h !! o = Some (OPlain (obj_assign [] fs))
        ∧ (fix all (l : list (string * wire)) (fs : fields) : Prop :=
             match l, fs with
             | [], [] => True
             | (k, x) :: l', (k', v) :: fs' => k = k' ∧ shape h lo o x v ∧ all l' fs'
             | _, _ => False
             end) l fs
  end.

Definition shapes (h : gmap loc obj) (lo hi : nat) : list wire → list value → Prop :=
  fix all (l : list wire) (vs : list value) : Prop :=
    match l, vs with
    | [], [] => True
    | x :: l', v :: vs' => shape h lo hi x v ∧ all l' vs'
    | _, _ => False
    end.

Definition shape_fields (h : gmap loc obj) (lo hi : nat)
  : list (string * wire) → fields → Prop :=
  fix all (l : list (string * wire)) (fs : fields) : Prop :=
    match l, fs with
    | [], [] => True
    | (k, x) :: l', (k', v) :: fs' => k = k' ∧ shape h lo hi x v ∧ all l' fs'
    | _, _ => False
    end.

(** The store [s'] is [s] with more plain objects and arrays. *)
Definition data_ext (s s' : store) : Prop :=
  next_loc s ≤ next_loc s'
  ∧ (∀ l, l < next_loc s → heap s' !! l = heap s !! l)
  ∧ (∀ l o, heap s' !! l = Some o → next_loc s ≤ l →
            match o with OPlain _ | OArr _ => True | _ => False end)
  ∧ r_models s' = r_models s
  ∧ r_collections s' = r_collections s
  ∧ logged s' = logged s.

(** [String(v)] and the property key of the id, read off a body that is
    [wire_stringable] (defined below): a primitive, a number being a safe
    integer. *)
Definition wire_String (b : wire) : string :=
  match b with
  | WUndef => "undefined"
  | WNull => "null"
  | WBool true => "true"
  | WBool false => "false"
  | WNum n => pretty n
  | WStr s => s
  | WArr _ | WObj _ => "[object Object]"
  end.

Fixpoint wire_get (k : string) (l : list (string * wire)) : option wire :=
  match l with
  | [] => None
  | (k', x) :: l' =>
      match wire_get k l' with
      | Some y => Some y
      | None => if decide (k = k') then Some x else None
      end
  end.

(** The key of an entity of a response: the string of its id, the last
    [id] of the object being the one that counts. *)
Definition wire_key (e : wire) : string :=
  match e with
  | WObj l =>
      match wire_get idKey l with
      | Some x => wire_String x
      | None => "undefined"
      end
  | _ => "undefined"
  end.

Definition is_WObj (e : wire) : Prop :=
  match e with WObj _ => True | _ => False end.

(** [stringable] and [own_key], read off a body. *)
Definition wire_stringable (b : wire) : bool :=
  match b with
  | WNum n => safe_integer n
  | WArr _ | WObj _ => false
  | _ => true
  end.

Definition wire_own_key (b : wire) : bool :=
  wire_stringable b && negb (bool_decide (wire_String b ∈ inherited_names)).

(** An entity of a response of which the cache takes a model within the
    embedding: an object without a property [__proto__] whose id, if any,
    is a string, a safe integer, a boolean or [null], and no inherited
    name. *)
Definition wire_cacheable (e : wire) : bool :=
  match e with
  | WObj l =>
      negb (bool_decide (proto_key ∈ l.*1))
      && match wire_get idKey l with
         | Some x => wire_own_key x
         | None => true
         end
  | _ => false
  end.

(** An object of a response that [Model.set] takes within the embedding. *)
Definition wire_mergeable (e : wire) : bool :=
  match e with
  | WObj l =>
      negb (bool_decide (proto_key ∈ l.*1))
      && match wire_get idKey l with
         | Some x => wire_stringable x
         | None => true
         end
  | _ => false
  end.

(** The callback of the transport for a [Collection.fetch], from the body
    of the response on. *)
Definition Collection_fetch_response (c : loc) (body : wire) : M value :=
  let* entity := alloc_wire body in
  Collection_fetch_success c entity.

(** A cache with model 7, an empty collection, and a plain object with the
    id 7 as a number. *)
Definition store_cached : store :=
  Store {[ 0 := OPlain [("id", VStr "7"); ("a", VNum 1)];
           1 := OModel (Model 0 true);
           2 := OColl (Collection VUndef [] ∅ false VUndef VUndef VUndef);
           3 := OPlain [("id", VNum 7); ("b", VNum 2)] ]}
        4 {[ "7" := 1 ]} ∅ [].

(** A collection with the page size 20, and a page of 20 entities with the
    ids 1 to 20. *)
Definition store_paged : store :=
  Store {[ 0 := OColl (Collection VUndef [] ∅ false (VNum 1) (VNum 20) VUndef) ]}
        1 ∅ ∅ [].

Definition entities20 : list wire :=
  (λ i, WObj [("id", WNum (Z.of_nat i))]) <$> seq 1 20.

(** A body that is [undefined] or [null]. *)
Definition nullish (b : wire) : bool :=
  match b with WUndef | WNull => true | _ => false end.

(** A body that is neither an array nor an object with a defined
    [results]. *)
Definition unrecognised (b : wire) : Prop :=
  match b with
  | WArr _ => False
  | WObj l =>
      match wire_get "results" l with
      | None | Some WUndef => True
      | Some _ => False
      end
  | _ => True
  end.

(** A collection, and the world in which its first [fetch] waits for the
    answer of the transport. *)
Definition world_coll : world :=
  World (Store {[ 0 := OColl (Collection VUndef [] ∅ false VUndef VUndef VUndef) ]}
               1 ∅ ∅ [])
        [] ∅ [].

Definition world_fetching : world :=
  World (Store {[ 0 := OColl (Collection VUndef [] ∅ false VUndef VUndef VUndef);
                  1 := OPlain []; 2 := OPlain [] ]} 3 ∅ ∅ [])
        [Op (CFetch 0 (VRef 2) false) [] Running Pending]
        {[ 0 := [0] ]}
        [(0, Request CollectionUrl None (Some (VRef 2)) None false)].

(** Two objects with the same properties in different orders:
    [{b: 2, a: 1}] and [{a: 1, b: 2}]. *)
Definition store_params : store :=
  Store {[ 0 := OPlain [("b", VNum 2); ("a", VNum 1)];
           1 := OPlain [("a", VNum 1); ("b", VNum 2)] ]} 2 ∅ ∅ [].

(** The collection cache holds collections. *)
Definition collections_ok (s : store) : Prop :=
  map_Forall (λ _ c, is_Coll (heap s) c = true) (r_collections s).

(** A serialisation that went through: a text, or a property left out. *)
Definition json_done (r : jres) : Prop := r ≠ JCyclic ∧ r ≠ JUnmodelled.

(** Two empty objects, the parameters of two callers. *)
Definition store_two_params : store :=
  Store {[ 0 := OPlain []; 1 := OPlain [] ]} 2 ∅ ∅ [].

(** The defaults of [getPagedCollection]. *)
Definition default_pageSize (pageSize : value) : value :=
  match pageSize with VUndef => VNum 20 | _ => pageSize end.

Definition default_page (page : value) : value :=
  match page with VUndef => VNum 1 | _ => page end.

(** ** The discipline of the promise queue *)

(** The body of the operation has been entered. *)
Definition started (ph : phase) : bool :=
  match ph with
  | Running | Completed | Crashed => true
  | Waiting | Skipped => false
  end.

(** The instance an operation was called on. *)
Definition instance_of (o : op) : loc := op_target (op_kind_of o).

(** How far an operation got, against the state of its promise. *)
Definition op_consistent (o : op) : Prop :=
  match op_phase o, op_state o with
  | (Waiting | Running | Crashed), Pending => True
  | Completed, (Fulfilled _ | Rejected _) => True
  | Skipped, Rejected _ => True
  | _, _ => False
  end.

(** What every step of the scheduler keeps: an operation that is not
    completed is in [this.promises] of its instance; a later operation of
    the instance was given every earlier one that was not completed; a body
    was entered only with every promise given to [Promise.all] fulfilled; a
    skipped operation carries the reason of a rejected one it was given. *)
Record queue_inv (w : world) : Prop := QueueInv {
  inv_queued : ∀ p o,
    w_ops w !! p = Some o → op_phase o ≠ Completed → p ∈ queue_of w (instance_of o);
  inv_captured : ∀ p q o o',
    p < q → w_ops w !! p = Some o → w_ops w !! q = Some o' →
    instance_of o = instance_of o' →
    p ∈ op_deps o' ∨ op_phase o = Completed;
  inv_consistent : ∀ p o, w_ops w !! p = Some o → op_consistent o;
  inv_entered : ∀ q o,
    w_ops w !! q = Some o → started (op_phase o) = true →
    ∀ d, d ∈ op_deps o → is_fulfilled (w_ops w) d = true;
  inv_skipped : ∀ q o,
    w_ops w !! q = Some o → op_phase o = Skipped →
    ∃ d od r, d ∈ op_deps o ∧ w_ops w !! d = Some od
              ∧ op_state od = Rejected r ∧ op_state o = Rejected r;
}.

(** A forced [fetch()] and a [delete()] called before the transport has
    answered, then the failure of the transport. *)
Definition trace_fetch_fails : list event :=
  [ECall (CallModelFetch 1 VUndef true); ECall (CallModelDelete 1); EStart 0;
   EFailure 0 (WStr "down")].

(** Two calls of [save] in a row, and the answer to the first. *)
Definition trace_two_saves : list event :=
  [ECall (CallModelSave 1 (VRef 2)); ECall (CallModelSave 1 (VRef 3)); EStart 0;
   EResponse 0 (WObj [("id", WNum 7); ("a", WNum 1)]); EStart 1].

(** Every call of the transport was made by an operation whose body was
    entered. *)
Definition requests_inv (w : world) : Prop :=
  ∀ q rq, (q, rq) ∈ w_requests w →
          ∃ o, w_ops w !! q = Some o ∧ started (op_phase o) = true.

(** The promise [d] of the operation [od] is in [this.promises] of its
    instance, and every operation of the instance from number [n] on was
    given it. *)
Definition poisoned (n d : nat) (od : op) (w : world) : Prop :=
  w_ops w !! d = Some od
  ∧ d ∈ queue_of w (instance_of od)
  ∧ ∀ q oq, n ≤ q → w_ops w !! q = Some oq → instance_of oq = instance_of od →
            d ∈ op_deps oq.

(** A model with the attributes [{id: "7", a: 1, b: 2}] and the argument
    [{id: 7, b: 3}] of a call of [set]. *)
Definition store_set : store :=
  Store {[ 0 := OPlain [("id", VStr "7"); ("a", VNum 1); ("b", VNum 2)];
           1 := OModel (Model 0 true);
           2 := OPlain [("id", VNum 7); ("b", VNum 3)] ]}
        3 {[ "7" := 1 ]} ∅ [].

(** The synced model 7 after [fetch(undefined, true)] was called on it. *)
Definition world_fetch_forced : world :=
  World (Store {[ 0 := OPlain [("id", VStr "7"); ("a", VNum 1)];
                  1 := OModel (Model 0 true); 2 := OPlain [] ]} 3 {[ "7" := 1 ]} ∅ [])
        [Op (MFetch 1 (VRef 2) true) [] Waiting Pending]
        {[ 1 := [0] ]} [].

(** The collection after the loop of [Collection.set] has seen the models
    [kms] with their keys, in this order. *)
Fixpoint add_members (co : collection) (kms : list (string * loc)) : collection :=
  match kms with
  | [] => co
  | (k, m) :: kms' => add_members (add_member co k m) kms'
  end.

(** An empty collection and the array [[{id: 1}, {id: 1}, {}, {}]]. *)
Definition store_dups : store :=
  Store {[ 0 := OColl (Collection VUndef [] ∅ false VUndef VUndef VUndef);
           1 := OPlain [("id", VNum 1)]; 2 := OPlain [("id", VNum 1)];
           3 := OPlain []; 4 := OPlain [];
           5 := OArr [VRef 1; VRef 2; VRef 3; VRef 4] ]} 6 ∅ ∅ [].

(** A synced collection of two synced models on which [fetch()] was
    called. *)
Definition world_coll_synced : world :=
  World store_c8 [Op (CFetch 4 (VRef 5) false) [] Waiting Pending] {[ 4 := [0] ]} [].

(** A collection with the default parameters [{kind: "topic", page: 1}] and
    the extra parameters [{page: 2}] of one call of [fetch]. *)
Definition store_fetch_params : store :=
  Store {[ 0 := OPlain [("kind", VStr "topic"); ("page", VNum 1)];
           1 := OColl (Collection (VRef 0) [] ∅ false VUndef VUndef VUndef);
           2 := OPlain [("page", VNum 2)] ]} 3 ∅ ∅ [].

(** ** ResourceManager

    The manager keeps [_resources], a dictionary from the resource name to
    the instance, and defines a property named [className] for every
    instance. An instance is known by a number; of its state, the two
    caches are kept, which [Resource.constructor] and [clearCache] set to
    empty dictionaries. *)

Record resource_state := ResourceState {
  rs_models : gmap string loc;
  rs_collections : gmap string loc;
}.

(** [Resource.clearCache()] on the state of one instance. *)
Definition rs_clearCache (_ : resource_state) : resource_state := ResourceState ∅ ∅.

(** A class given to [registerResource]: what its static [resourceName()]
    returns, and [None] when it throws, as the one of the base class does.
    The constructor is the one of [Resource]. *)
Record resource_class := ResourceClass {
  rc_resourceName : option value;
}.

Record manager := Manager {
  mg_resources : gmap string nat;
  mg_props : gmap string nat;
  mg_instances : gmap nat resource_state;
  mg_next : nat;
}.

(** [new ResourceManager(kolibri)] *)
Definition new_manager : manager := Manager ∅ ∅ ∅ 0.

(** The exceptions of [registerResource], in the order of the source; the
    last is the [TypeError] of [Object.defineProperty] on a property that a
    former call has defined. *)
Inductive mg_error : Type :=
  | NoClassName
  | NoResourceClass
  | ResourceNameThrows
  | NoResourceName
  | AlreadyRegistered
  | PropertyDefined.

Inductive mg_result (A : Type) : Type :=
  | MgOk (a : A)
  | MgError (e : mg_error)
  | MgUnmodelled.
Arguments MgOk {A} a.
Arguments MgError {A} e.
Arguments MgUnmodelled {A}.

(** The properties and methods of the manager itself: a [className] equal
    to one of them would replace it, which is left out of the embedding. *)
Definition manager_names : list string :=
  ["_kolibri"; "_resources"; "registerResource"; "clearCaches"].

(** [ResourceManager.registerResource(className, ResourceClass)]; a falsy
    [ResourceClass] is [None]. A resource name that is one of the
    [inherited_names] is found in [_resources] without being an own
    property, which is left out of the embedding. *)
Definition registerResource (className : value) (ResourceClass : option resource_class)
    (mg : manager) : mg_result nat * manager :=
  if negb (truthy className) then (MgError NoClassName, mg)
  else
    match ResourceClass with
    | None => (MgError NoResourceClass, mg)
    | Some rc =>
        match rc_resourceName rc with
        | None => (MgError ResourceNameThrows, mg)
        | Some name =>
            if negb (truthy name) then (MgError NoResourceName, mg)
            else if bool_decide (prop_key name ∈ inherited_names) then (MgUnmodelled, mg)
            else
              match mg_resources mg !! prop_key name with
              | Some _ => (MgError AlreadyRegistered, mg)
              | None =>
                  let r := mg_next mg in
                  let mg1 := Manager (<[prop_key name := r]> (mg_resources mg))
                                     (mg_props mg)
                                     (<[r := ResourceState ∅ ∅]> (mg_instances mg))
                                     (S r) in
                  if bool_decide (prop_key className ∈ manager_names)
                  then (MgUnmodelled, mg1)
                  else
                    match mg_props mg !! prop_key className with
                    | Some _ => (MgError PropertyDefined, mg1)
                    | None =>
                        (MgOk r,
                         Manager (mg_resources mg1)
                                 (<[prop_key className := r]> (mg_props mg1))
                                 (mg_instances mg1) (mg_next mg1))
                    end
              end
        end
    end.

(** [ResourceManager.clearCaches()] *)
Definition clearCaches (mg : manager) : manager :=
  Manager (mg_resources mg) (mg_props mg)
          (map_fold (λ _ r insts, alter rs_clearCache r insts)
                    (mg_instances mg) (mg_resources mg))
          (mg_next mg).

(** Every registered instance exists, below [mg_next]. *)
Definition mg_wf (mg : manager) : Prop :=
  map_Forall (λ _ r, r < mg_next mg ∧ is_Some (mg_instances mg !! r)) (mg_resources mg)
  ∧ map_Forall (λ _ r, r < mg_next mg) (mg_props mg)
  ∧ map_Forall (λ r _, r < mg_next mg) (mg_instances mg).

Global Instance mg_wf_dec mg : Decision (mg_wf mg).
Proof. unfold mg_wf. apply _. Defined.

Global Instance mg_error_eq_dec : EqDecision mg_error.
Proof. solve_decision. Defined.

(** A manager with one instance, whose model cache is not empty. *)
Definition manager_one : manager :=
  Manager {[ "a" := 0 ]} {[ "A" := 0 ]} {[ 0 := ResourceState {[ "7" := 1 ]} ∅ ]} 1.

(** ** [getCookie]

    A string is the list of its UTF-16 code units here, which is what
    [length], [substring], [split] and [===] work on. *)

Definition ustring : Type := list N.

(** The code units that [String.prototype.trim] removes: WhiteSpace (TAB,
    VT, FF, SP, NBSP, ZWNBSP and the space separators) and LineTerminator
    (LF, CR, LS, PS). *)
Definition is_white (c : N) : bool :=
  bool_decide (c ∈ [9; 10; 11; 12; 13; 32; 160; 5760; 8232; 8233; 8239; 8287; 12288; 65279]%N)
  || ((8192 <=? c) && (c <=? 8202))%N.

Fixpoint trim_start (s : ustring) : ustring :=
  match s with
  | [] => []
  | c :: s' => if is_white c then trim_start s' else s
  end.

(** [s.trim()] *)
Definition trim (s : ustring) : ustring :=
  reverse (trim_start (reverse (trim_start s))).

(** [s.split(sep)] for a separator of one code unit. *)
Fixpoint split_on (sep : N) (s : ustring) : list ustring :=
  match s with
  | [] => [[]]
  | c :: s' =>
      if (c =? sep)%N then [] :: split_on sep s'
      else match split_on sep s' with
           | seg :: segs => (c :: seg) :: segs
           | [] => [[c]]
           end
  end.

Definition semicolon : N := 59.
Definition equals_sign : N := 61.

(** What [getCookie] gives: [null], a string, or the [URIError] of
    [decodeURIComponent]. *)
Inductive cookie_result : Type :=
  | CookieNull
  | CookieValue (v : ustring)
  | CookieThrows.

(** The loop of [getCookie] over [cookies], from the index reached on;
    [decodeURIComponent] is a parameter, [None] being its [URIError]. *)
Fixpoint find_cookie (decodeURIComponent : ustring → option ustring) (name : ustring)
    (cookies : list ustring) : cookie_result :=
  match cookies with
  | [] => CookieNull
  | c :: cookies' =>
      let cookie := trim c in
      if bool_decide (take (length name + 1) cookie = name ++ [equals_sign])
      then match decodeURIComponent (drop (length name + 1) cookie) with
           | Some v => CookieValue v
           | None => CookieThrows
           end
      else find_cookie decodeURIComponent name cookies'
  end.

(** [getCookie(name)], with the value of [document.cookie]. *)
Definition getCookie (decodeURIComponent : ustring → option ustring)
    (document_cookie name : ustring) : cookie_result :=
  match document_cookie with
  | [] => CookieNull
  | _ => find_cookie decodeURIComponent name (split_on semicolon document_cookie)
  end.

(** A cookie string the way [document.cookie] reads:
    [name=value; name=value]. *)
Definition cookie_pair (p : ustring * ustring) : ustring := p.1 ++ equals_sign :: p.2.

Fixpoint cookie_string (jar : list (ustring * ustring)) : ustring :=
  match jar with
  | [] => []
  | [p] => cookie_pair p
  | p :: jar' => cookie_pair p ++ [semicolon; 32%N] ++ cookie_string jar'
  end.

(** The value of the first cookie of the jar with the name. *)
Fixpoint jar_lookup (name : ustring) (jar : list (ustring * ustring)) : option ustring :=
  match jar with
  | [] => None
  | (n, v) :: jar' => if decide (n = name) then Some v else jar_lookup name jar'
  end.

(** A name has no white space, [;] or [=]; a value no white space or [;]. *)
Definition name_ok (n : ustring) : Prop :=
  Forall (λ c, is_white c = false ∧ c ≠ semicolon ∧ c ≠ equals_sign) n.

Definition value_ok (v : ustring) : Prop :=
  Forall (λ c, is_white c = false ∧ c ≠ semicolon) v.


(** The code units of a text in ASCII. *)
Definition ustr (s : string) : ustring := N_of_ascii <$> list_ascii_of_string s.


(** The cached model 7, a model without an id that was posted, and the
    entity [{id: 7, b: 2}] of the answer. *)
Definition store_posted : store :=
  Store {[ 0 := OPlain [("id", VStr "7"); ("a", VNum 1)];
           1 := OModel (Model 0 true);
           2 := OPlain [("b", VNum 2)];
           3 := OModel (Model 2 false);
           4 := OPlain [("id", VNum 7); ("b", VNum 2)] ]}
        5 {[ "7" := 1 ]} ∅ [].

(** * Properties *)

(** ** Plain objects *)

Lemma obj_get_replace_eq k v o :
  is_Some (obj_get k o) → obj_get k (obj_replace k v o) = Some v.
Proof.
  induction o as [|[k' v'] o IH]; simpl; intros [x Hx]; [done|].
  destruct (decide (k = k')); simpl.
  - by rewrite decide_True.
  - rewrite decide_False by done. eauto.
Qed.

Lemma obj_get_replace_ne k k0 v o :
  k0 ≠ k → obj_get k0 (obj_replace k v o) = obj_get k0 o.
Proof.
  intros Hne. induction o as [|[k' v'] o IH]; simpl; [done|].
  destruct (decide (k = k')) as [->|]; simpl.
  - by rewrite !decide_False.
  - destruct (decide (k0 = k')); auto.
Qed.

Lemma obj_get_insert_eq k v o :
  obj_get k o = None → obj_get k (obj_insert k v o) = Some v.
Proof.
  induction o as [|[k' v'] o IH]; simpl; intros Hn.
  - by rewrite decide_True.
  - destruct (decide (k = k')); [done|].
    destruct (enum_before k k'); simpl.
    + by rewrite decide_True.
    + rewrite decide_False by done. auto.
Qed.

Lemma obj_get_insert_ne k k0 v o :
  k0 ≠ k → obj_get k0 (obj_insert k v o) = obj_get k0 o.
Proof.
  intros Hne. induction o as [|[k' v'] o IH]; simpl.
  - by rewrite decide_False.
  - destruct (enum_before k k'); simpl.
    + by rewrite (decide_False (P := k0 = k)).
    + destruct (decide (k0 = k')); auto.
Qed.

Lemma obj_get_set_eq k v o : obj_get k (obj_set k v o) = Some v.
Proof.
  unfold obj_set. destruct (obj_get k o) eqn:E.
  - apply obj_get_replace_eq; eauto.
  - by apply obj_get_insert_eq.
Qed.

Lemma obj_get_set_ne k k0 v o : k0 ≠ k → obj_get k0 (obj_set k v o) = obj_get k0 o.
Proof.
  intros. unfold obj_set. destruct (obj_get k o).
  - by apply obj_get_replace_ne.
  - by apply obj_get_insert_ne.
Qed.

Lemma obj_get_set k k0 v o :
  obj_get k0 (obj_set k v o) = if decide (k0 = k) then Some v else obj_get k0 o.
Proof.
  destruct (decide (k0 = k)) as [->|].
  - apply obj_get_set_eq.
  - by apply obj_get_set_ne.
Qed.

Lemma obj_get_Some_elem k v o : obj_get k o = Some v → (k, v) ∈ o.
Proof.
  induction o as [|[k' v'] o IH]; simpl; [done|].
  destruct (decide (k = k')) as [->|]; intros H.
  - injection H as ->. left.
  - right. auto.
Qed.

Lemma obj_get_None_keys k o : obj_get k o = None ↔ k ∉ obj_keys o.
Proof.
  unfold obj_keys. induction o as [|[k' v'] o IH]; simpl.
  - split; [intros _; apply not_elem_of_nil | done].
  - rewrite not_elem_of_cons. destruct (decide (k = k')) as [->|].
    + split; [done|]. intros [? _]. done.
    + rewrite IH. tauto.
Qed.

Lemma obj_get_NoDup k v o : NoDup (obj_keys o) → (k, v) ∈ o → obj_get k o = Some v.
Proof.
  unfold obj_keys. induction o as [|[k' v'] o IH]; simpl; intros Hnd Hin.
  - by apply elem_of_nil in Hin.
  - apply NoDup_cons in Hnd as [Hk Hnd]. apply elem_of_cons in Hin as [Heq|Hin].
    + injection Heq as -> ->. by rewrite decide_True.
    + destruct (decide (k = k')) as [->|]; [|auto].
      exfalso. apply Hk. apply list_elem_of_fmap. by exists (k', v).
Qed.

(** [Object.assign] reads the source from the left: the last property of a
    name wins, the target keeps what the source does not name. *)
Lemma obj_get_assign k t src :
  obj_get k (obj_assign t src) =
  match obj_get k (reverse src) with
  | Some v => Some v
  | None => obj_get k t
  end.
Proof.
  unfold obj_assign. revert t.
  induction src as [|[k' v'] src IH] using rev_ind; intros t; simpl; [done|].
  rewrite fold_left_app, reverse_snoc. simpl.
  rewrite obj_get_set. destruct (decide (k = k')); [done|]. apply IH.
Qed.

Lemma obj_get_reverse_NoDup k o : NoDup (obj_keys o) → obj_get k (reverse o) = obj_get k o.
Proof.
  intros Hnd. destruct (obj_get k o) as [v|] eqn:E.
  - apply obj_get_NoDup.
    + unfold obj_keys. rewrite fmap_reverse. by rewrite reverse_Permutation.
    + apply elem_of_reverse. by apply obj_get_Some_elem.
  - apply obj_get_None_keys. apply obj_get_None_keys in E.
    unfold obj_keys in *. rewrite fmap_reverse. by rewrite elem_of_reverse.
Qed.

Lemma js_get_set k k0 v o :
  js_get k0 (obj_set k v o) = if decide (k0 = k) then v else js_get k0 o.
Proof. unfold js_get. rewrite obj_get_set. by destruct (decide (k0 = k)). Qed.

(** ** Collection: the derived [synced] *)

Lemma fold_synced_iff h ms b :
  fold_left (λ synced m, synced && model_synced h m) ms b = true
  ↔ b = true ∧ ∀ m, m ∈ ms → model_synced h m = true.
Proof.
  revert b. induction ms as [|m ms IH]; intros b; simpl.
  - split; [intros ->; split; [done|]; intros m Hm; by apply elem_of_nil in Hm | tauto].
  - rewrite IH, andb_true_iff. split.
    + intros [[-> Hm] Hms]. split; [done|]. intros m' [->|Hin]%elem_of_cons; auto.
    + intros [-> H]. split; [split; [done|]|].
      * apply H. left.
      * intros m' Hin. apply H. by right.
Qed.

Lemma model_synced_insert_model h m mo b :
  model_synced (<[m := OModel (Model (m_attributes mo) b)]> h) m = b.
Proof. unfold model_synced. by rewrite lookup_insert_eq. Qed.

Lemma model_synced_insert_ne h l o m :
  l ≠ m → model_synced (<[l := o]> h) m = model_synced h m.
Proof. intros. unfold model_synced. by rewrite lookup_insert_ne. Qed.

(** C8. Reading [synced] of a collection gives true exactly when the own
    flag is true and the flag of every member is; writing it changes the own
    flag only, not the members nor their flags; setting the flag of one
    member to false makes the derived value false, and setting it back makes
    it true again when the own flag and the other members' flags are true. *)
Theorem collection_synced_derived (s : store) (c : loc) (co : collection) :
  heap s !! c = Some (OColl co) →
  (Collection_synced (heap s) co = true
   ↔ c_synced co = true ∧ ∀ m, m ∈ c_models co → model_synced (heap s) m = true)
  ∧ (∀ b, ∃ s' co',
        Collection_set_synced c b s = (Ret tt, s')
        ∧ heap s' !! c = Some (OColl co')
        ∧ c_synced co' = b
        ∧ c_models co' = c_models co
        ∧ ∀ m, model_synced (heap s') m = model_synced (heap s) m)
  ∧ (∀ m, m ∈ c_models co → is_model (heap s) m = true →
        ∃ s1, set_model_synced m false s = (Ret tt, s1)
          ∧ heap s1 !! c = Some (OColl co)
          ∧ Collection_synced (heap s1) co = false
          ∧ (c_synced co = true →
             (∀ m', m' ∈ c_models co → m' ≠ m → model_synced (heap s) m' = true) →
             ∃ s2, set_model_synced m true s1 = (Ret tt, s2)
               ∧ heap s2 !! c = Some (OColl co)
               ∧ Collection_synced (heap s2) co = true)).
Proof.
  intros Hc. split; [apply fold_synced_iff|]. split.
  - intros b. unfold Collection_set_synced, bind, read_coll, write, modify.
    rewrite Hc. eexists _, _. split; [reflexivity|]. simpl.
    rewrite lookup_insert_eq. split; [reflexivity|]. split; [done|]. split; [done|].
    intros m. unfold model_synced. destruct (decide (c = m)) as [<-|Hne].
    + by rewrite lookup_insert_eq, Hc.
    + by rewrite lookup_insert_ne.
  - intros m Hin Hm. unfold is_model in Hm.
    destruct (heap s !! m) as [[| |mo|]|] eqn:Em; try done.
    assert (m ≠ c) as Hne by (intros ->; congruence).
    unfold set_model_synced, bind, read_model, write, modify. rewrite Em.
    eexists. split; [reflexivity|]. simpl.
    split; [by rewrite lookup_insert_ne|]. split.
    + apply not_true_is_false. intros [_ H]%fold_synced_iff.
      specialize (H m Hin). by rewrite model_synced_insert_model in H.
    + intros Hown Hothers. rewrite lookup_insert_eq. eexists. split; [reflexivity|].
      simpl. split; [by rewrite !lookup_insert_ne|].
      apply fold_synced_iff. split; [done|]. intros m' Hin'.
      destruct (decide (m' = m)) as [->|Hne'].
      * apply (model_synced_insert_model _ m mo true).
      * rewrite !model_synced_insert_ne by done. auto.
Qed.

Lemma collection_synced_derived_witness :
  Collection_synced (heap store_c8)
    (Collection VUndef [1; 3] ∅ true VUndef VUndef VUndef) = true.
Proof.
  apply (collection_synced_derived store_c8 4
           (Collection VUndef [1; 3] ∅ true VUndef VUndef VUndef)).
  - reflexivity.
  - split; [reflexivity|]. intros m Hm.
    apply elem_of_cons in Hm as [->|Hm]; [reflexivity|].
    apply elem_of_cons in Hm as [->|Hm]; [reflexivity|].
    by apply elem_of_nil in Hm.
Defined.

(** ** Running the code: basic steps *)

Lemma bind_Ret {A B} (c : M A) (k : A → M B) s a s' :
  c s = (Ret a, s') → bind c k s = k a s'.
Proof. unfold bind. by intros ->. Qed.

Lemma read_model_Ret s m mo :
  heap s !! m = Some (OModel mo) → read_model m s = (Ret mo, s).
Proof. unfold read_model. by intros ->. Qed.

Lemma read_plain_Ret s l fs :
  heap s !! l = Some (OPlain fs) → read_plain l s = (Ret fs, s).
Proof. unfold read_plain. by intros ->. Qed.

Lemma read_coll_Ret s c co :
  heap s !! c = Some (OColl co) → read_coll c s = (Ret co, s).
Proof. unfold read_coll. by intros ->. Qed.

Lemma Model_id_Ret s m mo fs :
  heap s !! m = Some (OModel mo) →
  heap s !! m_attributes mo = Some (OPlain fs) →
  Model_id m s = (Ret (js_get idKey fs), s).
Proof.
  intros Hm Ha. unfold Model_id.
  rewrite (bind_Ret _ _ _ _ _ (read_model_Ret _ _ _ Hm)).
  by rewrite (bind_Ret _ _ _ _ _ (read_plain_Ret _ _ _ Ha)).
Qed.

(** ** The scheduler: basic facts *)

Lemma is_fulfilled_app ops o d :
  is_fulfilled ops d = true → is_fulfilled (ops ++ [o]) d = true.
Proof.
  unfold is_fulfilled. destruct (ops !! d) as [x|] eqn:E; [|done].
  by rewrite (lookup_app_l_Some _ _ _ _ E).
Qed.

Lemma forallb_is_fulfilled_app ops o deps :
  forallb (is_fulfilled ops) deps = true →
  forallb (is_fulfilled (ops ++ [o])) deps = true.
Proof.
  rewrite !forallb_forall. intros H d Hd. apply is_fulfilled_app. auto.
Qed.

Lemma issue_op k w :
  w_ops (issue k w) !! length (w_ops w)
  = Some (Op k (queue_of w (op_target k)) Waiting Pending).
Proof. unfold issue. simpl. by rewrite lookup_app_r, Nat.sub_diag by lia. Qed.

Lemma issue_queue k w :
  queue_of (issue k w) (op_target k) = queue_of w (op_target k) ++ [length (w_ops w)].
Proof. unfold issue, queue_of. simpl. by rewrite lookup_insert_eq. Qed.

(** ** Model: [delete] without an id *)

Lemma Model_delete_body_no_id s m mo fs :
  heap s !! m = Some (OModel mo) →
  heap s !! m_attributes mo = Some (OPlain fs) →
  truthy (js_get idKey fs) = false →
  Model_delete_body m s = (Ret (Reject no_id_reason), s).
Proof.
  intros Hm Ha Hid. unfold Model_delete_body.
  rewrite (bind_Ret _ _ _ _ _ (Model_id_Ret _ _ _ _ Hm Ha)).
  by rewrite Hid.
Qed.

(** C6. On a model whose attributes hold no id (or an empty one), the body
    of [delete], whenever it runs, rejects the promise with the reason
    ['Can not delete model that we do not have an id for'] and leaves the
    list of transport calls and the store as they are; calling [delete()]
    calls nothing either, and with no unfulfilled promise queued on the
    model the body does run. *)
Theorem delete_without_id (w : world) (m : loc) (mo : model) (fs : fields) :
  heap (w_store w) !! m = Some (OModel mo) →
  heap (w_store w) !! m_attributes mo = Some (OPlain fs) →
  truthy (js_get idKey fs) = false →
  (∀ p deps w',
      w_ops w !! p = Some (Op (MDelete m) deps Waiting Pending) →
      step (EStart p) w = Some w' →
      w_ops w' !! p = Some (Op (MDelete m) deps Completed (Rejected no_id_reason))
      ∧ w_requests w' = w_requests w
      ∧ w_store w' = w_store w)
  ∧ ∃ w1,
      step (ECall (CallModelDelete m)) w = Some w1
      ∧ w_requests w1 = w_requests w
      ∧ w_store w1 = w_store w
      ∧ w_ops w1 !! length (w_ops w)
        = Some (Op (MDelete m) (queue_of w m) Waiting Pending)
      ∧ (forallb (is_fulfilled (w_ops w)) (queue_of w m) = true →
         ∃ w2,
           step (EStart (length (w_ops w))) w1 = Some w2
           ∧ w_ops w2 !! length (w_ops w)
             = Some (Op (MDelete m) (queue_of w m) Completed (Rejected no_id_reason))
           ∧ w_requests w2 = w_requests w
           ∧ w_store w2 = w_store w).
Proof.
  intros Hm Ha Hid.
  assert (∀ w0 p deps w',
             w_store w0 = w_store w →
             w_ops w0 !! p = Some (Op (MDelete m) deps Waiting Pending) →
             step (EStart p) w0 = Some w' →
             w_ops w' !! p = Some (Op (MDelete m) deps Completed (Rejected no_id_reason))
             ∧ w_requests w' = w_requests w0
             ∧ w_store w' = w_store w0) as Hbody.
  { intros w0 p deps w' Hs Hp. simpl. rewrite Hp.
    destruct (forallb _ deps); [|done]. simpl. rewrite Hs.
    rewrite (Model_delete_body_no_id _ _ _ _ Hm Ha Hid).
    intros [= <-]. simpl. rewrite list_lookup_alter_eq, Hp. done. }
  split; [intros p deps w'; by apply Hbody|].
  exists (issue (MDelete m) w). simpl.
  unfold is_Model. rewrite Hm. split; [done|]. split; [done|]. split; [done|].
  split; [apply (issue_op (MDelete m))|].
  intros Hq.
  pose proof (issue_op (MDelete m) w) as Hp. simpl in Hp.
  assert (∃ w2, step (EStart (length (w_ops w))) (issue (MDelete m) w) = Some w2)
    as [w2 Hw2].
  { simpl. rewrite Hp. rewrite forallb_is_fulfilled_app by done. simpl.
    rewrite (Model_delete_body_no_id _ _ _ _ Hm Ha Hid). eauto. }
  exists w2. split; [done|].
  exact (Hbody (issue (MDelete m) w) _ _ _ eq_refl Hp Hw2).
Qed.

Lemma forallb_is_fulfilled_app_l ops os deps :
  forallb (is_fulfilled ops) deps = true →
  forallb (is_fulfilled (ops ++ os)) deps = true.
Proof.
  rewrite !forallb_forall. intros H d Hd. specialize (H d Hd).
  unfold is_fulfilled in *. destruct (ops !! d) as [x|] eqn:E; [|done].
  by rewrite (lookup_app_l_Some _ _ _ _ E).
Qed.

(** ** Model: [fetch] on a synced model *)

Lemma wf_bounded s l o : wf_store s → heap s !! l = Some o → l < next_loc s.
Proof. intros (Hb & _) Hl. by apply (Hb l o). Qed.

Lemma wf_model_attrs s m mo :
  wf_store s → heap s !! m = Some (OModel mo) →
  ∃ fs, heap s !! m_attributes mo = Some (OPlain fs).
Proof.
  intros (_ & Hok & _) Hm. specialize (Hok m _ Hm). simpl in Hok.
  unfold is_plain in Hok.
  destruct (heap s !! m_attributes mo) as [[fs| | |]|]; try done. by exists fs.
Qed.

Lemma default_object_spec v s :
  ∃ v' s', default_object v s = (Ret v', s')
    ∧ next_loc s ≤ next_loc s'
    ∧ ∀ l, l < next_loc s → heap s' !! l = heap s !! l.
Proof.
  destruct v; simpl; try (eexists _, _; split; [reflexivity|]; split; [lia|done]).
  unfold bind, alloc, ret. eexists _, _. split; [reflexivity|]. simpl.
  split; [lia|]. intros l Hl. apply lookup_insert_ne. lia.
Qed.

Lemma Model_fetch_body_synced s m mo params :
  heap s !! m = Some (OModel mo) → m_synced mo = true →
  Model_fetch_body m params false s = (Ret (Resolve (VRef (m_attributes mo))), s).
Proof.
  intros Hm Hs. unfold Model_fetch_body.
  rewrite (bind_Ret _ _ _ _ _ (read_model_Ret _ _ _ Hm)). by rewrite Hs.
Qed.

Lemma step_fetch_synced w p m mo params deps w' :
  heap (w_store w) !! m = Some (OModel mo) → m_synced mo = true →
  w_ops w !! p = Some (Op (MFetch m params false) deps Waiting Pending) →
  step (EStart p) w = Some w' →
  w_ops w' = alter (λ o, Op (op_kind_of o) (op_deps o) Completed
                          (Fulfilled (VRef (m_attributes mo)))) p (w_ops w)
  ∧ w_queues w' = w_queues w
  ∧ w_requests w' = w_requests w
  ∧ w_store w' = w_store w.
Proof.
  intros Hm Hs Hp. simpl. rewrite Hp. destruct (forallb _ deps); [|done]. simpl.
  rewrite (Model_fetch_body_synced _ _ _ _ Hm Hs). by intros [= <-].
Qed.

Lemma step_fetch_synced_enabled w p m mo params deps :
  heap (w_store w) !! m = Some (OModel mo) → m_synced mo = true →
  w_ops w !! p = Some (Op (MFetch m params false) deps Waiting Pending) →
  forallb (is_fulfilled (w_ops w)) deps = true →
  ∃ w', step (EStart p) w = Some w'.
Proof.
  intros Hm Hs Hp Hd. simpl. rewrite Hp, Hd. simpl.
  rewrite (Model_fetch_body_synced _ _ _ _ Hm Hs). eauto.
Qed.

Lemma step_call_fetch w m mo params force :
  wf_store (w_store w) →
  heap (w_store w) !! m = Some (OModel mo) →
  ∃ params' s',
    step (ECall (CallModelFetch m params force)) w
    = Some (issue (MFetch m params' force) (set_store s' w))
    ∧ next_loc (w_store w) ≤ next_loc s'
    ∧ ∀ l, l < next_loc (w_store w) → heap s' !! l = heap (w_store w) !! l.
Proof.
  intros Hwf Hm. simpl. unfold is_Model. rewrite Hm.
  destruct (default_object_spec params (w_store w)) as (v' & s' & -> & Hn & Hh).
  by exists v', s'.
Qed.

(** C4. On a synced model the body of an unforced [fetch], whenever it
    runs, fulfils the promise with the attributes object of the model and
    leaves the list of transport calls and the store as they are. Two
    unforced [fetch()] calls in a row on a synced model with no unfulfilled
    promise queued are both fulfilled with that same object, whose content is
    unchanged, and the transport is not called at all. *)
Theorem fetch_synced_from_cache (w : world) (m : loc) (mo : model) :
  wf_store (w_store w) →
  heap (w_store w) !! m = Some (OModel mo) →
  m_synced mo = true →
  (∀ p params deps w',
      w_ops w !! p = Some (Op (MFetch m params false) deps Waiting Pending) →
      step (EStart p) w = Some w' →
      w_ops w' !! p = Some (Op (MFetch m params false) deps Completed
                              (Fulfilled (VRef (m_attributes mo))))
      ∧ w_requests w' = w_requests w
      ∧ w_store w' = w_store w)
  ∧ (∀ params1 params2,
        forallb (is_fulfilled (w_ops w)) (queue_of w m) = true →
        ∃ w', run [ECall (CallModelFetch m params1 false);
                   ECall (CallModelFetch m params2 false);
                   EStart (length (w_ops w));
                   EStart (S (length (w_ops w)))] w = Some w'
          ∧ op_state <$> w_ops w' !! length (w_ops w)
            = Some (Fulfilled (VRef (m_attributes mo)))
          ∧ op_state <$> w_ops w' !! S (length (w_ops w))
            = Some (Fulfilled (VRef (m_attributes mo)))
          ∧ w_requests w' = w_requests w
          ∧ heap (w_store w') !! m = Some (OModel mo)
          ∧ heap (w_store w') !! m_attributes mo
            = heap (w_store w) !! m_attributes mo).
Proof.
  intros Hwf Hm Hs. split.
  - intros p params deps w' Hp Hstep.
    destruct (step_fetch_synced _ _ _ _ _ _ _ Hm Hs Hp Hstep) as (Ho & _ & Hr & Hst).
    rewrite Ho, list_lookup_alter_eq, Hp. done.
  - intros params1 params2 Hq.
    destruct (wf_model_attrs _ _ _ Hwf Hm) as [fs Ha].
    pose proof (wf_bounded _ _ _ Hwf Hm) as Hmb.
    pose proof (wf_bounded _ _ _ Hwf Ha) as Hab.
    (* first call *)
    destruct (step_call_fetch w m mo params1 false Hwf Hm)
      as (p1 & s1 & Hc1 & Hn1 & Hh1).
    set (w1 := issue (MFetch m p1 false) (set_store s1 w)) in *.
    assert (heap (w_store w1) !! m = Some (OModel mo)) as Hm1
        by (simpl; rewrite Hh1; done).
    (* second call *)
    assert (∃ p2 s2, step (ECall (CallModelFetch m params2 false)) w1
                     = Some (issue (MFetch m p2 false) (set_store s2 w1))
                     ∧ ∀ l, l < next_loc (w_store w) → heap s2 !! l = heap (w_store w) !! l)
      as (p2 & s2 & Hc2 & Hh2).
    { simpl. unfold is_Model. simpl in Hm1. rewrite Hm1.
      destruct (default_object_spec params2 s1) as (v' & s' & -> & Hn & Hh).
      exists v', s'. split; [done|]. intros l Hl. rewrite Hh by lia. by apply Hh1. }
    set (w2 := issue (MFetch m p2 false) (set_store s2 w1)) in *.
    assert (heap (w_store w2) !! m = Some (OModel mo)) as Hm2
        by (simpl; rewrite Hh2; done).
    set (n := length (w_ops w)) in *.
    assert (w_ops w2 = w_ops w ++ [Op (MFetch m p1 false) (queue_of w m) Waiting Pending;
                                   Op (MFetch m p2 false) (queue_of w m ++ [n]) Waiting Pending])
      as Hops2.
    { pose proof (issue_queue (MFetch m p1 false) (set_store s1 w)) as Hq1.
      unfold w2. unfold issue at 1. simpl. fold w1 in Hq1. rewrite <- app_assoc.
      change (queue_of (set_store s2 w1) m) with (queue_of w1 m).
      simpl in Hq1. by rewrite Hq1. }
    (* the body of the first *)
    assert (w_ops w2 !! n = Some (Op (MFetch m p1 false) (queue_of w m) Waiting Pending))
      as Hp1.
    { rewrite Hops2. by rewrite lookup_app_r, Nat.sub_diag by (unfold n; lia). }
    assert (∃ w3, step (EStart n) w2 = Some w3) as [w3 Hw3].
    { apply (step_fetch_synced_enabled _ _ _ _ _ _ Hm2 Hs Hp1).
      rewrite Hops2. by apply forallb_is_fulfilled_app_l. }
    destruct (step_fetch_synced _ _ _ _ _ _ _ Hm2 Hs Hp1 Hw3) as (Ho3 & Hq3 & Hr3 & Hst3).
    (* the body of the second *)
    assert (w_ops w3 = w_ops w ++ [Op (MFetch m p1 false) (queue_of w m) Completed
                                      (Fulfilled (VRef (m_attributes mo)));
                                   Op (MFetch m p2 false) (queue_of w m ++ [n]) Waiting Pending])
      as Hops3.
    { rewrite Ho3, Hops2. rewrite alter_app_r_alt by (unfold n; lia).
      by rewrite Nat.sub_diag. }
    assert (w_ops w3 !! S n
            = Some (Op (MFetch m p2 false) (queue_of w m ++ [n]) Waiting Pending)) as Hp2.
    { rewrite Hops3. rewrite lookup_app_r by (unfold n; lia).
      by replace (S n - length (w_ops w)) with 1 by (unfold n; lia). }
    assert (heap (w_store w3) !! m = Some (OModel mo)) as Hm3 by (by rewrite Hst3).
    assert (∃ w4, step (EStart (S n)) w3 = Some w4) as [w4 Hw4].
    { apply (step_fetch_synced_enabled _ _ _ _ _ _ Hm3 Hs Hp2).
      rewrite forallb_app. rewrite Hops3.
      rewrite forallb_is_fulfilled_app_l by done. simpl.
      unfold is_fulfilled. rewrite lookup_app_r by (unfold n; lia).
      by rewrite Nat.sub_diag. }
    destruct (step_fetch_synced _ _ _ _ _ _ _ Hm3 Hs Hp2 Hw4) as (Ho4 & Hq4 & Hr4 & Hst4).
    exists w4. split.
    { unfold run. rewrite Hc1. fold w1. rewrite Hc2. fold w2. by rewrite Hw3, Hw4. }
    rewrite Ho4, Hops3.
    split. { rewrite list_lookup_alter_ne by lia.
             by rewrite lookup_app_r, Nat.sub_diag by (unfold n; lia). }
    split. { rewrite list_lookup_alter_eq. rewrite lookup_app_r by (unfold n; lia).
             by replace (S n - length (w_ops w)) with 1 by (unfold n; lia). }
    split. { by rewrite Hr4, Hr3. }
    rewrite Hst4, Hst3. split; [done|]. simpl. by rewrite Hh2.
Qed.

Lemma delete_without_id_witness :
  ∃ w2, run [ECall (CallModelDelete 1); EStart 0] world_idless = Some w2
    ∧ op_state <$> w_ops w2 !! 0 = Some (Rejected no_id_reason)
    ∧ w_requests w2 = [].
Proof.
  destruct (delete_without_id world_idless 1 (Model 0 false) [("a", VNum 1)]
              eq_refl eq_refl eq_refl) as [_ (w1 & H1 & _ & _ & _ & H2)].
  destruct (H2 eq_refl) as (w2 & Hs & Ho & Hr & _).
  change (length (w_ops world_idless)) with 0 in Hs, Ho.
  exists w2. split; [|split].
  - unfold run. by rewrite H1, Hs.
  - by rewrite Ho.
  - exact Hr.
Defined.

Lemma fetch_synced_from_cache_witness :
  ∃ w', run [ECall (CallModelFetch 1 VUndef false);
             ECall (CallModelFetch 1 VUndef false);
             EStart 0; EStart 1] world_synced = Some w'
    ∧ op_state <$> w_ops w' !! 0 = Some (Fulfilled (VRef 0))
    ∧ op_state <$> w_ops w' !! 1 = Some (Fulfilled (VRef 0))
    ∧ w_requests w' = [].
Proof.
  assert (wf_store (w_store world_synced)) as Hwf
      by (apply (bool_decide_unpack _); vm_compute; exact I).
  destruct (fetch_synced_from_cache world_synced 1 (Model 0 true)
              Hwf eq_refl eq_refl) as [_ H].
  destruct (H VUndef VUndef eq_refl) as (w' & Hrun & H0 & H1 & Hr & _).
  exists w'. split; [exact Hrun|]. split; [exact H0|]. split; [exact H1|exact Hr].
Defined.

(** ** [Model.set] *)

Lemma write_Ret l o s : write l o s = (Ret tt, set_heap (<[l := o]> (heap s)) s).
Proof. reflexivity. Qed.

Lemma set_heap_id s : set_heap (heap s) s = s.
Proof. by destruct s. Qed.

Lemma obj_get_coerce_id k fs :
  obj_get k (coerce_id fs)
  = if decide (k = idKey) then (λ v, VStr (js_String v)) <$> obj_get idKey fs
    else obj_get k fs.
Proof.
  unfold coerce_id, obj_has, js_get.
  destruct (obj_get idKey fs) as [v|] eqn:E.
  - rewrite bool_decide_true by eauto. rewrite obj_get_set.
    by destruct (decide (k = idKey)).
  - rewrite bool_decide_false by (intros [? ?]; done).
    destruct (decide (k = idKey)) as [->|]; [by rewrite E|done].
Qed.

(** ** The fragment of the embedding *)

Lemma elem_of_obj_keys k o : k ∈ obj_keys o ↔ is_Some (obj_get k o).
Proof.
  destruct (obj_get k o) as [v|] eqn:E.
  - split; [by eexists|]. intros _. apply obj_get_Some_elem in E.
    unfold obj_keys. apply list_elem_of_fmap. by exists (k, v).
  - split; [|by intros [? ?]]. intros Hin. by apply obj_get_None_keys in E.
Qed.

Lemma proto_key_coerce_id fs :
  proto_key ∈ obj_keys (coerce_id fs) ↔ proto_key ∈ obj_keys fs.
Proof. by rewrite !elem_of_obj_keys, obj_get_coerce_id, decide_False by done. Qed.

Lemma proto_key_assign t src :
  proto_key ∈ obj_keys (obj_assign t src)
  ↔ proto_key ∈ obj_keys src ∨ proto_key ∈ obj_keys t.
Proof.
  rewrite !elem_of_obj_keys, obj_get_assign.
  assert (is_Some (obj_get proto_key (reverse src)) ↔ is_Some (obj_get proto_key src)) as <-.
  { rewrite <- !elem_of_obj_keys. unfold obj_keys. by rewrite fmap_reverse, elem_of_reverse. }
  destruct (obj_get proto_key (reverse src)); [|split; [auto|intros [[? ?]|?]; done]].
  split; [left; by eexists|by eexists].
Qed.

Lemma mergeable_proto fs : mergeable fs = true → proto_key ∉ obj_keys fs.
Proof.
  unfold mergeable. intros [H _]%andb_true_iff.
  by apply negb_true_iff, bool_decide_eq_false in H.
Qed.

Lemma mergeable_stringable fs : mergeable fs = true → stringable (js_get idKey fs) = true.
Proof. unfold mergeable. by intros [_ H]%andb_true_iff. Qed.

Lemma own_key_stringable v : own_key v = true → stringable v = true.
Proof. unfold own_key. by intros [H _]%andb_true_iff. Qed.

Lemma own_key_inherited v : own_key v = true → prop_key v ∉ inherited_names.
Proof.
  unfold own_key. intros [_ H]%andb_true_iff.
  by apply negb_true_iff, bool_decide_eq_false in H.
Qed.

Lemma own_key_String v : own_key v = true → own_key (VStr (js_String v)) = true.
Proof. unfold own_key. intros [_ H]%andb_true_iff. exact H. Qed.

Lemma own_key_ext v k :
  own_key v = true → prop_key v = k → own_key (VStr k) = true.
Proof. intros H <-. by apply own_key_String. Qed.

Lemma cacheable_mergeable fs : cacheable fs = true → mergeable fs = true.
Proof.
  unfold cacheable, mergeable. intros [H1 H2]%andb_true_iff.
  by rewrite H1, (own_key_stringable _ H2).
Qed.

Lemma cacheable_own_key fs : cacheable fs = true → own_key (js_get idKey fs) = true.
Proof. unfold cacheable. by intros [_ H]%andb_true_iff. Qed.

Lemma mergeable_coerce_id fs : mergeable fs = true → mergeable (coerce_id fs) = true.
Proof.
  intros H. unfold mergeable. apply andb_true_iff. split.
  - apply negb_true_iff, bool_decide_eq_false. rewrite proto_key_coerce_id.
    by apply mergeable_proto.
  - unfold js_get. rewrite obj_get_coerce_id, decide_True by done.
    by destruct (obj_get idKey fs).
Qed.

Lemma cacheable_coerce_id fs : cacheable fs = true → cacheable (coerce_id fs) = true.
Proof.
  intros H. unfold cacheable. apply andb_true_iff. split.
  - apply negb_true_iff, bool_decide_eq_false. rewrite proto_key_coerce_id.
    by apply mergeable_proto, cacheable_mergeable.
  - apply cacheable_own_key in H. unfold js_get in *.
    rewrite obj_get_coerce_id, decide_True by done.
    destruct (obj_get idKey fs) as [v|]; [|done]. by apply own_key_String.
Qed.

Lemma Object_assign_plain_Ret s t l tfs sfs :
  heap s !! t = Some (OPlain tfs) → heap s !! l = Some (OPlain sfs) →
  proto_key ∉ obj_keys sfs →
  Object_assign t (VRef l) s
  = (Ret tt, set_heap (<[t := OPlain (obj_assign tfs sfs)]> (heap s)) s).
Proof.
  intros Ht Hl Hp. unfold Object_assign, bind, gets, own_enumerable. rewrite Hl.
  rewrite bool_decide_false by done. unfold read_plain. by rewrite Ht.
Qed.

(** [Model.set] with a plain object [l]: the id of [l] is made a string in
    place, then the properties of [l] are assigned to the attributes. *)
Lemma Model_set_plain s m mo cur l fs :
  heap s !! m = Some (OModel mo) →
  heap s !! m_attributes mo = Some (OPlain cur) →
  heap s !! l = Some (OPlain fs) →
  mergeable fs = true →
  Model_set m (VRef l) s
  = (Ret tt,
     set_heap (<[m_attributes mo :=
                   OPlain (obj_assign (if decide (l = m_attributes mo)
                                       then coerce_id fs else cur) (coerce_id fs))]>
                 (<[l := OPlain (coerce_id fs)]> (heap s))) s).
Proof.
  intros Hm Ha Hl Hok. unfold Model_set.
  pose proof (mergeable_proto _ Hok) as Hproto.
  pose proof (mergeable_stringable _ Hok) as Hstr.
  rewrite (bind_Ret _ _ _ _ _ (read_model_Ret _ _ _ Hm)). simpl.
  unfold bind at 1. unfold bind at 1. unfold read_obj. rewrite Hl. simpl.
  unfold coerce_id. destruct (obj_has idKey fs) eqn:Hhas.
  - rewrite Hstr, write_Ret.
    set (fs' := obj_set idKey (VStr (js_String (js_get idKey fs))) fs).
    assert (proto_key ∉ obj_keys fs') as Hproto'.
    { pose proof (proto_key_coerce_id fs) as H. unfold coerce_id in H.
      rewrite Hhas in H. fold fs' in H. by rewrite H. }
    destruct (decide (l = m_attributes mo)) as [->|Hne].
    + rewrite (Object_assign_plain_Ret _ _ _ fs' fs'); [done| | |done];
        simpl; by rewrite lookup_insert_eq.
    + rewrite (Object_assign_plain_Ret _ _ _ cur fs'); [done| | |done]; simpl.
      * by rewrite lookup_insert_ne.
      * by rewrite lookup_insert_eq.
  - unfold ret. rewrite (Object_assign_plain_Ret _ _ _ cur fs Ha Hl Hproto).
    rewrite (insert_id (heap s) l) by done.
    destruct (decide (l = m_attributes mo)) as [->|Hne]; [|done].
    rewrite Ha in Hl. by injection Hl as ->.
Qed.

(** ** [Model.save]: the request *)

Lemma dirty_fold k attrs cur keys acc :
  obj_get k (fold_left (λ payload key,
                          if dirty key attrs cur
                          then obj_set key (js_get key attrs) payload
                          else payload) keys acc)
  = if bool_decide (k ∈ keys) && dirty k attrs cur
    then Some (js_get k attrs)
    else obj_get k acc.
Proof.
  revert acc. induction keys as [|key keys IH]; intros acc; cbn [fold_left].
  - rewrite bool_decide_false by apply not_elem_of_nil. done.
  - rewrite IH. destruct (decide (k = key)) as [->|Hne].
    + rewrite (bool_decide_true (key ∈ key :: keys)) by left.
      destruct (dirty key attrs cur) eqn:Hd.
      * rewrite andb_true_r. cbn [andb]. rewrite obj_get_set_eq.
        by destruct (bool_decide _).
      * by rewrite !andb_false_r.
    + assert (bool_decide (k ∈ key :: keys) = bool_decide (k ∈ keys)) as ->.
      { apply bool_decide_ext. rewrite elem_of_cons. tauto. }
      destruct (bool_decide (k ∈ keys) && _); [done|].
      destruct (dirty key attrs cur); [|done].
      by apply obj_get_set_ne.
Qed.

(** The payload of a synced model holds exactly the properties of [attrs]
    whose value differs ([!==]) from what [this.attributes[key]] finds: the
    attribute of the same name or, when there is none, the inherited member
    of that name (which differs from every value) or [undefined]. *)
Lemma dirty_payload_spec attrs cur k v :
  obj_get k (dirty_payload attrs cur) = Some v
  ↔ obj_get k attrs = Some v
    ∧ match obj_get k cur with
      | Some c => strict_eq v c = false
      | None => k ∈ inherited_names ∨ strict_eq v VUndef = false
      end.
Proof.
  unfold dirty_payload. rewrite dirty_fold. cbn [obj_get].
  assert (∀ x, dirty k attrs cur = true ∧ js_get k attrs = x
               ↔ js_get k attrs = x
                 ∧ match obj_get k cur with
                   | Some c => strict_eq x c = false
                   | None => k ∈ inherited_names ∨ strict_eq x VUndef = false
                   end) as Hd.
  { intros x. unfold dirty. split.
    - intros [Hd <-]. split; [done|]. destruct (obj_get k cur) as [c|].
      + by apply negb_true_iff.
      + apply orb_true_iff in Hd as [Hd|Hd]; [left; by apply bool_decide_eq_true in Hd|].
        right. by apply negb_true_iff.
    - intros [<- Hd]. split; [|done]. destruct (obj_get k cur) as [c|].
      + by apply negb_true_iff.
      + apply orb_true_iff. destruct Hd as [Hd|Hd]; [left; by apply bool_decide_eq_true|].
        right. by apply negb_true_iff. }
  destruct (obj_get k attrs) as [x|] eqn:E.
  - assert (js_get k attrs = x) as Hx by (unfold js_get; by rewrite E).
    rewrite bool_decide_true.
    2:{ apply elem_of_obj_keys. by eexists. }
    cbn [andb]. rewrite Hx. specialize (Hd x).
    destruct (dirty k attrs cur) eqn:Hs.
    + split.
      * intros [= <-]. split; [done|]. by apply Hd.
      * by intros [[= <-] _].
    + split; [done|]. intros [[= <-] H].
      assert (false = true ∧ js_get k attrs = x) as [? _]; [|done].
      apply Hd. done.
  - rewrite bool_decide_false by (by apply obj_get_None_keys). cbn [andb].
    split; [done|]. by intros [? _].
Qed.

Lemma obj_keys_nil_length (fs : fields) : length (obj_keys fs) = 0 ↔ fs = [].
Proof. unfold obj_keys. rewrite length_fmap. apply length_zero_iff_nil. Qed.

Lemma id_of_lookup h m mo fs :
  h !! m = Some (OModel mo) → h !! m_attributes mo = Some (OPlain fs) →
  id_of h m = js_get idKey fs.
Proof. intros Hm Ha. unfold id_of, attrs_of. by rewrite Hm, Ha. Qed.

(** C3. The request that [save(attrs)] builds, for an object [attrs] without
    a property [__proto__] (and, on a model that is not synced, with an id
    that is [stringable]). For a synced model the payload is a new object
    holding exactly the properties of [attrs] whose value differs from the
    attribute of that name, the attribute being what [this.attributes[key]]
    reads: the own property, else the member every object inherits under
    that name (which no value of [attrs] equals), else [undefined]. For a
    model that is not synced it is the attributes object itself, after
    [attrs] has been merged into it. With an empty payload the promise is resolved at once and the
    transport is not called. Otherwise the payload is sent with [PATCH] to
    the url of the model when the model has an id, and posted to the
    collection url of the resource when it has none. *)
Theorem save_request (s : store) (m : loc) (mo : model) (cur : fields)
    (al : loc) (afs : fields) :
  wf_store s →
  heap s !! m = Some (OModel mo) →
  heap s !! m_attributes mo = Some (OPlain cur) →
  heap s !! al = Some (OPlain afs) →
  (if m_synced mo then proto_key ∉ obj_keys afs else mergeable afs = true) →
  ∃ act s' payload pfs,
    Model_save_body m (VRef al) s = (Ret act, s')
    ∧ heap s' !! payload = Some (OPlain pfs)
    ∧ (if m_synced mo
       then payload = next_loc s
            ∧ ∀ k v, obj_get k pfs = Some v
                     ↔ obj_get k afs = Some v
                       ∧ match obj_get k cur with
                         | Some c => strict_eq v c = false
                         | None => k ∈ inherited_names ∨ strict_eq v VUndef = false
                         end
       else payload = m_attributes mo
            ∧ pfs = obj_assign (if decide (al = m_attributes mo)
                                then coerce_id afs else cur) (coerce_id afs))
    ∧ (pfs = [] → act = Resolve (VRef (m_attributes mo)))
    ∧ (pfs ≠ [] →
       ∃ rq, act = Call rq
         ∧ rq_entity rq = Some (VRef payload)
         ∧ if truthy (id_of (heap s') m)
           then rq_path rq = ModelUrl (id_of (heap s') m)
                ∧ effective_method rq = "PATCH"
           else rq_path rq = CollectionUrl
                ∧ effective_method rq = "POST").
Proof.
  intros Hwf Hm Ha Hl Hok.
  pose proof (wf_bounded _ _ _ Hwf Hm) as Hmb.
  pose proof (wf_bounded _ _ _ Hwf Ha) as Hab.
  pose proof (wf_bounded _ _ _ Hwf Hl) as Hlb.
  set (p0 := next_loc s).
  set (s1 := Store (<[p0 := OPlain []]> (heap s)) (S p0)
                   (r_models s) (r_collections s) (logged s)).
  assert (heap s1 !! m = Some (OModel mo)) as Hm1
      by (simpl; rewrite lookup_insert_ne by (unfold p0; lia); done).
  assert (heap s1 !! m_attributes mo = Some (OPlain cur)) as Ha1
      by (simpl; rewrite lookup_insert_ne by (unfold p0; lia); done).
  assert (heap s1 !! al = Some (OPlain afs)) as Hl1
      by (simpl; rewrite lookup_insert_ne by (unfold p0; lia); done).
  unfold Model_save_body.
  rewrite (bind_Ret _ _ s p0 s1) by reflexivity.
  rewrite (bind_Ret _ _ _ _ _ (read_model_Ret _ _ _ Hm1)).
  destruct (m_synced mo) eqn:Hsynced.
  - (* synced: the dirty check *)
    set (pfs := dirty_payload afs cur).
    set (s2 := set_heap (<[p0 := OPlain pfs]> (heap s1)) s1).
    assert (heap s2 !! m = Some (OModel mo)) as Hm2
        by (simpl; rewrite !lookup_insert_ne by (unfold p0; lia); done).
    assert (heap s2 !! m_attributes mo = Some (OPlain cur)) as Ha2
        by (simpl; rewrite !lookup_insert_ne by (unfold p0; lia); done).
    assert (heap s2 !! p0 = Some (OPlain pfs)) as Hp2
        by (simpl; by rewrite lookup_insert_eq).
    rewrite (bind_Ret _ _ s1 p0 s2).
    2:{ unfold Object_entries, bind, gets, own_enumerable. rewrite Hl1. simpl.
        unfold read_plain. simpl in Ha1. simpl. rewrite Ha1.
        rewrite bool_decide_false by done. reflexivity. }
    rewrite (bind_Ret _ _ _ _ _ (read_plain_Ret _ _ _ Hp2)).
    destruct (decide (pfs = [])) as [Hemp|Hne].
    + rewrite bool_decide_true by (by apply obj_keys_nil_length).
      eexists _, s2, p0, pfs. split; [reflexivity|]. split; [done|].
      split; [split; [done|]; intros k v; apply dirty_payload_spec|].
      split; [done|]. done.
    + rewrite bool_decide_false by (by rewrite obj_keys_nil_length).
      set (s3 := set_heap (<[m := OModel (Model (m_attributes mo) false)]> (heap s2)) s2).
      assert (heap s3 !! m = Some (OModel (Model (m_attributes mo) false))) as Hm3
          by (simpl; by rewrite lookup_insert_eq).
      assert (heap s3 !! m_attributes mo = Some (OPlain cur)) as Ha3.
      { simpl. rewrite lookup_insert_ne; [exact Ha2|].
        intros ->. simpl in Ha2, Hm2. congruence. }
      assert (heap s3 !! p0 = Some (OPlain pfs)) as Hp3
          by (simpl; rewrite lookup_insert_ne by (unfold p0; lia);
              by rewrite lookup_insert_eq).
      rewrite (bind_Ret _ _ s2 tt s3).
      2:{ unfold set_model_synced. by rewrite (bind_Ret _ _ _ _ _ (read_model_Ret _ _ _ Hm2)). }
      rewrite (bind_Ret _ _ _ _ _ (Model_id_Ret _ _ _ _ Hm3 Ha3)).
      rewrite (id_of_lookup _ _ _ _ Hm3 Ha3) || idtac.
      destruct (truthy (js_get idKey cur)) eqn:Hid.
      * eexists _, s3, p0, pfs. split; [reflexivity|]. split; [done|].
        split; [split; [done|]; intros k v; apply dirty_payload_spec|].
        split; [done|]. intros _. eexists. split; [reflexivity|]. split; [done|].
        rewrite (id_of_lookup _ _ _ _ Hm3 Ha3), Hid. done.
      * eexists _, s3, p0, pfs. split; [reflexivity|]. split; [done|].
        split; [split; [done|]; intros k v; apply dirty_payload_spec|].
        split; [done|]. intros _. eexists. split; [reflexivity|]. split; [done|].
        rewrite (id_of_lookup _ _ _ _ Hm3 Ha3), Hid. done.
  - (* not synced: the attributes after the merge *)
    set (pfs := obj_assign (if decide (al = m_attributes mo)
                            then coerce_id afs else cur) (coerce_id afs)).
    set (s2 := set_heap (<[m_attributes mo := OPlain pfs]>
                           (<[al := OPlain (coerce_id afs)]> (heap s1))) s1).
    assert (m ≠ m_attributes mo) as Hma by (intros E; rewrite <- E in Ha; congruence).
    assert (m ≠ al) as Hmal by (intros E; rewrite <- E in Hl; congruence).
    assert (heap s2 !! m = Some (OModel mo)) as Hm2
        by (simpl; rewrite !lookup_insert_ne by (try done; unfold p0; lia); done).
    assert (heap s2 !! m_attributes mo = Some (OPlain pfs)) as Ha2
        by (simpl; by rewrite lookup_insert_eq).
    rewrite (bind_Ret _ _ s1 (m_attributes mo) s2).
    2:{ by rewrite (bind_Ret _ _ _ _ _ (Model_set_plain _ _ _ _ _ _ Hm1 Ha1 Hl1 Hok)). }
    rewrite (bind_Ret _ _ _ _ _ (read_plain_Ret _ _ _ Ha2)).
    destruct (decide (pfs = [])) as [Hemp|Hne].
    + rewrite bool_decide_true by (by apply obj_keys_nil_length).
      eexists _, s2, (m_attributes mo), pfs. split; [reflexivity|]. split; [done|].
      split; [done|]. split; [done|]. done.
    + rewrite bool_decide_false by (by rewrite obj_keys_nil_length).
      set (s3 := set_heap (<[m := OModel (Model (m_attributes mo) false)]> (heap s2)) s2).
      assert (heap s3 !! m = Some (OModel (Model (m_attributes mo) false))) as Hm3
          by (simpl; by rewrite lookup_insert_eq).
      assert (heap s3 !! m_attributes mo = Some (OPlain pfs)) as Ha3
          by (simpl; rewrite lookup_insert_ne by done; by rewrite lookup_insert_eq).
      rewrite (bind_Ret _ _ s2 tt s3).
      2:{ unfold set_model_synced. by rewrite (bind_Ret _ _ _ _ _ (read_model_Ret _ _ _ Hm2)). }
      rewrite (bind_Ret _ _ _ _ _ (Model_id_Ret _ _ _ _ Hm3 Ha3)).
      destruct (truthy (js_get idKey pfs)) eqn:Hid.
      * eexists _, s3, (m_attributes mo), pfs. split; [reflexivity|]. split; [done|].
        split; [done|]. split; [done|].
        intros _. eexists. split; [reflexivity|]. split; [done|].
        rewrite (id_of_lookup _ _ _ _ Hm3 Ha3), Hid. done.
      * eexists _, s3, (m_attributes mo), pfs. split; [reflexivity|]. split; [done|].
        split; [done|]. split; [done|].
        intros _. eexists. split; [reflexivity|]. split; [done|].
        rewrite (id_of_lookup _ _ _ _ Hm3 Ha3), Hid. done.
Qed.

Lemma save_request_witness :
  ∃ rq s', Model_save_body 1 (VRef 2) (w_store world_new_model) = (Ret (Call rq), s')
    ∧ rq_path rq = CollectionUrl
    ∧ effective_method rq = "POST"
    ∧ rq_entity rq = Some (VRef 0)
    ∧ heap s' !! 0 = Some (OPlain [("a", VNum 1)]).
Proof.
  assert (wf_store (w_store world_new_model)) as Hwf
      by (apply (bool_decide_unpack _); vm_compute; exact I).
  destruct (save_request (w_store world_new_model) 1 (Model 0 false) []
              2 [("a", VNum 1)] Hwf eq_refl eq_refl eq_refl eq_refl)
    as (act & s' & payload & pfs & Hbody & Hp & [-> ->] & _ & Hcall).
  destruct (Hcall ltac:(discriminate)) as (rq & -> & Hent & Hm).
  vm_compute in Hbody. injection Hbody as <- <-.
  eexists _, _. split; [reflexivity|]. vm_compute. auto.
Defined.

(** The scenario of the specification: [save({a: 1})] on a new model posts
    the attributes to the collection url; after the answer [{id: 7, a: 1}]
    the model is cached under its id and synced, and [save({a: 1, b: 2})]
    sends a [PATCH] to the url of model 7 whose payload is exactly
    [{b: 2}]. *)
Example save_post_then_patch :
  ∃ w, run [ECall (CallModelSave 1 (VRef 2)); EStart 0;
            EResponse 0 (WObj [("id", WNum 7); ("a", WNum 1)]);
            ECall (CallModelSave 1 (VRef 3)); EStart 1] world_new_model = Some w
    ∧ w_requests w
      = [(0, Request CollectionUrl None None (Some (VRef 0)) true);
         (1, Request (ModelUrl (VStr "7")) (Some "PATCH") None (Some (VRef 6)) true)]
    ∧ heap (w_store w) !! 6 = Some (OPlain [("b", VNum 2)])
    ∧ r_models (w_store w) !! "7" = Some 1.
Proof. eexists. split; [vm_compute; reflexivity|]. vm_compute. auto. Qed.

(** ** Well-formed stores are kept by the steps of the code *)

Lemma wf_cache_model s k m :
  wf_store s → r_models s !! k = Some m → ∃ mo, heap s !! m = Some (OModel mo).
Proof.
  intros (_ & _ & _ & Hc) Hk. specialize (Hc k m Hk). simpl in Hc.
  unfold is_model in Hc. destruct (heap s !! m) as [[| |mo|]|]; try done. by exists mo.
Qed.

Lemma wf_attrs_apart s m1 m2 mo1 mo2 :
  wf_store s →
  heap s !! m1 = Some (OModel mo1) → heap s !! m2 = Some (OModel mo2) →
  m_attributes mo1 = m_attributes mo2 → m1 = m2.
Proof. intros (_ & _ & Hi & _) H1 H2. exact (Hi _ _ H1 _ _ H2). Qed.

Lemma wf_coll_members s c co m :
  wf_store s → heap s !! c = Some (OColl co) → m ∈ c_models co →
  ∃ mo, heap s !! m = Some (OModel mo).
Proof.
  intros (_ & Hok & _) Hc Hin. destruct (Hok c _ Hc) as [Hms _].
  rewrite Forall_forall in Hms. specialize (Hms m Hin). unfold is_model in Hms.
  destruct (heap s !! m) as [[| |mo|]|]; try done. by exists mo.
Qed.

Lemma wf_coll_map s c co k m :
  wf_store s → heap s !! c = Some (OColl co) → c_model_map co !! k = Some m →
  m ∈ c_models co.
Proof. intros (_ & Hok & _) Hc Hk. destruct (Hok c _ Hc) as [_ Hmap]. exact (Hmap k m Hk). Qed.

Lemma is_plain_insert h l o a :
  (∀ o0, h !! l = Some o0 → same_kind o0 o) →
  is_plain h a = true → is_plain (<[l := o]> h) a = true.
Proof.
  intros Hk. unfold is_plain. destruct (decide (l = a)) as [->|Hne].
  - rewrite lookup_insert_eq. destruct (h !! a) as [o0|] eqn:E; [|done].
    specialize (Hk o0 eq_refl). by destruct o0, o.
  - by rewrite lookup_insert_ne.
Qed.

Lemma is_model_insert h l o m :
  (∀ o0, h !! l = Some o0 → same_kind o0 o) →
  is_model h m = true → is_model (<[l := o]> h) m = true.
Proof.
  intros Hk. unfold is_model. destruct (decide (l = m)) as [->|Hne].
  - rewrite lookup_insert_eq. destruct (h !! m) as [o0|] eqn:E; [|done].
    specialize (Hk o0 eq_refl). by destruct o0, o.
  - by rewrite lookup_insert_ne.
Qed.

Lemma obj_ok_insert h l o o' :
  (∀ o0, h !! l = Some o0 → same_kind o0 o) →
  obj_ok h o' → obj_ok (<[l := o]> h) o'.
Proof.
  intros Hk. destruct o' as [fs0|vs0|mo|co]; simpl; try done.
  - intros H. apply Is_true_true. apply Is_true_true in H. by apply is_plain_insert.
  - intros [Hms Hmap]. split; [|done].
    eapply Forall_impl; [exact Hms|]. simpl. intros m H.
    apply Is_true_true. apply Is_true_true in H. by apply is_model_insert.
Qed.

(** Storing [o] at [l], a new location or one that holds an object of the
    same class. *)
Lemma wf_insert s l o n' :
  wf_store s →
  next_loc s ≤ n' → l < n' →
  (∀ o0, heap s !! l = Some o0 → same_kind o0 o) →
  obj_ok (<[l := o]> (heap s)) o →
  (∀ mo l2 mo2, o = OModel mo → heap s !! l2 = Some (OModel mo2) → l2 ≠ l →
                m_attributes mo2 ≠ m_attributes mo) →
  wf_store (Store (<[l := o]> (heap s)) n' (r_models s) (r_collections s) (logged s)).
Proof.
  intros (Hb & Hok & Hap & Hc) Hn Hl Hk Ho Hfresh.
  split; [|split; [|split]]; simpl.
  - intros l' o' Hl'. destruct (decide (l = l')) as [->|Hne]; [done|].
    rewrite lookup_insert_ne in Hl' by done. specialize (Hb _ _ Hl'). simpl in Hb. lia.
  - intros l' o' Hl'. destruct (decide (l = l')) as [->|Hne].
    + rewrite lookup_insert_eq in Hl'. by injection Hl' as <-.
    + rewrite lookup_insert_ne in Hl' by done. apply obj_ok_insert; [done|].
      exact (Hok _ _ Hl').
  - intros l1 o1 H1 l2 o2 H2.
    destruct (decide (l1 = l)) as [->|Hne1]; destruct (decide (l2 = l)) as [->|Hne2].
    + destruct o1, o2; simpl; done.
    + rewrite lookup_insert_eq in H1. injection H1 as <-.
      rewrite lookup_insert_ne in H2 by done.
      destruct o as [| |mo|], o2 as [| |mo2|]; simpl; try done.
      intros E. exfalso. by apply (Hfresh mo l2 mo2 eq_refl H2).
    + rewrite lookup_insert_eq in H2. injection H2 as <-.
      rewrite lookup_insert_ne in H1 by done.
      destruct o as [| |mo|], o1 as [| |mo1|]; simpl; try done.
      intros E. exfalso. by apply (Hfresh mo l1 mo1 eq_refl H1).
    + rewrite lookup_insert_ne in H1, H2 by done. exact (Hap _ _ H1 _ _ H2).
  - intros k m Hk'. specialize (Hc k m Hk'). simpl in Hc.
    apply Is_true_true. apply Is_true_true in Hc. by apply is_model_insert.
Qed.

Lemma wf_set_r_models s cache :
  wf_store s →
  (∀ k m, cache !! k = Some m → is_model (heap s) m = true) →
  wf_store (set_r_models cache s).
Proof.
  intros (Hb & Hok & Hap & Hc) H. split; [done|]. split; [done|]. split; [done|].
  simpl. intros k m Hk. apply Is_true_true. eauto.
Qed.

Lemma wf_add_log s e : wf_store s → wf_store (add_log e s).
Proof. by intros (Hb & Hok & Hap & Hc). Qed.

Lemma wf_alloc_plain s fs :
  wf_store s → NoDup (obj_keys fs) → wf_store (alloc (OPlain fs) s).2.
Proof.
  intros Hwf Ho. unfold alloc. simpl. apply wf_insert; try done; try lia.
  intros o0 Hl. apply (wf_bounded _ _ _ Hwf) in Hl. lia.
Qed.

Lemma wf_alloc_arr s vs : wf_store s → wf_store (alloc (OArr vs) s).2.
Proof.
  intros Hwf. unfold alloc. simpl. apply wf_insert; try done; try lia.
  intros o0 Hl. apply (wf_bounded _ _ _ Hwf) in Hl. lia.
Qed.

Lemma wf_plain_NoDup s l fs :
  wf_store s → heap s !! l = Some (OPlain fs) → NoDup (obj_keys fs).
Proof. intros (_ & Hok & _) Hl. exact (Hok l _ Hl). Qed.

Lemma wf_write_plain s l fs fs' :
  wf_store s → heap s !! l = Some (OPlain fs) → NoDup (obj_keys fs') →
  wf_store (set_heap (<[l := OPlain fs']> (heap s)) s).
Proof.
  intros Hwf Hl Hnd. unfold set_heap. apply wf_insert; try done.
  - by apply (wf_bounded _ _ _ Hwf Hl).
  - intros o0. rewrite Hl. by intros [= <-].
Qed.

Lemma wf_write_synced s m mo b :
  wf_store s → heap s !! m = Some (OModel mo) →
  wf_store (set_heap (<[m := OModel (Model (m_attributes mo) b)]> (heap s)) s).
Proof.
  intros Hwf Hm. unfold set_heap. apply wf_insert; try done.
  - by apply (wf_bounded _ _ _ Hwf Hm).
  - intros o0. rewrite Hm. by intros [= <-].
  - simpl. apply Is_true_true. apply is_plain_insert.
    + intros o0. rewrite Hm. by intros [= <-].
    + destruct (wf_model_attrs _ _ _ Hwf Hm) as [fs Ha]. unfold is_plain. by rewrite Ha.
  - intros mo' l2 mo2 [= <-] H2 Hne E. simpl in E.
    apply Hne. exact (wf_attrs_apart _ _ _ _ _ Hwf H2 Hm E).
Qed.

Lemma wf_write_coll s c co co' :
  wf_store s → heap s !! c = Some (OColl co) →
  (∀ m, m ∈ c_models co' → is_model (heap s) m = true) →
  (∀ k m, c_model_map co' !! k = Some m → m ∈ c_models co') →
  wf_store (set_heap (<[c := OColl co']> (heap s)) s).
Proof.
  intros Hwf Hc Hms Hmap. unfold set_heap. apply wf_insert; try done.
  - by apply (wf_bounded _ _ _ Hwf Hc).
  - intros o0. rewrite Hc. by intros [= <-].
  - simpl. split; [|exact Hmap]. apply Forall_forall. intros m Hm.
    apply Is_true_true. apply is_model_insert; [|by apply Hms].
    intros o0. rewrite Hc. by intros [= <-].
Qed.

(** ** The names of the properties stay distinct *)

Lemma obj_keys_replace k v o : obj_keys (obj_replace k v o) = obj_keys o.
Proof.
  unfold obj_keys. induction o as [|[k' v'] o IH]; simpl; [done|].
  destruct (decide (k = k')) as [->|]; simpl; [done|]. by f_equal.
Qed.

Lemma obj_keys_insert k v o : obj_keys (obj_insert k v o) ≡ₚ k :: obj_keys o.
Proof.
  unfold obj_keys. induction o as [|[k' v'] o IH]; simpl; [done|].
  destruct (enum_before k k'); simpl; [done|].
  rewrite IH. apply Permutation_swap.
Qed.

Lemma NoDup_obj_set k v o : NoDup (obj_keys o) → NoDup (obj_keys (obj_set k v o)).
Proof.
  intros Hnd. unfold obj_set. destruct (obj_get k o) eqn:E.
  - by rewrite obj_keys_replace.
  - rewrite obj_keys_insert. apply NoDup_cons. split; [|done].
    by apply obj_get_None_keys.
Qed.

Lemma NoDup_obj_assign t src :
  NoDup (obj_keys t) → NoDup (obj_keys (obj_assign t src)).
Proof.
  unfold obj_assign. revert t. induction src as [|[k v] src IH]; intros t Ht; simpl.
  - done.
  - apply IH. by apply NoDup_obj_set.
Qed.

Lemma NoDup_coerce_id fs : NoDup (obj_keys fs) → NoDup (obj_keys (coerce_id fs)).
Proof.
  intros Hnd. unfold coerce_id. destruct (obj_has idKey fs); [|done].
  by apply NoDup_obj_set.
Qed.

Lemma NoDup_new_attrs fs : NoDup (obj_keys (new_attrs fs)).
Proof. apply NoDup_obj_assign. apply NoDup_nil_2. Qed.

Lemma NoDup_dirty_payload attrs cur : NoDup (obj_keys (dirty_payload attrs cur)).
Proof.
  unfold dirty_payload.
  assert (∀ keys acc, NoDup (obj_keys acc) →
            NoDup (obj_keys (fold_left (λ payload key,
               if dirty key attrs cur
               then obj_set key (js_get key attrs) payload
               else payload) keys acc))) as H.
  { induction keys as [|key keys IH]; intros acc Hacc; simpl; [done|].
    apply IH. destruct (dirty _ _ _); [|done]. by apply NoDup_obj_set. }
  apply H. apply NoDup_nil_2.
Qed.

Lemma obj_get_assign_NoDup k t src :
  NoDup (obj_keys src) →
  obj_get k (obj_assign t src)
  = match obj_get k src with Some v => Some v | None => obj_get k t end.
Proof. intros Hnd. by rewrite obj_get_assign, obj_get_reverse_NoDup. Qed.

Lemma obj_get_new_attrs k fs :
  NoDup (obj_keys fs) → obj_get k (new_attrs fs) = obj_get k (coerce_id fs).
Proof.
  intros Hnd. unfold new_attrs.
  rewrite obj_get_assign_NoDup by (by apply NoDup_coerce_id).
  by destruct (obj_get k (coerce_id fs)).
Qed.

Lemma obj_replace_same k v o : obj_get k o = Some v → obj_replace k v o = o.
Proof.
  induction o as [|[k' v'] o IH]; simpl; [done|].
  destruct (decide (k = k')) as [->|]; intros H.
  - by injection H as ->.
  - by rewrite IH.
Qed.

(** The id of a property list that [Model.set] has gone through is a string
    or absent, and going through it again changes nothing. *)
Lemma coerce_id_id fs :
  js_get idKey (coerce_id fs) = VUndef ∧ obj_get idKey fs = None
  ∨ ∃ v, obj_get idKey fs = Some v ∧ js_get idKey (coerce_id fs) = VStr (js_String v).
Proof.
  unfold js_get. rewrite obj_get_coerce_id. rewrite decide_True by done.
  destruct (obj_get idKey fs) as [v|]; simpl; [right; eauto | left; done].
Qed.

Lemma coerce_id_idem fs : coerce_id (coerce_id fs) = coerce_id fs.
Proof.
  unfold coerce_id at 1. unfold obj_has.
  destruct (obj_get idKey (coerce_id fs)) as [v|] eqn:E.
  - rewrite bool_decide_true by eauto. unfold obj_set. rewrite E.
    apply obj_replace_same. rewrite E. f_equal.
    unfold js_get. rewrite E. simpl.
    rewrite obj_get_coerce_id, decide_True in E by done.
    destruct (obj_get idKey fs); simpl in E; [|done]. by injection E as <-.
  - by rewrite bool_decide_false by (intros [? ?]; done).
Qed.

Lemma coerce_id_new_attrs fs :
  NoDup (obj_keys fs) → coerce_id (new_attrs fs) = new_attrs fs.
Proof.
  intros Hnd. unfold coerce_id at 1. unfold obj_has.
  destruct (obj_get idKey (new_attrs fs)) as [v|] eqn:E.
  - rewrite bool_decide_true by eauto. unfold obj_set. rewrite E.
    apply obj_replace_same. rewrite E. f_equal.
    unfold js_get. rewrite E. simpl.
    rewrite obj_get_new_attrs, obj_get_coerce_id, decide_True in E by done.
    destruct (obj_get idKey fs); simpl in E; [|done]. by injection E as <-.
  - by rewrite bool_decide_false by (intros [? ?]; done).
Qed.

Lemma js_get_new_attrs k fs :
  NoDup (obj_keys fs) → js_get k (new_attrs fs) = js_get k (coerce_id fs).
Proof. intros. unfold js_get. by rewrite obj_get_new_attrs. Qed.

(** ** [new Model], [createModel], [addModel] on a plain object *)

Lemma lookup_same (h : gmap nat obj) l o o' : h !! l = Some o → h !! l = Some o' → o = o'.
Proof. congruence. Qed.

Lemma mergeable_new_attrs fs :
  NoDup (obj_keys fs) → mergeable fs = true → mergeable (new_attrs fs) = true.
Proof.
  intros Hnd H. apply mergeable_coerce_id in H.
  unfold mergeable. apply andb_true_iff. split.
  - apply negb_true_iff, bool_decide_eq_false. unfold new_attrs.
    rewrite proto_key_assign. intros [Hin|Hin]; [|by apply elem_of_nil in Hin].
    by apply (mergeable_proto _ H).
  - rewrite js_get_new_attrs by done. by apply mergeable_stringable.
Qed.

Lemma new_Model_plain s d fs :
  wf_store s → heap s !! d = Some (OPlain fs) → mergeable fs = true →
  let n := next_loc s in
  let s' := Store (<[n := OPlain (new_attrs fs)]>
                     (<[d := OPlain (coerce_id fs)]>
                        (<[S n := OModel (Model n false)]>
                           (<[n := OPlain []]> (heap s)))))
                  (S (S n)) (r_models s) (r_collections s) (logged s) in
  new_Model (VRef d) s = (Ret (S n), s') ∧ wf_store s'.
Proof.
  intros Hwf Hd Hok n s'.
  pose proof (wf_bounded _ _ _ Hwf Hd) as Hdb. fold n in Hdb.
  pose proof (wf_plain_NoDup _ _ _ Hwf Hd) as Hnd.
  set (s1 := Store (<[n := OPlain []]> (heap s)) (S n)
                   (r_models s) (r_collections s) (logged s)).
  set (s2 := Store (<[S n := OModel (Model n false)]> (heap s1)) (S (S n))
                   (r_models s) (r_collections s) (logged s)).
  assert (wf_store s1) as Hwf1 by (apply (wf_alloc_plain s []); [done|apply NoDup_nil_2]).
  assert (wf_store s2) as Hwf2.
  { unfold s2. apply (wf_insert s1); try done; simpl; try lia.
    - intros o0 Hl. apply (wf_bounded _ _ _ Hwf1) in Hl. simpl in Hl. lia.
    - apply Is_true_true. unfold is_plain.
      rewrite lookup_insert_ne by lia. by rewrite lookup_insert_eq.
    - intros mo l2 mo2 [= <-] H2 Hne. simpl. intros E.
      destruct (decide (l2 = n)) as [->|Hn].
      + rewrite lookup_insert_eq in H2. done.
      + rewrite lookup_insert_ne in H2 by done.
        destruct (wf_model_attrs _ _ _ Hwf H2) as [fs2 Ha2].
        apply (wf_bounded _ _ _ Hwf) in Ha2. fold n in Ha2. lia. }
  assert (heap s2 !! S n = Some (OModel (Model n false))) as Hm2
      by (simpl; by rewrite lookup_insert_eq).
  assert (heap s2 !! n = Some (OPlain [])) as Ha2
      by (simpl; rewrite lookup_insert_ne by lia; by rewrite lookup_insert_eq).
  assert (heap s2 !! d = Some (OPlain fs)) as Hd2
      by (simpl; rewrite !lookup_insert_ne by lia; done).
  split.
  - unfold new_Model.
    rewrite (bind_Ret _ _ s n s1) by reflexivity.
    rewrite (bind_Ret _ _ s1 (S n) s2) by reflexivity.
    rewrite (bind_Ret _ _ _ _ _ (Model_set_plain s2 (S n) _ _ _ _ Hm2 Ha2 Hd2 Hok)).
    simpl. rewrite decide_False by lia. reflexivity.
  - unfold s'.
    assert (wf_store (set_heap (<[d := OPlain (coerce_id fs)]> (heap s2)) s2)) as Hwf3
        by (eapply wf_write_plain; [done|exact Hd2|by apply NoDup_coerce_id]).
    apply (wf_write_plain _ n [] (new_attrs fs)) in Hwf3; [exact Hwf3| |apply NoDup_new_attrs].
    simpl. rewrite lookup_insert_ne by lia. rewrite lookup_insert_ne by lia.
    by rewrite lookup_insert_eq.
Qed.

Lemma id_new_attrs fs :
  NoDup (obj_keys fs) → js_get idKey (new_attrs fs) = js_get idKey (coerce_id fs).
Proof. apply js_get_new_attrs. Qed.

(** A truthy id that went through [Model.set] is a non-empty string, which
    is its own property key. *)
Lemma coerce_id_key fs :
  truthy (js_get idKey (coerce_id fs)) = true →
  js_get idKey (coerce_id fs) = VStr (prop_key (js_get idKey (coerce_id fs)))
  ∧ prop_key (js_get idKey (coerce_id fs)) ≠ EmptyString.
Proof.
  destruct (coerce_id_id fs) as [[-> _]|(v & _ & ->)]; [done|].
  simpl. intros H. split; [done|]. intros E. by rewrite E in H.
Qed.

(** [addModel(data)] for a plain object [data] at [d]: a new model is built
    from it; without an id the new model is returned; with an id that the
    cache does not have the new model is cached and returned; with an id
    that the cache has, the attributes of the new model are merged into the
    cached one, which is returned. *)
Lemma addModel_plain s d fs :
  wf_store s → heap s !! d = Some (OPlain fs) → cacheable fs = true →
  let n := next_loc s in
  let idv := js_get idKey (coerce_id fs) in
  let key := prop_key idv in
  ∃ m s',
    addModel (VRef d) s = (Ret m, s')
    ∧ createModel (VRef d) s = (Ret m, s')
    ∧ addModel_post s d fs m s'.
Proof.
  intros Hwf Hd Hok n idv key.
  pose proof (wf_bounded _ _ _ Hwf Hd) as Hdb. fold n in Hdb.
  pose proof (wf_plain_NoDup _ _ _ Hwf Hd) as Hnd.
  pose proof (cacheable_mergeable _ Hok) as Hmerge.
  assert (own_key idv = true) as Hown
      by (apply cacheable_own_key; by apply cacheable_coerce_id).
  destruct (new_Model_plain s d fs Hwf Hd Hmerge) as [Hnew Hwf3]. fold n in Hnew, Hwf3.
  set (s3 := Store (<[n := OPlain (new_attrs fs)]>
                     (<[d := OPlain (coerce_id fs)]>
                        (<[S n := OModel (Model n false)]>
                           (<[n := OPlain []]> (heap s)))))
                  (S (S n)) (r_models s) (r_collections s) (logged s)) in *.
  assert (heap s3 !! S n = Some (OModel (Model n false))) as Hm3.
  { simpl. rewrite lookup_insert_ne by lia. rewrite lookup_insert_ne by lia.
    by rewrite lookup_insert_eq. }
  assert (heap s3 !! n = Some (OPlain (new_attrs fs))) as Ha3
      by (simpl; by rewrite lookup_insert_eq).
  assert (heap s3 !! d = Some (OPlain (coerce_id fs))) as Hd3.
  { simpl. rewrite lookup_insert_ne by lia. by rewrite lookup_insert_eq. }
  assert (∀ l, l < n → l ≠ d → heap s3 !! l = heap s !! l) as Hframe3.
  { intros l Hl Hld. simpl. rewrite !lookup_insert_ne by lia. done. }
  assert (addModel (VRef d) s = createModel (VRef d) s) as Hadd.
  { unfold addModel, bind, gets, is_Model. by rewrite Hd. }
  rewrite Hadd.
  cut (∃ m s', createModel (VRef d) s = (Ret m, s') ∧ addModel_post s d fs m s').
  { intros (m & s' & Hc & Hrest). exists m, s'. split; [done|]. split; [done|]. exact Hrest. }
  unfold addModel_post. fold n idv key.
  unfold createModel. rewrite (bind_Ret _ _ _ _ _ Hnew).
  unfold addModel_instance.
  rewrite (bind_Ret _ _ _ _ _ (Model_id_Ret _ _ _ _ Hm3 Ha3)).
  rewrite (id_new_attrs _ Hnd). fold idv.
  destruct (truthy idv) eqn:Hid.
  2:{ (* no id *)
      exists (S n), s3. split; [done|]. split; [done|].
      split; [done|]. split; [done|]. split; [done|].
      split; [unfold is_model; by rewrite Hm3|].
      split; [rewrite (id_of_lookup _ _ _ _ Hm3 Ha3); by apply id_new_attrs|].
      split; [done|]. split; [done|]. split; [intros _; exact Hd3|].
      done. }
  rewrite Hown. cbn [negb].
  unfold bind at 1. unfold gets at 1. fold key.
  destruct (r_models s !! key) as [c0|] eqn:Hcache.
  - (* the id is cached *)
    change (r_models s3 !! key) with (r_models s !! key). rewrite Hcache.
    destruct (wf_cache_model _ _ _ Hwf Hcache) as [mo0 Hc0].
    destruct (wf_model_attrs _ _ _ Hwf Hc0) as [cur0 Ha0].
    pose proof (wf_bounded _ _ _ Hwf Hc0) as Hc0b. fold n in Hc0b.
    pose proof (wf_bounded _ _ _ Hwf Ha0) as Ha0b. fold n in Ha0b.
    assert (c0 ≠ d) as Hc0d by (intros ->; congruence).
    assert (heap s3 !! c0 = Some (OModel mo0)) as Hc3 by (by rewrite Hframe3).
    set (cur3 := if decide (d = m_attributes mo0) then coerce_id fs else cur0).
    assert (heap s3 !! m_attributes mo0 = Some (OPlain cur3)) as Hcur3.
    { unfold cur3. destruct (decide (d = m_attributes mo0)) as [<-|Hne].
      - simpl. rewrite lookup_insert_ne by lia. by rewrite lookup_insert_eq.
      - by rewrite Hframe3. }
    pose proof (Model_set_plain s3 c0 mo0 cur3 n (new_attrs fs) Hc3 Hcur3 Ha3
                  (mergeable_new_attrs _ Hnd Hmerge)) as Hset.
    rewrite decide_False in Hset by lia.
    rewrite (coerce_id_new_attrs _ Hnd) in Hset.
    rewrite (insert_id (heap s3) n) in Hset by done.
    set (s4 := set_heap (<[m_attributes mo0 := OPlain (obj_assign cur3 (new_attrs fs))]>
                           (heap s3)) s3) in *.
    rewrite (bind_Ret _ _ s3 tt s4).
    2:{ by rewrite (bind_Ret _ _ _ _ _ (read_model_Ret _ _ _ Hm3)). }
    assert (heap s4 !! S n = Some (OModel (Model n false))) as Hm4
        by (simpl; rewrite lookup_insert_ne by lia; exact Hm3).
    assert (heap s4 !! n = Some (OPlain (new_attrs fs))) as Ha4
        by (simpl; rewrite lookup_insert_ne by lia; exact Ha3).
    rewrite (bind_Ret _ _ _ _ _ (Model_id_Ret _ _ _ _ Hm4 Ha4)).
    rewrite (id_new_attrs _ Hnd). fold idv. fold key.
    unfold bind, gets. change (r_models s4 !! key) with (r_models s !! key).
    rewrite Hcache.
    assert (c0 ≠ m_attributes mo0) as Hca by (intros E; rewrite <- E in Ha0; congruence).
    assert (heap s4 !! c0 = Some (OModel mo0)) as Hc4
        by (simpl; rewrite lookup_insert_ne by done; exact Hc3).
    assert (heap s4 !! m_attributes mo0 = Some (OPlain (obj_assign cur3 (new_attrs fs))))
      as Hcur4 by (simpl; by rewrite lookup_insert_eq).
    exists c0, s4. split; [done|].
    split.
    { unfold s4. eapply wf_write_plain; [done|exact Hcur3|].
      apply NoDup_obj_assign. exact (wf_plain_NoDup _ _ _ Hwf3 Hcur3). }
    split; [done|]. split; [done|]. split; [done|].
    split; [unfold is_model; by rewrite Hc4|].
    split.
    { rewrite (id_of_lookup _ _ _ _ Hc4 Hcur4). unfold js_get.
      rewrite obj_get_assign_NoDup by apply NoDup_new_attrs.
      rewrite obj_get_new_attrs by done.
      destruct (coerce_id_key fs Hid) as [Hv _]. fold idv in Hv.
      unfold idv, js_get in Hv.
      destruct (obj_get idKey (coerce_id fs)) as [v|] eqn:E; [|done].
      unfold idv, js_get. by rewrite E. }
    split; [exact Hm4|]. split; [exact Ha4|].
    split.
    { intros Hna. simpl. rewrite lookup_insert_ne; [exact Hd3|].
      intros E. apply Hna. by exists c0, mo0. }
    split; [done|]. split; [done|].
    exists mo0, cur0. split; [done|]. split; [done|]. split; [done|]. split; [done|].
    intros l Hl Hld Hla. simpl. rewrite lookup_insert_ne by done. by apply Hframe3.
  - (* the id is new *)
    change (r_models s3 !! key) with (r_models s !! key). rewrite Hcache.
    set (s4 := set_r_models (<[key := S n]> (r_models s3)) s3).
    rewrite (bind_Ret _ _ s3 tt s4) by reflexivity.
    assert (heap s4 !! S n = Some (OModel (Model n false))) as Hm4 by exact Hm3.
    assert (heap s4 !! n = Some (OPlain (new_attrs fs))) as Ha4 by exact Ha3.
    rewrite (bind_Ret _ _ _ _ _ (Model_id_Ret _ _ _ _ Hm4 Ha4)).
    rewrite (id_new_attrs _ Hnd). fold idv. fold key.
    unfold bind, gets. change (r_models s4) with (<[key := S n]> (r_models s)).
    rewrite lookup_insert_eq.
    exists (S n), s4. split; [done|].
    split.
    { apply wf_set_r_models; [done|]. intros k m Hk.
      destruct (decide (key = k)) as [<-|Hne].
      - rewrite lookup_insert_eq in Hk. injection Hk as <-.
        unfold is_model. by rewrite Hm3.
      - rewrite lookup_insert_ne in Hk by done.
        destruct Hwf3 as (_ & _ & _ & Hc). apply Is_true_true. exact (Hc k m Hk). }
    split; [done|]. split; [done|]. split; [done|].
    split; [unfold is_model; by rewrite Hm4|].
    split; [rewrite (id_of_lookup _ _ _ _ Hm4 Ha4); by apply id_new_attrs|].
    split; [exact Hm4|]. split; [exact Ha4|]. split; [intros _; exact Hd3|].
    done.
Qed.

(** ** [Collection.set]: one round of the loop *)

Lemma is_model_lookup h m : is_model h m = true ↔ ∃ mo, h !! m = Some (OModel mo).
Proof.
  unfold is_model. destruct (h !! m) as [[| |mo|]|]; split; try done;
    try (intros [? ?]; done). eauto.
Qed.

Lemma Collection_set_one_plain s c co d fs :
  wf_store s →
  heap s !! c = Some (OColl co) →
  heap s !! d = Some (OPlain fs) →
  ¬ is_attrs (heap s) d →
  cacheable fs = true →
  ∃ m s', Collection_set_one c (VRef d) s = (Ret tt, s') ∧ set_one_post s co c d fs m s'.
Proof.
  intros Hwf Hc Hd Hna Hok.
  assert (own_key (js_get idKey (coerce_id fs)) = true) as Hown
      by (apply cacheable_own_key; by apply cacheable_coerce_id).
  destruct (addModel_plain s d fs Hwf Hd Hok) as (m & s1 & Hadd & _ & Hpost).
  destruct Hpost as (Hwf1 & Hn1 & Hrc1 & Hlog1 & Hm1 & Hid1 & Hnew1 & Hnewa1 & Hd1 & Hcase).
  specialize (Hd1 Hna).
  set (n := next_loc s) in *.
  set (idv := js_get idKey (coerce_id fs)) in *.
  pose proof (wf_bounded _ _ _ Hwf Hc) as Hcb. fold n in Hcb.
  pose proof (wf_bounded _ _ _ Hwf Hd) as Hdb. fold n in Hdb.
  assert (c ≠ d) as Hcd by (intros ->; congruence).
  (* the frame of addModel, case by case *)
  assert (∃ excl : loc → Prop,
             (∀ l, l < n → l ≠ d → ¬ excl l → heap s1 !! l = heap s !! l)
             ∧ (∀ l, excl l → is_attrs (heap s) l ∧ ∃ x, heap s1 !! l = Some (OPlain x))
             ∧ (∀ l m' mo', excl l → heap s !! m' = Some (OModel mo') →
                            m_attributes mo' = l → m' = m)
             ∧ (truthy idv = true → r_models s1 !! prop_key idv = Some m)
             ∧ (∀ k m0, r_models s !! k = Some m0 → r_models s1 !! k = Some m0))
    as (excl & Hfr & Hexcl & Hexclm & Hcached & Hmono).
  { destruct (truthy idv) eqn:Htr; [destruct (r_models s !! prop_key idv) as [c0|] eqn:Hk|].
    - destruct Hcase as (<- & Hrm & mo0 & cur0 & Hc0 & Ha0 & Hc0' & Ha0' & Hfr).
      exists (λ l, l = m_attributes mo0). split; [|split; [|split; [|split]]].
      + intros l Hl Hld Hne. by apply Hfr.
      + intros l ->. split; [by exists m, mo0|]. eauto.
      + intros l m' mo' -> Hm' E. exact (wf_attrs_apart _ _ _ _ _ Hwf Hm' Hc0 E).
      + intros _. by rewrite Hrm.
      + intros k m0. by rewrite Hrm.
    - destruct Hcase as (Em & Hrm & Hfr).
      exists (λ _, False). split; [|split; [|split; [|split]]]; try done.
      + intros l Hl Hld _. by apply Hfr.
      + intros _. rewrite Hrm, Em. by rewrite lookup_insert_eq.
      + intros k m0 Hk0. rewrite Hrm. rewrite lookup_insert_ne; [done|].
        intros <-. congruence.
    - destruct Hcase as (Em & Hrm & Hfr).
      exists (λ _, False). split; [|split; [|split; [|split]]]; try done.
      + intros l Hl Hld _. by apply Hfr.
      + intros k m0. by rewrite Hrm. }
  assert (heap s1 !! c = Some (OColl co)) as Hc1.
  { rewrite Hfr; [done|done|done|]. intros He. destruct (Hexcl _ He) as [_ [x Hx]].
    destruct (decide (c < n)); [|lia].
    (* an excluded location is plain in [s1] and an attributes object in [s] *)
    destruct (Hexcl _ He) as [(m0 & mo0 & Hm0 & Ea) _].
    destruct (wf_model_attrs _ _ _ Hwf Hm0) as [fs0 Hfs0]. rewrite Ea in Hfs0. congruence. }
  apply is_model_lookup in Hm1 as [mo1 Hmo1].
  destruct (wf_model_attrs _ _ _ Hwf1 Hmo1) as [fs1 Hfs1].
  assert (js_get idKey fs1 = idv) as Hidv
      by (rewrite <- Hid1; symmetry; by apply (id_of_lookup _ _ mo1)).
  (* frame facts for the models of [s] *)
  assert (∀ m' mo', heap s !! m' = Some (OModel mo') → heap s1 !! m' = Some (OModel mo'))
    as Hmodels.
  { intros m' mo' Hm'. rewrite Hfr; [done| | |].
    - by apply (wf_bounded _ _ _ Hwf Hm').
    - intros ->. congruence.
    - intros He. destruct (Hexcl _ He) as [(m0 & mo0 & Hm0 & Ea) _].
      destruct (wf_model_attrs _ _ _ Hwf Hm0) as [fs0 Hfs0]. rewrite Ea in Hfs0. congruence. }
  assert (∀ m' mo', m' ≠ m → heap s !! m' = Some (OModel mo') →
             heap s1 !! m_attributes mo' = heap s !! m_attributes mo') as Hattrs.
  { intros m' mo' Hne Hm'. destruct (wf_model_attrs _ _ _ Hwf Hm') as [fs' Hfs'].
    apply Hfr.
    - by apply (wf_bounded _ _ _ Hwf Hfs').
    - intros E. apply Hna. by exists m', mo'.
    - intros He. apply Hne. by apply (Hexclm _ _ _ He Hm'). }
  assert (∀ l, is_attrs (heap s1) l → is_attrs (heap s) l ∨ n ≤ l) as Hfresh.
  { intros l (m' & mo' & Hm' & <-).
    destruct (decide (m' < n)) as [Hlt|Hge].
    - left. exists m', mo'. split; [|done]. rewrite <- Hfr; [done|done| |].
      + intros ->. congruence.
      + intros He. destruct (Hexcl _ He) as [_ [x Hx]]. congruence.
    - right. pose proof (wf_bounded _ _ _ Hwf1 Hm') as Hb. rewrite Hn1 in Hb.
      assert (m' = n ∨ m' = S n) as [->| ->] by lia; [congruence|].
      rewrite Hnew1 in Hm'. injection Hm' as <-. simpl. lia. }
  assert (∀ l fs', heap s !! l = Some (OPlain fs') → l ≠ d → ¬ is_attrs (heap s) l →
             heap s1 !! l = Some (OPlain fs')) as Hdata.
  { intros l fs' Hl Hld Hnl. rewrite Hfr; [done| |done|].
    - by apply (wf_bounded _ _ _ Hwf Hl).
    - intros He. apply Hnl. by apply Hexcl. }
  assert (∀ l vs, heap s !! l = Some (OArr vs) → heap s1 !! l = Some (OArr vs)) as Harr.
  { intros l vs Hl. rewrite Hfr; [done| | |].
    - by apply (wf_bounded _ _ _ Hwf Hl).
    - intros ->. congruence.
    - intros He. destruct (Hexcl _ He) as [(m0 & mo0 & Hm0 & Ea) _].
      destruct (wf_model_attrs _ _ _ Hwf Hm0) as [fs0 Hfs0]. rewrite Ea in Hfs0. congruence. }
  (* the rest of the round *)
  unfold Collection_set_one.
  rewrite (bind_Ret _ _ _ _ _ Hadd).
  rewrite (bind_Ret _ _ _ _ _ (Model_id_Ret _ _ _ _ Hmo1 Hfs1)).
  rewrite (bind_Ret _ _ _ _ _ (read_coll_Ret _ _ _ Hc1)).
  rewrite Hidv, Hown. cbn [negb]. change (prop_key idv) with (entity_key fs).
  assert (m ≠ c) as Hmc by (intros ->; congruence).
  assert (m_attributes mo1 ≠ c) as Hac by (intros E; rewrite E in Hfs1; congruence).
  unfold add_member.
  destruct (c_model_map co !! entity_key fs) as [m0|] eqn:Hmap.
  - (* a member under this key already *)
    exists m, s1. split; [done|]. unfold set_one_post, add_member. rewrite Hmap.
    split; [done|]. split; [done|]. split; [apply is_model_lookup; eauto|].
    split; [done|]. split; [done|]. split; [done|].
    split.
    { intros m' Hne [mo' Hm']%is_model_lookup. split.
      - apply is_model_lookup. exists mo'. by apply Hmodels.
      - unfold id_of, attrs_of. rewrite (Hmodels _ _ Hm'), Hm'.
        by rewrite (Hattrs _ _ Hne Hm'). }
    split; [done|]. split; [done|]. split; [done|]. split; [done|].
    split; [lia|]. done.
  - (* a new member *)
    set (co' := Collection (c_params co) (c_models co ++ [m])
                  (<[entity_key fs := m]> (c_model_map co))
                  (c_synced co) (c_page co) (c_pageSize co) (c_pageCount co)).
    exists m, (set_heap (<[c := OColl co']> (heap s1)) s1).
    split; [done|]. unfold set_one_post, add_member. rewrite Hmap. fold co'.
    split.
    { apply (wf_write_coll _ _ co); [done|done| |].
      - intros m' [Hin| ->%list_elem_of_singleton]%elem_of_app.
        + destruct (wf_coll_members _ _ _ _ Hwf1 Hc1 Hin) as [mo' Hm'].
          apply is_model_lookup. eauto.
        + apply is_model_lookup. eauto.
      - intros k m'. simpl. destruct (decide (entity_key fs = k)) as [<-|Hne].
        + rewrite lookup_insert_eq. intros [= <-]. apply elem_of_app. right. left.
        + rewrite lookup_insert_ne by done. intros Hk. apply elem_of_app. left.
          exact (wf_coll_map _ _ _ _ _ Hwf1 Hc1 Hk). }
    simpl. split; [by rewrite lookup_insert_eq|].
    split; [apply is_model_lookup; exists mo1; by rewrite lookup_insert_ne|].
    split.
    { change (js_get idKey (coerce_id fs)) with idv. rewrite <- Hid1.
      unfold id_of, attrs_of.
      rewrite lookup_insert_ne by done. rewrite Hmo1.
      by rewrite lookup_insert_ne by done. }
    split; [done|]. split; [done|].
    split.
    { intros m' Hne [mo' Hm']%is_model_lookup.
      assert (m' ≠ c) by (intros ->; congruence).
      destruct (wf_model_attrs _ _ _ Hwf Hm') as [fs' Hfs'].
      assert (m_attributes mo' ≠ c) by (intros E; rewrite E in Hfs'; congruence).
      split.
      - apply is_model_lookup. exists mo'. rewrite lookup_insert_ne by done.
        by apply Hmodels.
      - unfold id_of, attrs_of. rewrite lookup_insert_ne by done.
        rewrite (Hmodels _ _ Hm'), Hm'. rewrite lookup_insert_ne by done.
        by rewrite (Hattrs _ _ Hne Hm'). }
    split; [by rewrite lookup_insert_ne|].
    split.
    { intros l fs' Hl Hld Hnl. rewrite lookup_insert_ne; [by apply Hdata|].
      intros ->. congruence. }
    split.
    { intros l (m' & mo' & Hm' & <-). apply Hfresh.
      destruct (decide (m' = c)) as [->|Hne].
      - rewrite lookup_insert_eq in Hm'. done.
      - rewrite lookup_insert_ne in Hm' by done. by exists m', mo'. }
    split.
    { intros l vs Hl. rewrite lookup_insert_ne; [by apply Harr|]. intros ->. congruence. }
    split; [lia|]. done.
Qed.

(** ** [Collection.set]: the loop *)

Lemma entity_key_coerce_id fs : entity_key (coerce_id fs) = entity_key fs.
Proof. unfold entity_key. by rewrite coerce_id_idem. Qed.

Lemma entity_key_cases fs :
  js_get idKey (coerce_id fs) = VUndef ∧ entity_key fs = "undefined"
  ∨ js_get idKey (coerce_id fs) = VStr (entity_key fs).
Proof.
  unfold entity_key. destruct (coerce_id_id fs) as [[-> _]|(v & _ & ->)]; [by left|by right].
Qed.

Lemma add_member_settings co k m : same_settings co (add_member co k m).
Proof. unfold add_member, same_settings. by destruct (c_model_map co !! k). Qed.

Lemma add_member_models co k m m' :
  m' ∈ c_models (add_member co k m) → m' ∈ c_models co ∨ m' = m.
Proof.
  unfold add_member. destruct (c_model_map co !! k); simpl; [by left|].
  intros [?| ->%list_elem_of_singleton]%elem_of_app; auto.
Qed.

Lemma add_member_models_new co k m m' :
  m' ∈ c_models (add_member co k m) →
  m' ∈ c_models co ∨ (m' = m ∧ c_model_map (add_member co k m) !! k = Some m).
Proof.
  unfold add_member. destruct (c_model_map co !! k); simpl; [by left|].
  intros [?| ->%list_elem_of_singleton]%elem_of_app; [by left|].
  right. by rewrite lookup_insert_eq.
Qed.

Lemma add_member_map co k m k' m' :
  c_model_map (add_member co k m) !! k' = Some m' →
  c_model_map co !! k' = Some m' ∨ (k' = k ∧ m' = m ∧ c_model_map co !! k = None).
Proof.
  unfold add_member. destruct (c_model_map co !! k) eqn:E; simpl; [by left|].
  destruct (decide (k = k')) as [<-|Hne].
  - rewrite lookup_insert_eq. intros [= <-]. by right.
  - rewrite lookup_insert_ne by done. by left.
Qed.

Lemma add_member_map_mono co k m k' m' :
  c_model_map co !! k' = Some m' → c_model_map (add_member co k m) !! k' = Some m'.
Proof.
  unfold add_member. destruct (c_model_map co !! k) eqn:E; simpl; [done|].
  intros H. rewrite lookup_insert_ne; [done|]. intros <-. congruence.
Qed.

Lemma add_member_key co k m : is_Some (c_model_map (add_member co k m) !! k).
Proof.
  unfold add_member. destruct (c_model_map co !! k) eqn:E; simpl; [by rewrite E|].
  by rewrite lookup_insert_eq.
Qed.

Lemma set_progress_refl s co c :
  wf_store s → heap s !! c = Some (OColl co) → members_canonical s co →
  set_progress s co c s co.
Proof.
  intros. unfold set_progress, same_settings. do 3 (split; [done|]).
  split; [done|]. split; [done|]. split; [done|]. split; [done|]. split; [lia|]. done.
Qed.

(** One round keeps the relation, and the entities still to come. *)
Lemma set_progress_step s0 co0 c s co d fs m s' :
  set_progress s0 co0 c s co →
  heap s !! d = Some (OPlain fs) →
  set_one_post s co c d fs m s' →
  set_progress s0 co0 c s' (add_member co (entity_key fs) m).
Proof.
  intros (Hwf & Hc & Hset & [J1 J3] & Hmap & Hmono & Harr & Hn & Hlog & Hrc) Hd.
  intros (Hwf' & Hc' & Hm' & Hid' & Hcached & Hmono' & Hothers & Hd' & Hdata & Hfresh
          & Harr' & Hn' & Hlog' & Hrc').
  unfold set_progress. split; [done|]. split; [done|].
  split.
  { destruct Hset as (? & ? & ? & ? & ?).
    destruct (add_member_settings co (entity_key fs) m) as (? & ? & ? & ? & ?).
    unfold same_settings. repeat split; congruence. }
  split.
  { split.
    - intros m1 k [Hin| ->]%add_member_models Hk Hne.
      + destruct (decide (m1 = m)) as [->|Hnm].
        * rewrite Hid' in Hk. destruct (entity_key_cases fs) as [[E _]|E]; [congruence|].
          rewrite E in Hk. injection Hk as <-. apply Hcached. rewrite E. simpl.
          by rewrite bool_decide_false.
        * destruct (wf_coll_members _ _ _ _ Hwf Hc Hin) as [mo1 Hmo1].
          destruct (Hothers m1 Hnm) as [_ Hsame]; [apply is_model_lookup; eauto|].
          rewrite Hsame in Hk. apply Hmono'. by apply (J1 m1).
      + rewrite Hid' in Hk. destruct (entity_key_cases fs) as [[E _]|E]; [congruence|].
        rewrite E in Hk. injection Hk as <-. apply Hcached. rewrite E. simpl.
        by rewrite bool_decide_false.
    - intros k m1 [Hk|(-> & -> & Hnone)]%add_member_map Hne Hnu.
      + apply Hmono'. by apply J3.
      + destruct (entity_key_cases fs) as [[_ E]|E]; [congruence|].
        apply Hcached. rewrite E. simpl. by rewrite bool_decide_false. }
  split; [intros k m1 Hk; apply add_member_map_mono; by apply Hmap|].
  split; [intros k m1 Hk; apply Hmono'; by apply Hmono|].
  split; [intros l vs Hl; apply Harr'; by apply Harr|].
  split; [lia|]. split; congruence.
Qed.

Lemma entity_at_step s co c d fs m s' d' k' :
  wf_store s →
  heap s !! d = Some (OPlain fs) →
  set_one_post s co c d fs m s' →
  entity_at (heap s) d' k' → entity_at (heap s') d' k'.
Proof.
  intros Hwf Hd (Hwf' & Hc' & Hm' & Hid' & Hcached & Hmono' & Hothers & Hd' & Hdata & Hfresh
                 & Harr' & Hn' & Hlog' & Hrc') (fs' & Hl & Hk & Hna & Hok).
  assert (¬ is_attrs (heap s') d') as Hna'.
  { intros [H|H]%Hfresh; [done|]. apply (wf_bounded _ _ _ Hwf) in Hl. lia. }
  destruct (decide (d' = d)) as [->|Hne].
  - exists (coerce_id fs). split; [done|].
    assert (fs' = fs) as -> by congruence.
    split; [|split; [done|by apply cacheable_coerce_id]].
    rewrite entity_key_coerce_id. congruence.
  - exists fs'. split; [by apply Hdata|]. done.
Qed.

(** The loop over the entities [ds], whose keys are [ks]. *)
Lemma Collection_set_loop s0 co0 c ds : ∀ ks s co,
  set_progress s0 co0 c s co →
  Forall2 (entity_at (heap s)) ds ks →
  ∃ s' co',
    forEach (Collection_set_one c) (VRef <$> ds) s = (Ret tt, s')
    ∧ set_progress s0 co0 c s' co'
    ∧ (∀ k m, c_model_map co !! k = Some m → c_model_map co' !! k = Some m)
    ∧ (∀ k, k ∈ ks → is_Some (c_model_map co' !! k))
    ∧ (∀ m, m ∈ c_models co' →
            m ∈ c_models co ∨ ∃ k, k ∈ ks ∧ c_model_map co' !! k = Some m)
    ∧ (∀ l fs, heap s !! l = Some (OPlain fs) → l ∉ ds → ¬ is_attrs (heap s) l →
               heap s' !! l = Some (OPlain fs)).
Proof.
  induction ds as [|d ds IH]; intros ks s co Hprog Hents.
  - apply Forall2_nil_inv_l in Hents as ->. exists s, co. split; [done|].
    split; [done|]. split; [done|].
    split; [intros k Hk; by apply elem_of_nil in Hk|]. auto.
  - apply Forall2_cons_inv_l in Hents as (k & ks' & (fs & Hd & Hk & Hna & Hok) & Hrest & ->).
    pose proof Hprog as (Hwf & Hc & _).
    destruct (Collection_set_one_plain s c co d fs Hwf Hc Hd Hna Hok)
      as (m & s1 & Hrun & Hpost).
    pose proof (set_progress_step _ _ _ _ _ _ _ _ _ Hprog Hd Hpost) as Hprog1.
    rewrite Hk in Hprog1.
    assert (Forall2 (entity_at (heap s1)) ds ks') as Hents1.
    { eapply Forall2_impl; [exact Hrest|]. intros d' k'.
      by apply (entity_at_step s co c d fs m s1). }
    destruct (IH ks' s1 _ Hprog1 Hents1)
      as (s' & co' & Hrun' & Hprog' & Hmap' & Hkeys' & Hmem' & Hplain').
    exists s', co'. split.
    { simpl. by rewrite (bind_Ret _ _ _ _ _ Hrun). }
    split; [done|].
    split; [intros k0 m0 H0; apply Hmap'; by apply add_member_map_mono|].
    split.
    { intros k0 [->|Hin]%elem_of_cons; [|by apply Hkeys'].
      destruct (add_member_key co k m) as [m0 Hm0]. exists m0. by apply Hmap'. }
    split.
    { intros m0 Hin. destruct (Hmem' m0 Hin) as [Hin1|(k0 & Hk0 & Hm0)].
      + apply add_member_models_new in Hin1 as [?|[-> Hnew]]; [by left|]. right.
        exists k. split; [left|]. by apply Hmap'.
      + right. exists k0. split; [by right|done]. }
    intros l fs' Hl [Hld Hlds]%not_elem_of_cons Hnl.
    pose proof Hpost as (_ & _ & _ & _ & _ & _ & _ & _ & Hdata & Hfresh & _).
    apply Hplain'; [by apply Hdata|done|].
    intros [H|H]%Hfresh; [done|]. apply (wf_bounded _ _ _ Hwf) in Hl. lia.
Qed.

(** ** Marking the members synced *)

Lemma flags_raised_refl s : flags_raised s s.
Proof.
  unfold flags_raised. do 4 (split; [done|]). intros l.
  destruct (heap s !! l) as [[| |[a b]|]|] eqn:E; try done. exists b. done.
Qed.

Lemma flags_raised_trans s1 s2 s3 :
  flags_raised s1 s2 → flags_raised s2 s3 → flags_raised s1 s3.
Proof.
  intros (Hn & Hm & Hc & Hl & H) (Hn' & Hm' & Hc' & Hl' & H').
  unfold flags_raised. split; [congruence|]. split; [congruence|].
  split; [congruence|]. split; [congruence|]. intros l.
  specialize (H l). specialize (H' l).
  destruct (heap s1 !! l) as [[| |mo|]|] eqn:E; try (rewrite H in H'; done).
  destruct H as (b & Hb & Hr). rewrite Hb in H'. simpl in H'.
  destruct H' as (b' & Hb' & Hr'). exists b'. split; [done|]. auto.
Qed.

Lemma flags_raised_model s s' m mo :
  flags_raised s s' → heap s !! m = Some (OModel mo) →
  ∃ b, heap s' !! m = Some (OModel (Model (m_attributes mo) b))
       ∧ (m_synced mo = true → b = true).
Proof. intros (_ & _ & _ & _ & H) Hm. specialize (H m). by rewrite Hm in H. Qed.

Lemma flags_raised_plain s s' l fs :
  flags_raised s s' → heap s !! l = Some (OPlain fs) → heap s' !! l = Some (OPlain fs).
Proof. intros (_ & _ & _ & _ & H) Hl. specialize (H l). by rewrite Hl in H. Qed.

Lemma flags_raised_arr s s' l vs :
  flags_raised s s' → heap s !! l = Some (OArr vs) → heap s' !! l = Some (OArr vs).
Proof. intros (_ & _ & _ & _ & H) Hl. specialize (H l). by rewrite Hl in H. Qed.

Lemma flags_raised_coll s s' l co :
  flags_raised s s' → heap s !! l = Some (OColl co) → heap s' !! l = Some (OColl co).
Proof. intros (_ & _ & _ & _ & H) Hl. specialize (H l). by rewrite Hl in H. Qed.

Lemma flags_raised_back s s' l o' :
  flags_raised s s' → heap s' !! l = Some o' →
  (heap s !! l = Some o' ∧ ∀ mo, o' ≠ OModel mo)
  ∨ ∃ mo b, heap s !! l = Some (OModel mo) ∧ o' = OModel (Model (m_attributes mo) b).
Proof.
  intros (_ & _ & _ & _ & H) Hl. specialize (H l).
  destruct (heap s !! l) as [[fs|vs|mo|co]|] eqn:E.
  - rewrite H in Hl. injection Hl as <-. by left.
  - rewrite H in Hl. injection Hl as <-. by left.
  - destruct H as (b & Hb & _). rewrite Hb in Hl. injection Hl as <-.
    right. by exists mo, b.
  - rewrite H in Hl. injection Hl as <-. by left.
  - congruence.
Qed.

Lemma flags_raised_is_model s s' m :
  flags_raised s s' → is_model (heap s') m = is_model (heap s) m.
Proof.
  intros (_ & _ & _ & _ & H). specialize (H m). unfold is_model.
  destruct (heap s !! m) as [[| |mo|]|]; try (by rewrite H).
  destruct H as (b & -> & _). done.
Qed.

Lemma flags_raised_is_plain s s' l :
  flags_raised s s' → is_plain (heap s') l = is_plain (heap s) l.
Proof.
  intros (_ & _ & _ & _ & H). specialize (H l). unfold is_plain.
  destruct (heap s !! l) as [[| |mo|]|]; try (by rewrite H).
  destruct H as (b & -> & _). done.
Qed.

Lemma flags_raised_id_of s s' m :
  flags_raised s s' → id_of (heap s') m = id_of (heap s) m.
Proof.
  intros Hfl. pose proof Hfl as (_ & _ & _ & _ & H).
  unfold id_of, attrs_of. pose proof (H m) as Hm.
  destruct (heap s !! m) as [[| |mo|]|]; try (by rewrite Hm).
  destruct Hm as (b & -> & _). simpl. specialize (H (m_attributes mo)).
  destruct (heap s !! m_attributes mo) as [[| |mo'|]|]; try (by rewrite H).
  destruct H as (b' & -> & _). done.
Qed.

Lemma flags_raised_wf s s' : flags_raised s s' → wf_store s → wf_store s'.
Proof.
  intros Hfl (Hb & Hok & Hap & Hc). pose proof Hfl as (Hn & Hm & _).
  split; [|split; [|split]].
  - intros l o' Hl. simpl. rewrite Hn.
    destruct (flags_raised_back _ _ _ _ Hfl Hl) as [[Ho _]|(mo & b & Ho & _)];
      exact (Hb _ _ Ho).
  - intros l o' Hl.
    destruct (flags_raised_back _ _ _ _ Hfl Hl) as [[Ho Hnm]|(mo & b & Ho & ->)].
    + specialize (Hok _ _ Ho). simpl in Hok.
      destruct o' as [fs|vs|mo'|co']; simpl; try done.
      * by destruct (Hnm mo').
      * destruct Hok as [Hms Hmap]. split; [|done].
        eapply Forall_impl; [exact Hms|]. simpl. intros m.
        by rewrite (flags_raised_is_model _ _ _ Hfl).
    + specialize (Hok _ _ Ho). simpl in *.
      by rewrite (flags_raised_is_plain _ _ _ Hfl).
  - intros l1 o1 H1 l2 o2 H2.
    destruct (flags_raised_back _ _ _ _ Hfl H1) as [[Ho1 Hn1]|(mo1 & b1 & Ho1 & ->)].
    { destruct o1 as [| |mo1|]; try done. by destruct (Hn1 mo1). }
    destruct (flags_raised_back _ _ _ _ Hfl H2) as [[Ho2 Hn2]|(mo2 & b2 & Ho2 & ->)].
    { destruct o2 as [| |mo2'|]; try done. by destruct (Hn2 mo2'). }
    exact (Hap _ _ Ho1 _ _ Ho2).
  - intros k m Hk. simpl. rewrite (flags_raised_is_model _ _ _ Hfl).
    rewrite Hm in Hk. exact (Hc _ _ Hk).
Qed.

Lemma set_model_synced_raises s m mo :
  heap s !! m = Some (OModel mo) →
  ∃ s', set_model_synced m true s = (Ret tt, s')
    ∧ flags_raised s s'
    ∧ model_synced (heap s') m = true.
Proof.
  intros Hm. unfold set_model_synced.
  rewrite (bind_Ret _ _ _ _ _ (read_model_Ret _ _ _ Hm)). rewrite write_Ret.
  eexists. split; [reflexivity|]. split.
  - unfold flags_raised. do 4 (split; [done|]). intros l. simpl.
    destruct (decide (l = m)) as [->|Hne].
    + rewrite Hm, lookup_insert_eq. by exists true.
    + rewrite lookup_insert_ne by done.
      destruct (heap s !! l) as [[| |[a b]|]|]; try done. by exists b.
  - simpl. apply (model_synced_insert_model _ _ mo true).
Qed.

Lemma mark_members_synced ms : ∀ s,
  (∀ m, m ∈ ms → is_model (heap s) m = true) →
  ∃ s', forEach (λ model, set_model_synced model true) ms s = (Ret tt, s')
    ∧ flags_raised s s'
    ∧ ∀ m, m ∈ ms → model_synced (heap s') m = true.
Proof.
  induction ms as [|m ms IH]; intros s Hms.
  - exists s. split; [done|]. split; [apply flags_raised_refl|].
    intros m Hm. by apply elem_of_nil in Hm.
  - destruct (proj1 (is_model_lookup _ _) (Hms m ltac:(left))) as [mo Hmo].
    destruct (set_model_synced_raises s m mo Hmo) as (s1 & Hrun & Hfl & Hsy).
    destruct (IH s1) as (s' & Hrun' & Hfl' & Hsy').
    { intros m' Hin. rewrite (flags_raised_is_model _ _ _ Hfl). apply Hms. by right. }
    exists s'. split; [simpl; by rewrite (bind_Ret _ _ _ _ _ Hrun)|].
    split; [by apply (flags_raised_trans _ s1)|].
    intros m' [->|Hin]%elem_of_cons; [|by apply Hsy'].
    unfold model_synced in Hsy.
    destruct (heap s1 !! m) as [[| |mo1|]|] eqn:E1; try done.
    destruct (flags_raised_model _ _ _ _ Hfl' E1) as (b & Hb & Hr).
    unfold model_synced. rewrite Hb. simpl. auto.
Qed.

(** The end of the success callback of [Collection.fetch]: the own flag is
    set, the members are marked synced, and the promise is resolved with a
    new array of their attributes objects. *)
Lemma Collection_finish s c co :
  wf_store s → heap s !! c = Some (OColl co) →
  ∃ s',
    (let* _ := Collection_set_synced c true in
     let* co := read_coll c in
     let* _ := forEach (λ model, set_model_synced model true) (c_models co) in
     Collection_data c) s = (Ret (VRef (next_loc s)), s')
    ∧ wf_store s'
    ∧ heap s' !! c = Some (OColl (with_synced co true))
    ∧ Collection_synced (heap s') (with_synced co true) = true
    ∧ heap s' !! next_loc s = Some (OArr (data_of (heap s') co))
    ∧ r_models s' = r_models s
    ∧ r_collections s' = r_collections s
    ∧ logged s' = logged s
    ∧ (∀ m, id_of (heap s') m = id_of (heap s) m)
    ∧ (∀ m, is_model (heap s) m = true → is_model (heap s') m = true).
Proof.
  intros Hwf Hc.
  pose proof (wf_bounded _ _ _ Hwf Hc) as Hcb.
  set (s1 := set_heap (<[c := OColl (with_synced co true)]> (heap s)) s).
  assert (wf_store s1) as Hwf1.
  { apply (wf_write_coll _ _ co); [done|done| |].
    - intros m Hin. destruct (wf_coll_members _ _ _ _ Hwf Hc Hin) as [mo Hmo].
      apply is_model_lookup. eauto.
    - intros k m Hk. exact (wf_coll_map _ _ _ _ _ Hwf Hc Hk). }
  assert (heap s1 !! c = Some (OColl (with_synced co true))) as Hc1
      by (simpl; by rewrite lookup_insert_eq).
  assert (∀ l, l ≠ c → heap s1 !! l = heap s !! l) as Hfr1
      by (intros l Hl; simpl; by rewrite lookup_insert_ne).
  destruct (mark_members_synced (c_models co) s1) as (s2 & Hrun2 & Hfl2 & Hsy2).
  { intros m Hin. destruct (wf_coll_members _ _ _ _ Hwf Hc Hin) as [mo Hmo].
    apply is_model_lookup. exists mo. rewrite Hfr1; [done|]. intros ->. congruence. }
  pose proof (flags_raised_wf _ _ Hfl2 Hwf1) as Hwf2.
  pose proof (flags_raised_coll _ _ _ _ Hfl2 Hc1) as Hc2.
  pose proof Hfl2 as (Hn2 & Hrm2 & Hrc2 & Hlog2 & _).
  set (a := next_loc s).
  assert (next_loc s2 = a) as Hna by (rewrite Hn2; done).
  set (s3 := Store (<[a := OArr (data_of (heap s2) co)]> (heap s2)) (S a)
                   (r_models s2) (r_collections s2) (logged s2)).
  assert (heap s2 !! a = None) as Hfresh.
  { destruct (heap s2 !! a) as [o|] eqn:E; [|done].
    apply (wf_bounded _ _ _ Hwf2) in E. lia. }
  assert (∀ l o, heap s2 !! l = Some o → heap s3 !! l = Some o) as Hfr3.
  { intros l o Hl. simpl. rewrite lookup_insert_ne; [done|]. intros <-. congruence. }
  assert (∀ m, id_of (heap s3) m = id_of (heap s) m) as Hids.
  { intros m. transitivity (id_of (heap s2) m).
    - unfold id_of, attrs_of. simpl.
      destruct (decide (m = a)) as [->|Hne].
      + by rewrite lookup_insert_eq, Hfresh.
      + rewrite lookup_insert_ne by done.
        destruct (heap s2 !! m) as [[| |mo|]|] eqn:Em; try done.
        destruct (decide (m_attributes mo = a)) as [Ea|Hnea].
        * destruct (wf_model_attrs _ _ _ Hwf2 Em) as [fs Hfs]. congruence.
        * by rewrite lookup_insert_ne.
    - rewrite (flags_raised_id_of _ _ _ Hfl2). unfold id_of, attrs_of. simpl.
      destruct (decide (m = c)) as [->|Hne].
      + by rewrite lookup_insert_eq, Hc.
      + rewrite lookup_insert_ne by done.
        destruct (heap s !! m) as [[| |mo|]|] eqn:Em; try done.
        destruct (wf_model_attrs _ _ _ Hwf Em) as [fs Hfs].
        rewrite lookup_insert_ne; [done|]. intros E. rewrite <- E in Hfs. congruence. }
  assert (data_of (heap s3) co = data_of (heap s2) co) as Hdata.
  { unfold data_of. apply list_fmap_ext. intros i m Hi.
    assert (m ∈ c_models co) as Hin by (eapply list_elem_of_lookup_2; eauto).
    destruct (wf_coll_members _ _ _ _ Hwf2 Hc2 Hin) as [mo Hmo].
    by rewrite (Hfr3 _ _ Hmo), Hmo. }
  exists s3. split.
  { rewrite (bind_Ret _ _ s tt s1).
    2:{ unfold Collection_set_synced. by rewrite (bind_Ret _ _ _ _ _ (read_coll_Ret _ _ _ Hc)). }
    rewrite (bind_Ret _ _ _ _ _ (read_coll_Ret _ _ _ Hc1)). simpl c_models.
    rewrite (bind_Ret _ _ _ _ _ Hrun2).
    unfold Collection_data. rewrite (bind_Ret _ _ _ _ _ (read_coll_Ret _ _ _ Hc2)).
    unfold bind, gets, alloc, ret. simpl c_models. rewrite Hna. reflexivity. }
  split; [unfold s3; rewrite <- Hna; by apply wf_alloc_arr|].
  split; [by apply Hfr3|].
  split.
  { apply fold_synced_iff. split; [done|]. intros m Hin.
    change (c_models (with_synced co true)) with (c_models co) in Hin.
    specialize (Hsy2 m Hin). unfold model_synced in *.
    destruct (heap s2 !! m) as [o|] eqn:E; [|done]. by rewrite (Hfr3 _ _ E). }
  split; [rewrite Hdata; unfold s3; simpl; by rewrite lookup_insert_eq|].
  split; [done|]. split; [done|]. split; [done|]. split; [done|].
  intros m [mo Hmo]%is_model_lookup. apply is_model_lookup.
  assert (m ≠ c) by (intros ->; congruence).
  rewrite <- Hfr1 in Hmo by done.
  destruct (flags_raised_model _ _ _ _ Hfl2 Hmo) as (b & Hb & _).
  eexists. by apply Hfr3.
Qed.

(** ** The success callback of [Collection.fetch] *)

Lemma is_attrs_insert_coll h c co co' a :
  h !! c = Some (OColl co) → is_attrs (<[c := OColl co']> h) a ↔ is_attrs h a.
Proof.
  intros Hc. split; intros (m & mo & Hm & E); exists m, mo; split; try done.
  - destruct (decide (m = c)) as [->|Hne].
    + rewrite lookup_insert_eq in Hm. done.
    + by rewrite lookup_insert_ne in Hm.
  - rewrite lookup_insert_ne; [done|]. intros ->. congruence.
Qed.

Lemma entity_at_insert_coll h c co co' d k :
  h !! c = Some (OColl co) → entity_at h d k → entity_at (<[c := OColl co']> h) d k.
Proof.
  intros Hc (fs & Hd & Hk & Hna & Hok). exists fs. split; [|split; [done|split; [|done]]].
  - rewrite lookup_insert_ne; [done|]. intros ->. congruence.
  - by rewrite is_attrs_insert_coll.
Qed.

Lemma Collection_set_array s co c arr ds ks :
  wf_store s → heap s !! c = Some (OColl co) → members_canonical s co →
  heap s !! arr = Some (OArr (VRef <$> ds)) →
  Forall2 (entity_at (heap s)) ds ks →
  ∃ s' co',
    Collection_set c (VRef arr) s = (Ret tt, s')
    ∧ set_progress s co c s' co'
    ∧ (∀ k, k ∈ ks → is_Some (c_model_map co' !! k))
    ∧ (∀ m, m ∈ c_models co' →
            m ∈ c_models co ∨ ∃ k, k ∈ ks ∧ c_model_map co' !! k = Some m)
    ∧ (∀ l fs, heap s !! l = Some (OPlain fs) → l ∉ ds → ¬ is_attrs (heap s) l →
               heap s' !! l = Some (OPlain fs)).
Proof.
  intros Hwf Hc Hcan Harr Hents.
  destruct (Collection_set_loop s co c ds ks s co (set_progress_refl _ _ _ Hwf Hc Hcan) Hents)
    as (s' & co' & Hrun & Hprog & _ & Hkeys & Hmem & Hplain).
  exists s', co'. split; [|done].
  unfold Collection_set, bind, gets, is_array. by rewrite Harr.
Qed.

(** The collection emptied, as the callback starts. *)
Lemma fetch_reset s c co :
  wf_store s → heap s !! c = Some (OColl co) →
  let s1 := set_heap (<[c := OColl (without_members co)]> (heap s)) s in
  wf_store s1
  ∧ heap s1 !! c = Some (OColl (without_members co))
  ∧ members_canonical s1 (without_members co)
  ∧ (∀ l, l ≠ c → heap s1 !! l = heap s !! l).
Proof.
  intros Hwf Hc s1. split; [|split; [|split]].
  - apply (wf_write_coll _ _ co); [done|done| |].
    + intros m Hm. by apply elem_of_nil in Hm.
    + intros k m Hk. simpl in Hk. by rewrite lookup_empty in Hk.
  - simpl. by rewrite lookup_insert_eq.
  - split.
    + intros m k Hm. by apply elem_of_nil in Hm.
    + intros k m Hk. simpl in Hk. by rewrite lookup_empty in Hk.
  - intros l Hl. simpl. by rewrite lookup_insert_ne.
Qed.

Lemma members_canonical_finish s s' co :
  (∀ m, id_of (heap s') m = id_of (heap s) m) → r_models s' = r_models s →
  members_canonical s co → members_canonical s' (with_synced co true).
Proof.
  intros Hids Hrm [J1 J3]. split.
  - intros m k Hm Hk Hne. rewrite Hrm. rewrite Hids in Hk. by apply (J1 m).
  - intros k m Hk Hne Hnu. rewrite Hrm. by apply J3.
Qed.

(** An array of entities: the members are replaced by their models. *)
Lemma fetch_success_array s c co arr ds ks :
  wf_store s → heap s !! c = Some (OColl co) →
  heap s !! arr = Some (OArr (VRef <$> ds)) →
  Forall2 (entity_at (heap s)) ds ks →
  ∃ v s', Collection_fetch_success c (VRef arr) s = (Ret v, s')
    ∧ fetch_post s c co ks (c_pageCount co) v s'
    ∧ logged s' = logged s.
Proof.
  intros Hwf Hc Harr Hents.
  destruct (fetch_reset s c co Hwf Hc) as (Hwf1 & Hc1 & Hcan1 & Hfr1).
  set (s1 := set_heap (<[c := OColl (without_members co)]> (heap s)) s) in *.
  assert (arr ≠ c) as Hac by (intros ->; congruence).
  assert (heap s1 !! arr = Some (OArr (VRef <$> ds))) as Harr1 by (by rewrite Hfr1).
  assert (Forall2 (entity_at (heap s1)) ds ks) as Hents1.
  { eapply Forall2_impl; [exact Hents|]. intros d k.
    by apply (entity_at_insert_coll _ _ co). }
  destruct (Collection_set_array s1 _ c arr ds ks Hwf1 Hc1 Hcan1 Harr1 Hents1)
    as (s2 & co2 & Hrun2 & Hprog2 & Hkeys2 & Hmem2 & _).
  destruct Hprog2 as (Hwf2 & Hc2 & Hset2 & Hcan2 & _ & Hmono2 & _ & _ & Hlog2 & Hrc2).
  destruct (Collection_finish s2 c co2 Hwf2 Hc2)
    as (s3 & Hrun3 & Hwf3 & Hc3 & Hsy3 & Hdata3 & Hrm3 & Hrc3 & Hlog3 & Hids3 & _).
  exists (VRef (next_loc s2)), s3. split.
  { unfold Collection_fetch_success.
    rewrite (bind_Ret _ _ _ _ _ (read_coll_Ret _ _ _ Hc)).
    rewrite (bind_Ret _ _ s tt s1) by reflexivity.
    rewrite (bind_Ret _ _ s1 (heap s1) s1) by reflexivity.
    unfold is_array. rewrite Harr1.
    rewrite (bind_Ret _ _ _ _ _ Hrun2). exact Hrun3. }
  split; [|by rewrite Hlog3, Hlog2].
  destruct Hset2 as (Hp & Hs & Hpg & Hps & Hpc).
  exists (with_synced co2 true), (next_loc s2).
  split; [done|]. split; [done|]. split; [done|]. split; [done|]. split; [done|].
  split; [done|]. split; [done|]. split; [done|]. split; [done|]. split; [done|].
  split; [by apply (members_canonical_finish s2)|].
  split; [done|].
  split.
  { intros m Hm. destruct (Hmem2 m Hm) as [Hin|H]; [|done]. by apply elem_of_nil in Hin. }
  split; [intros k m Hk; exact (wf_coll_map _ _ _ _ _ Hwf2 Hc2 Hk)|].
  split; [intros k m0 Hk; rewrite Hrm3; by apply Hmono2|].
  by rewrite Hrc3, Hrc2.
Qed.



(** Any other body: only the message is logged; the collection ends empty
    and synced, and the promise is resolved with an empty array. *)
Lemma fetch_success_malformed s c co e :
  wf_store s → heap s !! c = Some (OColl co) →
  malformed_value (heap s) e →
  ∃ a s', Collection_fetch_success c e s = (Ret (VRef a), s')
    ∧ fetch_post s c co [] (c_pageCount co) (VRef a) s'
    ∧ heap s' !! a = Some (OArr [])
    ∧ heap s' !! c = Some (OColl (with_synced (without_members co) true))
    ∧ logged s' = logged s ++ [LogDebug e].
Proof.
  intros Hwf Hc He.
  destruct (fetch_reset s c co Hwf Hc) as (Hwf1 & Hc1 & Hcan1 & Hfr1).
  set (s1 := set_heap (<[c := OColl (without_members co)]> (heap s)) s) in *.
  set (s2 := add_log (LogDebug e) s1).
  assert (wf_store s2) as Hwf2 by (by apply wf_add_log).
  assert (heap s2 !! c = Some (OColl (without_members co))) as Hc2 by exact Hc1.
  destruct (Collection_finish s2 c _ Hwf2 Hc2)
    as (s3 & Hrun3 & Hwf3 & Hc3 & Hsy3 & Hdata3 & Hrm3 & Hrc3 & Hlog3 & Hids3 & _).
  assert (is_array (heap s1) e = None ∧ js_member e "results" s1 = (Ret VUndef, s1))
    as [Hnarr Hmem].
  { destruct e as [| | | | | | |l]; try done. simpl in He.
    destruct (heap s !! l) as [[fs| | |]|] eqn:El; try done.
    assert (l ≠ c) by (intros ->; congruence).
    unfold is_array, js_member, bind, read_obj. rewrite Hfr1 by done. rewrite El.
    by rewrite He. }
  exists (next_loc s2), s3. split.
  { unfold Collection_fetch_success.
    rewrite (bind_Ret _ _ _ _ _ (read_coll_Ret _ _ _ Hc)).
    rewrite (bind_Ret _ _ s tt s1) by reflexivity.
    rewrite (bind_Ret _ _ s1 (heap s1) s1) by reflexivity.
    rewrite Hnarr.
    rewrite (bind_Ret _ _ s1 tt s2); [exact Hrun3|].
    rewrite (bind_Ret _ _ _ _ _ Hmem). by rewrite decide_True. }
  split.
  { exists (with_synced (without_members co) true), (next_loc s2).
    split; [done|]. split; [done|]. split; [done|]. split; [done|]. split; [done|].
    split; [done|]. split; [done|]. split; [done|]. split; [done|]. split; [done|].
    split.
    { split.
      - intros m k Hm. by apply elem_of_nil in Hm.
      - intros k m Hk. simpl in Hk. by rewrite lookup_empty in Hk. }
    split; [intros k Hk; by apply elem_of_nil in Hk|].
    split; [intros m Hm; by apply elem_of_nil in Hm|].
    split; [intros k m Hk; simpl in Hk; by rewrite lookup_empty in Hk|].
    split; [intros k m0 Hk; by rewrite Hrm3|].
    by rewrite Hrc3. }
  split; [exact Hdata3|]. split; [done|]. exact Hlog3.
Qed.

(** ** Response bodies in the heap *)

Lemma wire_ind' (P : wire → Prop) :
  P WUndef → P WNull → (∀ b, P (WBool b)) → (∀ n, P (WNum n)) → (∀ s, P (WStr s)) →
  (∀ l, Forall P l → P (WArr l)) →
  (∀ l, Forall (λ kx, P kx.2) l → P (WObj l)) →
  ∀ b, P b.
Proof.
  intros HU HN HB HZ HS HA HO. fix IH 1. intros [| |b|n|s|l|l].
  - exact HU.
  - exact HN.
  - apply HB.
  - apply HZ.
  - apply HS.
  - apply HA. induction l as [|x l IHl]; constructor; [apply IH|exact IHl].
  - apply HO. induction l as [|[k x] l IHl]; constructor; [apply IH|exact IHl].
Qed.

Lemma data_ext_refl s : wf_store s → data_ext s s.
Proof.
  intros Hwf. unfold data_ext. split; [lia|]. split; [done|]. split; [|done].
  intros l o Hl Hge. apply (wf_bounded _ _ _ Hwf) in Hl. lia.
Qed.

Lemma data_ext_trans s1 s2 s3 : data_ext s1 s2 → data_ext s2 s3 → data_ext s1 s3.
Proof.
  intros (Hn & Hh & Hd & Hm & Hc & Hl) (Hn' & Hh' & Hd' & Hm' & Hc' & Hl').
  unfold data_ext. split; [lia|]. split; [|split; [|split; [|split]]]; try congruence.
  - intros l Hlt. rewrite Hh' by lia. by apply Hh.
  - intros l o Ho Hge. destruct (decide (l < next_loc s2)) as [Hlt|Hnlt].
    + rewrite Hh' in Ho by done. by apply (Hd l).
    + apply (Hd' l); [done|lia].
Qed.

Lemma data_ext_alloc s o :
  wf_store s → match o with OPlain _ | OArr _ => True | _ => False end →
  data_ext s (alloc o s).2.
Proof.
  intros Hwf Ho. unfold data_ext, alloc. simpl. split; [lia|]. split; [|split; [|done]].
  - intros l Hl. apply lookup_insert_ne. lia.
  - intros l o' Hl Hge. destruct (decide (l = next_loc s)) as [->|Hne].
    + rewrite lookup_insert_eq in Hl. by injection Hl as <-.
    + rewrite lookup_insert_ne in Hl by done. apply (wf_bounded _ _ _ Hwf) in Hl. lia.
Qed.

(** No object that was added is the attributes object of a model. *)
Lemma data_ext_attrs s s' a :
  wf_store s → data_ext s s' → is_attrs (heap s') a → a < next_loc s.
Proof.
  intros Hwf (Hn & Hh & Hd & _) (m & mo & Hm & <-).
  destruct (decide (m < next_loc s)) as [Hlt|Hge].
  - rewrite Hh in Hm by done. destruct (wf_model_attrs _ _ _ Hwf Hm) as [fs Hfs].
    exact (wf_bounded _ _ _ Hwf Hfs).
  - exfalso. apply (Hd m _ Hm). lia.
Qed.

Lemma shape_mono h h' b : ∀ lo hi lo' hi' v,
  shape h lo hi b v →
  (∀ l o, lo ≤ l → l < hi → h !! l = Some o → h' !! l = Some o) →
  lo' ≤ lo → hi ≤ hi' →
  shape h' lo' hi' b v.
Proof.
  induction b as [| | | | |l IH|l IH] using wire_ind'; intros lo hi lo' hi' v; simpl; try done.
  - intros (a & vs & -> & Hlo & Hhi & Ha & Hall) Hsub Hlo' Hhi'.
    exists a, vs. split; [done|]. split; [lia|]. split; [lia|]. split; [by apply Hsub|].
    clear Ha. revert vs Hall. induction IH as [|x l Hx _ IHl]; intros [|v vs]; try done.
    intros [Hv Hvs]. split; [|by apply IHl].
    apply (Hx lo a lo' a v Hv); [|lia|lia]. intros l0 o ? ?. apply Hsub; lia.
  - intros (o & fs & -> & Hlo & Hhi & Ho & Hall) Hsub Hlo' Hhi'.
    exists o, fs. split; [done|]. split; [lia|]. split; [lia|]. split; [by apply Hsub|].
    clear Ho. revert fs Hall. induction IH as [|[k x] l Hx _ IHl]; intros [|[k' v] fs]; try done.
    intros (-> & Hv & Hfs). split; [done|]. split; [|by apply IHl].
    apply (Hx lo o lo' o v Hv); [|lia|lia]. intros l0 o0 ? ?. apply Hsub; lia.
Qed.

Lemma shapes_mono h h' lo hi lo' hi' l : ∀ vs,
  shapes h lo hi l vs →
  (∀ l o, lo ≤ l → l < hi → h !! l = Some o → h' !! l = Some o) →
  lo' ≤ lo → hi ≤ hi' →
  shapes h' lo' hi' l vs.
Proof.
  induction l as [|x l IH]; intros [|v vs]; simpl; try done.
  intros [Hv Hvs] Hsub ? ?. split; [by apply (shape_mono h h' x lo hi)|by apply IH].
Qed.

Lemma shape_fields_mono h h' lo hi lo' hi' l : ∀ fs,
  shape_fields h lo hi l fs →
  (∀ l o, lo ≤ l → l < hi → h !! l = Some o → h' !! l = Some o) →
  lo' ≤ lo → hi ≤ hi' →
  shape_fields h' lo' hi' l fs.
Proof.
  induction l as [|[k x] l IH]; intros [|[k' v] fs]; simpl; try done.
  intros (-> & Hv & Hvs) Hsub ? ?. split; [done|].
  split; [by apply (shape_mono h h' x lo hi)|by apply IH].
Qed.

(** The body is always allocated, and the value stands for it. *)
Lemma alloc_wire_spec b : ∀ s,
  wf_store s →
  ∃ v s', alloc_wire b s = (Ret v, s')
    ∧ wf_store s' ∧ data_ext s s'
    ∧ shape (heap s') (next_loc s) (next_loc s') b v.
Proof.
  induction b as [| |x|z|str|l IH|l IH] using wire_ind'; intros s Hwf;
    try (eexists _, s; split; [reflexivity|]; split; [done|];
         split; [by apply data_ext_refl|done]).
  - (* an array *)
    assert (∀ s, wf_store s →
              ∃ vs s', alloc_wires l s = (Ret vs, s') ∧ wf_store s' ∧ data_ext s s'
                ∧ shapes (heap s') (next_loc s) (next_loc s') l vs) as Hlist.
    { clear s Hwf. induction IH as [|x l Hx _ IHl]; intros s Hwf.
      - exists [], s. split; [done|]. split; [done|]. split; [by apply data_ext_refl|done].
      - destruct (Hx s Hwf) as (v & s1 & Hrun1 & Hwf1 & Hext1 & Hsh1).
        destruct (IHl s1 Hwf1) as (vs & s2 & Hrun2 & Hwf2 & Hext2 & Hsh2).
        exists (v :: vs), s2. split.
        { simpl. rewrite (bind_Ret _ _ _ _ _ Hrun1).
          fold alloc_wires. by rewrite (bind_Ret _ _ _ _ _ Hrun2). }
        split; [done|]. split; [by apply (data_ext_trans _ s1)|].
        pose proof Hext1 as (Hn1 & _). pose proof Hext2 as (Hn2 & Hh2 & _).
        split.
        + apply (shape_mono (heap s1) _ x (next_loc s) (next_loc s1)); [done| |lia|lia].
          intros l0 o _ Hl0 Ho. by rewrite Hh2.
        + apply (shapes_mono (heap s2) _ (next_loc s1) (next_loc s2)); [done|done|lia|lia]. }
    destruct (Hlist s Hwf) as (vs & s1 & Hrun1 & Hwf1 & Hext1 & Hsh1).
    exists (VRef (next_loc s1)), (alloc (OArr vs) s1).2. split.
    { simpl. fold alloc_wires. by rewrite (bind_Ret _ _ _ _ _ Hrun1). }
    split; [by apply wf_alloc_arr|].
    split; [apply (data_ext_trans _ s1); [done|by apply data_ext_alloc]|].
    pose proof Hext1 as (Hn1 & _).
    simpl. exists (next_loc s1), vs. split; [done|]. split; [lia|]. split; [lia|].
    split; [by rewrite lookup_insert_eq|].
    apply (shapes_mono (heap s1) _ (next_loc s) (next_loc s1)); [done| |lia|lia].
    intros l0 o _ Hl0 Ho. rewrite lookup_insert_ne by lia. done.
  - (* an object *)
    assert (∀ s, wf_store s →
              ∃ fs s', alloc_wire_fields l s = (Ret fs, s') ∧ wf_store s' ∧ data_ext s s'
                ∧ shape_fields (heap s') (next_loc s) (next_loc s') l fs) as Hlist.
    { clear s Hwf. induction IH as [|[k x] l Hx _ IHl]; intros s Hwf.
      - exists [], s. split; [done|]. split; [done|]. split; [by apply data_ext_refl|done].
      - destruct (Hx s Hwf) as (v & s1 & Hrun1 & Hwf1 & Hext1 & Hsh1).
        destruct (IHl s1 Hwf1) as (fs & s2 & Hrun2 & Hwf2 & Hext2 & Hsh2).
        exists ((k, v) :: fs), s2. split.
        { simpl. rewrite (bind_Ret _ _ _ _ _ Hrun1).
          fold alloc_wire_fields. by rewrite (bind_Ret _ _ _ _ _ Hrun2). }
        split; [done|]. split; [by apply (data_ext_trans _ s1)|].
        pose proof Hext1 as (Hn1 & _). pose proof Hext2 as (Hn2 & Hh2 & _).
        split; [done|]. split.
        + apply (shape_mono (heap s1) _ x (next_loc s) (next_loc s1)); [done| |lia|lia].
          intros l0 o _ Hl0 Ho. by rewrite Hh2.
        + apply (shape_fields_mono (heap s2) _ (next_loc s1) (next_loc s2));
            [done|done|lia|lia]. }
    destruct (Hlist s Hwf) as (fs & s1 & Hrun1 & Hwf1 & Hext1 & Hsh1).
    exists (VRef (next_loc s1)), (alloc (OPlain (obj_assign [] fs)) s1).2. split.
    { simpl. fold alloc_wire_fields. by rewrite (bind_Ret _ _ _ _ _ Hrun1). }
    split; [apply wf_alloc_plain; [done|]; apply NoDup_obj_assign, NoDup_nil_2|].
    split; [apply (data_ext_trans _ s1); [done|by apply data_ext_alloc]|].
    pose proof Hext1 as (Hn1 & _).
    simpl. exists (next_loc s1), fs. split; [done|]. split; [lia|]. split; [lia|].
    split; [by rewrite lookup_insert_eq|].
    apply (shape_fields_mono (heap s1) _ (next_loc s) (next_loc s1)); [done| |lia|lia].
    intros l0 o _ Hl0 Ho. rewrite lookup_insert_ne by lia. done.
Qed.

Lemma shape_String h lo hi b v : shape h lo hi b v → js_String v = wire_String b.
Proof.
  destruct b as [| |x|z|str|l|l]; simpl.
  - by intros ->.
  - by intros ->.
  - intros ->. by destruct x.
  - by intros ->.
  - by intros ->.
  - by intros (a & vs & -> & _).
  - by intros (o & fs & -> & _).
Qed.

Lemma obj_get_app k l1 l2 :
  obj_get k (l1 ++ l2)
  = match obj_get k l1 with Some v => Some v | None => obj_get k l2 end.
Proof.
  induction l1 as [|[k' v'] l1 IH]; simpl; [done|].
  by destruct (decide (k = k')).
Qed.

Lemma shape_fields_get h lo hi k el : ∀ fs,
  shape_fields h lo hi el fs →
  match wire_get k el with
  | Some x => ∃ v, obj_get k (reverse fs) = Some v ∧ shape h lo hi x v
  | None => obj_get k (reverse fs) = None
  end.
Proof.
  induction el as [|[k' x] el IH]; intros [|[k'' v] fs]; simpl; try done.
  intros (<- & Hv & Hfs). specialize (IH fs Hfs).
  rewrite reverse_cons, obj_get_app.
  destruct (wire_get k el) as [y|].
  - destruct IH as (vy & -> & Hy). eauto.
  - rewrite IH. simpl. destruct (decide (k = k')); [eauto|done].
Qed.

Lemma shape_stringable h lo hi b v : shape h lo hi b v → stringable v = wire_stringable b.
Proof.
  destruct b as [| |x|z|str|l|l]; simpl; try (by intros ->).
  - by intros (a & vs & -> & _).
  - by intros (o & fs & -> & _).
Qed.

Lemma shape_own_key h lo hi b v : shape h lo hi b v → own_key v = wire_own_key b.
Proof.
  intros H. unfold own_key, wire_own_key, prop_key.
  by rewrite (shape_stringable _ _ _ _ _ H), (shape_String _ _ _ _ _ H).
Qed.

Lemma shape_fields_keys h lo hi el : ∀ fs, shape_fields h lo hi el fs → fs.*1 = el.*1.
Proof.
  induction el as [|[k x] el IH]; intros [|[k' v] fs]; simpl; try done.
  intros (<- & _ & Hfs). f_equal. by apply IH.
Qed.

(** An object of a response is a plain object of the heap with the key that
    can be read off the response, and in the fragment when the response
    is. *)
Lemma shape_entity h lo hi el v :
  shape h lo hi (WObj el) v →
  ∃ d fs, v = VRef d ∧ lo ≤ d ∧ d < hi ∧ h !! d = Some (OPlain fs)
    ∧ entity_key fs = wire_key (WObj el)
    ∧ cacheable fs = wire_cacheable (WObj el)
    ∧ mergeable fs = wire_mergeable (WObj el).
Proof.
  simpl. intros (o & fs & -> & Hlo & Hhi & Ho & Hall).
  exists o, (obj_assign [] fs). split; [done|]. split; [done|]. split; [done|].
  split; [done|].
  pose proof (shape_fields_get h lo o idKey el fs Hall) as Hget.
  assert (bool_decide (proto_key ∈ obj_keys (obj_assign [] fs))
          = bool_decide (proto_key ∈ el.*1)) as Hproto.
  { apply bool_decide_ext. rewrite proto_key_assign.
    unfold obj_keys at 1. rewrite (shape_fields_keys _ _ _ _ _ Hall).
    split; [intros [?|Hin]; [done|by apply elem_of_nil in Hin]|by left]. }
  split; [|split].
  - unfold entity_key, js_get. rewrite obj_get_coerce_id, decide_True by done.
    rewrite obj_get_assign. simpl.
    destruct (wire_get idKey el) as [x|].
    + destruct Hget as (vx & -> & Hx). simpl. by apply (shape_String h lo o).
    + by rewrite Hget.
  - unfold cacheable. rewrite Hproto. f_equal.
    unfold js_get. rewrite obj_get_assign. simpl.
    destruct (wire_get idKey el) as [x|].
    + destruct Hget as (vx & -> & Hx). simpl. by apply (shape_own_key h lo o).
    + by rewrite Hget.
  - unfold mergeable. rewrite Hproto. f_equal.
    unfold js_get. rewrite obj_get_assign. simpl.
    destruct (wire_get idKey el) as [x|].
    + destruct Hget as (vx & -> & Hx). simpl. by apply (shape_stringable h lo o).
    + by rewrite Hget.
Qed.

Lemma wire_cacheable_WObj (e : wire) : wire_cacheable e = true → is_WObj e.
Proof. by destruct e. Qed.

Lemma shapes_entities h lo hi es : ∀ vs,
  Forall (λ e, wire_cacheable e = true) es → shapes h lo hi es vs →
  ∃ ds, vs = VRef <$> ds
    ∧ Forall2 (λ d k, lo ≤ d ∧ d < hi
                      ∧ ∃ fs, h !! d = Some (OPlain fs) ∧ entity_key fs = k
                              ∧ cacheable fs = true)
        ds (wire_key <$> es).
Proof.
  induction es as [|e es IH]; intros [|v vs]; simpl; try done.
  - intros _ _. exists []. split; [done|]. constructor.
  - intros [He Hes]%Forall_cons [Hv Hvs]. destruct e as [| | | | | |el]; try done.
    destruct (shape_entity _ _ _ _ _ Hv) as (d & fs & -> & Hlo & Hhi & Hd & Hk & Hok & _).
    rewrite He in Hok.
    destruct (IH vs Hes Hvs) as (ds & -> & Hds).
    exists (d :: ds). split; [done|]. constructor; [|done]. eauto 10.
Qed.

(** The entities of a response that has just been put in the heap. *)
Lemma response_entities s s' lo hi es vs :
  wf_store s → data_ext s s' → next_loc s ≤ lo →
  Forall (λ e, wire_cacheable e = true) es → shapes (heap s') lo hi es vs →
  ∃ ds, vs = VRef <$> ds
    ∧ Forall2 (entity_at (heap s')) ds (wire_key <$> es)
    ∧ ∀ d, d ∈ ds → lo ≤ d ∧ d < hi.
Proof.
  intros Hwf Hext Hlo Hes Hsh.
  destruct (shapes_entities _ _ _ _ _ Hes Hsh) as (ds & -> & Hds).
  exists ds. split; [done|]. split.
  - eapply Forall2_impl; [exact Hds|]. simpl.
    intros d k (Hl & Hh & fs & Hd & Hk & Hok). exists fs. split; [done|]. split; [done|].
    split; [|done].
    intros Ha. apply (data_ext_attrs _ _ _ Hwf Hext) in Ha. lia.
  - intros d Hin. apply Forall2_length in Hds as Hlen.
    revert Hin. clear -Hds. induction Hds as [|d0 k ds' ks' (Hl & Hh & _) _ IH].
    + intros Hin. by apply elem_of_nil in Hin.
    + intros [->|Hin]%elem_of_cons; [done|by apply IH].
Qed.

(** ** One model per id *)

Lemma getModel_cached s x m :
  own_key x = true → r_models s !! prop_key x = Some m → getModel x s = (Ret m, s).
Proof.
  intros Hx H. unfold getModel. rewrite Hx. cbn [negb]. unfold bind, gets. by rewrite H.
Qed.

Lemma cacheable_id x : own_key x = true → cacheable [(idKey, x)] = true.
Proof.
  intros Hx. unfold cacheable. apply andb_true_iff. split; [|done].
  apply negb_true_iff, bool_decide_eq_false.
  by intros [?|?%elem_of_nil]%elem_of_cons.
Qed.










(** ** [Collection.fetch]: a paginated answer *)

(** The page count of two safe integers is defined. *)
Lemma ceil_div_safe (n d : Z) :
  safe_integer n = true → safe_integer d = true → d ≠ 0%Z →
  ceil_div (VNum n) (VNum d) = Some (VNum (- (- n / d))%Z).
Proof.
  intros Hn Hd Hd0. unfold ceil_div. rewrite Hn, Hd.
  by destruct (Z.eqb_spec d 0).
Qed.




(** The case of the specification, run: 20 entities, [count] 50 and a page
    size of 20 give 20 members and 3 pages. *)
Example paged_fetch_50_20 :
  ∃ v s' co',
    Collection_fetch_response 0
      (WObj [("count", WNum 50); ("results", WArr entities20)]) store_paged = (Ret v, s')
    ∧ heap s' !! 0 = Some (OColl co')
    ∧ c_pageCount co' = VNum 3
    ∧ length (c_models co') = 20.
Proof.
  eexists _, _, _. split; [vm_compute; reflexivity|].
  split; [vm_compute; reflexivity|]. split; reflexivity.
Qed.

(** ** [Collection.fetch]: a body of neither shape *)

Lemma alloc_wire_unrecognised (b : wire) (s : store) :
  wf_store s → unrecognised b → nullish b = false →
  ∃ e s1, alloc_wire b s = (Ret e, s1) ∧ wf_store s1 ∧ data_ext s s1
          ∧ malformed_value (heap s1) e.
Proof.
  intros Hwf Hb Hn.
  destruct (alloc_wire_spec b s Hwf) as (e & s1 & Hrun & Hwf1 & Hext & Hsh).
  exists e, s1. split; [done|]. split; [done|]. split; [done|].
  destruct b as [| |x|z|x|l|l]; simpl in *; try done; try (by subst e).
  destruct Hsh as (o & fs & -> & _ & _ & Ho & Hfields).
  change ((fix all (l : list (string * wire)) (fs : fields) {struct l} : Prop :=
             match l with
             | [] => match fs with [] => True | _ :: _ => False end
             | (k, x) :: l' =>
                 match fs with
                 | [] => False
                 | (k', v) :: fs' => k = k' ∧ shape (heap s1) (next_loc s) o x v ∧ all l' fs'
                 end
             end) l fs) with (shape_fields (heap s1) (next_loc s) o l fs) in Hfields.
  pose proof (shape_fields_get _ _ _ "results" _ _ Hfields) as Hr.
  simpl. rewrite Ho. unfold js_get. rewrite obj_get_assign.
  destruct (wire_get "results" l) as [x|]; [|by rewrite Hr].
  destruct Hr as (v & -> & Hv). destruct x; done.
Qed.

(** C5. A body that is neither an array nor an object with a defined
    [results], and not [undefined] or [null], is logged; the collection is
    left without members and marked synced, and the promise is fulfilled
    with a new empty array, not rejected. No further request is made. *)
Theorem malformed_fetch (w : world) (p : nat) (c : loc) (params : value)
    (force : bool) (deps : list nat) (co : collection) (b : wire) :
  wf_store (w_store w) →
  w_ops w !! p = Some (Op (CFetch c params force) deps Running Pending) →
  heap (w_store w) !! c = Some (OColl co) →
  unrecognised b →
  nullish b = false →
  ∃ w' e s1 a,
    step (EResponse p b) w = Some w'
    ∧ alloc_wire b (w_store w) = (Ret e, s1)
    ∧ w_requests w' = w_requests w
    ∧ logged (w_store w') = logged (w_store w) ++ [LogDebug e]
    ∧ w_ops w' !! p
      = Some (Op (CFetch c params force) deps Completed (Fulfilled (VRef a)))
    ∧ queue_of w' c = splice_promise p (queue_of w c)
    ∧ heap (w_store w') !! a = Some (OArr [])
    ∧ heap (w_store w') !! c = Some (OColl (with_synced (without_members co) true)).
Proof.
  intros Hwf Hop Hc Hb Hn.
  destruct (alloc_wire_unrecognised b _ Hwf Hb Hn) as (e & s1 & Hrun & Hwf1 & Hext & Hmal).
  pose proof Hext as (_ & Hh1 & _ & _ & _ & Hlog1).
  assert (heap s1 !! c = Some (OColl co)) as Hc1.
  { rewrite Hh1; [done|]. exact (wf_bounded _ _ _ Hwf Hc). }
  destruct (fetch_success_malformed s1 c co e Hwf1 Hc1 Hmal)
    as (a & s2 & Hrun2 & _ & Ha & Hc2 & Hlog2).
  exists (settle_and_splice p c (Fulfilled (VRef a)) s2 w), e, s1, a.
  split.
  { unfold step. rewrite Hop. rewrite (bind_Ret _ _ _ _ _ Hrun).
    cbn [op_success op_target]. by rewrite Hrun2. }
  split; [done|]. split; [done|].
  split; [cbn [settle_and_splice w_store]; by rewrite <- Hlog1|].
  split.
  { unfold settle_and_splice. cbn [w_ops]. by rewrite list_lookup_alter_eq, Hop. }
  split; [|done].
  unfold queue_of at 1, settle_and_splice. cbn [w_queues]. by rewrite lookup_insert_eq.
Qed.

Lemma malformed_fetch_witness :
  ∃ w',
    step (EResponse 0 (WStr "oops")) world_fetching = Some w'
    ∧ logged (w_store w') = [LogDebug (VStr "oops")]
    ∧ ∃ a, w_ops w' !! 0
           = Some (Op (CFetch 0 (VRef 2) false) [] Completed (Fulfilled (VRef a))).
Proof.
  assert (wf_store (w_store world_fetching)) as Hwf
      by (apply (bool_decide_unpack _); vm_compute; exact I).
  destruct (malformed_fetch world_fetching 0 0 (VRef 2) false [] _ (WStr "oops")
              Hwf eq_refl eq_refl I eq_refl)
    as (w' & e & s1 & a & Hstep & Hal & _ & Hlog & Hop & _).
  injection Hal as <- _.
  exists w'. split; [exact Hstep|]. split; [exact Hlog|]. exists a. exact Hop.
Defined.

(** The world of the examples is the one the first [fetch] of the collection
    leads to. *)
Example world_fetching_reached :
  run [ECall (CallCollectionFetch 0 VUndef false); EStart 0] world_coll
  = Some world_fetching.
Proof. vm_compute. reflexivity. Qed.

(** With the body [{}] the promise of the fetch is fulfilled, with a new
    empty array: it does not stay unsettled. *)
Lemma malformed_fetch_counterexample :
  ∃ w e a,
    step (EResponse 0 (WObj [])) world_fetching = Some w
    ∧ logged (w_store w) = [LogDebug e]
    ∧ op_state <$> w_ops w !! 0 = Some (Fulfilled (VRef a))
    ∧ heap (w_store w) !! a = Some (OArr []).
Proof.
  eexists _, _, _.
  split; [vm_compute; reflexivity|].
  split; [reflexivity|]. split; [reflexivity|]. reflexivity.
Qed.

(** ** [getCollection]: the cache key *)

Lemma sort_keys_perm (ks ks' : list string) :
  ks ≡ₚ ks' → sort_keys ks = sort_keys ks'.
Proof.
  intros Hp. unfold sort_keys.
  apply (Sorted_unique String.le); try apply Sorted_merge_sort; try apply _.
  by rewrite !merge_sort_Permutation.
Qed.

Lemma obj_get_perm (k : string) (fs fs' : fields) :
  NoDup (obj_keys fs) → fs ≡ₚ fs' → obj_get k fs = obj_get k fs'.
Proof.
  intros Hnd Hp.
  assert (NoDup (obj_keys fs')) as Hnd'.
  { unfold obj_keys. by rewrite <- Hp. }
  destruct (obj_get k fs) as [v|] eqn:E.
  - symmetry. apply obj_get_NoDup; [done|]. rewrite <- Hp. by apply obj_get_Some_elem.
  - destruct (obj_get k fs') as [v|] eqn:E'; [|done].
    apply obj_get_Some_elem in E'. rewrite <- Hp in E'.
    apply (obj_get_NoDup _ _ _ Hnd) in E'. congruence.
Qed.

Lemma collection_key_perm (h : gmap loc obj) (pfs pfs' : fields) :
  NoDup (obj_keys pfs) → pfs ≡ₚ pfs' →
  collection_key h pfs' = collection_key h pfs.
Proof.
  intros Hnd Hp. unfold collection_key.
  assert (obj_keys pfs' ≡ₚ obj_keys pfs) as Hkeys by (unfold obj_keys; by rewrite Hp).
  rewrite (bool_decide_ext (proto_key ∈ obj_keys pfs') (proto_key ∈ obj_keys pfs))
    by (by rewrite Hkeys).
  destruct (bool_decide (proto_key ∈ obj_keys pfs)); [done|].
  f_equal. f_equal. rewrite (sort_keys_perm (obj_keys pfs') (obj_keys pfs) Hkeys).
  apply list_fmap_ext. intros _ k _. f_equal. unfold js_get.
  by rewrite (obj_get_perm k pfs pfs').
Qed.

Lemma json_members_done (l : list (string * jres)) :
  match json_members l with
  | inl _ => Forall (λ kr, json_done kr.2) l
  | inr e => ¬ json_done e
  end.
Proof.
  induction l as [|[k r] l IH]; simpl; [constructor|].
  destruct r, (json_members l) as [ts|e]; simpl; try done;
    try (constructor; [by split|done]); by intros [? ?].
Qed.

Lemma json_elements_done (l : list jres) :
  match json_elements l with
  | inl _ => Forall json_done l
  | inr e => ¬ json_done e
  end.
Proof.
  induction l as [|r l IH]; simpl; [constructor|].
  destruct r, (json_elements l) as [ts|e]; simpl; try done;
    try (constructor; [by split|done]); by intros [? ?].
Qed.

Lemma json_object_ext (g g' : value → jres) (fs : fields) :
  (∀ v, json_done (g v) → g' v = g v) →
  json_done (json_object ((λ kv, (kv.1, g kv.2)) <$> fs)) →
  json_object ((λ kv, (kv.1, g' kv.2)) <$> fs)
  = json_object ((λ kv, (kv.1, g kv.2)) <$> fs).
Proof.
  intros Hg Hd. f_equal. apply list_fmap_ext. intros i [k v] Hi. simpl. f_equal.
  apply Hg. unfold json_object in Hd.
  pose proof (json_members_done ((λ kv, (kv.1, g kv.2)) <$> fs)) as Hm.
  destruct (json_members _) as [ts|e]; [|done].
  rewrite Forall_fmap, Forall_lookup in Hm. exact (Hm i (k, v) Hi).
Qed.

Lemma json_array_ext (g g' : value → jres) (vs : list value) :
  (∀ v, json_done (g v) → g' v = g v) →
  json_done (json_array (g <$> vs)) →
  json_array (g' <$> vs) = json_array (g <$> vs).
Proof.
  intros Hg Hd. f_equal. apply list_fmap_ext. intros i v Hi.
  apply Hg. unfold json_array in Hd.
  pose proof (json_elements_done (g <$> vs)) as Hm.
  destruct (json_elements _) as [ts|e]; [|done].
  rewrite Forall_fmap, Forall_lookup in Hm. exact (Hm i v Hi).
Qed.

(** More fuel and more objects do not change a serialisation that went
    through. *)
Lemma json_value_mono (h h' : gmap loc obj) (f : nat) :
  h ⊆ h' →
  ∀ f' v, f ≤ f' → json_done (json_value f h v) →
          json_value f' h' v = json_value f h v.
Proof.
  intros Hh. induction f as [|f IH]; intros f' v Hf Hd.
  { simpl in Hd. by destruct Hd. }
  destruct f' as [|f']; [lia|]. simpl in *. destruct v; try done.
  destruct (h !! l) as [o|] eqn:Hl; [|by destruct Hd].
  rewrite (lookup_weaken _ _ _ _ Hl Hh).
  destruct o; try done.
  - apply json_object_ext; [|done]. intros v. apply IH. lia.
  - apply json_array_ext; [|done]. intros v. apply IH. lia.
Qed.

Lemma collection_key_mono (h h' : gmap loc obj) (pfs : fields) (key : string) :
  h ⊆ h' → collection_key h pfs = JText key → collection_key h' pfs = JText key.
Proof.
  intros Hh Hk. rewrite <- Hk. unfold collection_key in *.
  destruct (bool_decide (proto_key ∈ obj_keys pfs)); [done|].
  unfold JSON_stringify in *.
  apply json_object_ext.
  - intros v. apply json_value_mono; [done|].
    apply le_n_S. by apply map_subseteq_size.
  - rewrite Hk. by split.
Qed.

(** A key is built only for parameters without the property
    [__proto__]. *)
Lemma collection_key_proto (h : gmap loc obj) (pfs : fields) (key : string) :
  collection_key h pfs = JText key → proto_key ∉ obj_keys pfs.
Proof.
  unfold collection_key. destruct (bool_decide (proto_key ∈ obj_keys pfs)) eqn:E; [done|].
  intros _. by apply bool_decide_eq_false in E.
Qed.

Lemma default_array_ext (data : value) (s : store) :
  (∀ l o, heap s !! l = Some o → l < next_loc s) →
  ∃ d s', default_array data s = (Ret d, s')
          ∧ heap s ⊆ heap s'
          ∧ r_collections s' = r_collections s.
Proof.
  intros Hb.
  assert (heap s !! next_loc s = None) as Hfresh.
  { destruct (heap s !! next_loc s) as [o|] eqn:E; [|done]. apply Hb in E. lia. }
  destruct data; try (by eexists _, s).
  eexists _, _. split; [reflexivity|]. split; [|done].
  simpl. by apply insert_subseteq.
Qed.

(** A call that finds its key in the cache returns the collection kept
    there, and leaves the cache as it is. *)
Lemma getCollection_hit (s : store) (p : loc) (pfs : fields) (data : value)
    (key : string) (c : loc) :
  (∀ l o, heap s !! l = Some o → l < next_loc s) →
  heap s !! p = Some (OPlain pfs) →
  (∀ h', heap s ⊆ h' → collection_key h' pfs = JText key) →
  r_collections s !! key = Some c →
  ∃ s', getCollection (VRef p) data s = (Ret c, s')
        ∧ heap s ⊆ heap s'
        ∧ r_collections s' = r_collections s.
Proof.
  intros Hb Hp Hkey Hc.
  destruct (default_array_ext data s Hb) as (d & s' & Hrun & Hsub & Hrc).
  exists s'. split; [|done]. unfold getCollection. cbn [default_object].
  unfold bind at 1. unfold ret at 1.
  rewrite (bind_Ret _ _ _ _ _ Hrun).
  unfold Object_entries, gets, own_enumerable, bind. cbv beta iota.
  rewrite (lookup_weaken _ _ _ _ Hp Hsub). unfold ret at 1. cbv beta iota.
  rewrite (Hkey _ Hsub), Hrc, Hc. done.
Qed.

(** A first call with the parameters [p]: either the key is in the cache
    and the collection kept there is returned, or a new collection with the
    parameters [p] is made and kept under the key. *)
Lemma getCollection_run (s : store) (p : loc) (pfs : fields) (c : loc) (s1 : store) :
  (∀ l o, heap s !! l = Some o → l < next_loc s) →
  heap s !! p = Some (OPlain pfs) →
  getCollection (VRef p) VUndef s = (Ret c, s1) →
  let h0 := <[next_loc s := OArr []]> (heap s) in
  ∃ key,
    collection_key h0 pfs = JText key
    ∧ ((r_collections s !! key = Some c
        ∧ s1 = Store h0 (S (next_loc s)) (r_models s) (r_collections s) (logged s))
       ∨ (r_collections s !! key = None
          ∧ c = S (next_loc s)
          ∧ s1 = Store (<[c := OColl (Collection (VRef p) [] ∅ false VUndef VUndef VUndef)]> h0)
                       (S (S (next_loc s))) (r_models s)
                       (<[key := c]> (r_collections s)) (logged s))).
Proof.
  intros Hb Hp Hrun h0.
  assert (heap s !! next_loc s = None) as Hfresh.
  { destruct (heap s !! next_loc s) as [o|] eqn:E; [|done]. apply Hb in E. lia. }
  assert (heap s ⊆ h0) as Hsub by (by apply insert_subseteq).
  unfold getCollection in Hrun. cbn [default_object default_array] in Hrun.
  unfold Object_entries, gets, own_enumerable, alloc, ret, bind in Hrun.
  cbv beta iota in Hrun. cbn [heap next_loc r_collections] in Hrun. fold h0 in Hrun.
  rewrite (lookup_weaken _ _ _ _ Hp Hsub) in Hrun.
  cbv beta iota in Hrun. cbn [heap next_loc r_collections] in Hrun.
  destruct (collection_key h0 pfs) as [key| | |] eqn:Hkey; try done.
  exists key. split; [done|].
  cbv beta iota in Hrun. cbn [heap next_loc r_collections] in Hrun.
  destruct (r_collections s !! key) as [c0|] eqn:Hc0.
  - injection Hrun as <- <-. by left.
  - unfold new_Collection, default_object, default_array, Collection_set,
      alloc, gets, modify, is_array, ret, bind in Hrun.
    cbv beta iota in Hrun. cbn [heap next_loc r_collections] in Hrun.
    rewrite lookup_insert_ne in Hrun by lia.
    assert (h0 !! next_loc s = Some (OArr [])) as Harr by apply lookup_insert_eq.
    rewrite Harr in Hrun. cbn [forEach] in Hrun. unfold ret in Hrun.
    cbv beta iota in Hrun. cbn [heap next_loc r_collections r_models logged] in Hrun.
    injection Hrun as <- <-. by right.
Qed.

(** The call returns whenever the key can be built. *)
Lemma getCollection_total (s : store) (p : loc) (pfs : fields) (key : string) :
  (∀ l o, heap s !! l = Some o → l < next_loc s) →
  heap s !! p = Some (OPlain pfs) →
  collection_key (heap s) pfs = JText key →
  let h0 := <[next_loc s := OArr []]> (heap s) in
  getCollection (VRef p) VUndef s
  = match r_collections s !! key with
    | Some c =>
        (Ret c, Store h0 (S (next_loc s)) (r_models s) (r_collections s) (logged s))
    | None =>
        (Ret (S (next_loc s)),
         Store (<[S (next_loc s) :=
                    OColl (Collection (VRef p) [] ∅ false VUndef VUndef VUndef)]> h0)
               (S (S (next_loc s))) (r_models s)
               (<[key := S (next_loc s)]> (r_collections s)) (logged s))
    end.
Proof.
  intros Hb Hp Hkey h0.
  assert (heap s !! next_loc s = None) as Hfresh.
  { destruct (heap s !! next_loc s) as [o|] eqn:E; [|done]. apply Hb in E. lia. }
  assert (heap s ⊆ h0) as Hsub by (by apply insert_subseteq).
  pose proof (collection_key_mono _ _ _ _ Hsub Hkey) as Hkey0.
  unfold getCollection. cbn [default_object default_array].
  unfold Object_entries, gets, own_enumerable, alloc, ret, bind.
  cbv beta iota. cbn [heap next_loc r_collections]. fold h0.
  rewrite (lookup_weaken _ _ _ _ Hp Hsub).
  cbv beta iota. cbn [heap next_loc r_collections]. rewrite Hkey0.
  cbv beta iota. cbn [heap next_loc r_collections].
  destruct (r_collections s !! key) as [c0|] eqn:Hc0; [done|].
  unfold new_Collection, default_object, default_array, Collection_set,
    alloc, gets, modify, is_array, ret, bind.
  cbv beta iota. cbn [heap next_loc r_collections].
  rewrite lookup_insert_ne by lia.
  assert (h0 !! next_loc s = Some (OArr [])) as Harr by apply lookup_insert_eq.
  rewrite Harr. cbn [forEach]. unfold ret.
  cbv beta iota. cbn [heap next_loc r_collections r_models logged]. done.
Qed.

Lemma getCollection_first (s : store) (p : loc) (pfs : fields) (c : loc) (s1 : store) :
  (∀ l o, heap s !! l = Some o → l < next_loc s) →
  heap s !! p = Some (OPlain pfs) →
  getCollection (VRef p) VUndef s = (Ret c, s1) →
  ∃ key h0,
    heap s ⊆ h0 ∧ h0 ⊆ heap s1
    ∧ collection_key h0 pfs = JText key
    ∧ r_collections s1 !! key = Some c
    ∧ (∀ l o, heap s1 !! l = Some o → l < next_loc s1).
Proof.
  intros Hb Hp Hrun.
  destruct (getCollection_run s p pfs c s1 Hb Hp Hrun) as (key & Hkey & Hcases).
  set (h0 := <[next_loc s := OArr []]> (heap s)) in *.
  assert (heap s !! next_loc s = None) as Hfresh.
  { destruct (heap s !! next_loc s) as [o|] eqn:E; [|done]. apply Hb in E. lia. }
  assert (∀ l o, h0 !! l = Some o → l < S (next_loc s)) as Hb0.
  { intros l o. unfold h0. rewrite lookup_insert_Some.
    intros [[<- _]|[_ Hl]]; [lia|]. apply Hb in Hl. lia. }
  exists key, h0. split; [by apply insert_subseteq|].
  destruct Hcases as [(Hc & ->)|(Hc & -> & ->)]; cbn [heap next_loc r_collections].
  - done.
  - assert (h0 !! S (next_loc s) = None) as Hfresh0.
    { destruct (h0 !! S (next_loc s)) as [o|] eqn:E; [|done]. apply Hb0 in E. lia. }
    split; [by apply insert_subseteq|]. split; [done|].
    split; [by rewrite lookup_insert_eq|].
    intros l o. rewrite lookup_insert_Some.
    intros [[<- _]|[_ Hl]]; [lia|]. apply Hb0 in Hl. lia.
Qed.

Lemma collections_ok_lookup (s : store) (key : string) (c : loc) :
  collections_ok s → r_collections s !! key = Some c →
  ∃ co, heap s !! c = Some (OColl co).
Proof.
  intros Hok Hc. specialize (Hok key c Hc). simpl in Hok. unfold is_Coll in Hok.
  destruct (heap s !! c) as [[| | |co]|]; try done. by exists co.
Qed.

(** C7. For a parameter object [p] whose key can be built and an object
    [p'] with the same properties in another order, [getCollection] builds
    the same key. A call with [p] returns a collection that the cache then
    has under that key: the one it had before, if any. A call with [p']
    after it returns that very collection and leaves the cache and the
    collection as they are. *)
Theorem getCollection_order_independent (s : store) (p p' : loc)
    (pfs pfs' : fields) (data' : value) (key : string) :
  wf_store s →
  collections_ok s →
  heap s !! p = Some (OPlain pfs) →
  heap s !! p' = Some (OPlain pfs') →
  pfs ≡ₚ pfs' →
  collection_key (heap s) pfs = JText key →
  (∀ h, collection_key h pfs' = collection_key h pfs)
  ∧ ∃ c co s1 s2,
      getCollection (VRef p) VUndef s = (Ret c, s1)
      ∧ r_collections s1 !! key = Some c
      ∧ heap s1 !! c = Some (OColl co)
      ∧ (∀ c0, r_collections s !! key = Some c0 → c = c0)
      ∧ getCollection (VRef p') data' s1 = (Ret c, s2)
      ∧ r_collections s2 = r_collections s1
      ∧ heap s2 !! c = Some (OColl co).
Proof.
  intros Hwf Hok Hp Hp' Hperm Hkey.
  pose proof (wf_plain_NoDup _ _ _ Hwf Hp) as Hnd.
  pose proof (λ l o, wf_bounded s l o Hwf) as Hb.
  split; [intros h; by apply collection_key_perm|].
  pose proof (getCollection_total s p pfs key Hb Hp Hkey) as Hrun. cbv zeta in Hrun.
  set (h0 := <[next_loc s := OArr []]> (heap s)) in *.
  assert (heap s !! next_loc s = None) as Hfresh.
  { destruct (heap s !! next_loc s) as [o|] eqn:E; [|done]. apply Hb in E. lia. }
  assert (heap s ⊆ h0) as Hsub by (by apply insert_subseteq).
  assert (∀ l o, h0 !! l = Some o → l < S (next_loc s)) as Hb0.
  { intros l o. unfold h0. rewrite lookup_insert_Some.
    intros [[<- _]|[_ Hl]]; [lia|]. apply Hb in Hl. lia. }
  assert (∀ s1, heap s ⊆ heap s1 → ∀ h', heap s1 ⊆ h' → collection_key h' pfs' = JText key)
    as Hkey'.
  { intros s1 Hs1 h' Hh'. rewrite (collection_key_perm h' pfs pfs' Hnd Hperm).
    apply (collection_key_mono (heap s)); [|done]. by transitivity (heap s1). }
  destruct (r_collections s !! key) as [c|] eqn:Hc.
  - destruct (collections_ok_lookup s key c Hok Hc) as [co Hco].
    set (s1 := Store h0 (S (next_loc s)) (r_models s) (r_collections s) (logged s)) in *.
    destruct (getCollection_hit s1 p' pfs' data' key c) as (s2 & Hrun2 & Hsub2 & Hrc2).
    + exact Hb0.
    + exact (lookup_weaken _ _ _ _ Hp' Hsub).
    + by apply Hkey'.
    + exact Hc.
    + exists c, co, s1, s2. split; [done|]. split; [done|].
      split; [exact (lookup_weaken _ _ _ _ Hco Hsub)|]. split; [by intros c0 [= ->]|].
      split; [done|]. split; [done|].
      apply (lookup_weaken _ _ _ _ Hco). by transitivity h0.
  - set (c := S (next_loc s)) in *.
    set (co := Collection (VRef p) [] ∅ false VUndef VUndef VUndef) in *.
    set (s1 := Store (<[c := OColl co]> h0) (S (S (next_loc s))) (r_models s)
                     (<[key := c]> (r_collections s)) (logged s)) in *.
    assert (h0 !! c = None) as Hfresh0.
    { destruct (h0 !! c) as [o|] eqn:E; [|done]. apply Hb0 in E. unfold c in E. lia. }
    assert (heap s ⊆ heap s1) as Hsub1.
    { transitivity h0; [done|]. by apply insert_subseteq. }
    destruct (getCollection_hit s1 p' pfs' data' key c) as (s2 & Hrun2 & Hsub2 & Hrc2).
    + intros l o. unfold s1. cbn [heap next_loc]. rewrite lookup_insert_Some.
      intros [[<- _]|[_ Hl]]; [unfold c; lia|]. apply Hb0 in Hl. lia.
    + exact (lookup_weaken _ _ _ _ Hp' Hsub1).
    + by apply Hkey'.
    + unfold s1. cbn [r_collections]. by rewrite lookup_insert_eq.
    + assert (heap s1 !! c = Some (OColl co)) as Hc1
          by (unfold s1; cbn [heap]; by rewrite lookup_insert_eq).
      exists c, co, s1, s2. split; [done|].
      split; [unfold s1; cbn [r_collections]; by rewrite lookup_insert_eq|].
      split; [done|]. split; [done|]. split; [done|]. split; [done|].
      exact (lookup_weaken _ _ _ _ Hc1 Hsub2).
Qed.

Lemma getCollection_order_independent_witness :
  ∃ c s1 s2,
    getCollection (VRef 0) VUndef store_params = (Ret c, s1)
    ∧ getCollection (VRef 1) VUndef s1 = (Ret c, s2)
    ∧ size (r_collections s2) = 1.
Proof.
  assert (wf_store store_params) as Hwf
      by (apply (bool_decide_unpack _); vm_compute; exact I).
  assert (collections_ok store_params) as Hok by apply map_Forall_empty.
  pose proof (getCollection_order_independent store_params 0 1
                [("b", VNum 2); ("a", VNum 1)] [("a", VNum 1); ("b", VNum 2)] VUndef) as H.
  edestruct H as (_ & c & co & s1 & s2 & Hrun1 & Hc1 & _ & _ & Hrun2 & Hrc2 & _);
    [exact Hwf|exact Hok|reflexivity|reflexivity|apply perm_swap|vm_compute; reflexivity|].
  exists c, s1, s2. split; [exact Hrun1|]. split; [exact Hrun2|].
  rewrite Hrc2. vm_compute in Hrun1. injection Hrun1 as <- <-. reflexivity.
Defined.

(** The example of the specification, run: [{b: 2, a: 1}] and
    [{a: 1, b: 2}] have the key [{"a":1,"b":2}] and share a collection. *)
Example getCollection_ab_ba :
  ∃ c s1 s2 key,
    getCollection (VRef 0) VUndef store_params = (Ret c, s1)
    ∧ getCollection (VRef 1) VUndef s1 = (Ret c, s2)
    ∧ collection_key (heap store_params) [("b", VNum 2); ("a", VNum 1)] = JText key
    ∧ collection_key (heap store_params) [("a", VNum 1); ("b", VNum 2)] = JText key
    ∧ r_collections s2 = {[ key := c ]}.
Proof.
  eexists _, _, _, _. split; [vm_compute; reflexivity|].
  split; [vm_compute; reflexivity|].
  split; [vm_compute; reflexivity|].
  split; vm_compute; reflexivity.
Qed.

(** ** [getPagedCollection]: the parameters *)

(** C10. [getPagedCollection(params, pageSize, page)] with an object
    [params] sets [page] and [page_size] on that object itself and looks
    the key of the changed object up in the cache. When the cache has no
    collection under the key, a new one is made that holds that very object
    as its [params], and the cache keeps it under the key. When the cache
    has one, that collection is returned, with the [params] and the members
    it had, and the cache is not changed. Either way the collection
    returned is the one under the key, and it gets the [page] and the
    [pageSize] of the call. *)
Theorem getPagedCollection_params (s : store) (p : loc) (fs : fields)
    (pageSize page : value) (key : string) :
  let fs2 := obj_assign fs [("page", default_page page);
                            ("page_size", default_pageSize pageSize)] in
  wf_store s →
  collections_ok s →
  heap s !! p = Some (OPlain fs) →
  collection_key (<[p := OPlain fs2]> (heap s)) fs2 = JText key →
  ∃ c s1 co,
    getPagedCollection (VRef p) pageSize page s = (Ret c, s1)
    ∧ heap s1 !! p = Some (OPlain fs2)
    ∧ r_collections s1 !! key = Some c
    ∧ heap s1 !! c = Some (OColl co)
    ∧ c_page co = default_page page
    ∧ c_pageSize co = default_pageSize pageSize
    ∧ match r_collections s !! key with
      | Some c0 =>
          c = c0
          ∧ r_collections s1 = r_collections s
          ∧ ∃ co0, heap s !! c0 = Some (OColl co0)
                   ∧ c_params co = c_params co0
                   ∧ c_models co = c_models co0
                   ∧ c_model_map co = c_model_map co0
      | None =>
          heap s !! c = None
          ∧ r_collections s1 = <[key := c]> (r_collections s)
          ∧ c_params co = VRef p
          ∧ c_models co = []
      end.
Proof.
  intros fs2 Hwf Hok Hp Hkey.
  pose proof (wf_bounded s p _ Hwf Hp) as Hplt.
  set (s' := set_heap (<[p := OPlain fs2]> (heap s)) s).
  assert (∀ l o, heap s' !! l = Some o → l < next_loc s') as Hb'.
  { intros l o. unfold s'. cbn [heap set_heap next_loc]. rewrite lookup_insert_Some.
    intros [[<- _]|[_ Hl]]; [done|]. exact (wf_bounded _ _ _ Hwf Hl). }
  assert (heap s' !! p = Some (OPlain fs2)) as Hp'.
  { unfold s'. cbn [heap set_heap]. by rewrite lookup_insert_eq. }
  pose proof (getCollection_total s' p fs2 key Hb' Hp' Hkey) as Hget. cbv zeta in Hget.
  change (next_loc s') with (next_loc s) in Hget.
  change (r_collections s') with (r_collections s) in Hget.
  change (r_models s') with (r_models s) in Hget.
  change (logged s') with (logged s) in Hget.
  set (h0 := <[next_loc s := OArr []]> (heap s')) in *.
  assert (∀ x, x ≠ p → x < next_loc s → h0 !! x = heap s !! x) as Hh0.
  { intros x Hxp Hx. unfold h0, s'. cbn [heap set_heap].
    rewrite lookup_insert_ne by lia. by rewrite lookup_insert_ne. }
  assert (h0 !! p = Some (OPlain fs2)) as Hp0.
  { unfold h0. rewrite lookup_insert_ne by lia. exact Hp'. }
  assert (getPagedCollection (VRef p) pageSize page s
          = (let* collection := getCollection (VRef p) VUndef in
             let* co := read_coll collection in
             let* _ := write collection
                         (OColl (Collection (c_params co) (c_models co) (c_model_map co)
                                   (c_synced co) (default_page page)
                                   (default_pageSize pageSize) (c_pageCount co))) in
             ret collection) s') as ->.
  { unfold getPagedCollection. cbn [default_object].
    unfold bind at 1. unfold ret at 1.
    rewrite (bind_Ret _ _ s tt s'); [reflexivity|].
    rewrite (bind_Ret _ _ _ _ _ (read_plain_Ret _ _ _ Hp)). reflexivity. }
  destruct (r_collections s !! key) as [c0|] eqn:Hc0.
  - destruct (collections_ok_lookup s key c0 Hok Hc0) as [co0 Hco0].
    assert (c0 ≠ p) as Hcp by (intros ->; congruence).
    pose proof (wf_bounded _ _ _ Hwf Hco0) as Hc0lt.
    rewrite (bind_Ret _ _ _ _ _ Hget).
    eexists c0, _, _. split.
    { unfold read_coll, write, modify, ret, bind. cbn [heap].
      rewrite (Hh0 c0 Hcp Hc0lt), Hco0. reflexivity. }
    cbn [heap set_heap r_collections].
    split; [rewrite lookup_insert_ne by done; exact Hp0|].
    split; [done|]. split; [by rewrite lookup_insert_eq|].
    split; [done|]. split; [done|]. split; [done|]. split; [done|].
    by exists co0.
  - rewrite (bind_Ret _ _ _ _ _ Hget).
    eexists (S (next_loc s)), _, _. split.
    { unfold read_coll, write, modify, ret, bind. cbn [heap].
      rewrite lookup_insert_eq. reflexivity. }
    cbn [heap set_heap r_collections].
    split; [rewrite !lookup_insert_ne by lia; exact Hp0|].
    split; [by rewrite lookup_insert_eq|]. split; [by rewrite lookup_insert_eq|].
    split; [done|]. split; [done|].
    split; [|done].
    destruct (heap s !! S (next_loc s)) as [o|] eqn:E; [|done].
    apply (wf_bounded _ _ _ Hwf) in E. lia.
Qed.

Lemma getPagedCollection_params_witness :
  ∃ c s1 co,
    getPagedCollection (VRef 0) VUndef VUndef store_two_params = (Ret c, s1)
    ∧ heap s1 !! 0 = Some (OPlain [("page", VNum 1); ("page_size", VNum 20)])
    ∧ heap s1 !! c = Some (OColl co)
    ∧ r_collections s1 = {[ "{" +:+ String dquote "page" +:+ String dquote ":1,"
                              +:+ String dquote "page_size" +:+ String dquote ":20}" := c ]}
    ∧ c_params co = VRef 0.
Proof.
  assert (wf_store store_two_params) as Hwf
      by (apply (bool_decide_unpack _); vm_compute; exact I).
  assert (collections_ok store_two_params) as Hok by apply map_Forall_empty.
  pose proof (getPagedCollection_params store_two_params 0 [] VUndef VUndef) as H.
  cbv zeta in H.
  edestruct H as (c & s1 & co & Hrun & Hp & _ & Hc & _ & _ & Hcase);
    [exact Hwf|exact Hok|reflexivity|vm_compute; reflexivity|].
  cbn [r_collections store_two_params] in Hcase. rewrite lookup_empty in Hcase.
  destruct Hcase as (_ & Hrc & Hparams & _).
  exists c, s1, co. split; [exact Hrun|]. split; [exact Hp|]. split; [exact Hc|].
  split; [|exact Hparams]. rewrite Hrc. reflexivity.
Defined.

(** The collection that a second caller is handed for equal parameters is
    the one of the cache: its [params] is the object of the first caller,
    not the object of the second, which has been changed all the same. *)
Lemma getPagedCollection_params_counterexample :
  ∃ c s1 s2 co,
    getPagedCollection (VRef 0) VUndef VUndef store_two_params = (Ret c, s1)
    ∧ getPagedCollection (VRef 1) VUndef VUndef s1 = (Ret c, s2)
    ∧ heap s2 !! 1 = Some (OPlain [("page", VNum 1); ("page_size", VNum 20)])
    ∧ heap s2 !! c = Some (OColl co)
    ∧ c_params co = VRef 0
    ∧ c_params co ≠ VRef 1.
Proof.
  eexists _, _, _, _. split; [vm_compute; reflexivity|].
  split; [vm_compute; reflexivity|].
  split; [reflexivity|]. split; [reflexivity|]. split; [reflexivity|]. discriminate.
Qed.

(** ** The promise queue *)

Lemma index_of_Some (p : nat) (l : list nat) : p ∈ l → is_Some (index_of p l).
Proof.
  induction l as [|x l IH]; intros Hin; [by apply elem_of_nil in Hin|].
  simpl. destruct (decide (x = p)); [by eexists|].
  apply elem_of_cons in Hin as [->|Hin]; [done|].
  destruct (IH Hin) as [i ->]. by eexists.
Qed.

Lemma index_of_delete (p q : nat) (l : list nat) (i : nat) :
  index_of p l = Some i → q ≠ p → q ∈ l → q ∈ delete i l.
Proof.
  revert i. induction l as [|x l IH]; intros i Hi Hne Hin; [done|].
  simpl in Hi. destruct (decide (x = p)) as [->|Hx].
  - injection Hi as <-. simpl. apply elem_of_cons in Hin as [->|Hin]; done.
  - destruct (index_of p l) as [j|]; [|done]. injection Hi as <-. simpl.
    apply elem_of_cons in Hin as [->|Hin]; [left|right; by apply IH].
Qed.

Lemma elem_of_splice (p q : nat) (l : list nat) :
  p ∈ l → q ≠ p → q ∈ l → q ∈ splice_promise p l.
Proof.
  intros Hp Hne Hq. unfold splice_promise.
  destruct (index_of_Some p l Hp) as [i Hi]. rewrite Hi. by apply (index_of_delete p).
Qed.

Lemma queue_inv_ext (w w' : world) :
  w_ops w' = w_ops w → w_queues w' = w_queues w → queue_inv w → queue_inv w'.
Proof.
  intros Hops Hqs [H1 H2 H3 H4 H5].
  split; unfold queue_of in *; rewrite ?Hops, ?Hqs; done.
Qed.

Lemma queue_inv_init (w : world) : w_ops w = [] → queue_inv w.
Proof. intros H. split; rewrite H; intros *; by rewrite ?lookup_nil. Qed.

Lemma op_consistent_pending (o : op) :
  op_consistent o → op_state o = Pending → op_phase o ≠ Completed ∧ op_phase o ≠ Skipped.
Proof. unfold op_consistent. intros H E. rewrite E in H. by destruct (op_phase o). Qed.

Lemma op_consistent_fulfilled (o : op) (v : value) :
  op_consistent o → op_state o = Fulfilled v → op_phase o = Completed.
Proof. unfold op_consistent. intros H E. rewrite E in H. by destruct (op_phase o). Qed.

Lemma is_fulfilled_state (ops : list op) (d : nat) :
  is_fulfilled ops d = true ↔ ∃ o v, ops !! d = Some o ∧ op_state o = Fulfilled v.
Proof.
  unfold is_fulfilled. split.
  - destruct (ops !! d) as [[k ds ph [| v |r]]|]; try done. by eexists _, v.
  - intros ([k ds ph st] & v & -> & Hst). simpl in Hst. by subst st.
Qed.

(** A new operation. *)
Lemma queue_inv_issue (k : op_kind) (w : world) : queue_inv w → queue_inv (issue k w).
Proof.
  intros [H1 H2 H3 H4 H5].
  set (n := length (w_ops w)). set (x := op_target k).
  set (new := Op k (queue_of w x) Waiting Pending).
  assert (∀ q o, w_ops (issue k w) !! q = Some o →
                 (q < n ∧ w_ops w !! q = Some o) ∨ (q = n ∧ o = new)) as Hlook.
  { intros q o. unfold issue. cbn [w_ops]. rewrite lookup_app_Some.
    intros [Hq|[Hge Hq]].
    - left. split; [|done]. by apply lookup_lt_Some in Hq.
    - right. fold n in Hge, Hq. destruct (q - n) as [|i] eqn:E; [|done].
      injection Hq as <-. split; [lia|done]. }
  assert (∀ q y, q ∈ queue_of w y → q ∈ queue_of (issue k w) y) as Hq.
  { intros q y Hin. unfold queue_of at 1, issue. cbn [w_queues]. fold x.
    destruct (decide (y = x)) as [->|Hne].
    - rewrite lookup_insert_eq. simpl. apply elem_of_app. by left.
    - by rewrite lookup_insert_ne. }
  assert (∀ d o, w_ops w !! d = Some o → w_ops (issue k w) !! d = Some o) as Hkeep.
  { intros d o Hd. unfold issue. cbn [w_ops]. by apply lookup_app_l_Some. }
  split.
  - intros p o Hp Hph. destruct (Hlook p o Hp) as [[_ Hold]|[-> ->]].
    + apply Hq. by apply (H1 p).
    + unfold instance_of. cbn [op_kind_of]. rewrite issue_queue.
      apply elem_of_app. right. by left.
  - intros p q o o' Hlt Hp Hq' Hi.
    destruct (Hlook q o' Hq') as [[Hqn Hqold]|[-> ->]].
    + destruct (Hlook p o Hp) as [[_ Hpold]|[-> _]]; [|lia].
      by apply (H2 p q o o').
    + destruct (Hlook p o Hp) as [[_ Hpold]|[-> _]]; [|lia].
      destruct (decide (op_phase o = Completed)) as [|Hph]; [by right|left].
      cbn [op_deps new]. unfold instance_of in Hi. cbn [op_kind_of new] in Hi.
      fold x in Hi. rewrite <- Hi. by apply (H1 p).
  - intros p o Hp. destruct (Hlook p o Hp) as [[_ Hold]|[-> ->]]; [by apply (H3 p)|done].
  - intros q o Hq' Hs d Hd. destruct (Hlook q o Hq') as [[_ Hold]|[-> ->]]; [|done].
    apply is_fulfilled_app. by apply (H4 q o).
  - intros q o Hq' Hs. destruct (Hlook q o Hq') as [[_ Hold]|[-> ->]]; [|done].
    destruct (H5 q o Hold Hs) as (d & od & r & Hd & Hod & Hr & Hr').
    exists d, od, r. auto.
Qed.

(** An operation whose promise is pending moves on. *)
Lemma queue_inv_update (w w' : world) (p : nat) (k : op_kind) (deps : list nat)
    (ph0 ph : phase) (st : pstate) :
  queue_inv w →
  w_ops w !! p = Some (Op k deps ph0 Pending) →
  w_ops w' = alter (λ o, Op (op_kind_of o) (op_deps o) ph st) p (w_ops w) →
  op_consistent (Op k deps ph st) →
  (started ph = true → ∀ d, d ∈ deps → is_fulfilled (w_ops w) d = true) →
  (ph = Skipped → ∃ d od r, d ∈ deps ∧ w_ops w !! d = Some od
                            ∧ op_state od = Rejected r ∧ st = Rejected r) →
  (∀ q y, q ∈ queue_of w y → q ≠ p ∨ ph ≠ Completed → q ∈ queue_of w' y) →
  queue_inv w'.
Proof.
  intros [H1 H2 H3 H4 H5] Hp Hops Hcons Hentered Hskip Hqueue.
  destruct (op_consistent_pending _ (H3 p _ Hp) eq_refl) as [Hnc Hns].
  cbn [op_phase] in Hnc, Hns.
  assert (∀ q o', w_ops w' !! q = Some o' →
                  (q = p ∧ o' = Op k deps ph st) ∨ (q ≠ p ∧ w_ops w !! q = Some o')) as Hlook.
  { intros q o'. rewrite Hops. destruct (decide (q = p)) as [->|Hne].
    - rewrite list_lookup_alter_eq, Hp. intros [= <-]. by left.
    - rewrite list_lookup_alter_ne by done. by right. }
  assert (∀ d o, d ≠ p → w_ops w !! d = Some o → w_ops w' !! d = Some o) as Hkeep.
  { intros d o Hne Hd. rewrite Hops. by rewrite list_lookup_alter_ne. }
  assert (∀ d, is_fulfilled (w_ops w) d = true → is_fulfilled (w_ops w') d = true) as Hful.
  { intros d Hd. apply is_fulfilled_state in Hd as (o & v & Hd & Hst).
    apply is_fulfilled_state. exists o, v. split; [|done]. apply Hkeep; [|done].
    intros ->. rewrite Hp in Hd. injection Hd as <-. done. }
  assert (∀ d od r, w_ops w !! d = Some od → op_state od = Rejected r →
                    w_ops w' !! d = Some od) as Hrej.
  { intros d od r Hd Hst. apply Hkeep; [|done].
    intros ->. rewrite Hp in Hd. injection Hd as <-. done. }
  split.
  - intros q o' Hq Hph. destruct (Hlook q o' Hq) as [[-> ->]|[Hne Hold]].
    + apply Hqueue; [|by right]. by apply (H1 p _ Hp).
    + apply Hqueue; [|by left]. by apply (H1 q).
  - intros q1 q2 o1 o2 Hlt Hq1 Hq2 Hi.
    assert (∃ o1', w_ops w !! q1 = Some o1' ∧ instance_of o1' = instance_of o1
                   ∧ (op_phase o1' = Completed → op_phase o1 = Completed)) as (o1' & Ho1 & Hi1 & Hc1).
    { destruct (Hlook q1 o1 Hq1) as [[-> ->]|[_ Hold]]; [|by exists o1].
      eexists. split; [exact Hp|]. split; [done|]. done. }
    assert (∃ o2', w_ops w !! q2 = Some o2' ∧ instance_of o2' = instance_of o2
                   ∧ op_deps o2' = op_deps o2) as (o2' & Ho2 & Hi2 & Hd2).
    { destruct (Hlook q2 o2 Hq2) as [[-> ->]|[_ Hold]]; [|by exists o2].
      eexists. split; [exact Hp|]. done. }
    destruct (H2 q1 q2 o1' o2' Hlt Ho1 Ho2) as [Hin|Hc]; [congruence| |].
    + left. by rewrite <- Hd2.
    + right. auto.
  - intros q o' Hq. destruct (Hlook q o' Hq) as [[-> ->]|[_ Hold]]; [done|by apply (H3 q)].
  - intros q o' Hq Hs d Hd. apply Hful.
    destruct (Hlook q o' Hq) as [[-> ->]|[_ Hold]]; [by apply Hentered|by apply (H4 q o')].
  - intros q o' Hq Hs.
    assert (∃ d od r, d ∈ op_deps o' ∧ w_ops w !! d = Some od
                      ∧ op_state od = Rejected r ∧ op_state o' = Rejected r)
      as (d & od & r & Hd & Hod & Hr & Hr').
    { destruct (Hlook q o' Hq) as [[-> ->]|[_ Hold]]; [by apply Hskip|by apply (H5 q)]. }
    exists d, od, r. split; [done|]. split; [by apply (Hrej d od r)|done].
Qed.

(** The same with [this.promises] untouched. *)
Lemma queue_inv_set_op (w : world) (p : nat) (k : op_kind) (deps : list nat)
    (ph0 ph : phase) (st : pstate) :
  queue_inv w →
  w_ops w !! p = Some (Op k deps ph0 Pending) →
  op_consistent (Op k deps ph st) →
  (started ph = true → ∀ d, d ∈ deps → is_fulfilled (w_ops w) d = true) →
  (ph = Skipped → ∃ d od r, d ∈ deps ∧ w_ops w !! d = Some od
                            ∧ op_state od = Rejected r ∧ st = Rejected r) →
  queue_inv (set_op p ph st w).
Proof.
  intros Hinv Hp Hcons Hentered Hskip.
  apply (queue_inv_update w _ p k deps ph0 ph st); try done.
Qed.

(** The promise of [p] is settled by the callback of the transport and
    leaves [this.promises]. *)
Lemma queue_inv_settle (w : world) (p : nat) (k : op_kind) (deps : list nat)
    (st : pstate) (s' : store) :
  queue_inv w →
  w_ops w !! p = Some (Op k deps Running Pending) →
  st ≠ Pending →
  queue_inv (settle_and_splice p (op_target k) st s' w).
Proof.
  intros Hinv Hp Hst.
  apply (queue_inv_update w _ p k deps Running Completed st); try done.
  - unfold op_consistent. cbn [op_phase op_state]. by destruct st.
  - intros _. by apply (inv_entered w Hinv p _ Hp).
  - intros q y Hq [Hne|?]; [|done].
    unfold queue_of at 1, settle_and_splice. cbn [w_queues].
    destruct (decide (y = op_target k)) as [->|Hy].
    + rewrite lookup_insert_eq. simpl. apply elem_of_splice; [|done..].
      by apply (inv_queued w Hinv p _ Hp).
    + by rewrite lookup_insert_ne.
Qed.

Lemma step_call_shape (c : call) (w w' : world) :
  step_call c w = Some w' →
  (w_ops w' = w_ops w ∧ w_queues w' = w_queues w)
  ∨ ∃ k w1, w' = issue k w1 ∧ w_ops w1 = w_ops w ∧ w_queues w1 = w_queues w.
Proof.
  intros H. destruct c; cbn [step_call] in H; unfold run_sync in H;
    repeat case_match; try discriminate; injection H as <-;
    first [by left | right; by eexists _, _].
Qed.

(** Every step of the scheduler keeps the discipline. *)
Lemma step_queue_inv (e : event) (w w' : world) :
  step e w = Some w' → queue_inv w → queue_inv w'.
Proof.
  intros Hstep Hinv. destruct e as [c|p|p d|p body|p response]; cbn [step] in Hstep.
  - destruct (step_call_shape c w w' Hstep) as [[Ho Hq]|(k & w1 & -> & Ho & Hq)].
    + by apply (queue_inv_ext w).
    + apply queue_inv_issue. by apply (queue_inv_ext w).
  - destruct (w_ops w !! p) as [[k deps [] []]|] eqn:Hp; try discriminate.
    destruct (forallb (is_fulfilled (w_ops w)) deps) eqn:Hall; [|discriminate].
    assert (∀ d, d ∈ deps → is_fulfilled (w_ops w) d = true) as Hdeps.
    { intros d Hd. rewrite forallb_forall in Hall. apply Hall. by apply list_elem_of_In. }
    destruct (op_body k (w_store w)) as [[[v|r|rq]| |] s']; try discriminate;
      injection Hstep as <-.
    + apply (queue_inv_set_op _ p k deps Waiting);
        first [done | by apply (queue_inv_ext w)].
    + apply (queue_inv_set_op _ p k deps Waiting);
        first [done | by apply (queue_inv_ext w)].
    + apply (queue_inv_update w _ p k deps Waiting Running Pending); done.
    + apply (queue_inv_set_op _ p k deps Waiting);
        first [done | by apply (queue_inv_ext w)].
  - destruct (w_ops w !! p) as [[k deps [] []]|] eqn:Hp; try discriminate.
    destruct (w_ops w !! d) as [[kd dd phd [| |r]]|] eqn:Hd; try discriminate.
    destruct (bool_decide (d ∈ deps)) eqn:Hin; [|discriminate].
    apply bool_decide_eq_true in Hin. injection Hstep as <-.
    apply (queue_inv_set_op _ p k deps Waiting); try done.
    intros _. by eexists d, _, r.
  - destruct (w_ops w !! p) as [[k deps [] []]|] eqn:Hp; try discriminate.
    destruct (bind _ _ _) as [[v| |] s']; try discriminate; injection Hstep as <-.
    + by apply (queue_inv_settle w p k deps).
    + apply (queue_inv_set_op _ p k deps Running);
        first [done | by apply (queue_inv_ext w)
               | intros _; by apply (inv_entered w Hinv p _ Hp)].
  - destruct (w_ops w !! p) as [[k deps [] []]|] eqn:Hp; try discriminate.
    destruct (bind _ _ _) as [[v| |] s']; try discriminate; injection Hstep as <-.
    + by apply (queue_inv_settle w p k deps).
    + apply (queue_inv_set_op _ p k deps Running);
        first [done | by apply (queue_inv_ext w)
               | intros _; by apply (inv_entered w Hinv p _ Hp)].
Qed.

Lemma run_queue_inv (es : list event) (w0 w : world) :
  run es w0 = Some w → queue_inv w0 → queue_inv w.
Proof.
  revert w0. induction es as [|e es IH]; intros w0 Hrun Hinv; simpl in Hrun.
  - by injection Hrun as <-.
  - destruct (step e w0) as [w1|] eqn:Hstep; [|done].
    apply (IH w1 Hrun). by apply (step_queue_inv e w0).
Qed.

(** Once the body of an operation has been entered, every earlier operation
    of the instance is completed. *)
Lemma queue_inv_order (w : world) (p q : nat) (o o' : op) :
  queue_inv w →
  p < q → w_ops w !! p = Some o → w_ops w !! q = Some o' →
  instance_of o = instance_of o' →
  started (op_phase o') = true →
  op_phase o = Completed.
Proof.
  intros Hinv Hlt Hp Hq Hi Hs.
  destruct (inv_captured w Hinv p q o o' Hlt Hp Hq Hi) as [Hin|Hc]; [|done].
  pose proof (inv_entered w Hinv q o' Hq Hs p Hin) as Hf.
  apply is_fulfilled_state in Hf as (o1 & v & Hp1 & Hst).
  rewrite Hp in Hp1. injection Hp1 as <-.
  by apply (op_consistent_fulfilled o v (inv_consistent w Hinv p o Hp)).
Qed.

(** C2. From a world without operations, whatever happens: an operation
    is given every earlier operation of its instance that is not completed;
    its body is entered only with every promise it was given fulfilled, and
    then every earlier operation of the instance is completed, so that no
    two operations of an instance wait for the transport at the same time;
    with a rejected promise among those it was given, the body is never
    entered: the operation waits, cannot start, and can only be rejected
    with that reason, or it has been rejected already. *)
Theorem operations_serialised (w0 w : world) (es : list event) :
  w_ops w0 = [] →
  run es w0 = Some w →
  ∀ q oq, w_ops w !! q = Some oq →
    (∀ p o, p < q → w_ops w !! p = Some o → instance_of o = instance_of oq →
            p ∈ op_deps oq ∨ op_phase o = Completed)
    ∧ (started (op_phase oq) = true →
         (∀ d, d ∈ op_deps oq → is_fulfilled (w_ops w) d = true)
         ∧ (∀ p o, p < q → w_ops w !! p = Some o → instance_of o = instance_of oq →
                   op_phase o = Completed))
    ∧ (op_phase oq = Running →
         ∀ p o, p ≠ q → w_ops w !! p = Some o → instance_of o = instance_of oq →
                op_phase o ≠ Running)
    ∧ (∀ d od r, d ∈ op_deps oq → w_ops w !! d = Some od → op_state od = Rejected r →
         (op_phase oq = Waiting
          ∧ step (EStart q) w = None
          ∧ step (EAbort q d) w = Some (set_op q Skipped (Rejected r) w))
         ∨ (op_phase oq = Skipped
            ∧ ∃ d' od' r', d' ∈ op_deps oq ∧ w_ops w !! d' = Some od'
                           ∧ op_state od' = Rejected r' ∧ op_state oq = Rejected r')).
Proof.
  intros Hops Hrun q oq Hq.
  pose proof (run_queue_inv es w0 w Hrun (queue_inv_init w0 Hops)) as Hinv.
  split; [intros p o Hlt Hp Hi; by apply (inv_captured w Hinv p q o oq)|].
  split.
  { intros Hs. split; [by apply (inv_entered w Hinv q oq)|].
    intros p o Hlt Hp Hi. by apply (queue_inv_order w p q o oq). }
  split.
  { intros Hr p o Hne Hp Hi Hr'.
    destruct (decide (p < q)) as [Hlt|Hge].
    - assert (op_phase o = Completed) as Hc; [|congruence].
      apply (queue_inv_order w p q o oq); try done. by rewrite Hr.
    - assert (op_phase oq = Completed) as Hc; [|congruence].
      apply (queue_inv_order w q p oq o); try done; [lia|by rewrite Hr']. }
  intros d od r Hd Hod Hst.
  assert (is_fulfilled (w_ops w) d = false) as Hnf.
  { unfold is_fulfilled. rewrite Hod. destruct od as [? ? ? st]. simpl in Hst. by subst st. }
  pose proof (inv_consistent w Hinv q oq Hq) as Hcons.
  destruct oq as [k deps ph st]. cbn [op_phase op_deps op_state] in *.
  destruct (started ph) eqn:Hs.
  { pose proof (inv_entered w Hinv q _ Hq Hs d Hd). congruence. }
  destruct ph; try discriminate.
  - left. split; [done|].
    assert (st = Pending) as -> by (unfold op_consistent in Hcons; by destruct st).
    split.
    + cbn [step]. rewrite Hq.
      assert (forallb (is_fulfilled (w_ops w)) deps = false) as ->; [|done].
      apply not_true_is_false. intros Hall. rewrite forallb_forall in Hall.
      rewrite (Hall d) in Hnf; [done|]. by apply list_elem_of_In.
    + cbn [step]. rewrite Hq, Hod. destruct od as [? ? ? std]. simpl in Hst. subst std.
      by rewrite bool_decide_eq_true_2.
  - right. split; [done|]. by apply (inv_skipped w Hinv q _ Hq).
Qed.

Lemma operations_serialised_witness :
  ∃ w o0 o1,
    run trace_two_saves world_new_model = Some w
    ∧ w_ops w !! 0 = Some o0
    ∧ w_ops w !! 1 = Some o1
    ∧ started (op_phase o1) = true
    ∧ op_phase o0 = Completed.
Proof.
  eexists _, _, _. split; [vm_compute; reflexivity|].
  match goal with
  | |- w_ops ?W !! 0 = _ ∧ _ =>
      pose proof (operations_serialised world_new_model W trace_two_saves eq_refl
                    ltac:(vm_compute; reflexivity) 1 _ eq_refl) as (_ & Hs & _)
  end.
  split; [reflexivity|]. split; [reflexivity|]. split; [reflexivity|].
  exact (proj2 (Hs eq_refl) 0 _ ltac:(lia) eq_refl eq_refl).
Defined.

(** The two operations of [trace_two_saves], run: the second [save] was
    given the promise of the first, and its request was made after the
    first was answered. *)
Example two_saves_in_order :
  ∃ w s,
    run trace_two_saves world_new_model = Some w
    ∧ w_ops w = [Op (MSave 1 (VRef 2)) [] Completed (Fulfilled (VRef 5));
                 Op (MSave 1 (VRef 3)) [0] Running Pending]
    ∧ fst <$> w_requests w = [0; 1]
    ∧ run (take 3 trace_two_saves) world_new_model = Some s
    ∧ step (EStart 1) s = None.
Proof.
  eexists _, _. split; [vm_compute; reflexivity|]. split; [reflexivity|].
  split; [reflexivity|]. split; [vm_compute; reflexivity|]. vm_compute. reflexivity.
Qed.

(** [delete()] is called while a [fetch] waits for the transport, and is
    given its pending promise. The transport fails: the promise of [fetch]
    is rejected and taken out of [this.promises]. Every promise that
    [delete] was given has settled now, yet its body cannot start; the
    operation can only be rejected, with the reason of [fetch], and no
    [DELETE] is sent. *)
Lemma operations_serialised_counterexample :
  ∃ w r rq,
    run trace_fetch_fails world_synced = Some w
    ∧ w_ops w = [Op (MFetch 1 (VRef 2) true) [] Completed (Rejected r);
                 Op (MDelete 1) [0] Waiting Pending]
    ∧ queue_of w 1 = [1]
    ∧ forallb (is_settled (w_ops w)) [0] = true
    ∧ step (EStart 1) w = None
    ∧ step (EAbort 1 0) w = Some (set_op 1 Skipped (Rejected r) w)
    ∧ w_requests w = [(0, rq)]
    ∧ effective_method rq = "GET".
Proof.
  eexists _, _, _. split; [vm_compute; reflexivity|]. split; [reflexivity|].
  split; [reflexivity|]. split; [reflexivity|]. split; [vm_compute; reflexivity|].
  split; [vm_compute; reflexivity|]. split; reflexivity.
Qed.

(** ** The promise queue: what a step can change *)

Lemma step_shape (e : event) (w w' : world) :
  step e w = Some w' →
  (w_ops w' = w_ops w ∧ w_queues w' = w_queues w ∧ w_requests w' = w_requests w)
  ∨ (∃ k, w_ops w' = w_ops w ++ [Op k (queue_of w (op_target k)) Waiting Pending]
          ∧ w_queues w'
            = <[op_target k := queue_of w (op_target k) ++ [length (w_ops w)]]> (w_queues w)
          ∧ w_requests w' = w_requests w)
  ∨ (∃ p k deps ph0 ph st,
        w_ops w !! p = Some (Op k deps ph0 Pending)
        ∧ w_ops w' = alter (λ o, Op (op_kind_of o) (op_deps o) ph st) p (w_ops w)
        ∧ ((ph0 = Waiting ∧ w_queues w' = w_queues w
            ∧ (w_requests w' = w_requests w
               ∨ ∃ rq, ph = Running ∧ w_requests w' = w_requests w ++ [(p, rq)]))
           ∨ (ph0 = Running ∧ started ph = true ∧ w_requests w' = w_requests w
              ∧ (w_queues w' = w_queues w
                 ∨ w_queues w'
                   = <[op_target k := splice_promise p (queue_of w (op_target k))]>
                       (w_queues w))))).
Proof.
  intros Hstep. destruct e as [c|p|p d|p body|p response]; cbn [step] in Hstep.
  - destruct c; cbn [step_call] in Hstep; unfold run_sync in Hstep;
      repeat case_match; try discriminate; injection Hstep as <-;
      first [by left | right; left; by eexists].
  - destruct (w_ops w !! p) as [[k deps [] []]|] eqn:Hp; try discriminate.
    destruct (forallb (is_fulfilled (w_ops w)) deps); [|discriminate].
    destruct (op_body k (w_store w)) as [[[v|r|rq]| |] s']; try discriminate;
      injection Hstep as <-; right; right; eexists p, k, deps, Waiting, _, _;
      (split; [exact Hp|]); (split; [reflexivity|]); left; (split; [done|]);
      (split; [done|]); first [by left | right; by eexists].
  - destruct (w_ops w !! p) as [[k deps [] []]|] eqn:Hp; try discriminate.
    destruct (w_ops w !! d) as [[kd dd phd [| |r]]|]; try discriminate.
    destruct (bool_decide (d ∈ deps)); [|discriminate]. injection Hstep as <-.
    right; right. eexists p, k, deps, Waiting, _, _.
    split; [exact Hp|]. split; [reflexivity|]. left. split; [done|]. split; [done|]. by left.
  - destruct (w_ops w !! p) as [[k deps [] []]|] eqn:Hp; try discriminate.
    destruct (bind _ _ _) as [[v| |] s']; try discriminate; injection Hstep as <-;
      right; right; eexists p, k, deps, Running, _, _;
      (split; [exact Hp|]); (split; [reflexivity|]); right; (split; [done|]);
      (split; [done|]); (split; [done|]); first [by left | by right].
  - destruct (w_ops w !! p) as [[k deps [] []]|] eqn:Hp; try discriminate.
    destruct (bind _ _ _) as [[v| |] s']; try discriminate; injection Hstep as <-;
      right; right; eexists p, k, deps, Running, _, _;
      (split; [exact Hp|]); (split; [reflexivity|]); right; (split; [done|]);
      (split; [done|]); (split; [done|]); first [by left | by right].
Qed.

Lemma requests_inv_step (e : event) (w w' : world) :
  step e w = Some w' → requests_inv w → requests_inv w'.
Proof.
  intros Hstep Hinv q rq Hin.
  destruct (step_shape e w w' Hstep)
    as [(Ho & _ & Hr)|[(k & Ho & _ & Hr)|(p & k & deps & ph0 & ph & st & Hp & Ho & Hcase)]].
  - rewrite Hr in Hin. rewrite Ho. by apply (Hinv q rq).
  - rewrite Hr in Hin. destruct (Hinv q rq Hin) as (o & Hq & Hs).
    exists o. split; [|done]. rewrite Ho. by apply lookup_app_l_Some.
  - assert (∀ q' o, w_ops w !! q' = Some o → started (op_phase o) = true →
                    (q' = p → started ph = true) →
                    ∃ o', w_ops w' !! q' = Some o' ∧ started (op_phase o') = true) as Hkeep.
    { intros q' o Hq Hs Hph. rewrite Ho. destruct (decide (q' = p)) as [->|Hne].
      - rewrite list_lookup_alter_eq, Hq. eexists. split; [done|]. by apply Hph.
      - rewrite list_lookup_alter_ne by done. by exists o. }
    destruct Hcase as [(-> & _ & Hr)|(-> & Hs & Hr & _)].
    + destruct Hr as [Hr|(rq' & -> & Hr)]; rewrite Hr in Hin.
      * destruct (Hinv q rq Hin) as (o & Hq & Hso). apply (Hkeep q o Hq Hso).
        intros ->. rewrite Hp in Hq. injection Hq as <-. done.
      * apply elem_of_app in Hin as [Hin|Hin].
        -- destruct (Hinv q rq Hin) as (o & Hq & Hso). by apply (Hkeep q o Hq Hso).
        -- apply list_elem_of_singleton in Hin. injection Hin as -> _.
           rewrite Ho, list_lookup_alter_eq, Hp. by eexists.
    + rewrite Hr in Hin. destruct (Hinv q rq Hin) as (o & Hq & Hso).
      by apply (Hkeep q o Hq Hso).
Qed.

Lemma poisoned_step (e : event) (w w' : world) (n d : nat) (od : op) (r : value) :
  step e w = Some w' → queue_inv w → op_state od = Rejected r →
  poisoned n d od w → poisoned n d od w'.
Proof.
  intros Hstep Hinv Hr (Hd & Hq & Hdeps).
  destruct (step_shape e w w' Hstep)
    as [(Ho & Hqs & _)|[(k & Ho & Hqs & _)|(p & k & deps & ph0 & ph & st & Hp & Ho & Hcase)]].
  - unfold poisoned, queue_of. by rewrite Ho, Hqs.
  - assert (d ∈ queue_of w' (instance_of od)) as Hq'.
    { unfold queue_of at 1. rewrite Hqs.
      destruct (decide (instance_of od = op_target k)) as [E|Hne].
      - rewrite E, lookup_insert_eq. simpl. apply elem_of_app. left. by rewrite <- E.
      - by rewrite lookup_insert_ne. }
    split; [rewrite Ho; by apply lookup_app_l_Some|]. split; [done|].
    intros q oq Hn Hoq Hi. rewrite Ho in Hoq. apply lookup_app_Some in Hoq as [Hoq|[Hge Hoq]].
    + by apply (Hdeps q oq).
    + destruct (q - length (w_ops w)) as [|i]; [|done]. injection Hoq as <-.
      unfold instance_of in Hi. cbn [op_kind_of op_deps] in *. by rewrite Hi.
  - assert (d ≠ p) as Hne.
    { intros ->. rewrite Hp in Hd. injection Hd as <-. done. }
    split; [rewrite Ho; by rewrite list_lookup_alter_ne|].
    split.
    + destruct Hcase as [(_ & Hqs & _)|(-> & _ & _ & [Hqs|Hqs])];
        unfold queue_of at 1; rewrite Hqs; try done.
      destruct (decide (instance_of od = op_target k)) as [E|Hne'].
      * rewrite E, lookup_insert_eq. simpl. apply elem_of_splice; [|done|by rewrite <- E].
        by apply (inv_queued w Hinv p _ Hp).
      * by rewrite lookup_insert_ne.
    + intros q oq Hn Hoq Hi. rewrite Ho in Hoq.
      destruct (decide (q = p)) as [->|Hqp].
      * rewrite list_lookup_alter_eq, Hp in Hoq. injection Hoq as <-.
        by apply (Hdeps p (Op k deps ph0 Pending)).
      * rewrite list_lookup_alter_ne in Hoq by done. by apply (Hdeps q oq).
Qed.

Lemma requests_inv_run (es : list event) (w w' : world) :
  run es w = Some w' → requests_inv w → requests_inv w'.
Proof.
  revert w. induction es as [|e es IH]; intros w Hrun Hinv; simpl in Hrun.
  - by injection Hrun as <-.
  - destruct (step e w) as [w1|] eqn:Hstep; [|done].
    apply (IH w1 Hrun). by apply (requests_inv_step e w).
Qed.

Lemma poisoned_run (es : list event) (w w' : world) (n d : nat) (od : op) (r : value) :
  run es w = Some w' → queue_inv w → op_state od = Rejected r →
  poisoned n d od w → poisoned n d od w'.
Proof.
  revert w. induction es as [|e es IH]; intros w Hrun Hinv Hr Hpo; simpl in Hrun.
  - by injection Hrun as <-.
  - destruct (step e w) as [w1|] eqn:Hstep; [|done].
    apply (IH w1 Hrun); [by apply (step_queue_inv e w)|done|].
    by apply (poisoned_step e w w1 n d od r).
Qed.

(** X1. A rejected promise that is still in [this.promises] of its instance
    stays there for good, and every operation called on the instance from
    then on is given it: the body of such an operation is never entered and
    it never calls the transport. *)
Theorem rejected_promise_poisons (w0 w w' : world) (es es' : list event)
    (d : nat) (od : op) (r : value) :
  w_ops w0 = [] → w_requests w0 = [] →
  run es w0 = Some w →
  w_ops w !! d = Some od → op_state od = Rejected r →
  d ∈ queue_of w (instance_of od) →
  run es' w = Some w' →
  d ∈ queue_of w' (instance_of od)
  ∧ ∀ q oq, length (w_ops w) ≤ q → w_ops w' !! q = Some oq →
            instance_of oq = instance_of od →
            d ∈ op_deps oq
            ∧ started (op_phase oq) = false
            ∧ ∀ rq, (q, rq) ∉ w_requests w'.
Proof.
  intros Hops Hreq Hrun Hd Hr Hq Hrun'.
  pose proof (run_queue_inv es w0 w Hrun (queue_inv_init w0 Hops)) as Hinv.
  pose proof (run_queue_inv es' w w' Hrun' Hinv) as Hinv'.
  assert (requests_inv w') as Hrq.
  { apply (requests_inv_run es' w w' Hrun'). apply (requests_inv_run es w0 w Hrun).
    intros q rq. rewrite Hreq. by intros ?%elem_of_nil. }
  assert (poisoned (length (w_ops w)) d od w) as Hpo.
  { split; [done|]. split; [done|]. intros q oq Hn Hoq _.
    apply lookup_lt_Some in Hoq. lia. }
  destruct (poisoned_run es' w w' _ d od r Hrun' Hinv Hr Hpo) as (Hd' & Hq' & Hdeps).
  split; [done|]. intros q oq Hn Hoq Hi.
  pose proof (Hdeps q oq Hn Hoq Hi) as Hin.
  assert (started (op_phase oq) = false) as Hns.
  { destruct (started (op_phase oq)) eqn:Hs; [|done].
    pose proof (inv_entered w' Hinv' q oq Hoq Hs d Hin) as Hf.
    apply is_fulfilled_state in Hf as (o & v & Ho & Hst).
    rewrite Hd' in Ho. injection Ho as <-. congruence. }
  split; [done|]. split; [done|].
  intros rq Hrqin. destruct (Hrq q rq Hrqin) as (o & Ho & Hs).
  rewrite Hoq in Ho. injection Ho as <-. congruence.
Qed.

Lemma rejected_promise_poisons_witness :
  ∃ w w' o1,
    run [ECall (CallModelDelete 1); EStart 0] world_new_model = Some w
    ∧ run [ECall (CallModelSave 1 (VRef 2)); ECall (CallModelFetch 1 VUndef true)] w = Some w'
    ∧ w_ops w' !! 1 = Some o1
    ∧ 0 ∈ op_deps o1
    ∧ started (op_phase o1) = false.
Proof.
  eexists _, _, _. split; [vm_compute; reflexivity|]. split; [vm_compute; reflexivity|].
  split; [reflexivity|].
  match goal with
  | |- 0 ∈ op_deps ?O1 ∧ _ =>
      destruct (proj2 (rejected_promise_poisons world_new_model _ _
                         [ECall (CallModelDelete 1); EStart 0]
                         [ECall (CallModelSave 1 (VRef 2));
                          ECall (CallModelFetch 1 VUndef true)]
                         0 _ no_id_reason eq_refl eq_refl
                         ltac:(vm_compute; reflexivity) eq_refl eq_refl
                         ltac:(vm_compute; apply list_elem_of_here)
                         ltac:(vm_compute; reflexivity))
                      1 O1 (le_n 1) eq_refl eq_refl) as (Hin & Hs & _)
  end.
  split; [exact Hin|exact Hs].
Defined.

(** ** [Model.set] *)

(** X2. [Model.set(attributes)] with an object that is [mergeable] (no
    property [__proto__], and an id, if any, that is a string, a safe
    integer, a boolean, [null] or [undefined]): the id of the argument is
    made a string in the argument itself; every property of the argument is
    then an attribute of the model, and the attributes the argument does not
    name are kept; nothing else in the store changes. With [undefined] or
    [null] nothing changes at all. *)
Theorem Model_set_merges (s : store) (m : loc) (mo : model) (cur : fields) :
  wf_store s →
  heap s !! m = Some (OModel mo) →
  heap s !! m_attributes mo = Some (OPlain cur) →
  (∀ l fs, heap s !! l = Some (OPlain fs) → l ≠ m_attributes mo →
     mergeable fs = true →
     ∃ s', Model_set m (VRef l) s = (Ret tt, s')
       ∧ wf_store s'
       ∧ heap s' !! l = Some (OPlain (coerce_id fs))
       ∧ (∀ k, obj_get k (attrs_of (heap s') m)
               = match obj_get k (coerce_id fs) with
                 | Some v => Some v
                 | None => obj_get k cur
                 end)
       ∧ (∀ l', l' ≠ l → l' ≠ m_attributes mo → heap s' !! l' = heap s !! l')
       ∧ next_loc s' = next_loc s ∧ r_models s' = r_models s
       ∧ r_collections s' = r_collections s ∧ logged s' = logged s)
  ∧ (∀ v, v = VUndef ∨ v = VNull → Model_set m v s = (Ret tt, s)).
Proof.
  intros Hwf Hm Ha. split.
  - intros l fs Hl Hne Hok.
    pose proof (wf_plain_NoDup _ _ _ Hwf Hl) as Hnd.
    pose proof (wf_plain_NoDup _ _ _ Hwf Ha) as Hndc.
    eexists. split; [exact (Model_set_plain s m mo cur l fs Hm Ha Hl Hok)|].
    rewrite decide_False by done.
    assert (m ≠ m_attributes mo) as Hma by (intros E; rewrite <- E in Ha; congruence).
    assert (m ≠ l) as Hml by (intros E; rewrite <- E in Hl; congruence).
    split.
    { pose proof (wf_write_plain s l fs (coerce_id fs) Hwf Hl (NoDup_coerce_id _ Hnd)) as Hwf1.
      apply (wf_write_plain _ (m_attributes mo) cur _ Hwf1).
      - cbn [heap set_heap]. by rewrite lookup_insert_ne.
      - by apply NoDup_obj_assign. }
    cbn [heap set_heap next_loc r_models r_collections logged].
    split; [rewrite lookup_insert_ne by done; by rewrite lookup_insert_eq|].
    split.
    { intros k. unfold attrs_of.
      rewrite lookup_insert_ne, lookup_insert_ne, Hm by done.
      rewrite lookup_insert_eq. apply obj_get_assign_NoDup. by apply NoDup_coerce_id. }
    split; [|done].
    intros l' H1 H2. by rewrite !lookup_insert_ne.
  - intros v Hv. unfold Model_set.
    rewrite (bind_Ret _ _ _ _ _ (read_model_Ret _ _ _ Hm)).
    assert (truthy v = false) as -> by (by destruct Hv as [-> | ->]).
    unfold bind at 1. unfold ret at 1. unfold Object_assign, gets, bind.
    assert (own_enumerable (heap s) v = Some []) as -> by (by destruct Hv as [-> | ->]).
    rewrite bool_decide_false by (cbn; apply not_elem_of_nil).
    rewrite (read_plain_Ret _ _ _ Ha), write_Ret. f_equal.
    destruct s as [h n rm rc lg]. cbn [heap set_heap obj_assign fold_left] in *.
    unfold set_heap. cbn [next_loc r_models r_collections logged].
    f_equal. by apply insert_id.
Qed.

Lemma Model_set_merges_witness :
  ∃ s',
    Model_set 1 (VRef 2) store_set = (Ret tt, s')
    ∧ heap s' !! 2 = Some (OPlain [("id", VStr "7"); ("b", VNum 3)])
    ∧ obj_get "a" (attrs_of (heap s') 1) = Some (VNum 1)
    ∧ obj_get "b" (attrs_of (heap s') 1) = Some (VNum 3).
Proof.
  assert (wf_store store_set) as Hwf
      by (apply (bool_decide_unpack _); vm_compute; exact I).
  destruct (proj1 (Model_set_merges store_set 1 _ _ Hwf eq_refl eq_refl) 2 _ eq_refl
              ltac:(discriminate) eq_refl)
    as (s' & Hrun & _ & Hl & Hattrs & _).
  exists s'. split; [exact Hrun|]. split; [exact Hl|].
  split; [exact (Hattrs "a")|exact (Hattrs "b")].
Defined.

(** ** [Model.fetch] through the transport *)

Lemma set_model_synced_Ret (s : store) (m : loc) (mo : model) (b : bool) :
  heap s !! m = Some (OModel mo) →
  set_model_synced m b s
  = (Ret tt, set_heap (<[m := OModel (Model (m_attributes mo) b)]> (heap s)) s).
Proof.
  intros Hm. unfold set_model_synced.
  by rewrite (bind_Ret _ _ _ _ _ (read_model_Ret _ _ _ Hm)), write_Ret.
Qed.

Lemma Model_fetch_body_call (s : store) (m : loc) (mo : model) (cur : fields)
    (params : value) (force : bool) :
  heap s !! m = Some (OModel mo) →
  heap s !! m_attributes mo = Some (OPlain cur) →
  force = true ∨ m_synced mo = false →
  Model_fetch_body m params force s
  = (Ret (Call (Request (ModelUrl (js_get idKey cur)) None (Some params) None false)),
     set_heap (<[m := OModel (Model (m_attributes mo) false)]> (heap s)) s).
Proof.
  intros Hm Ha Hf. unfold Model_fetch_body.
  rewrite (bind_Ret _ _ _ _ _ (read_model_Ret _ _ _ Hm)).
  assert (negb force && m_synced mo = false) as ->.
  { destruct Hf as [-> | ->]; [done|]. by rewrite andb_false_r. }
  rewrite (bind_Ret _ _ _ _ _ (set_model_synced_Ret _ _ _ false Hm)).
  assert (m ≠ m_attributes mo) as Hma by (intros E; rewrite <- E in Ha; congruence).
  erewrite (bind_Ret (Model_id m)); [reflexivity|].
  apply (Model_id_Ret _ m (Model (m_attributes mo) false) cur).
  - cbn [heap set_heap]. by rewrite lookup_insert_eq.
  - cbn [heap set_heap m_attributes]. by rewrite lookup_insert_ne.
Qed.

(** What the success callback of [Model.fetch] leaves behind for an entity
    that is a plain object. *)
Lemma Model_fetch_success_plain (s : store) (m : loc) (mo : model) (cur : fields)
    (e : loc) (efs : fields) :
  wf_store s →
  heap s !! m = Some (OModel mo) →
  heap s !! m_attributes mo = Some (OPlain cur) →
  heap s !! e = Some (OPlain efs) → e ≠ m_attributes mo →
  mergeable efs = true →
  ∃ s', Model_fetch_success m (VRef e) s = (Ret (VRef (m_attributes mo)), s')
    ∧ wf_store s'
    ∧ heap s' !! m = Some (OModel (Model (m_attributes mo) true))
    ∧ heap s' !! e = Some (OPlain (coerce_id efs))
    ∧ (∀ k, obj_get k (attrs_of (heap s') m)
            = match obj_get k (coerce_id efs) with
              | Some v => Some v
              | None => obj_get k cur
              end)
    ∧ (∀ l', l' ≠ e → l' ≠ m_attributes mo → l' ≠ m → heap s' !! l' = heap s !! l')
    ∧ next_loc s' = next_loc s ∧ r_models s' = r_models s
    ∧ r_collections s' = r_collections s ∧ logged s' = logged s.
Proof.
  intros Hwf Hm Ha He Hne Hok.
  pose proof (wf_plain_NoDup _ _ _ Hwf He) as Hnd.
  pose proof (wf_plain_NoDup _ _ _ Hwf Ha) as Hndc.
  assert (m ≠ m_attributes mo) as Hma by (intros E; rewrite <- E in Ha; congruence).
  assert (m ≠ e) as Hme by (intros E; rewrite <- E in He; congruence).
  set (s1 := set_heap (<[m_attributes mo := OPlain (obj_assign cur (coerce_id efs))]>
                         (<[e := OPlain (coerce_id efs)]> (heap s))) s).
  assert (Model_set m (VRef e) s = (Ret tt, s1)) as Hset.
  { rewrite (Model_set_plain s m mo cur e efs Hm Ha He Hok). by rewrite decide_False. }
  assert (wf_store s1) as Hwf1.
  { pose proof (wf_write_plain s e efs (coerce_id efs) Hwf He (NoDup_coerce_id _ Hnd)) as Hw.
    apply (wf_write_plain _ (m_attributes mo) cur _ Hw).
    - cbn [heap set_heap]. by rewrite lookup_insert_ne.
    - by apply NoDup_obj_assign. }
  assert (heap s1 !! m = Some (OModel mo)) as Hm1.
  { unfold s1. cbn [heap set_heap]. by rewrite !lookup_insert_ne. }
  eexists. split.
  { unfold Model_fetch_success. rewrite (bind_Ret _ _ _ _ _ Hset).
    rewrite (bind_Ret _ _ _ _ _ (set_model_synced_Ret _ _ _ true Hm1)).
    rewrite (bind_Ret (read_model m) _ _ (Model (m_attributes mo) true) _
               (read_model_Ret _ _ _ (lookup_insert_eq _ _ _))).
    done. }
  split; [by apply wf_write_synced|].
  unfold s1. cbn [heap set_heap next_loc r_models r_collections logged].
  split; [by rewrite lookup_insert_eq|].
  split.
  { rewrite lookup_insert_ne by done. rewrite lookup_insert_ne by (by apply not_eq_sym).
    by rewrite lookup_insert_eq. }
  split.
  { intros k. unfold attrs_of. rewrite lookup_insert_eq. cbn [m_attributes].
    rewrite lookup_insert_ne, lookup_insert_eq by done.
    apply obj_get_assign_NoDup. by apply NoDup_coerce_id. }
  split; [|done]. intros l' H1 H2 H3. by rewrite !lookup_insert_ne.
Qed.

(** X3. A [fetch] that is forced, or on a model that is not synced: its
    body marks the model unsynced and makes one [GET] of the model's URL
    with the parameters of the call. When the answer is an object that is
    [wire_mergeable] (no property [__proto__], and an id, if any, that is a
    string, a safe integer, a boolean or [null]), its properties are merged
    into the attributes with the id made a string (the ones the answer
    lacks are kept), the model is synced, and the promise is fulfilled with
    the attributes object itself and taken out of [this.promises]. *)
Theorem model_fetch_network (w : world) (p : nat) (m : loc) (mo : model)
    (cur : fields) (params : value) (force : bool) (deps : list nat)
    (l : list (string * wire)) :
  wf_store (w_store w) →
  heap (w_store w) !! m = Some (OModel mo) →
  heap (w_store w) !! m_attributes mo = Some (OPlain cur) →
  w_ops w !! p = Some (Op (MFetch m params force) deps Waiting Pending) →
  forallb (is_fulfilled (w_ops w)) deps = true →
  force = true ∨ m_synced mo = false →
  wire_mergeable (WObj l) = true →
  ∃ w1 w2 rq e efs s1,
    step (EStart p) w = Some w1
    ∧ rq = Request (ModelUrl (js_get idKey cur)) None (Some params) None false
    ∧ effective_method rq = "GET"
    ∧ w_requests w1 = w_requests w ++ [(p, rq)]
    ∧ model_synced (heap (w_store w1)) m = false
    ∧ step (EResponse p (WObj l)) w1 = Some w2
    ∧ alloc_wire (WObj l) (w_store w1) = (Ret (VRef e), s1)
    ∧ heap s1 !! e = Some (OPlain efs)
    ∧ w_ops w2 !! p
      = Some (Op (MFetch m params force) deps Completed
                 (Fulfilled (VRef (m_attributes mo))))
    ∧ queue_of w2 m = splice_promise p (queue_of w m)
    ∧ w_requests w2 = w_requests w1
    ∧ heap (w_store w2) !! m = Some (OModel (Model (m_attributes mo) true))
    ∧ ∀ k, obj_get k (attrs_of (heap (w_store w2)) m)
           = match obj_get k (coerce_id efs) with
             | Some v => Some v
             | None => obj_get k cur
             end.
Proof.
  intros Hwf Hm Ha Hop Hall Hf Hok.
  assert (m ≠ m_attributes mo) as Hma by (intros E; rewrite <- E in Ha; congruence).
  set (s0 := set_heap (<[m := OModel (Model (m_attributes mo) false)]> (heap (w_store w)))
                      (w_store w)).
  set (rq := Request (ModelUrl (js_get idKey cur)) None (Some params) None false).
  set (w1 := World s0 (alter (λ o, Op (op_kind_of o) (op_deps o) Running Pending) p (w_ops w))
                   (w_queues w) (w_requests w ++ [(p, rq)])).
  assert (step (EStart p) w = Some w1) as Hstep1.
  { cbn [step]. rewrite Hop, Hall. cbn [op_body].
    by rewrite (Model_fetch_body_call _ m mo cur params force Hm Ha Hf). }
  assert (wf_store s0) as Hwf0 by (by apply wf_write_synced).
  assert (heap s0 !! m = Some (OModel (Model (m_attributes mo) false))) as Hm0.
  { unfold s0. cbn [heap set_heap]. by rewrite lookup_insert_eq. }
  assert (heap s0 !! m_attributes mo = Some (OPlain cur)) as Ha0.
  { unfold s0. cbn [heap set_heap]. by rewrite lookup_insert_ne. }
  destruct (alloc_wire_spec (WObj l) s0 Hwf0) as (v & s1 & Hal & Hwf1 & Hext & Hsh).
  destruct (shape_entity _ _ _ _ _ Hsh) as (e & efs & -> & Hlo & Hhi & He & _ & _ & Hmerge).
  rewrite Hok in Hmerge.
  pose proof Hext as (_ & Hh1 & _ & _ & _ & _).
  pose proof (wf_bounded _ _ _ Hwf0 Hm0) as Hmlt.
  pose proof (wf_bounded _ _ _ Hwf0 Ha0) as Halt.
  assert (heap s1 !! m = Some (OModel (Model (m_attributes mo) false))) as Hm1
      by (by rewrite Hh1).
  assert (heap s1 !! m_attributes mo = Some (OPlain cur)) as Ha1 by (by rewrite Hh1).
  destruct (Model_fetch_success_plain s1 m _ cur e efs Hwf1 Hm1 Ha1 He ltac:(cbn; lia)
              Hmerge)
    as (s2 & Hrun & Hwf2 & Hm2 & He2 & Hattrs & _).
  cbn [m_attributes] in *.
  exists w1, (settle_and_splice p m (Fulfilled (VRef (m_attributes mo))) s2 w1), rq, e, efs, s1.
  split; [done|]. split; [done|]. split; [done|]. split; [done|].
  split.
  { unfold model_synced. cbn [w_store w1]. by rewrite Hm0. }
  assert (w_ops w1 !! p = Some (Op (MFetch m params force) deps Running Pending)) as Hop1.
  { unfold w1. cbn [w_ops]. by rewrite list_lookup_alter_eq, Hop. }
  split.
  { cbn [step]. rewrite Hop1. cbn [w_store w1].
    rewrite (bind_Ret _ _ _ _ _ Hal). cbn [op_success op_target]. by rewrite Hrun. }
  split; [done|]. split; [done|].
  split.
  { unfold settle_and_splice. cbn [w_ops]. by rewrite list_lookup_alter_eq, Hop1. }
  split.
  { unfold queue_of at 1, settle_and_splice. cbn [w_queues]. by rewrite lookup_insert_eq. }
  done.
Qed.

Lemma model_fetch_network_witness :
  ∃ w1 w2,
    step (EStart 0) world_fetch_forced = Some w1
    ∧ w_requests w1 = [(0, Request (ModelUrl (VStr "7")) None (Some (VRef 2)) None false)]
    ∧ step (EResponse 0 (WObj [("id", WNum 7); ("b", WNum 2)])) w1 = Some w2
    ∧ w_ops w2 !! 0
      = Some (Op (MFetch 1 (VRef 2) true) [] Completed (Fulfilled (VRef 0)))
    ∧ heap (w_store w2) !! 1 = Some (OModel (Model 0 true)).
Proof.
  assert (wf_store (w_store world_fetch_forced)) as Hwf
      by (apply (bool_decide_unpack _); vm_compute; exact I).
  destruct (model_fetch_network world_fetch_forced 0 1 _ _ (VRef 2) true []
              [("id", WNum 7); ("b", WNum 2)] Hwf eq_refl eq_refl eq_refl eq_refl
              (or_introl eq_refl) eq_refl)
    as (w1 & w2 & rq & e & efs & s1 & H1 & -> & _ & Hrq & _ & H2 & _ & _ & Hop & _ & _ & Hm & _).
  exists w1, w2. split; [exact H1|]. split; [exact Hrq|]. split; [exact H2|].
  split; [exact Hop|exact Hm].
Defined.

(** The world of the example is what the call leads to. *)
Example world_fetch_forced_reached :
  step (ECall (CallModelFetch 1 VUndef true)) world_synced = Some world_fetch_forced.
Proof. vm_compute. reflexivity. Qed.

(** ** A call of the transport that fails *)

Lemma on_failure_response (s : store) (b : wire) :
  wf_store s →
  ∃ r s1, alloc_wire b s = (Ret r, s1)
    ∧ (let* r := alloc_wire b in on_failure r) s = (Ret r, add_log (LogError r) s1)
    ∧ wf_store s1 ∧ data_ext s s1.
Proof.
  intros Hwf. destruct (alloc_wire_spec b s Hwf) as (r & s1 & Hal & Hwf1 & Hext & _).
  exists r, s1. split; [done|]. split; [|done].
  by rewrite (bind_Ret _ _ _ _ _ Hal).
Qed.

(** X4. When the transport fails a [fetch] that was forced or made on an
    unsynced model, the error is logged, the promise is rejected with the
    response and taken out of [this.promises], the attributes are what they
    were, and the model is left unsynced: the next [fetch], forced or not,
    calls the transport again. *)
Theorem failed_fetch_unsyncs (w : world) (p : nat) (m : loc) (mo : model)
    (cur : fields) (params : value) (force : bool) (deps : list nat) (b : wire) :
  wf_store (w_store w) →
  heap (w_store w) !! m = Some (OModel mo) →
  heap (w_store w) !! m_attributes mo = Some (OPlain cur) →
  w_ops w !! p = Some (Op (MFetch m params force) deps Waiting Pending) →
  forallb (is_fulfilled (w_ops w)) deps = true →
  force = true ∨ m_synced mo = false →
  ∃ w1 w2 r,
    step (EStart p) w = Some w1
    ∧ step (EFailure p b) w1 = Some w2
    ∧ w_ops w2 !! p = Some (Op (MFetch m params force) deps Completed (Rejected r))
    ∧ logged (w_store w2) = logged (w_store w) ++ [LogError r]
    ∧ queue_of w2 m = splice_promise p (queue_of w m)
    ∧ heap (w_store w2) !! m = Some (OModel (Model (m_attributes mo) false))
    ∧ heap (w_store w2) !! m_attributes mo = Some (OPlain cur)
    ∧ r_models (w_store w2) = r_models (w_store w)
    ∧ ∀ params' force',
        ∃ s', Model_fetch_body m params' force' (w_store w2)
              = (Ret (Call (Request (ModelUrl (js_get idKey cur)) None
                              (Some params') None false)), s').
Proof.
  intros Hwf Hm Ha Hop Hall Hf.
  assert (m ≠ m_attributes mo) as Hma by (intros E; rewrite <- E in Ha; congruence).
  set (s0 := set_heap (<[m := OModel (Model (m_attributes mo) false)]> (heap (w_store w)))
                      (w_store w)).
  set (rq := Request (ModelUrl (js_get idKey cur)) None (Some params) None false).
  set (w1 := World s0 (alter (λ o, Op (op_kind_of o) (op_deps o) Running Pending) p (w_ops w))
                   (w_queues w) (w_requests w ++ [(p, rq)])).
  assert (step (EStart p) w = Some w1) as Hstep1.
  { cbn [step]. rewrite Hop, Hall. cbn [op_body].
    by rewrite (Model_fetch_body_call _ m mo cur params force Hm Ha Hf). }
  assert (wf_store s0) as Hwf0 by (by apply wf_write_synced).
  assert (heap s0 !! m = Some (OModel (Model (m_attributes mo) false))) as Hm0.
  { unfold s0. cbn [heap set_heap]. by rewrite lookup_insert_eq. }
  assert (heap s0 !! m_attributes mo = Some (OPlain cur)) as Ha0.
  { unfold s0. cbn [heap set_heap]. by rewrite lookup_insert_ne. }
  destruct (on_failure_response s0 b Hwf0) as (r & s1 & Hal & Hrun & Hwf1 & Hext).
  pose proof Hext as (_ & Hh1 & _ & Hrm & _ & Hlog).
  pose proof (wf_bounded _ _ _ Hwf0 Hm0) as Hmlt.
  pose proof (wf_bounded _ _ _ Hwf0 Ha0) as Halt.
  assert (w_ops w1 !! p = Some (Op (MFetch m params force) deps Running Pending)) as Hop1.
  { unfold w1. cbn [w_ops]. by rewrite list_lookup_alter_eq, Hop. }
  exists w1, (settle_and_splice p m (Rejected r) (add_log (LogError r) s1) w1), r.
  split; [done|].
  split.
  { cbn [step]. rewrite Hop1. cbn [w_store w1 op_target]. by rewrite Hrun. }
  split.
  { unfold settle_and_splice. cbn [w_ops]. by rewrite list_lookup_alter_eq, Hop1. }
  cbn [settle_and_splice w_store].
  split; [cbn [logged add_log]; by rewrite Hlog|].
  split.
  { unfold queue_of at 1, settle_and_splice. cbn [w_queues]. by rewrite lookup_insert_eq. }
  assert (heap (add_log (LogError r) s1) !! m
          = Some (OModel (Model (m_attributes mo) false))) as Hm2.
  { cbn [heap add_log]. by rewrite Hh1. }
  assert (heap (add_log (LogError r) s1) !! m_attributes mo = Some (OPlain cur)) as Ha2.
  { cbn [heap add_log]. by rewrite Hh1. }
  split; [done|]. split; [done|]. split; [done|].
  intros params' force'. eexists.
  apply (Model_fetch_body_call _ m (Model (m_attributes mo) false) cur params' force');
    [done|done|by right].
Qed.

Lemma failed_fetch_unsyncs_witness :
  ∃ w1 w2 r,
    step (EStart 0) world_fetch_forced = Some w1
    ∧ step (EFailure 0 (WStr "gone")) w1 = Some w2
    ∧ w_ops w2 !! 0 = Some (Op (MFetch 1 (VRef 2) true) [] Completed (Rejected r))
    ∧ heap (w_store w2) !! 1 = Some (OModel (Model 0 false)).
Proof.
  assert (wf_store (w_store world_fetch_forced)) as Hwf
      by (apply (bool_decide_unpack _); vm_compute; exact I).
  destruct (failed_fetch_unsyncs world_fetch_forced 0 1 _ _ (VRef 2) true []
              (WStr "gone") Hwf eq_refl eq_refl eq_refl eq_refl (or_introl eq_refl))
    as (w1 & w2 & r & H1 & H2 & Hop & _ & _ & Hm & _).
  exists w1, w2, r. split; [exact H1|]. split; [exact H2|]. split; [exact Hop|exact Hm].
Defined.

(** ** [getModel] on an id that is not in the cache *)

Lemma new_attrs_id (x : value) :
  new_attrs [(idKey, x)] = [(idKey, VStr (prop_key x))].
Proof. reflexivity. Qed.

(** [getModel(x)] with nothing cached for [x] makes the model [S (S n)] with
    the attributes [{id: String(x)}] at [S n], and caches it unless
    [String(x)] is empty. *)
Lemma getModel_fresh (s : store) (x : value) :
  wf_store s → own_key x = true → r_models s !! prop_key x = None →
  let n := next_loc s in
  ∃ s', getModel x s = (Ret (S (S n)), s')
    ∧ wf_store s'
    ∧ r_models s' = (if decide (prop_key x = EmptyString) then r_models s
                     else <[prop_key x := S (S n)]> (r_models s))
    ∧ heap s' !! S (S n) = Some (OModel (Model (S n) false))
    ∧ heap s' !! S n = Some (OPlain [(idKey, VStr (prop_key x))])
    ∧ (∀ l, l < n → heap s' !! l = heap s !! l)
    ∧ next_loc s' = S (S (S n))
    ∧ r_collections s' = r_collections s
    ∧ logged s' = logged s.
Proof.
  intros Hwf Hx Hk n.
  set (s1 := (alloc (OPlain (obj_set idKey x [])) s).2).
  assert (wf_store s1) as Hwf1.
  { apply wf_alloc_plain; [done|]. apply NoDup_obj_set, NoDup_nil_2. }
  assert (heap s1 !! n = Some (OPlain [(idKey, x)])) as Hd1
      by (simpl; by rewrite lookup_insert_eq).
  destruct (addModel_plain s1 n _ Hwf1 Hd1 (cacheable_id _ Hx))
    as (m & s' & _ & Hcreate & Hpost).
  destruct Hpost as (Hwf' & Hnext & Hrc & Hlog & _ & _ & Hm & Ha & _ & Hcase).
  assert (js_get idKey (coerce_id [(idKey, x)]) = VStr (prop_key x)) as Hidv.
  { unfold js_get. rewrite obj_get_coerce_id, decide_True by done. reflexivity. }
  rewrite Hidv in Hcase. rewrite new_attrs_id in Ha.
  change (next_loc s1) with (S n) in *.
  change (prop_key (VStr (prop_key x))) with (prop_key x) in Hcase.
  change (r_models s1) with (r_models s) in Hcase.
  rewrite Hk in Hcase.
  assert (m = S (S n) ∧ r_models s' = (if decide (prop_key x = EmptyString) then r_models s
                                        else <[prop_key x := S (S n)]> (r_models s))
          ∧ ∀ l, l < S n → l ≠ n → heap s' !! l = heap s1 !! l) as (-> & Hrm & Hfr).
  { unfold truthy in Hcase. destruct (decide (prop_key x = EmptyString)) as [E|E].
    - rewrite bool_decide_true in Hcase by done. exact Hcase.
    - rewrite bool_decide_false in Hcase by done. exact Hcase. }
  exists s'. split.
  { unfold getModel. rewrite Hx. cbn [negb]. unfold bind at 1, gets at 1. rewrite Hk.
    rewrite (bind_Ret _ _ s n s1) by reflexivity. exact Hcreate. }
  split; [done|]. split; [done|]. split; [done|]. split; [done|].
  split.
  { intros l Hl. rewrite Hfr by lia. simpl. by rewrite lookup_insert_ne by lia. }
  done.
Qed.

Lemma own_key_VStr (k : string) : k ∉ inherited_names → own_key (VStr k) = true.
Proof.
  intros Hk. unfold own_key. cbn [stringable andb prop_key js_String].
  by apply negb_true_iff, bool_decide_eq_false.
Qed.

(** ** [Model.delete] with an id *)

(** X5. [delete()] on a model with the id [k], a non-empty string that is
    no inherited name, calls [DELETE] on the model's URL. When the
    transport succeeds, the cache forgets the id and the promise is
    fulfilled with the id; the model itself and every collection are left
    as they were, so a collection that had the model as a member still has
    it. A [getModel(k)] after that makes a new model. *)
Theorem delete_then_getModel (s : store) (m : loc) (mo : model) (cur : fields)
    (k : string) :
  wf_store s →
  heap s !! m = Some (OModel mo) →
  heap s !! m_attributes mo = Some (OPlain cur) →
  js_get idKey cur = VStr k → k ≠ EmptyString → k ∉ inherited_names →
  Model_delete_body m s
  = (Ret (Call (Request (ModelUrl (VStr k)) (Some "DELETE") None None true)), s)
  ∧ ∃ s1,
      Model_delete_success m s = (Ret (VStr k), s1)
      ∧ heap s1 = heap s
      ∧ r_models s1 = delete k (r_models s)
      ∧ r_collections s1 = r_collections s
      ∧ logged s1 = logged s
      ∧ ∃ m' s2,
          getModel (VStr k) s1 = (Ret m', s2)
          ∧ heap s !! m' = None
          ∧ m' ≠ m
          ∧ r_models s2 !! k = Some m'
          ∧ attrs_of (heap s2) m' = [(idKey, VStr k)]
          ∧ ∀ l o, heap s !! l = Some o → heap s2 !! l = Some o.
Proof.
  intros Hwf Hm Ha Hid Hk Hinh.
  assert (truthy (VStr k) = true) as Ht by (simpl; by rewrite bool_decide_false).
  split.
  { unfold Model_delete_body.
    rewrite (bind_Ret _ _ _ _ _ (Model_id_Ret _ _ _ _ Hm Ha)). by rewrite Hid, Ht. }
  set (s1 := set_r_models (delete k (r_models s)) s).
  assert (wf_store s1) as Hwf1.
  { apply wf_set_r_models; [done|]. intros k0 m0 [_ H0]%lookup_delete_Some.
    destruct (wf_cache_model _ _ _ Hwf H0) as [mo0 Hmo0].
    apply is_model_lookup. by exists mo0. }
  exists s1. split.
  { unfold Model_delete_success, removeModel.
    rewrite (bind_Ret _ _ s tt s1).
    - rewrite (Model_id_Ret s1 m mo cur Hm Ha). by rewrite Hid.
    - rewrite (bind_Ret _ _ _ _ _ (Model_id_Ret _ _ _ _ Hm Ha)). by rewrite Hid. }
  split; [done|]. split; [done|]. split; [done|]. split; [done|].
  assert (r_models s1 !! prop_key (VStr k) = None) as Hnone.
  { unfold s1. cbn [r_models set_r_models prop_key js_String]. apply lookup_delete_eq. }
  destruct (getModel_fresh s1 (VStr k) Hwf1 (own_key_VStr _ Hinh) Hnone)
    as (s2 & Hget & Hwf2 & Hrm & Hm2 & Ha2 & Hfr & _).
  change (next_loc s1) with (next_loc s) in *.
  change (prop_key (VStr k)) with k in *. rewrite decide_False in Hrm by done.
  exists (S (S (next_loc s))), s2. split; [done|].
  assert (heap s !! S (S (next_loc s)) = None) as Hnew.
  { destruct (heap s !! S (S (next_loc s))) as [o|] eqn:E; [|done].
    apply (wf_bounded _ _ _ Hwf) in E. lia. }
  split; [done|]. split; [intros E; rewrite E in Hnew; congruence|].
  split; [by rewrite Hrm, lookup_insert_eq|].
  split.
  { unfold attrs_of. rewrite Hm2. cbn [m_attributes]. by rewrite Ha2. }
  intros l o Hl. rewrite Hfr; [done|]. exact (wf_bounded _ _ _ Hwf Hl).
Qed.

Lemma delete_then_getModel_witness :
  ∃ s1 m' s2,
    Model_delete_success 1 (w_store world_synced) = (Ret (VStr "7"), s1)
    ∧ r_models s1 = delete "7" (r_models (w_store world_synced))
    ∧ getModel (VStr "7") s1 = (Ret m', s2)
    ∧ m' ≠ 1.
Proof.
  assert (wf_store (w_store world_synced)) as Hwf
      by (apply (bool_decide_unpack _); vm_compute; exact I).
  destruct (delete_then_getModel (w_store world_synced) 1 _ _ "7" Hwf eq_refl eq_refl
              eq_refl ltac:(discriminate)
              ltac:(apply (bool_decide_eq_false_1 _); reflexivity))
    as (_ & s1 & H1 & _ & Hrm & _ & _ & m' & s2 & H2 & _ & Hne & _).
  exists s1, m', s2. split; [exact H1|]. split; [exact Hrm|]. split; [exact H2|exact Hne].
Defined.

(** ** [Model.save]: the answer to a [POST] *)

Lemma addModel_instance_miss (s : store) (m : loc) (mo : model) (fs : fields) (k : string) :
  heap s !! m = Some (OModel mo) →
  heap s !! m_attributes mo = Some (OPlain fs) →
  js_get idKey fs = VStr k → k ≠ EmptyString → k ∉ inherited_names →
  r_models s !! k = None →
  addModel (VRef m) s = (Ret m, set_r_models (<[k := m]> (r_models s)) s).
Proof.
  intros Hm Ha Hid Hk Hinh Hnone. unfold addModel, bind at 1, gets at 1.
  unfold is_Model. rewrite Hm. unfold addModel_instance.
  rewrite (bind_Ret _ _ _ _ _ (Model_id_Ret _ _ _ _ Hm Ha)). rewrite Hid.
  cbn [truthy]. rewrite bool_decide_false by done. cbn [negb].
  rewrite (own_key_VStr _ Hinh). cbn [negb].
  unfold bind at 1, gets at 1. cbn [prop_key js_String]. rewrite Hnone.
  unfold bind at 1, modify at 1.
  erewrite (bind_Ret (Model_id m)); cycle 1.
  { apply (Model_id_Ret _ m mo fs); done. }
  rewrite Hid. unfold bind, gets. cbn [r_models set_r_models prop_key js_String].
  by rewrite lookup_insert_eq.
Qed.

(** X6. The answer to the [POST] of a model without an id, when the entity
    is [cacheable] (no property [__proto__]; its id a string, a safe
    integer, a boolean or [null] whose string is no inherited name), has
    the id [v], and the cache has no model for [String(v)]: the entity is
    merged into the attributes, the model gets the id [String(v)], is cached
    under it and synced, and the promise is fulfilled with the entity; after
    that [getModel] of the id returns this very model. *)
Theorem save_success_caches (s : store) (m : loc) (mo : model) (cur : fields)
    (e : loc) (efs : fields) (v : value) :
  wf_store s →
  heap s !! m = Some (OModel mo) →
  heap s !! m_attributes mo = Some (OPlain cur) →
  truthy (js_get idKey cur) = false →
  heap s !! e = Some (OPlain efs) → e ≠ m_attributes mo →
  cacheable efs = true →
  obj_get idKey efs = Some v → js_String v ≠ EmptyString →
  r_models s !! js_String v = None →
  ∃ s',
    Model_save_success m (VRef e) s = (Ret (VRef e), s')
    ∧ wf_store s'
    ∧ r_models s' = <[js_String v := m]> (r_models s)
    ∧ heap s' !! m = Some (OModel (Model (m_attributes mo) true))
    ∧ id_of (heap s') m = VStr (js_String v)
    ∧ (∀ k, obj_get k (attrs_of (heap s') m)
            = match obj_get k (coerce_id efs) with
              | Some x => Some x
              | None => obj_get k cur
              end)
    ∧ (∀ x, own_key x = true → prop_key x = js_String v →
            getModel x s' = (Ret m, s')).
Proof.
  intros Hwf Hm Ha Hold He Hne Hok Hv Hk Hnone.
  assert (js_String v ∉ inherited_names) as Hinh.
  { apply cacheable_own_key in Hok. unfold js_get in Hok. rewrite Hv in Hok.
    by apply own_key_inherited in Hok. }
  pose proof (wf_plain_NoDup _ _ _ Hwf He) as Hnd.
  pose proof (wf_plain_NoDup _ _ _ Hwf Ha) as Hndc.
  assert (m ≠ m_attributes mo) as Hma by (intros E; rewrite <- E in Ha; congruence).
  assert (m ≠ e) as Hme by (intros E; rewrite <- E in He; congruence).
  set (new := obj_assign cur (coerce_id efs)).
  set (s1 := set_heap (<[m_attributes mo := OPlain new]>
                         (<[e := OPlain (coerce_id efs)]> (heap s))) s).
  assert (Model_set m (VRef e) s = (Ret tt, s1)) as Hset.
  { rewrite (Model_set_plain s m mo cur e efs Hm Ha He (cacheable_mergeable _ Hok)).
    by rewrite decide_False. }
  assert (wf_store s1) as Hwf1.
  { pose proof (wf_write_plain s e efs (coerce_id efs) Hwf He (NoDup_coerce_id _ Hnd)) as Hw.
    apply (wf_write_plain _ (m_attributes mo) cur _ Hw).
    - cbn [heap set_heap]. by rewrite lookup_insert_ne.
    - by apply NoDup_obj_assign. }
  assert (heap s1 !! m = Some (OModel mo)) as Hm1.
  { unfold s1. cbn [heap set_heap]. by rewrite !lookup_insert_ne. }
  assert (heap s1 !! m_attributes mo = Some (OPlain new)) as Ha1.
  { unfold s1. cbn [heap set_heap]. by rewrite lookup_insert_eq. }
  assert (∀ k, obj_get k new = match obj_get k (coerce_id efs) with
                               | Some x => Some x
                               | None => obj_get k cur
                               end) as Hnew.
  { intros k. apply obj_get_assign_NoDup. by apply NoDup_coerce_id. }
  assert (js_get idKey new = VStr (js_String v)) as Hid.
  { unfold js_get. rewrite Hnew, obj_get_coerce_id, decide_True, Hv by done. done. }
  set (s2 := set_r_models (<[js_String v := m]> (r_models s1)) s1).
  assert (addModel (VRef m) s1 = (Ret m, s2)) as Hadd.
  { by apply (addModel_instance_miss s1 m mo new). }
  assert (wf_store s2) as Hwf2.
  { apply wf_set_r_models; [done|]. intros k0 m0 [[_ <-]|[_ H0]]%lookup_insert_Some.
    - apply is_model_lookup. by exists mo.
    - destruct (wf_cache_model _ _ _ Hwf1 H0) as [mo0 Hmo0].
      apply is_model_lookup. by exists mo0. }
  assert (heap s2 !! m = Some (OModel mo)) as Hm2 by done.
  set (s3 := set_heap (<[m := OModel (Model (m_attributes mo) true)]> (heap s2)) s2).
  exists s3. split.
  { unfold Model_save_success.
    rewrite (bind_Ret _ _ _ _ _ (Model_id_Ret _ _ _ _ Hm Ha)).
    rewrite (bind_Ret _ _ _ _ _ Hset).
    rewrite (bind_Ret _ _ _ _ _ (Model_id_Ret _ _ _ _ Hm1 Ha1)).
    rewrite Hold, Hid. cbn [truthy negb]. rewrite bool_decide_false by done.
    cbn [negb andb].
    rewrite (bind_Ret _ _ s1 tt s2) by (by rewrite (bind_Ret _ _ _ _ _ Hadd)).
    rewrite (bind_Ret _ _ _ _ _ (set_model_synced_Ret _ _ _ true Hm2)). done. }
  split; [by apply wf_write_synced|].
  split; [done|].
  assert (heap s3 !! m = Some (OModel (Model (m_attributes mo) true))) as Hm3.
  { unfold s3. cbn [heap set_heap]. by rewrite lookup_insert_eq. }
  assert (heap s3 !! m_attributes mo = Some (OPlain new)) as Ha3.
  { unfold s3. cbn [heap set_heap]. rewrite lookup_insert_ne by done. exact Ha1. }
  assert (attrs_of (heap s3) m = new) as Hattrs.
  { unfold attrs_of. rewrite Hm3. cbn [m_attributes]. by rewrite Ha3. }
  split; [done|].
  split; [unfold id_of; by rewrite Hattrs|].
  split; [intros k; by rewrite Hattrs|].
  intros x Hown Hx. apply getModel_cached; [done|].
  unfold s3, s2. cbn [r_models set_r_models set_heap].
  by rewrite Hx, lookup_insert_eq.
Qed.

Lemma save_success_caches_witness :
  ∃ s',
    Model_save_success 1 (VRef 3)
      (Store {[ 0 := OPlain [("a", VNum 1)]; 1 := OModel (Model 0 false);
                3 := OPlain [("id", VNum 7); ("a", VNum 1)] ]} 4 ∅ ∅ [])
    = (Ret (VRef 3), s')
    ∧ r_models s' = {[ "7" := 1 ]}
    ∧ getModel (VNum 7) s' = (Ret 1, s').
Proof.
  match goal with
  | |- ∃ s', Model_save_success _ _ ?S = _ ∧ _ =>
      assert (wf_store S) as Hwf by (apply (bool_decide_unpack _); vm_compute; exact I);
      destruct (save_success_caches S 1 _ _ 3 _ (VNum 7) Hwf eq_refl eq_refl eq_refl
                  eq_refl ltac:(discriminate) eq_refl eq_refl ltac:(discriminate) eq_refl)
        as (s' & Hrun & _ & Hrm & _ & _ & _ & Hget)
  end.
  exists s'. split; [exact Hrun|]. split; [exact Hrm|].
  exact (Hget (VNum 7) eq_refl eq_refl).
Defined.

Lemma coerce_id_string (fs : fields) (k : string) :
  obj_get idKey fs = Some (VStr k) → coerce_id fs = fs.
Proof.
  intros H. unfold coerce_id, obj_has. rewrite H.
  rewrite bool_decide_true by (by eexists).
  unfold js_get. rewrite H. cbn [default js_String]. unfold obj_set.
  rewrite H. by apply obj_replace_same.
Qed.

(** X18. The answer to the [POST] of a model without an id, when the entity
    is [cacheable] and the cache already has another model for the string
    of its id: the cache keeps that model, into which the attributes of the
    saved model are merged; the saved model gets the id and is synced, but
    is not cached. Two models then have the same id, and [getModel] returns
    the one that was cached, not the one that was saved. *)
Theorem save_success_duplicate (s : store) (m : loc) (mo : model) (cur : fields)
    (e : loc) (efs : fields) (v : value) (c0 : loc) :
  wf_store s →
  heap s !! m = Some (OModel mo) →
  heap s !! m_attributes mo = Some (OPlain cur) →
  truthy (js_get idKey cur) = false →
  proto_key ∉ obj_keys cur →
  heap s !! e = Some (OPlain efs) → ¬ is_attrs (heap s) e →
  cacheable efs = true →
  obj_get idKey efs = Some v → js_String v ≠ EmptyString →
  r_models s !! js_String v = Some c0 → c0 ≠ m →
  ∃ s',
    Model_save_success m (VRef e) s = (Ret (VRef e), s')
    ∧ r_models s' = r_models s
    ∧ heap s' !! m = Some (OModel (Model (m_attributes mo) true))
    ∧ id_of (heap s') m = VStr (js_String v)
    ∧ id_of (heap s') c0 = VStr (js_String v)
    ∧ (∀ k, obj_get k (attrs_of (heap s') c0)
            = match obj_get k (attrs_of (heap s') m) with
              | Some x => Some x
              | None => obj_get k (attrs_of (heap s) c0)
              end)
    ∧ (∀ x, own_key x = true → prop_key x = js_String v →
            getModel x s' = (Ret c0, s')).
Proof.
  intros Hwf Hm Ha Hold Hpcur He Hna Hok Hv Hk Hc0 Hne0.
  assert (js_String v ∉ inherited_names) as Hinh.
  { apply cacheable_own_key in Hok. unfold js_get in Hok. rewrite Hv in Hok.
    by apply own_key_inherited in Hok. }
  pose proof (wf_plain_NoDup _ _ _ Hwf He) as Hnd.
  pose proof (wf_plain_NoDup _ _ _ Hwf Ha) as Hndc.
  destruct (wf_cache_model _ _ _ Hwf Hc0) as [mo0 Hm0].
  destruct (wf_model_attrs _ _ _ Hwf Hm0) as [cur0 Ha0].
  pose proof (wf_plain_NoDup _ _ _ Hwf Ha0) as Hnd0.
  set (a := m_attributes mo) in *. set (a0 := m_attributes mo0) in *.
  assert (e ≠ a) as Hea by (intros ->; apply Hna; by exists m, mo).
  assert (e ≠ a0) as Hea0 by (intros ->; apply Hna; by exists c0, mo0).
  assert (a0 ≠ a) as Haa.
  { intros E. apply Hne0. by apply (wf_attrs_apart s c0 m mo0 mo Hwf Hm0 Hm). }
  assert (m ≠ a) as Hma by (intros E; rewrite <- E in Ha; congruence).
  assert (m ≠ a0) as Hma0 by (intros E; rewrite <- E in Ha0; congruence).
  assert (m ≠ e) as Hme by (intros E; rewrite <- E in He; congruence).
  assert (c0 ≠ a) as Hca by (intros E; rewrite <- E in Ha; congruence).
  assert (c0 ≠ a0) as Hca0 by (intros E; rewrite <- E in Ha0; congruence).
  assert (c0 ≠ e) as Hce by (intros E; rewrite <- E in He; congruence).
  set (new := obj_assign cur (coerce_id efs)).
  set (s1 := set_heap (<[a := OPlain new]> (<[e := OPlain (coerce_id efs)]> (heap s))) s).
  assert (Model_set m (VRef e) s = (Ret tt, s1)) as Hset.
  { rewrite (Model_set_plain s m mo cur e efs Hm Ha He (cacheable_mergeable _ Hok)).
    fold a. by rewrite decide_False. }
  assert (∀ k, obj_get k new = match obj_get k (coerce_id efs) with
                               | Some x => Some x
                               | None => obj_get k cur
                               end) as Hnew.
  { intros k. apply obj_get_assign_NoDup. by apply NoDup_coerce_id. }
  assert (obj_get idKey new = Some (VStr (js_String v))) as Hidn.
  { rewrite Hnew, obj_get_coerce_id, decide_True, Hv by done. done. }
  assert (js_get idKey new = VStr (js_String v)) as Hid by (unfold js_get; by rewrite Hidn).
  assert (NoDup (obj_keys new)) as Hndn by (by apply NoDup_obj_assign).
  assert (mergeable new = true) as Hmnew.
  { unfold mergeable. apply andb_true_iff. split.
    - apply negb_true_iff, bool_decide_eq_false. unfold new.
      rewrite proto_key_assign, proto_key_coerce_id. intros [Hin|Hin]; [|done].
      by apply (mergeable_proto _ (cacheable_mergeable _ Hok)).
    - by rewrite Hid. }
  assert (heap s1 !! m = Some (OModel mo)) as Hm1.
  { unfold s1. cbn [heap set_heap]. by rewrite !lookup_insert_ne. }
  assert (heap s1 !! a = Some (OPlain new)) as Ha1.
  { unfold s1. cbn [heap set_heap]. by rewrite lookup_insert_eq. }
  assert (heap s1 !! c0 = Some (OModel mo0)) as Hc1.
  { unfold s1. cbn [heap set_heap]. by rewrite !lookup_insert_ne. }
  assert (heap s1 !! a0 = Some (OPlain cur0)) as Ha01.
  { unfold s1. cbn [heap set_heap]. by rewrite !lookup_insert_ne. }
  set (merged := obj_assign cur0 new).
  set (s2 := set_heap (<[a0 := OPlain merged]> (<[a := OPlain new]> (heap s1))) s1).
  assert (Model_set c0 (VRef a) s1 = (Ret tt, s2)) as Hset2.
  { rewrite (Model_set_plain s1 c0 mo0 cur0 a new Hc1 Ha01 Ha1 Hmnew). fold a0.
    rewrite decide_False by (by apply not_eq_sym).
    by rewrite (coerce_id_string new _ Hidn). }
  assert (heap s2 !! m = Some (OModel mo)) as Hm2.
  { unfold s2. cbn [heap set_heap]. by rewrite !lookup_insert_ne. }
  assert (heap s2 !! a = Some (OPlain new)) as Ha2.
  { unfold s2. cbn [heap set_heap]. rewrite lookup_insert_ne by done.
    by rewrite lookup_insert_eq. }
  assert (addModel (VRef m) s1 = (Ret c0, s2)) as Hadd.
  { unfold addModel, bind at 1, gets at 1. unfold is_Model. rewrite Hm1.
    unfold addModel_instance.
    rewrite (bind_Ret _ _ _ _ _ (Model_id_Ret _ _ _ _ Hm1 Ha1)). rewrite Hid.
    cbn [truthy]. rewrite bool_decide_false by done. cbn [negb].
    rewrite (own_key_VStr _ Hinh). cbn [negb].
    unfold bind at 1, gets at 1. cbn [prop_key js_String].
    change (r_models s1) with (r_models s). rewrite Hc0.
    rewrite (bind_Ret _ _ s1 tt s2).
    2:{ rewrite (bind_Ret _ _ _ _ _ (read_model_Ret _ _ _ Hm1)). exact Hset2. }
    rewrite (bind_Ret _ _ _ _ _ (Model_id_Ret _ _ _ _ Hm2 Ha2)). rewrite Hid.
    unfold bind, gets. cbn [prop_key js_String].
    change (r_models s2) with (r_models s). by rewrite Hc0. }
  set (s3 := set_heap (<[m := OModel (Model a true)]> (heap s2)) s2).
  exists s3. split.
  { unfold Model_save_success.
    rewrite (bind_Ret _ _ _ _ _ (Model_id_Ret _ _ _ _ Hm Ha)).
    rewrite (bind_Ret _ _ _ _ _ Hset).
    rewrite (bind_Ret _ _ _ _ _ (Model_id_Ret _ _ _ _ Hm1 Ha1)).
    rewrite Hold, Hid. cbn [truthy negb]. rewrite bool_decide_false by done.
    cbn [negb andb].
    rewrite (bind_Ret _ _ s1 tt s2) by (by rewrite (bind_Ret _ _ _ _ _ Hadd)).
    rewrite (bind_Ret _ _ _ _ _ (set_model_synced_Ret _ _ _ true Hm2)). done. }
  split; [done|].
  assert (heap s3 !! m = Some (OModel (Model a true))) as Hm3.
  { unfold s3. cbn [heap set_heap]. by rewrite lookup_insert_eq. }
  assert (heap s3 !! a = Some (OPlain new)) as Ha3.
  { unfold s3. cbn [heap set_heap]. rewrite lookup_insert_ne by done. exact Ha2. }
  assert (heap s3 !! c0 = Some (OModel mo0)) as Hc3.
  { unfold s3, s2. cbn [heap set_heap]. by rewrite !lookup_insert_ne. }
  assert (heap s3 !! a0 = Some (OPlain merged)) as Ha03.
  { unfold s3, s2. cbn [heap set_heap]. rewrite lookup_insert_ne by done.
    by rewrite lookup_insert_eq. }
  assert (attrs_of (heap s3) m = new) as Hattrs.
  { unfold attrs_of. rewrite Hm3. cbn [m_attributes]. by rewrite Ha3. }
  assert (attrs_of (heap s3) c0 = merged) as Hattrs0.
  { unfold attrs_of. rewrite Hc3. fold a0. by rewrite Ha03. }
  assert (attrs_of (heap s) c0 = cur0) as Hattrs00.
  { unfold attrs_of. rewrite Hm0. fold a0. by rewrite Ha0. }
  assert (∀ k, obj_get k merged = match obj_get k new with
                                  | Some x => Some x
                                  | None => obj_get k cur0
                                  end) as Hmerged.
  { intros k. by apply obj_get_assign_NoDup. }
  split; [done|].
  split; [unfold id_of; by rewrite Hattrs|].
  split; [unfold id_of, js_get; by rewrite Hattrs0, Hmerged, Hidn|].
  split; [intros k; by rewrite Hattrs0, Hattrs, Hattrs00|].
  intros x Hown Hx. apply getModel_cached; [done|]. by rewrite Hx.
Qed.

Lemma save_success_duplicate_witness :
  ∃ s',
    Model_save_success 3 (VRef 4) store_posted = (Ret (VRef 4), s')
    ∧ id_of (heap s') 3 = VStr "7"
    ∧ id_of (heap s') 1 = VStr "7"
    ∧ getModel (VStr "7") s' = (Ret 1, s').
Proof.
  assert (wf_store store_posted) as Hwf
      by (apply (bool_decide_unpack _); vm_compute; exact I).
  assert (¬ is_attrs (heap store_posted) 4) as Hna.
  { intros (m & mo & Hm & Ha).
    pose proof (wf_bounded _ _ _ Hwf Hm) as Hlt. cbn [next_loc store_posted] in Hlt.
    do 5 (destruct m as [|m];
          [vm_compute in Hm; try discriminate; injection Hm as <-; discriminate|]).
    lia. }
  destruct (save_success_duplicate store_posted 3 _ _ 4 _ (VNum 7) 1 Hwf eq_refl eq_refl
              eq_refl ltac:(apply (bool_decide_eq_false_1 _); reflexivity)
              eq_refl Hna eq_refl eq_refl ltac:(discriminate) eq_refl ltac:(discriminate))
    as (s' & Hrun & _ & _ & Hid & Hid0 & _ & Hget).
  exists s'. split; [exact Hrun|]. split; [exact Hid|]. split; [exact Hid0|].
  exact (Hget (VStr "7") eq_refl eq_refl).
Defined.

(** ** [unCacheModel] *)

(** X7. For an [x] whose key is decided by the own properties of the cache
    ([own_key]: a string, a safe integer, a boolean, [null] or [undefined]
    whose string is no inherited name), [unCacheModel(x)] throws when the
    cache has no model for [x], and changes nothing then. Otherwise it only
    lowers the [synced] flag of the cached model: after it, an unforced
    [fetch] of the model calls the transport, and so does an unforced
    [fetch] of every collection that has the model as a member. *)
Theorem unCacheModel_forces_refetch (s : store) (x : value) :
  wf_store s →
  own_key x = true →
  match r_models s !! prop_key x with
  | None => unCacheModel x s = (Throw, s)
  | Some m =>
      ∃ mo cur s',
        heap s !! m = Some (OModel mo)
        ∧ heap s !! m_attributes mo = Some (OPlain cur)
        ∧ unCacheModel x s = (Ret tt, s')
        ∧ s' = set_heap (<[m := OModel (Model (m_attributes mo) false)]> (heap s)) s
        ∧ (∀ params,
             ∃ s'', Model_fetch_body m params false s'
                    = (Ret (Call (Request (ModelUrl (js_get idKey cur)) None
                                    (Some params) None false)), s''))
        ∧ (∀ c co params,
             heap s !! c = Some (OColl co) → m ∈ c_models co →
             ∃ s'', Collection_fetch_body c params false s'
                    = (Ret (Call (Request CollectionUrl None (Some params) None false)), s''))
  end.
Proof.
  intros Hwf Hx. destruct (r_models s !! prop_key x) as [m|] eqn:Hc.
  - destruct (wf_cache_model _ _ _ Hwf Hc) as [mo Hm].
    destruct (wf_model_attrs _ _ _ Hwf Hm) as [cur Ha].
    assert (m ≠ m_attributes mo) as Hma by (intros E; rewrite <- E in Ha; congruence).
    exists mo, cur. eexists. split; [done|]. split; [done|].
    split.
    { unfold unCacheModel. rewrite Hx. cbn [negb]. unfold bind at 1, gets at 1. rewrite Hc.
      apply (set_model_synced_Ret _ _ _ false Hm). }
    split; [done|]. split.
    + intros params. eexists.
      apply (Model_fetch_body_call _ m (Model (m_attributes mo) false) cur params false).
      * cbn [heap set_heap]. by rewrite lookup_insert_eq.
      * cbn [heap set_heap m_attributes]. by rewrite lookup_insert_ne.
      * by right.
    + intros c co params Hco Hin.
      assert (m ≠ c) as Hmc by (intros E; rewrite <- E in Hco; congruence).
      eexists. unfold Collection_fetch_body.
      erewrite (bind_Ret (read_coll c)); cycle 1.
      { apply read_coll_Ret. cbn [heap set_heap]. rewrite lookup_insert_ne by done. exact Hco. }
      unfold bind at 1, gets at 1. cbn [heap set_heap].
      assert (Collection_synced (<[m := OModel (Model (m_attributes mo) false)]> (heap s)) co
              = false) as ->.
      { apply not_true_is_false. unfold Collection_synced. rewrite fold_synced_iff.
        intros [_ Hall]. specialize (Hall m Hin).
        by rewrite model_synced_insert_model in Hall. }
      rewrite andb_false_r. unfold Collection_set_synced.
      erewrite (bind_Ret (bind (read_coll c) _)); [reflexivity|].
      erewrite (bind_Ret (read_coll c)); cycle 1.
      { apply read_coll_Ret. cbn [heap set_heap]. rewrite lookup_insert_ne by done. exact Hco. }
      apply write_Ret.
  - unfold unCacheModel. rewrite Hx. cbn [negb]. unfold bind, gets. by rewrite Hc.
Qed.

Lemma unCacheModel_forces_refetch_witness :
  ∃ s' s'',
    unCacheModel (VNum 7) store_cached = (Ret tt, s')
    ∧ heap s' !! 1 = Some (OModel (Model 0 false))
    ∧ Model_fetch_body 1 VUndef false s'
      = (Ret (Call (Request (ModelUrl (VStr "7")) None (Some VUndef) None false)), s'').
Proof.
  assert (wf_store store_cached) as Hwf
      by (apply (bool_decide_unpack _); vm_compute; exact I).
  pose proof (unCacheModel_forces_refetch store_cached (VNum 7) Hwf eq_refl) as H.
  assert (r_models store_cached !! prop_key (VNum 7) = Some 1) as E by reflexivity.
  rewrite E in H. destruct H as (mo & cur & s' & Hm & Ha & Hrun & -> & Hfetch & _).
  injection Hm as <-. injection Ha as <-.
  destruct (Hfetch VUndef) as (s'' & Hf).
  eexists _, s''. split; [exact Hrun|]. split; [reflexivity|exact Hf].
Defined.

(** ** [clearCache] *)

(** X8. [clearCache()] empties both caches and touches no model and no
    collection: the instances handed out before keep their attributes,
    members and [synced] flags. After it, [getModel] makes a new model for
    every id whose key is decided by the own properties of the cache
    ([own_key]), also one that was cached before, and [getCollection] makes
    a new, empty collection. *)
Theorem clearCache_forgets (s : store) :
  wf_store s →
  ∃ s',
    clearCache s = (Ret tt, s')
    ∧ wf_store s'
    ∧ heap s' = heap s ∧ next_loc s' = next_loc s ∧ logged s' = logged s
    ∧ r_models s' = ∅ ∧ r_collections s' = ∅
    ∧ (∀ x, own_key x = true →
            ∃ m s'', getModel x s' = (Ret m, s'') ∧ heap s !! m = None)
    ∧ (∀ p pfs c s'',
         heap s !! p = Some (OPlain pfs) →
         getCollection (VRef p) VUndef s' = (Ret c, s'') →
         heap s !! c = None
         ∧ heap s'' !! c
           = Some (OColl (Collection (VRef p) [] ∅ false VUndef VUndef VUndef))).
Proof.
  intros Hwf.
  set (s' := set_r_collections ∅ (set_r_models ∅ s)).
  assert (wf_store s') as Hwf'.
  { destruct Hwf as (H1 & H2 & H3 & _). unfold wf_store, s'.
    cbn [heap next_loc r_models set_r_collections set_r_models].
    split; [done|]. split; [done|]. split; [done|]. apply map_Forall_empty. }
  assert (∀ l, heap s !! S l = None ∨ S l < next_loc s) as Hfresh.
  { intros l. destruct (heap s !! S l) as [o|] eqn:E; [right|by left].
    exact (wf_bounded _ _ _ Hwf E). }
  exists s'. split; [done|]. split; [done|]. do 5 (split; [done|]).
  split.
  - intros x Hx.
    destruct (getModel_fresh s' x Hwf' Hx (lookup_empty _)) as (s'' & Hget & _).
    exists (S (S (next_loc s))), s''. split; [exact Hget|].
    destruct (Hfresh (S (next_loc s))) as [?|?]; [done|lia].
  - intros p pfs c s'' Hp Hget.
    destruct (getCollection_run s' p pfs c s'' (λ l o, wf_bounded s' l o Hwf') Hp Hget)
      as (key & _ & [(Hc & _)|(_ & -> & ->)]).
    + unfold s' in Hc. cbn [r_collections set_r_collections] in Hc.
      by rewrite lookup_empty in Hc.
    + change (next_loc s') with (next_loc s). split.
      * destruct (Hfresh (next_loc s)) as [?|?]; [done|lia].
      * cbn [heap]. by rewrite lookup_insert_eq.
Qed.

Lemma clearCache_forgets_witness :
  ∃ s' m s'',
    clearCache store_cached = (Ret tt, s')
    ∧ heap s' = heap store_cached
    ∧ getModel (VStr "7") s' = (Ret m, s'')
    ∧ heap store_cached !! m = None.
Proof.
  assert (wf_store store_cached) as Hwf
      by (apply (bool_decide_unpack _); vm_compute; exact I).
  destruct (clearCache_forgets store_cached Hwf)
    as (s' & Hrun & _ & Hh & _ & _ & _ & _ & Hget & _).
  destruct (Hget (VStr "7") eq_refl) as (m & s'' & Hg & Hnew).
  exists s', m, s''. split; [exact Hrun|]. split; [exact Hh|]. split; [exact Hg|exact Hnew].
Defined.

(** ** [getModel] twice *)

(** X9. [getModel(x)] returns one model per id, for ids whose key is
    decided by the own properties of the cache ([own_key]: a string, a safe
    integer, a boolean, [null] or [undefined] whose string is no inherited
    name): after a first call, every call with such a value of the same
    [String] returns the model of the first call and changes nothing. The
    empty string is the exception: its model is never cached, and every
    call makes another one. *)
Theorem getModel_idempotent (s : store) :
  wf_store s →
  (∀ x, own_key x = true → prop_key x ≠ EmptyString →
        ∃ m s1, getModel x s = (Ret m, s1)
          ∧ wf_store s1
          ∧ ∀ y, own_key y = true → prop_key y = prop_key x →
                 getModel y s1 = (Ret m, s1))
  ∧ (r_models s !! EmptyString = None →
     ∃ m1 s1 m2 s2,
       getModel (VStr EmptyString) s = (Ret m1, s1)
       ∧ getModel (VStr EmptyString) s1 = (Ret m2, s2)
       ∧ m1 ≠ m2
       ∧ r_models s2 = r_models s).
Proof.
  intros Hwf. split.
  - intros x Hown Hx. destruct (r_models s !! prop_key x) as [m|] eqn:Hc.
    + exists m, s. split; [by apply getModel_cached|]. split; [done|].
      intros y Hyo Hy. apply getModel_cached; [done|]. by rewrite Hy.
    + destruct (getModel_fresh s x Hwf Hown Hc) as (s1 & Hget & Hwf1 & Hrm & _).
      rewrite decide_False in Hrm by done.
      eexists _, s1. split; [exact Hget|]. split; [done|].
      intros y Hyo Hy. apply getModel_cached; [done|].
      by rewrite Hy, Hrm, lookup_insert_eq.
  - intros Hnone.
    destruct (getModel_fresh s (VStr EmptyString) Hwf eq_refl Hnone)
      as (s1 & Hget1 & Hwf1 & Hrm1 & _ & _ & _ & Hn1 & _).
    rewrite decide_True in Hrm1 by done.
    assert (r_models s1 !! prop_key (VStr EmptyString) = None) as Hnone1
        by (by rewrite Hrm1).
    destruct (getModel_fresh s1 (VStr EmptyString) Hwf1 eq_refl Hnone1)
      as (s2 & Hget2 & _ & Hrm2 & _).
    rewrite decide_True in Hrm2 by done.
    eexists _, s1, _, s2. split; [exact Hget1|]. split; [exact Hget2|].
    split; [lia|congruence].
Qed.

Lemma getModel_idempotent_witness :
  ∃ m s1,
    getModel (VNum 8) store_cached = (Ret m, s1)
    ∧ getModel (VStr "8") s1 = (Ret m, s1).
Proof.
  assert (wf_store store_cached) as Hwf
      by (apply (bool_decide_unpack _); vm_compute; exact I).
  destruct (proj1 (getModel_idempotent store_cached Hwf) (VNum 8) eq_refl
              ltac:(discriminate))
    as (m & s1 & Hget & _ & Hagain).
  exists m, s1. split; [exact Hget|]. exact (Hagain (VStr "8") eq_refl eq_refl).
Defined.

(** ** [Collection.set]: one member for every key *)

Lemma add_members_count (kms : list (string * loc)) : ∀ co,
  dom (c_model_map (add_members co kms))
  = dom (c_model_map co) ∪ list_to_set kms.*1
  ∧ length (c_models (add_members co kms)) + size (dom (c_model_map co))
    = length (c_models co) + size (dom (c_model_map (add_members co kms)))
  ∧ same_settings co (add_members co kms).
Proof.
  induction kms as [|[k m] kms IH]; intros co; simpl.
  - split; [by rewrite union_empty_r_L|]. split; [lia|]. by repeat split.
  - destruct (IH (add_member co k m)) as (Hdom & Hlen & Hset).
    unfold add_member in *. destruct (c_model_map co !! k) as [m0|] eqn:Hk.
    + split; [|done]. rewrite Hdom, (assoc_L (∪)). f_equal.
      rewrite (comm_L (∪)). symmetry. apply subseteq_union_1_L, singleton_subseteq_l.
      by apply elem_of_dom_2 in Hk.
    + cbn [c_model_map c_models] in *. split; [|split].
      * rewrite Hdom, dom_insert_L.
        by rewrite (comm_L (∪) {[k]} (dom (c_model_map co))), (assoc_L (∪)).
      * rewrite dom_insert_L, length_app in Hlen. simpl in Hlen.
        rewrite size_union in Hlen.
        2:{ apply disjoint_singleton_l. by apply not_elem_of_dom. }
        rewrite size_singleton in Hlen. lia.
      * destruct Hset as (? & ? & ? & ? & ?). by repeat split.
Qed.

(** The loop of [Collection.set] over plain objects. *)
Lemma Collection_set_loop_members (c : loc) (ds : list loc) : ∀ ks s co,
  wf_store s → heap s !! c = Some (OColl co) →
  Forall2 (entity_at (heap s)) ds ks →
  ∃ s' ms,
    forEach (Collection_set_one c) (VRef <$> ds) s = (Ret tt, s')
    ∧ wf_store s'
    ∧ length ms = length ks
    ∧ heap s' !! c = Some (OColl (add_members co (zip ks ms))).
Proof.
  induction ds as [|d ds IH]; intros ks s co Hwf Hc Hents.
  - apply Forall2_nil_inv_l in Hents as ->. by exists s, [].
  - apply Forall2_cons_inv_l in Hents as (k & ks' & (fs & Hd & Hk & Hna & Hok) & Hrest & ->).
    destruct (Collection_set_one_plain s c co d fs Hwf Hc Hd Hna Hok)
      as (m & s1 & Hrun & Hpost).
    pose proof Hpost as (Hwf1 & Hc1 & _).
    assert (Forall2 (entity_at (heap s1)) ds ks') as Hents1.
    { eapply Forall2_impl; [exact Hrest|]. intros d' k'.
      by apply (entity_at_step s co c d fs m s1). }
    destruct (IH ks' s1 _ Hwf1 Hc1 Hents1) as (s' & ms & Hrun' & Hwf' & Hlen & Hc').
    exists s', (m :: ms). split.
    { simpl. by rewrite (bind_Ret _ _ _ _ _ Hrun). }
    split; [done|]. split; [simpl; by rewrite Hlen|].
    simpl. by rewrite <- Hk.
Qed.

(** X10. [Collection.set(models)] with an array of plain objects that are
    [cacheable] (no property [__proto__]; an id, if any, that is a string,
    a safe integer, a boolean or [null] whose string is no inherited name)
    adds one member for every key that the collection does not have yet,
    whatever the number of objects with that key; the key of an object is
    the [String] of its id, and ["undefined"] when it has none, so that of
    all the objects without an id only the first becomes a member. *)
Theorem Collection_set_dedups (s : store) (c : loc) (co : collection) (arr : loc)
    (ds : list loc) (ks : list string) :
  wf_store s →
  heap s !! c = Some (OColl co) →
  heap s !! arr = Some (OArr (VRef <$> ds)) →
  Forall2 (entity_at (heap s)) ds ks →
  ∃ s' co',
    Collection_set c (VRef arr) s = (Ret tt, s')
    ∧ wf_store s'
    ∧ heap s' !! c = Some (OColl co')
    ∧ dom (c_model_map co') = dom (c_model_map co) ∪ list_to_set ks
    ∧ length (c_models co')
      = length (c_models co) + size (list_to_set ks ∖ dom (c_model_map co) : gset string)
    ∧ same_settings co co'.
Proof.
  intros Hwf Hc Harr Hents.
  destruct (Collection_set_loop_members c ds ks s co Hwf Hc Hents)
    as (s' & ms & Hrun & Hwf' & Hlen & Hc').
  destruct (add_members_count (zip ks ms) co) as (Hdom & Hcount & Hset).
  rewrite fst_zip in Hdom by lia.
  eexists s', _. split.
  { unfold Collection_set, bind, gets, is_array. by rewrite Harr. }
  split; [done|]. split; [exact Hc'|]. split; [done|]. split; [|done].
  rewrite Hdom in Hcount. rewrite size_union_alt in Hcount. lia.
Qed.

Lemma Collection_set_dedups_witness :
  ∃ s' co',
    Collection_set 0 (VRef 5) store_dups = (Ret tt, s')
    ∧ heap s' !! 0 = Some (OColl co')
    ∧ length (c_models co') = 2.
Proof.
  assert (wf_store store_dups) as Hwf
      by (apply (bool_decide_unpack _); vm_compute; exact I).
  assert (∀ d, d < 5 → ¬ is_attrs (heap store_dups) d) as Hna.
  { intros d Hd (m & mo & Hm & _).
    pose proof (wf_bounded _ _ _ Hwf Hm) as Hlt. cbn [next_loc store_dups] in Hlt.
    do 6 (destruct m as [|m]; [vm_compute in Hm; discriminate|]). lia. }
  assert (Forall2 (entity_at (heap store_dups)) [1; 2; 3; 4]
            ["1"; "1"; "undefined"; "undefined"]) as Hents.
  { repeat constructor; (eexists; split; [reflexivity|]; split; [reflexivity|];
                         split; [apply Hna; lia|reflexivity]). }
  destruct (Collection_set_dedups store_dups 0 _ 5 [1; 2; 3; 4] _ Hwf eq_refl eq_refl Hents)
    as (s' & co' & Hrun & _ & Hc & Hdom & Hlen & _).
  exists s', co'. split; [exact Hrun|]. split; [exact Hc|].
  rewrite Hlen. vm_compute. reflexivity.
Defined.

(** ** [Collection.fetch] on a synced collection *)

(** X11. An unforced [fetch] on a collection that reads as synced calls
    nothing: the promise is fulfilled with a new array of the attributes
    objects of the members, nothing else in the store changes, and the
    promise stays in [this.promises]. *)
Theorem collection_fetch_cached (w : world) (p : nat) (c : loc) (co : collection)
    (params : value) (deps : list nat) :
  heap (w_store w) !! c = Some (OColl co) →
  w_ops w !! p = Some (Op (CFetch c params false) deps Waiting Pending) →
  forallb (is_fulfilled (w_ops w)) deps = true →
  Collection_synced (heap (w_store w)) co = true →
  let a := next_loc (w_store w) in
  ∃ w',
    step (EStart p) w = Some w'
    ∧ w_requests w' = w_requests w
    ∧ w_queues w' = w_queues w
    ∧ w_ops w' !! p = Some (Op (CFetch c params false) deps Completed (Fulfilled (VRef a)))
    ∧ heap (w_store w') = <[a := OArr (data_of (heap (w_store w)) co)]> (heap (w_store w))
    ∧ r_models (w_store w') = r_models (w_store w)
    ∧ r_collections (w_store w') = r_collections (w_store w)
    ∧ logged (w_store w') = logged (w_store w).
Proof.
  intros Hc Hop Hall Hs a.
  assert (Collection_fetch_body c params false (w_store w)
          = (Ret (Resolve (VRef a)),
             Store (<[a := OArr (data_of (heap (w_store w)) co)]> (heap (w_store w)))
                   (S a) (r_models (w_store w)) (r_collections (w_store w))
                   (logged (w_store w)))) as Hbody.
  { unfold Collection_fetch_body.
    rewrite (bind_Ret _ _ _ _ _ (read_coll_Ret _ _ _ Hc)).
    unfold bind at 1, gets at 1. rewrite Hs. cbn [negb andb].
    erewrite (bind_Ret (Collection_data c)); [reflexivity|].
    unfold Collection_data. rewrite (bind_Ret _ _ _ _ _ (read_coll_Ret _ _ _ Hc)).
    reflexivity. }
  eexists. split.
  { cbn [step]. rewrite Hop, Hall. cbn [op_body]. rewrite Hbody. reflexivity. }
  split; [done|]. split; [done|].
  split; [unfold set_op; cbn [w_ops set_store]; by rewrite list_lookup_alter_eq, Hop|].
  done.
Qed.

Lemma collection_fetch_cached_witness :
  ∃ w',
    step (EStart 0) world_coll_synced = Some w'
    ∧ w_requests w' = []
    ∧ w_ops w' !! 0 = Some (Op (CFetch 4 (VRef 5) false) [] Completed (Fulfilled (VRef 5)))
    ∧ heap (w_store w') !! 5 = Some (OArr [VRef 0; VRef 2]).
Proof.
  destruct (collection_fetch_cached world_coll_synced 0 4 _ (VRef 5) []
              eq_refl eq_refl eq_refl eq_refl)
    as (w' & Hstep & Hrq & _ & Hop & Hh & _).
  exists w'. split; [exact Hstep|]. split; [exact Hrq|]. split; [exact Hop|].
  rewrite Hh. reflexivity.
Defined.

(** ** [Collection.fetch]: an array as the answer *)

(** X12. When the answer to a [Collection.fetch] is an array of objects
    that are [wire_cacheable] (no property [__proto__]; an id, if any, that
    is a string, a safe integer, a boolean or [null] whose string is no
    inherited name), the members become the models of those entities, one
    under the key of each and no others; the collection and all its members
    are synced,
    [pageCount] is left alone, nothing is logged, and the promise is
    fulfilled with a new array of the attributes objects of the members.
    The model cache only grows: a model that is no longer a member stays
    cached. *)
Theorem array_fetch (s : store) (c : loc) (co : collection) (es : list wire) :
  wf_store s →
  heap s !! c = Some (OColl co) →
  Forall (λ e, wire_cacheable e = true) es →
  ∃ a s' co',
    Collection_fetch_response c (WArr es) s = (Ret (VRef a), s')
    ∧ wf_store s'
    ∧ heap s' !! c = Some (OColl co')
    ∧ heap s' !! a = Some (OArr (data_of (heap s') co'))
    ∧ c_synced co' = true
    ∧ (∀ m, m ∈ c_models co' → model_synced (heap s') m = true)
    ∧ c_pageCount co' = c_pageCount co
    ∧ c_params co' = c_params co
    ∧ (∀ e, e ∈ es → is_Some (c_model_map co' !! wire_key e))
    ∧ (∀ m, m ∈ c_models co' → ∃ e, e ∈ es ∧ c_model_map co' !! wire_key e = Some m)
    ∧ (∀ k m, c_model_map co' !! k = Some m → m ∈ c_models co')
    ∧ (∀ k m0, r_models s !! k = Some m0 → r_models s' !! k = Some m0)
    ∧ r_collections s' = r_collections s
    ∧ logged s' = logged s.
Proof.
  intros Hwf Hc Hes.
  destruct (alloc_wire_spec (WArr es) s Hwf) as (v & s1 & Hrun1 & Hwf1 & Hext1 & Hsh1).
  simpl in Hsh1. destruct Hsh1 as (arr & vs & -> & Hlo & Hhi & Harr & Hshapes).
  change ((fix all (l : list wire) (vs : list value) {struct l} : Prop :=
             match l with
             | [] => match vs with [] => True | _ :: _ => False end
             | x :: l' => match vs with
                          | [] => False
                          | v :: vs' => shape (heap s1) (next_loc s) arr x v ∧ all l' vs'
                          end
             end) es vs) with (shapes (heap s1) (next_loc s) arr es vs) in Hshapes.
  destruct (response_entities s s1 _ _ es vs Hwf Hext1 (le_n _) Hes Hshapes)
    as (ds & -> & Hents & _).
  pose proof Hext1 as (Hn1 & Hh1 & _ & Hrm1 & Hrc1 & Hlog1).
  assert (heap s1 !! c = Some (OColl co)) as Hc1.
  { rewrite Hh1; [done|]. exact (wf_bounded _ _ _ Hwf Hc). }
  destruct (fetch_success_array s1 c co arr ds _ Hwf1 Hc1 Harr Hents)
    as (v & s2 & Hrun2 & Hpost & Hlog2).
  destruct Hpost as (co' & a & -> & Hwf2 & Hc2 & Ha & Hsy & Hsynced & Hpc & Hpar & _ & _ & _
                     & Hkeys & Hmem & Hmapin & Hmono & Hrc2).
  exists a, s2, co'. split.
  { unfold Collection_fetch_response. by rewrite (bind_Ret _ _ _ _ _ Hrun1). }
  split; [done|]. split; [done|].
  split; [done|]. split; [done|].
  split.
  { unfold Collection_synced in Hsynced. apply fold_synced_iff in Hsynced as [_ H]. exact H. }
  split; [done|]. split; [done|].
  split.
  { intros e He. apply Hkeys. apply list_elem_of_fmap. by exists e. }
  split.
  { intros m Hm. destruct (Hmem m Hm) as (k & Hk & Hmk).
    apply list_elem_of_fmap in Hk as (e & -> & He). by exists e. }
  split; [done|].
  split; [intros k m0 H0; apply Hmono; by rewrite Hrm1|].
  split; [congruence|congruence].
Qed.

Lemma array_fetch_witness :
  ∃ a s' co',
    Collection_fetch_response 2 (WArr [WObj [("id", WNum 7)]; WObj [("id", WNum 9)]])
      store_cached = (Ret (VRef a), s')
    ∧ heap s' !! 2 = Some (OColl co')
    ∧ c_synced co' = true
    ∧ r_models s' !! "7" = Some 1.
Proof.
  assert (wf_store store_cached) as Hwf
      by (apply (bool_decide_unpack _); vm_compute; exact I).
  destruct (array_fetch store_cached 2 _ [WObj [("id", WNum 7)]; WObj [("id", WNum 9)]]
              Hwf eq_refl ltac:(repeat constructor))
    as (a & s' & co' & Hrun & _ & Hc & _ & Hsy & _ & _ & _ & _ & _ & _ & Hmono & _).
  exists a, s', co'. split; [exact Hrun|]. split; [exact Hc|]. split; [exact Hsy|].
  exact (Hmono "7" 1 eq_refl).
Defined.

(** ** [Collection.fetch]: the parameters of the request *)

Lemma Object_assign_plain (s : store) (t src : loc) (tfs sfs : fields) :
  heap s !! t = Some (OPlain tfs) →
  heap s !! src = Some (OPlain sfs) →
  proto_key ∉ obj_keys sfs →
  Object_assign t (VRef src) s
  = (Ret tt, set_heap (<[t := OPlain (obj_assign tfs sfs)]> (heap s)) s).
Proof. apply Object_assign_plain_Ret. Qed.

(** X13. The parameters that [Collection.fetch(extraParams)] sends are a
    new object: a property of [extraParams] wins over the default parameter
    of the same name, the other defaults are taken over, and neither the
    defaults of the collection nor [extraParams] are changed. Neither
    object has a property [__proto__], which [Object.assign] would hand to
    the setter of the new object. *)
Theorem fetch_params_merge (s : store) (c : loc) (co : collection) (pp x : loc)
    (pfs xfs : fields) :
  wf_store s →
  heap s !! c = Some (OColl co) →
  c_params co = VRef pp →
  heap s !! pp = Some (OPlain pfs) →
  heap s !! x = Some (OPlain xfs) →
  proto_key ∉ obj_keys pfs →
  proto_key ∉ obj_keys xfs →
  ∃ n s' nfs,
    Collection_fetch_params c (VRef x) s = (Ret (VRef n), s')
    ∧ heap s !! n = None
    ∧ heap s' !! n = Some (OPlain nfs)
    ∧ (∀ k, obj_get k nfs
            = match obj_get k xfs with Some v => Some v | None => obj_get k pfs end)
    ∧ (∀ l, l ≠ n → heap s' !! l = heap s !! l)
    ∧ r_models s' = r_models s ∧ r_collections s' = r_collections s
    ∧ logged s' = logged s.
Proof.
  intros Hwf Hc Hpar Hpp Hx Hprp Hprx.
  pose proof (wf_plain_NoDup _ _ _ Hwf Hpp) as Hndp.
  pose proof (wf_plain_NoDup _ _ _ Hwf Hx) as Hndx.
  set (n := next_loc s).
  assert (heap s !! n = None) as Hfresh.
  { destruct (heap s !! n) as [o|] eqn:E; [|done]. apply (wf_bounded _ _ _ Hwf) in E.
    unfold n in E. lia. }
  assert (pp ≠ n) as Hpn by (intros E; rewrite E in Hpp; congruence).
  assert (x ≠ n) as Hxn by (intros E; rewrite E in Hx; congruence).
  assert (c ≠ n) as Hcn by (intros E; rewrite E in Hc; congruence).
  set (s1 := (alloc (OPlain []) s).2).
  set (s2 := set_heap (<[n := OPlain (obj_assign [] pfs)]> (heap s1)) s1).
  set (s3 := set_heap (<[n := OPlain (obj_assign (obj_assign [] pfs) xfs)]> (heap s2)) s2).
  assert (heap s1 !! n = Some (OPlain [])) as Hn1 by apply lookup_insert_eq.
  assert (heap s1 !! pp = Some (OPlain pfs)) as Hpp1.
  { unfold s1. cbn [alloc heap snd]. by rewrite lookup_insert_ne. }
  assert (heap s2 !! n = Some (OPlain (obj_assign [] pfs))) as Hn2 by apply lookup_insert_eq.
  assert (heap s2 !! x = Some (OPlain xfs)) as Hx2.
  { unfold s2, s1. cbn [alloc heap snd set_heap]. by rewrite !lookup_insert_ne. }
  exists n, s3, (obj_assign (obj_assign [] pfs) xfs). split.
  { unfold Collection_fetch_params. cbn [default_object].
    unfold bind at 1, ret at 1.
    rewrite (bind_Ret _ _ _ _ _ (read_coll_Ret _ _ _ Hc)).
    rewrite (bind_Ret _ _ s n s1) by reflexivity. rewrite Hpar.
    rewrite (bind_Ret _ _ _ _ _ (Object_assign_plain s1 n pp _ _ Hn1 Hpp1 Hprp)).
    rewrite (bind_Ret _ _ _ _ _ (Object_assign_plain s2 n x _ _ Hn2 Hx2 Hprx)).
    reflexivity. }
  split; [done|]. split; [by apply lookup_insert_eq|].
  split.
  { intros k. rewrite obj_get_assign_NoDup by done.
    destruct (obj_get k xfs); [done|]. rewrite obj_get_assign_NoDup by done.
    by destruct (obj_get k pfs). }
  split; [|done]. intros l Hl. unfold s3, s2, s1. cbn [alloc heap snd set_heap].
  rewrite !lookup_insert_ne; done.
Qed.

Lemma fetch_params_merge_witness :
  ∃ n s' nfs,
    Collection_fetch_params 1 (VRef 2) store_fetch_params = (Ret (VRef n), s')
    ∧ heap s' !! n = Some (OPlain nfs)
    ∧ obj_get "page" nfs = Some (VNum 2)
    ∧ obj_get "kind" nfs = Some (VStr "topic")
    ∧ heap s' !! 0 = Some (OPlain [("kind", VStr "topic"); ("page", VNum 1)]).
Proof.
  assert (wf_store store_fetch_params) as Hwf
      by (apply (bool_decide_unpack _); vm_compute; exact I).
  destruct (fetch_params_merge store_fetch_params 1 _ 0 2 _ _ Hwf eq_refl eq_refl
              eq_refl eq_refl
              ltac:(apply (bool_decide_eq_false_1 _); reflexivity)
              ltac:(apply (bool_decide_eq_false_1 _); reflexivity))
    as (n & s' & nfs & Hrun & Hnew & Hn & Hget & Hframe & _).
  exists n, s', nfs. split; [exact Hrun|]. split; [exact Hn|].
  split; [exact (Hget "page")|]. split; [exact (Hget "kind")|].
  rewrite Hframe; [reflexivity|]. intros E. rewrite <- E in Hnew. discriminate Hnew.
Defined.

(** ** [getPagedCollection] with one parameter object for two pages *)

(** A call of [getPagedCollection] that makes a new collection. *)
Lemma getPagedCollection_new (s : store) (p : loc) (fs : fields)
    (pageSize page : value) (c : loc) (s' : store) :
  (∀ l o, heap s !! l = Some o → l < next_loc s) →
  heap s !! p = Some (OPlain fs) →
  getPagedCollection (VRef p) pageSize page s = (Ret c, s') →
  heap s !! c = None →
  let fs' := obj_assign fs [("page", default_page page);
                            ("page_size", default_pageSize pageSize)] in
  let n := next_loc s in
  ∃ key,
    c = S n
    ∧ (proto_key ∉ obj_keys fs')
    ∧ s' = Store (<[c := OColl (Collection (VRef p) [] ∅ false (default_page page)
                              (default_pageSize pageSize) VUndef)]>
                    (<[c := OColl (Collection (VRef p) [] ∅ false VUndef VUndef VUndef)]>
                       (<[n := OArr []]> (<[p := OPlain fs']> (heap s)))))
                 (S (S n)) (r_models s) (<[key := c]> (r_collections s)) (logged s).
Proof.
  intros Hb Hp Hrun Hnew fs' n.
  pose proof (Hb _ _ Hp) as Hplt.
  set (s0 := set_heap (<[p := OPlain fs']> (heap s)) s).
  assert (∀ l o, heap s0 !! l = Some o → l < next_loc s0) as Hb0.
  { intros l o. unfold s0. cbn [heap set_heap next_loc]. rewrite lookup_insert_Some.
    intros [[<- _]|[_ Hl]]; [done|]. exact (Hb _ _ Hl). }
  assert (heap s0 !! p = Some (OPlain fs')) as Hp0.
  { unfold s0. cbn [heap set_heap]. by rewrite lookup_insert_eq. }
  unfold getPagedCollection in Hrun. cbn [default_object] in Hrun.
  unfold bind at 1 in Hrun. unfold ret at 1 in Hrun.
  rewrite (bind_Ret _ _ s tt s0) in Hrun.
  2:{ rewrite (bind_Ret _ _ _ _ _ (read_plain_Ret _ _ _ Hp)). reflexivity. }
  destruct (getCollection (VRef p) VUndef s0) as [[c'| |] s1'] eqn:Hget;
    try (unfold bind in Hrun; rewrite Hget in Hrun; discriminate).
  rewrite (bind_Ret _ _ _ _ _ Hget) in Hrun.
  destruct (getCollection_run s0 p fs' c' s1' Hb0 Hp0 Hget) as (key & Hkey & Hcases).
  change (next_loc s0) with n in Hcases.
  unfold read_coll, write, modify, ret, bind in Hrun.
  destruct (heap s1' !! c') as [[| | |co']|] eqn:Hc'; try discriminate.
  cbv beta iota in Hrun. injection Hrun as <- <-.
  destruct Hcases as [(Hc & ->)|(Hc & -> & ->)]; cbn [heap] in *.
  - exfalso. assert (c' ≠ n) as Hn1.
    { intros ->. by rewrite lookup_insert_eq in Hc'. }
    rewrite lookup_insert_ne in Hc' by done.
    assert (c' ≠ p) as Hn2 by (intros ->; congruence).
    unfold s0 in Hc'. cbn [heap set_heap] in Hc'.
    rewrite lookup_insert_ne in Hc' by done. congruence.
  - rewrite lookup_insert_eq in Hc'. injection Hc' as <-.
    exists key. split; [done|]. split; [|reflexivity].
    exact (collection_key_proto _ _ _ Hkey).
Qed.

(** X19. When one parameter object is given to [getPagedCollection] for two
    pages, and both calls make a new collection, the two collections have
    this one object as their [params], and the object carries the page of
    the second call: the first collection keeps its own [page], but a
    [fetch] on it asks for the page of the second. *)
Theorem paged_params_shared (s : store) (p : loc) (fs : fields)
    (ps1 pg1 ps2 pg2 : value) (c1 c2 : loc) (s1 s2 : store) :
  wf_store s →
  heap s !! p = Some (OPlain fs) →
  getPagedCollection (VRef p) ps1 pg1 s = (Ret c1, s1) → heap s !! c1 = None →
  getPagedCollection (VRef p) ps2 pg2 s1 = (Ret c2, s2) → heap s1 !! c2 = None →
  ∃ co1 co2 pfs,
    c1 ≠ c2
    ∧ heap s2 !! c1 = Some (OColl co1) ∧ heap s2 !! c2 = Some (OColl co2)
    ∧ c_params co1 = VRef p ∧ c_params co2 = VRef p
    ∧ c_page co1 = default_page pg1 ∧ c_page co2 = default_page pg2
    ∧ heap s2 !! p = Some (OPlain pfs)
    ∧ obj_get "page" pfs = Some (default_page pg2)
    ∧ obj_get "page_size" pfs = Some (default_pageSize ps2)
    ∧ ∃ n s3 nfs,
        Collection_fetch_params c1 VUndef s2 = (Ret (VRef n), s3)
        ∧ heap s3 !! n = Some (OPlain nfs)
        ∧ obj_get "page" nfs = Some (default_page pg2).
Proof.
  intros Hwf Hp Hrun1 Hnew1 Hrun2 Hnew2.
  pose proof (wf_bounded _ _ _ Hwf Hp) as Hplt.
  pose proof (wf_plain_NoDup _ _ _ Hwf Hp) as Hnd.
  destruct (getPagedCollection_new s p fs ps1 pg1 c1 s1 (λ l o, wf_bounded s l o Hwf)
              Hp Hrun1 Hnew1) as (key1 & -> & _ & ->).
  set (n := next_loc s) in *.
  set (fs1 := obj_assign fs [("page", default_page pg1);
                             ("page_size", default_pageSize ps1)]) in *.
  set (co1 := Collection (VRef p) [] ∅ false (default_page pg1) (default_pageSize ps1) VUndef).
  match type of Hrun2 with
  | getPagedCollection _ _ _ ?S1 = _ => set (s1 := S1) in *
  end.
  assert (heap s1 !! p = Some (OPlain fs1)) as Hp1.
  { unfold s1. cbn [heap]. rewrite !lookup_insert_ne by lia. apply lookup_insert_eq. }
  assert (∀ l o, heap s1 !! l = Some o → l < next_loc s1) as Hb1.
  { intros l o. unfold s1. cbn [heap next_loc].
    rewrite !lookup_insert_Some. intros [[<- _]|[_ [[<- _]|[_ [[<- _]|[_ [[<- _]|[_ Hl]]]]]]]];
      try lia. pose proof (wf_bounded _ _ _ Hwf Hl). lia. }
  destruct (getPagedCollection_new s1 p fs1 ps2 pg2 c2 s2 Hb1 Hp1 Hrun2 Hnew2)
    as (key2 & -> & Hproto2 & ->).
  change (next_loc s1) with (S (S n)) in *.
  set (fs2 := obj_assign fs1 [("page", default_page pg2);
                              ("page_size", default_pageSize ps2)]) in *.
  set (co2 := Collection (VRef p) [] ∅ false (default_page pg2) (default_pageSize ps2) VUndef).
  assert (NoDup (obj_keys fs2)) as Hnd2 by (by do 2 apply NoDup_obj_assign).
  assert (NoDup (obj_keys [("page", default_page pg2);
                           ("page_size", default_pageSize ps2)])) as Hndp.
  { apply (bool_decide_unpack _). vm_compute. exact I. }
  assert (obj_get "page" fs2 = Some (default_page pg2)) as Hpage.
  { unfold fs2. by rewrite obj_get_assign_NoDup. }
  assert (obj_get "page_size" fs2 = Some (default_pageSize ps2)) as Hsize.
  { unfold fs2. by rewrite obj_get_assign_NoDup. }
  match goal with
  | |- context [Collection_fetch_params _ _ ?S2] => set (s2 := S2)
  end.
  assert (heap s2 !! S n = Some (OColl co1)) as Hc1.
  { unfold s2, s1. cbn [heap]. rewrite !lookup_insert_ne by lia. apply lookup_insert_eq. }
  assert (heap s2 !! p = Some (OPlain fs2)) as Hp2.
  { unfold s2. cbn [heap]. rewrite !lookup_insert_ne by lia. apply lookup_insert_eq. }
  exists co1, co2, fs2. split; [lia|]. split; [done|].
  split; [unfold s2; cbn [heap]; apply lookup_insert_eq|].
  do 7 (split; [done|]).
  set (n2 := S (S (S (S n)))).
  set (s3 := (alloc (OPlain []) s2).2).
  set (s4 := (alloc (OPlain []) s3).2).
  set (s5 := set_heap (<[S n2 := OPlain (obj_assign [] fs2)]> (heap s4)) s4).
  set (s6 := set_heap (<[S n2 := OPlain (obj_assign (obj_assign [] fs2) [])]> (heap s5)) s5).
  assert (heap s3 !! S n = Some (OColl co1)) as Hc3.
  { unfold s3. cbn [alloc heap snd]. change (next_loc s2) with n2.
    rewrite lookup_insert_ne by (unfold n2; lia). exact Hc1. }
  assert (heap s4 !! S n2 = Some (OPlain [])) as Hn4 by apply lookup_insert_eq.
  assert (heap s4 !! p = Some (OPlain fs2)) as Hp4.
  { unfold s4, s3. cbn [alloc heap snd next_loc]. change (next_loc s2) with n2.
    rewrite !lookup_insert_ne by (unfold n2; lia). exact Hp2. }
  assert (heap s5 !! S n2 = Some (OPlain (obj_assign [] fs2))) as Hn5 by apply lookup_insert_eq.
  assert (heap s5 !! n2 = Some (OPlain [])) as Hx5.
  { unfold s5, s4, s3. cbn [alloc heap snd next_loc set_heap]. change (next_loc s2) with n2.
    rewrite !lookup_insert_ne by lia. apply lookup_insert_eq. }
  exists (S n2), s6, (obj_assign (obj_assign [] fs2) []). split.
  { unfold Collection_fetch_params. cbn [default_object].
    rewrite (bind_Ret _ _ s2 (VRef n2) s3) by reflexivity.
    rewrite (bind_Ret _ _ _ _ _ (read_coll_Ret _ _ _ Hc3)).
    rewrite (bind_Ret _ _ s3 (S n2) s4) by reflexivity. cbn [c_params co1].
    rewrite (bind_Ret _ _ _ _ _ (Object_assign_plain s4 (S n2) p _ _ Hn4 Hp4 Hproto2)).
    rewrite (bind_Ret _ _ _ _ _ (Object_assign_plain s5 (S n2) n2 _ _ Hn5 Hx5
                                   (not_elem_of_nil _))).
    reflexivity. }
  split; [apply lookup_insert_eq|].
  cbn [obj_assign fold_left]. rewrite obj_get_assign_NoDup by done. by rewrite Hpage.
Qed.

Lemma paged_params_shared_witness :
  ∃ c1 s1 c2 s2 co1 pfs,
    getPagedCollection (VRef 0) VUndef (VNum 1) store_two_params = (Ret c1, s1)
    ∧ getPagedCollection (VRef 0) VUndef (VNum 2) s1 = (Ret c2, s2)
    ∧ c1 ≠ c2
    ∧ heap s2 !! c1 = Some (OColl co1)
    ∧ c_params co1 = VRef 0 ∧ c_page co1 = VNum 1
    ∧ heap s2 !! 0 = Some (OPlain pfs)
    ∧ obj_get "page" pfs = Some (VNum 2).
Proof.
  assert (wf_store store_two_params) as Hwf
      by (apply (bool_decide_unpack _); vm_compute; exact I).
  destruct (getPagedCollection (VRef 0) VUndef (VNum 1) store_two_params)
    as [r1 s1] eqn:Hrun1.
  assert (r1 = Ret 3) as -> by (vm_compute in Hrun1; congruence).
  destruct (getPagedCollection (VRef 0) VUndef (VNum 2) s1) as [r2 s2] eqn:Hrun2.
  assert (r2 = Ret 5 ∧ heap s1 !! 5 = None) as [-> Hnew2].
  { vm_compute in Hrun1. injection Hrun1 as <-. vm_compute in Hrun2.
    injection Hrun2 as <- _. split; reflexivity. }
  destruct (paged_params_shared store_two_params 0 [] VUndef (VNum 1) VUndef (VNum 2)
              3 5 s1 s2 Hwf eq_refl Hrun1 eq_refl Hrun2 Hnew2)
    as (co1 & co2 & pfs & Hne & Hc1 & _ & Hpar & _ & Hpg & _ & Hp & Hpage & _).
  exists 3, s1, 5, s2, co1, pfs. split; [reflexivity|]. split; [exact Hrun2|].
  split; [exact Hne|]. split; [exact Hc1|]. split; [exact Hpar|]. split; [exact Hpg|].
  split; [exact Hp|exact Hpage].
Defined.

(** ** ResourceManager *)

Lemma clearCaches_instances (mg : manager) (r : nat) :
  ((∃ name, mg_resources mg !! name = Some r)
   ∧ mg_instances (clearCaches mg) !! r = rs_clearCache <$> mg_instances mg !! r)
  ∨ ((∀ name, mg_resources mg !! name ≠ Some r)
     ∧ mg_instances (clearCaches mg) !! r = mg_instances mg !! r).
Proof.
  unfold clearCaches. cbn [mg_instances].
  apply (map_fold_weak_ind
           (λ insts res,
              ((∃ name, res !! name = Some r)
               ∧ insts !! r = rs_clearCache <$> mg_instances mg !! r)
              ∨ ((∀ name, res !! name ≠ Some r) ∧ insts !! r = mg_instances mg !! r))).
  - right. split; [|done]. intros name. by rewrite lookup_empty.
  - intros name r0 res insts Hname IH.
    destruct (decide (r0 = r)) as [->|Hne].
    + left. split; [exists name; by rewrite lookup_insert_eq|].
      rewrite lookup_alter_eq. destruct IH as [[_ ->]|[_ ->]]; [|done].
      by destruct (mg_instances mg !! r).
    + rewrite lookup_alter_ne by done. destruct IH as [[(n0 & H) E]|[H E]].
      * left. split; [|done]. exists n0. rewrite lookup_insert_ne; [done|].
        intros ->. congruence.
      * right. split; [|done]. intros n0 [[_ ?]|[_ ?]]%lookup_insert_Some; [done|].
        by apply (H n0).
Qed.

Lemma elem_of_bool_decide_false (x : string) (l : list string) :
  x ∉ l → bool_decide (x ∈ l) = false.
Proof. apply bool_decide_eq_false_2. Qed.

(** X14. A first registration: with a class name and a resource name that
    are not in use, [registerResource] makes a new instance with empty
    caches, keeps it under the resource name, defines the property of the
    class name and returns the instance; the other instances are not
    touched. From then on the resource name is taken: a call for a class
    with that name, under whatever class name, throws and changes
    nothing. *)
Theorem registerResource_registers (mg : manager) (className name : value)
    (rc : resource_class) :
  mg_wf mg →
  truthy className = true →
  rc_resourceName rc = Some name → truthy name = true →
  prop_key name ∉ inherited_names →
  prop_key className ∉ manager_names →
  mg_resources mg !! prop_key name = None →
  mg_props mg !! prop_key className = None →
  ∃ r mg',
    registerResource className (Some rc) mg = (MgOk r, mg')
    ∧ mg_wf mg'
    ∧ mg_instances mg !! r = None
    ∧ mg_instances mg' = <[r := ResourceState ∅ ∅]> (mg_instances mg)
    ∧ mg_resources mg' = <[prop_key name := r]> (mg_resources mg)
    ∧ mg_props mg' = <[prop_key className := r]> (mg_props mg)
    ∧ ∀ className' rc' name',
        truthy className' = true →
        rc_resourceName rc' = Some name' → truthy name' = true →
        prop_key name' = prop_key name →
        registerResource className' (Some rc') mg' = (MgError AlreadyRegistered, mg').
Proof.
  intros (Hres & Hprops & Hinst) Hcn Hrc Hname Hinh Hmn Hfree Hpfree.
  assert (mg_instances mg !! mg_next mg = None) as Hnew.
  { destruct (mg_instances mg !! mg_next mg) as [st|] eqn:E; [|done].
    apply Hinst in E. simpl in E. lia. }
  eexists _, _. split.
  { unfold registerResource. rewrite Hcn, Hrc, Hname. cbn [negb].
    rewrite (elem_of_bool_decide_false _ _ Hinh), Hfree.
    rewrite (elem_of_bool_decide_false _ _ Hmn), Hpfree. reflexivity. }
  cbn [mg_resources mg_props mg_instances mg_next].
  split.
  { split; [|split]; cbn [mg_resources mg_props mg_instances mg_next].
    - apply map_Forall_insert_2.
      + split; [lia|]. rewrite lookup_insert_eq. by eexists.
      + eapply map_Forall_impl; [exact Hres|]. intros k r [Hr [st Hst]]. split; [lia|].
        exists st. rewrite lookup_insert_ne; [done|]. lia.
    - apply map_Forall_insert_2; [lia|].
      eapply map_Forall_impl; [exact Hprops|]. intros k r Hr. simpl in *. lia.
    - apply map_Forall_insert_2; [lia|].
      eapply map_Forall_impl; [exact Hinst|]. intros k r Hr. simpl in *. lia. }
  split; [done|]. split; [done|]. split; [done|]. split; [done|].
  intros className' rc' name' Hcn' Hrc' Hname' Hkey.
  unfold registerResource. rewrite Hcn', Hrc', Hname'. cbn [negb]. rewrite Hkey, (elem_of_bool_decide_false _ _ Hinh).
  cbn [mg_resources]. by rewrite lookup_insert_eq.
Qed.

Lemma registerResource_registers_witness :
  ∃ r mg',
    registerResource (VStr "ContentNodeResource")
      (Some (ResourceClass (Some (VStr "contentnode")))) new_manager = (MgOk r, mg')
    ∧ mg_resources mg' !! "contentnode" = Some r
    ∧ mg_props mg' !! "ContentNodeResource" = Some r
    ∧ registerResource (VStr "Other") (Some (ResourceClass (Some (VStr "contentnode")))) mg'
      = (MgError AlreadyRegistered, mg').
Proof.
  assert (mg_wf new_manager) as Hwf by (split; [|split]; apply map_Forall_empty).
  destruct (registerResource_registers new_manager (VStr "ContentNodeResource")
              (VStr "contentnode") (ResourceClass (Some (VStr "contentnode")))
              Hwf eq_refl eq_refl eq_refl
              ltac:(apply (bool_decide_eq_false_1 _); reflexivity)
              ltac:(apply (bool_decide_eq_false_1 _); reflexivity) eq_refl eq_refl)
    as (r & mg' & Hrun & _ & _ & _ & Hres & Hprops & Hagain).
  exists r, mg'. split; [exact Hrun|].
  split; [rewrite Hres; apply lookup_insert_eq|].
  split; [rewrite Hprops; apply lookup_insert_eq|].
  exact (Hagain (VStr "Other") (ResourceClass (Some (VStr "contentnode")))
           (VStr "contentnode") eq_refl eq_refl eq_refl eq_refl).
Defined.

(** X15. [registerResource] that throws has changed nothing, with one
    exception: when the resource name is free but the class name has been
    given to an instance before, the new instance is already kept under its
    resource name when [Object.defineProperty] throws. The resource name is
    then taken, although no property leads to the instance. *)
Theorem registerResource_failure (mg : manager) (className : value)
    (ResourceClass : option resource_class) (e : mg_error) (mg' : manager) :
  registerResource className ResourceClass mg = (MgError e, mg') →
  if decide (e = PropertyDefined) then
    ∃ rc name,
      ResourceClass = Some rc ∧ rc_resourceName rc = Some name
      ∧ is_Some (mg_props mg !! prop_key className)
      ∧ mg_resources mg !! prop_key name = None
      ∧ mg_resources mg' = <[prop_key name := mg_next mg]> (mg_resources mg)
      ∧ mg_instances mg' = <[mg_next mg := ResourceState ∅ ∅]> (mg_instances mg)
      ∧ mg_props mg' = mg_props mg
      ∧ ∀ className', truthy className' = true →
          registerResource className' ResourceClass mg' = (MgError AlreadyRegistered, mg')
  else mg' = mg.
Proof.
  intros Hrun. unfold registerResource in Hrun.
  destruct (truthy className) eqn:Hcn; cbn [negb] in Hrun.
  2:{ injection Hrun as <- <-. by rewrite decide_False. }
  destruct ResourceClass as [rc|].
  2:{ injection Hrun as <- <-. by rewrite decide_False. }
  destruct (rc_resourceName rc) as [name|] eqn:Hrc.
  2:{ injection Hrun as <- <-. by rewrite decide_False. }
  destruct (truthy name) eqn:Hname; cbn [negb] in Hrun.
  2:{ injection Hrun as <- <-. by rewrite decide_False. }
  destruct (bool_decide (prop_key name ∈ inherited_names)) eqn:Hinh; [done|].
  destruct (mg_resources mg !! prop_key name) as [r0|] eqn:Hfree.
  { injection Hrun as <- <-. by rewrite decide_False. }
  destruct (bool_decide (prop_key className ∈ manager_names)); [done|].
  destruct (mg_props mg !! prop_key className) as [r1|] eqn:Hp; [|done].
  injection Hrun as <- <-. rewrite decide_True by done.
  exists rc, name. split; [done|]. split; [done|]. split; [by eexists|].
  split; [done|]. split; [done|]. split; [done|]. split; [done|].
  intros className' Hcn'. unfold registerResource.
  rewrite Hcn', Hrc, Hname. cbn [negb]. rewrite Hinh.
  cbn [mg_resources]. by rewrite lookup_insert_eq.
Qed.

Lemma registerResource_failure_witness :
  ∃ mg1 mg2,
    registerResource (VStr "Res") (Some (ResourceClass (Some (VStr "a")))) new_manager
    = (MgOk 0, mg1)
    ∧ registerResource (VStr "Res") (Some (ResourceClass (Some (VStr "b")))) mg1
      = (MgError PropertyDefined, mg2)
    ∧ mg_resources mg2 !! "b" = Some 1
    ∧ registerResource (VStr "Res2") (Some (ResourceClass (Some (VStr "b")))) mg2
      = (MgError AlreadyRegistered, mg2).
Proof.
  eexists _, _. split; [reflexivity|].
  match goal with
  | |- registerResource ?cn ?rc ?MG1 = (_, ?MG2) ∧ _ =>
      pose proof (registerResource_failure MG1 cn rc PropertyDefined _ eq_refl) as H
  end.
  cbn [decide decide_rel] in H. rewrite decide_True in H by done.
  destruct H as (rc & name & Hrc & Hname & _ & _ & Hres & _ & _ & Hagain).
  split; [reflexivity|]. split; [reflexivity|].
  exact (Hagain (VStr "Res2") eq_refl).
Defined.

(** X16. [clearCaches()] empties the two caches of every instance kept
    under a resource name, and leaves the names, the properties and every
    other instance as they are. *)
Theorem clearCaches_clears (mg : manager) :
  mg_wf mg →
  mg_resources (clearCaches mg) = mg_resources mg
  ∧ mg_props (clearCaches mg) = mg_props mg
  ∧ mg_wf (clearCaches mg)
  ∧ (∀ name r, mg_resources mg !! name = Some r →
               mg_instances (clearCaches mg) !! r = Some (ResourceState ∅ ∅))
  ∧ (∀ r, (∀ name, mg_resources mg !! name ≠ Some r) →
          mg_instances (clearCaches mg) !! r = mg_instances mg !! r).
Proof.
  intros (Hres & Hprops & Hinst). split; [done|]. split; [done|].
  assert (∀ r, is_Some (mg_instances (clearCaches mg) !! r)
               ↔ is_Some (mg_instances mg !! r)) as Hsame.
  { intros r. destruct (clearCaches_instances mg r) as [[_ ->]|[_ ->]]; [|done].
    by rewrite fmap_is_Some. }
  split.
  { split; [|split]; cbn [mg_resources mg_props clearCaches mg_next].
    - intros k r Hk. destruct (Hres k r Hk) as [Hlt Hsome]. split; [done|].
      by apply Hsame.
    - done.
    - intros r st Hr. assert (is_Some (mg_instances mg !! r)) as [st0 Hst0].
      { apply Hsame. by eexists. }
      exact (Hinst r st0 Hst0). }
  split.
  - intros name r Hname. destruct (Hres name r Hname) as [_ [st Hst]].
    destruct (clearCaches_instances mg r) as [[_ ->]|[Hno _]].
    + by rewrite Hst.
    + by destruct (Hno name).
  - intros r Hno. destruct (clearCaches_instances mg r) as [[(name & H) _]|[_ ->]]; [|done].
    by destruct (Hno name).
Qed.

Lemma clearCaches_clears_witness :
  mg_instances (clearCaches manager_one) !! 0 = Some (ResourceState ∅ ∅).
Proof.
  assert (mg_wf manager_one) as Hwf by (apply (bool_decide_unpack _); vm_compute; exact I).
  exact (proj1 (proj2 (proj2 (proj2 (clearCaches_clears manager_one Hwf)))) "a" 0 eq_refl).
Defined.

(** ** [getCookie] *)

Lemma split_on_no_sep (sep : N) (a : ustring) :
  sep ∉ a → split_on sep a = [a].
Proof.
  induction a as [|c a IH]; intros Hno; [done|].
  apply not_elem_of_cons in Hno as [Hc Ha]. simpl.
  destruct (N.eqb_spec c sep) as [->|_]; [done|]. by rewrite IH.
Qed.

Lemma split_on_app (sep : N) (a rest : ustring) :
  sep ∉ a → split_on sep (a ++ sep :: rest) = a :: split_on sep rest.
Proof.
  induction a as [|c a IH]; intros Hno; simpl.
  - by rewrite N.eqb_refl.
  - apply not_elem_of_cons in Hno as [Hc Ha].
    destruct (N.eqb_spec c sep) as [->|_]; [done|]. by rewrite IH.
Qed.

Lemma trim_start_white (pre x : ustring) :
  Forall (λ c, is_white c = true) pre → trim_start (pre ++ x) = trim_start x.
Proof. induction 1 as [|c pre Hc _ IH]; [done|]. simpl. by rewrite Hc. Qed.

Lemma trim_start_id (x : ustring) :
  Forall (λ c, is_white c = false) x → trim_start x = x.
Proof. destruct 1 as [|c x Hc _]; [done|]. simpl. by rewrite Hc. Qed.

Lemma trim_padded (pre x : ustring) :
  Forall (λ c, is_white c = true) pre →
  Forall (λ c, is_white c = false) x →
  trim (pre ++ x) = x.
Proof.
  intros Hpre Hx. unfold trim.
  rewrite (trim_start_white pre x Hpre), (trim_start_id x Hx).
  rewrite (trim_start_id (reverse x)); [apply reverse_involutive|].
  by apply Forall_reverse.
Qed.

Lemma name_prefix (name : ustring) : ∀ n v : ustring,
  equals_sign ∉ name → equals_sign ∉ n →
  take (length name + 1) (n ++ equals_sign :: v) = name ++ [equals_sign] ↔ n = name.
Proof.
  induction name as [|c name IH]; intros n v Hname Hn.
  - destruct n as [|d n]; simpl; [done|]. split; [|done].
    rewrite take_0. intros [= ->]. apply not_elem_of_cons in Hn as [? _]. done.
  - apply not_elem_of_cons in Hname as [Hc Hname].
    destruct n as [|d n]; simpl.
    + split; [|done]. intros [= <- _]. done.
    + apply not_elem_of_cons in Hn as [Hd Hn]. split.
      * intros [= -> H]. f_equal. by apply (IH n v).
      * intros [= -> ->]. f_equal. by apply (IH name v).
Qed.

Lemma drop_name (n v : ustring) : drop (length n + 1) (n ++ equals_sign :: v) = v.
Proof.
  rewrite <- drop_drop, drop_app_length. done.
Qed.

Lemma pair_not_white (p : ustring * ustring) :
  name_ok p.1 → value_ok p.2 → Forall (λ c, is_white c = false) (cookie_pair p).
Proof.
  intros Hn Hv. unfold cookie_pair. apply Forall_app. split.
  - eapply Forall_impl; [exact Hn|]. by intros c (? & _).
  - constructor; [done|]. eapply Forall_impl; [exact Hv|]. by intros c (? & _).
Qed.

Lemma pair_no_semicolon (p : ustring * ustring) :
  name_ok p.1 → value_ok p.2 → semicolon ∉ cookie_pair p.
Proof.
  unfold name_ok, value_ok. intros Hn Hv.
  unfold cookie_pair. rewrite elem_of_app, elem_of_cons.
  intros [H|[H|H]].
  - rewrite Forall_forall in Hn. by destruct (Hn _ H) as (_ & ? & _).
  - done.
  - rewrite Forall_forall in Hv. by destruct (Hv _ H) as (_ & ?).
Qed.

Lemma name_no_equals (n : ustring) : name_ok n → equals_sign ∉ n.
Proof.
  unfold name_ok. intros Hn H. rewrite Forall_forall in Hn.
  by destruct (Hn _ H) as (_ & _ & ?).
Qed.

(** One round of the loop on a cookie of the jar, with white space before
    it. *)
Lemma find_cookie_pair (decode : ustring → option ustring) (name pre : ustring)
    (p : ustring * ustring) (rest : list ustring) :
  name_ok name → name_ok p.1 → value_ok p.2 →
  Forall (λ c, is_white c = true) pre →
  find_cookie decode name ((pre ++ cookie_pair p) :: rest)
  = if decide (p.1 = name)
    then match decode p.2 with Some v => CookieValue v | None => CookieThrows end
    else find_cookie decode name rest.
Proof.
  intros Hname Hn Hv Hpre. cbn [find_cookie].
  rewrite (trim_padded pre _ Hpre (pair_not_white p Hn Hv)).
  unfold cookie_pair.
  pose proof (name_prefix name p.1 p.2 (name_no_equals _ Hname) (name_no_equals _ Hn)) as Hpre'.
  destruct (decide (p.1 = name)) as [E|E].
  - rewrite bool_decide_true by (by apply Hpre'). rewrite <- E. by rewrite drop_name.
  - rewrite bool_decide_false; [done|]. intros H. by apply Hpre' in H.
Qed.

Lemma find_cookie_jar (decode : ustring → option ustring) (name : ustring)
    (jar : list (ustring * ustring)) : ∀ pre,
  name_ok name →
  Forall (λ p, name_ok p.1 ∧ value_ok p.2) jar → jar ≠ [] →
  Forall (λ c, is_white c = true) pre → semicolon ∉ pre →
  find_cookie decode name (split_on semicolon (pre ++ cookie_string jar))
  = match jar_lookup name jar with
    | Some v => match decode v with Some x => CookieValue x | None => CookieThrows end
    | None => CookieNull
    end.
Proof.
  induction jar as [|p jar IH]; intros pre Hname Hjar Hne Hpre Hsemi; [done|].
  apply Forall_cons in Hjar as [[Hn Hv] Hjar].
  assert (semicolon ∉ pre ++ cookie_pair p) as Hno.
  { rewrite elem_of_app. intros [?|?]; [done|]. by apply (pair_no_semicolon p). }
  destruct p as [n v]. cbn [jar_lookup]. destruct jar as [|q jar].
  - cbn [cookie_string]. rewrite (split_on_no_sep _ _ Hno).
    etransitivity; [exact (find_cookie_pair decode name pre (n, v) [] Hname Hn Hv Hpre)|].
    cbn [fst snd find_cookie]. by destruct (decide (n = name)).
  - cbn [cookie_string]. rewrite (assoc_L (++)). cbn [app].
    rewrite (split_on_app _ _ _ Hno).
    etransitivity; [exact (find_cookie_pair decode name pre (n, v) _ Hname Hn Hv Hpre)|].
    cbn [fst snd]. destruct (decide (n = name)); [done|].
    apply (IH [32%N]); try done.
    + repeat constructor.
    + by intros [?|?%elem_of_nil]%elem_of_cons.
Qed.

(** X17. For a [document.cookie] of the form [name=value; name=value],
    where names and values have no white space and no [;] and names no [=]:
    [getCookie(name)] is [decodeURIComponent] of the value of the first
    cookie with exactly this name (throwing when that throws), and [null]
    when there is none. *)
Theorem getCookie_jar (decodeURIComponent : ustring → option ustring)
    (jar : list (ustring * ustring)) (name : ustring) :
  name_ok name →
  Forall (λ p, name_ok p.1 ∧ value_ok p.2) jar →
  getCookie decodeURIComponent (cookie_string jar) name
  = match jar_lookup name jar with
    | Some v => match decodeURIComponent v with
                | Some x => CookieValue x
                | None => CookieThrows
                end
    | None => CookieNull
    end.
Proof.
  intros Hname Hjar. destruct jar as [|p jar]; [done|].
  unfold getCookie.
  assert (cookie_string (p :: jar) ≠ []) as Hne.
  { destruct p as [n v], jar; cbn [cookie_string cookie_pair fst snd];
      by destruct n. }
  destruct (cookie_string (p :: jar)) as [|c cs] eqn:E; [done|]. rewrite <- E.
  apply (find_cookie_jar decodeURIComponent name (p :: jar) []); try done.
  apply not_elem_of_nil.
Qed.

Lemma getCookie_jar_witness :
  getCookie Some
    (cookie_string [(ustr "sessionid", ustr "abc"); (ustr "csrftoken", ustr "tok")])
    (ustr "csrftoken")
  = CookieValue (ustr "tok").
Proof.
  refine (getCookie_jar Some
            [(ustr "sessionid", ustr "abc"); (ustr "csrftoken", ustr "tok")]
            (ustr "csrftoken") _ _);
    apply (bool_decide_unpack _); vm_compute; exact I.
Defined.
